(** * Course advisor: extraction and recommendation engine

    A shallow embedding of [CourseAdvisorSystem] (curriculum line
    classifier and extractor, grade evaluator, prerequisite check,
    semester estimate, recommendation buckets, priority, progress
    report) together with the properties of the specification that
    concern them.

    The class embedded is the one the routes load; its earlier copy in
    the repository has the same line classifier, course patterns, grade
    evaluator, prerequisite check, semester estimate and progress report.

    Conventions of the embedding.
    - A JavaScript number is a [jsnum]: [NaN], a signed infinity or a
      rational.  [Binary64.round64] takes a real to the nearest binary64
      number, or to an infinity; [parseInt], [parseFloat], the sums of
      credits and the quotients of the semester estimate and of the
      completion percentage are rounded with it ([+~], [*~], [/~]); a
      rational operand that is no binary64 number stands for the
      nearest one.
      The priority score and the offsets of the estimate ([+ 1],
      [+ 2], [- 2]) are written with the exact [+] and [-], which
      agree with binary64 on whole numbers below [2^53] in magnitude.
      The sign of zero is outside the model.
    - A JavaScript string is a [string] of 8-bit code units; code units
      above 255 are outside the model.
    - [null]/[undefined] are [None].
    - A [Map] is an association list in insertion order, a [Set] a list.
    - A thrown exception is the [Throw] outcome of a [result]. *)

From Stdlib Require Import List String Ascii Bool Arith ZArith QArith Qround Qabs Qpower.
From Stdlib Require Import Lia Permutation Sorted.
From Stdlib Require DecimalString Decimal Qcanon.
Import ListNotations.

Set Implicit Arguments.
Local Open Scope nat_scope.
Local Open Scope string_scope.

(* ================================================================== *)
(** ** JavaScript numbers *)
(* ================================================================== *)

Module JsNum.

Inductive jsnum : Type :=
| NaN
| Inf (negative : bool)
| Fin (q : Q).

(** Finite results are kept in lowest terms, so that equal numbers are
    equal terms. *)
Definition fin (q : Q) : jsnum := Fin (Qred q).

Definition of_Z (z : Z) : jsnum := Fin (inject_Z z).
Definition of_nat (n : nat) : jsnum := of_Z (Z.of_nat n).

Definition Qlt_bool (p q : Q) : bool := negb (Qle_bool q p).
Definition Qis_zero (q : Q) : bool := Qeq_bool q 0.

(** [a + b], with no rounding of a finite sum *)
Definition add (a b : jsnum) : jsnum :=
  match a, b with
  | NaN, _ | _, NaN => NaN
  | Inf s, Inf t => if Bool.eqb s t then Inf s else NaN
  | Inf s, Fin _ => Inf s
  | Fin _, Inf t => Inf t
  | Fin p, Fin q => fin (p + q)
  end.

(** [- a] *)
Definition neg (a : jsnum) : jsnum :=
  match a with
  | NaN => NaN
  | Inf s => Inf (negb s)
  | Fin p => fin (- p)
  end.

(** [a - b] *)
Definition sub (a b : jsnum) : jsnum := add a (neg b).

(** [a * b], with no rounding of a finite product *)
Definition mul (a b : jsnum) : jsnum :=
  match a, b with
  | NaN, _ | _, NaN => NaN
  | Inf s, Inf t => Inf (xorb s t)
  | Inf s, Fin q => if Qis_zero q then NaN else Inf (xorb s (Qlt_bool q 0))
  | Fin p, Inf t => if Qis_zero p then NaN else Inf (xorb (Qlt_bool p 0) t)
  | Fin p, Fin q => fin (p * q)
  end.

(** [a / b], with no rounding of a finite quotient: division by zero
    does not throw, it yields [NaN] for [0 / 0] and an infinity
    otherwise. *)
Definition div (a b : jsnum) : jsnum :=
  match a, b with
  | NaN, _ | _, NaN => NaN
  | Inf _, Inf _ => NaN
  | Inf s, Fin q => Inf (xorb s (Qlt_bool q 0))
  | Fin _, Inf _ => fin 0
  | Fin p, Fin q =>
      if Qis_zero q
      then (if Qis_zero p then NaN else Inf (Qlt_bool p 0))
      else fin (p / q)
  end.

(** [Math.floor] *)
Definition floor (a : jsnum) : jsnum :=
  match a with
  | Fin p => of_Z (Qfloor p)
  | _ => a
  end.

(** [Math.round]: the nearest integer, halves going up. *)
Definition round (a : jsnum) : jsnum :=
  match a with
  | Fin p => of_Z (Qfloor (p + (1 # 2)))
  | _ => a
  end.

(** [a === b] on numbers *)
Definition strict_eq (a b : jsnum) : bool :=
  match a, b with
  | Fin p, Fin q => Qeq_bool p q
  | Inf s, Inf t => Bool.eqb s t
  | _, _ => false
  end.

(** [a < b] *)
Definition lt (a b : jsnum) : bool :=
  match a, b with
  | NaN, _ | _, NaN => false
  | Inf s, Inf t => s && negb t
  | Inf s, Fin _ => s
  | Fin _, Inf t => negb t
  | Fin p, Fin q => Qlt_bool p q
  end.

(** [a <= b] *)
Definition le (a b : jsnum) : bool := lt a b || strict_eq a b.
(** [a > b] *)
Definition gt (a b : jsnum) : bool := lt b a.
(** [a >= b] *)
Definition ge (a b : jsnum) : bool := le b a.

(** ToBoolean on a number: [NaN] and [0] are falsy. *)
Definition truthy (a : jsnum) : bool :=
  match a with
  | NaN => false
  | Inf _ => true
  | Fin q => negb (Qis_zero q)
  end.

End JsNum.
Export JsNum.

(* ================================================================== *)
(** ** Binary64 rounding *)
(* ================================================================== *)

Module Binary64.
Import JsNum.
Local Open Scope Q_scope.

(** [2^e], also for a negative [e]. *)
Definition pow2 (e : Z) : Q := 2 ^ e.

(** The exponent [k] with [2^k <= q < 2^(k+1)], for a positive [q]. *)
Definition ilog2 (q : Q) : Z :=
  let k := (Z.log2 (Qnum q) - Z.log2 (Zpos (Qden q)))%Z in
  if Qle_bool (pow2 k) q then k else (k - 1)%Z.

(** The nearest integer; half-way between two, the even one. *)
Definition nearest_even (q : Q) : Z :=
  let f := Qfloor q in
  match Qcompare (q - inject_Z f) (1 # 2) with
  | Lt => f
  | Gt => (f + 1)%Z
  | Eq => if Z.even f then f else (f + 1)%Z
  end.

(** The exponent of the last place of the binary64 numbers around a
    positive [q]: 53 significant bits, and no exponent below -1074. *)
Definition ulp_exponent (q : Q) : Z := Z.max (ilog2 q - 52) (-1074).

(** The Number value for a real: the binary64 number nearest to it, a
    tie going to the even significand; a result of magnitude [2^1024]
    or more is an infinity. *)
Definition round64 (q : Q) : jsnum :=
  let q := Qred q in
  if Qis_zero q then Fin 0
  else
    let a := Qabs q in
    let e := ulp_exponent a in
    let v := inject_Z (nearest_even (a / pow2 e)) * pow2 e in
    if Qle_bool (pow2 1024) v then Inf (Qlt_bool q 0)
    else fin (if Qlt_bool q 0 then - v else v).

(** The Number value for a [jsnum]. *)
Definition rounded (a : jsnum) : jsnum :=
  match a with
  | Fin q => round64 q
  | _ => a
  end.

(** [a + b], [a * b] and [a / b]: the exact result on the Number values
    of the operands, rounded. *)
Definition add (a b : jsnum) : jsnum := rounded (JsNum.add (rounded a) (rounded b)).
Definition mul (a b : jsnum) : jsnum := rounded (JsNum.mul (rounded a) (rounded b)).
Definition div (a b : jsnum) : jsnum := rounded (JsNum.div (rounded a) (rounded b)).

End Binary64.

Declare Scope js_scope.
Delimit Scope js_scope with js.
Notation "a + b" := (JsNum.add a b) : js_scope.
Notation "a - b" := (JsNum.sub a b) : js_scope.
Notation "a * b" := (JsNum.mul a b) : js_scope.
Notation "a / b" := (JsNum.div a b) : js_scope.
Notation "a === b" := (JsNum.strict_eq a b) (at level 70, no associativity) : js_scope.
Notation "a <? b" := (JsNum.lt a b) : js_scope.
Notation "a <=? b" := (JsNum.le a b) : js_scope.
Notation "a >? b" := (JsNum.gt a b) : js_scope.
Notation "a >=? b" := (JsNum.ge a b) : js_scope.
Notation "# z" := (JsNum.of_Z z) (at level 9, format "# z") : js_scope.
Notation "a +~ b" := (Binary64.add a b) (at level 50, left associativity) : js_scope.
Notation "a *~ b" := (Binary64.mul a b) (at level 40, left associativity) : js_scope.
Notation "a /~ b" := (Binary64.div a b) (at level 40, left associativity) : js_scope.

(* ================================================================== *)
(** ** JavaScript strings *)
(* ================================================================== *)

Module JsStr.

Definition chars := list ascii.

Definition code_of (c : ascii) : nat := nat_of_ascii c.

Definition in_range (lo hi : nat) (c : ascii) : bool :=
  (lo <=? code_of c)%nat && (code_of c <=? hi)%nat.

(** [\d] *)
Definition is_digit (c : ascii) : bool := in_range 48 57 c.
(** [[A-Z]] *)
Definition is_upper (c : ascii) : bool := in_range 65 90 c.
(** [[a-z]] *)
Definition is_lower (c : ascii) : bool := in_range 97 122 c.

(** WhiteSpace and LineTerminator code units below 256: TAB, LF, VT, FF,
    CR, SP, NBSP.  This is the class of [\s] and of [trim]. *)
Definition is_space (c : ascii) : bool :=
  let n := code_of c in
  in_range 9 13 c || (n =? 32)%nat || (n =? 160)%nat.

(** LineTerminator code units below 256: what [.] does not match. *)
Definition is_line_terminator (c : ascii) : bool :=
  let n := code_of c in (n =? 10)%nat || (n =? 13)%nat.

(** Canonicalisation used by the [i] flag: ASCII lower case letters go
    to upper case; no other code unit below 256 folds to an ASCII
    letter. *)
Definition to_upper (c : ascii) : ascii :=
  if is_lower c then ascii_of_nat (code_of c - 32) else c.

Definition eqb_ci (a b : ascii) : bool := Ascii.eqb (to_upper a) (to_upper b).

Fixpoint drop_while (p : ascii -> bool) (l : chars) : chars :=
  match l with
  | c :: l' => if p c then drop_while p l' else l
  | [] => []
  end.

(** [s.trim()] *)
Definition trim_chars (l : chars) : chars :=
  List.rev (drop_while is_space (List.rev (drop_while is_space l))).

Definition trim (s : string) : string :=
  string_of_list_ascii (trim_chars (list_ascii_of_string s)).

(** [s.split(sep)] for a one-character separator: never empty. *)
Fixpoint split_chars (sep : ascii) (l : chars) : list chars :=
  match l with
  | [] => [[]]
  | c :: l' =>
      if Ascii.eqb c sep then [] :: split_chars sep l'
      else match split_chars sep l' with
           | w :: ws => (c :: w) :: ws
           | [] => [[c]]
           end
  end.

Definition split (sep : ascii) (s : string) : list string :=
  map string_of_list_ascii (split_chars sep (list_ascii_of_string s)).

(** [s.includes(needle)] *)
Fixpoint includes (needle s : string) : bool :=
  String.prefix needle s ||
  match s with
  | EmptyString => false
  | String _ s' => includes needle s'
  end.

(** [array.includes(x)] on an array of strings *)
Definition array_includes (l : list string) (x : string) : bool :=
  existsb (String.eqb x) l.

(** Decimal value of a run of digits, most significant first. *)
Definition digit_value (c : ascii) : Z := Z.of_nat (code_of c - 48).

Definition digits_value (l : chars) : Z :=
  fold_left (fun acc c => (10 * acc + digit_value c)%Z) l 0%Z.

Fixpoint take_while (p : ascii -> bool) (l : chars) : chars :=
  match l with
  | c :: l' => if p c then c :: take_while p l' else []
  | [] => []
  end.

Definition is_hex_digit (c : ascii) : bool :=
  is_digit c || in_range 65 70 c || in_range 97 102 c.

Definition hex_value (c : ascii) : Z :=
  if is_digit c then digit_value c
  else Z.of_nat (code_of (to_upper c) - 55).

(** [parseInt(s)] with no radix: leading white space is skipped, a sign
    and a [0x] prefix are honoured, the longest run of digits is read
    and no digit at all gives [NaN].  The result is the Number value
    for the integer read: it is rounded, and [Infinity] beyond the
    largest binary64 number.  An engine may take the digits after the
    twentieth for zeros; the rounding here is that of the whole run. *)
Definition parseInt_chars (l : chars) : jsnum :=
  let l := drop_while is_space l in
  let '(sign, l) :=
    match l with
    | c :: l' =>
        if Ascii.eqb c "-" then ((-1)%Z, l')
        else if Ascii.eqb c "+" then (1%Z, l')
        else (1%Z, l)
    | [] => (1%Z, l)
    end in
  let hex :=
    match l with
    | z :: x :: l' =>
        if Ascii.eqb z "0" && (Ascii.eqb x "x" || Ascii.eqb x "X") then Some l' else None
    | _ => None
    end in
  match hex with
  | Some l' =>
      match take_while is_hex_digit l' with
      | [] => NaN
      | ds =>
          Binary64.round64
            (inject_Z (sign * fold_left (fun acc c => 16 * acc + hex_value c) ds 0)%Z)
      end
  | None =>
      match take_while is_digit l with
      | [] => NaN
      | ds => Binary64.round64 (inject_Z (sign * digits_value ds)%Z)
      end
  end.

(** [parseInt(x)] where [x] is a string or [undefined]; [undefined] is
    first converted to the string ["undefined"], which has no digit. *)
Definition parseInt (x : option string) : jsnum :=
  match x with
  | Some s => parseInt_chars (list_ascii_of_string s)
  | None => NaN
  end.

(** The line feed, as a string. *)
Definition LF : string := String "010" EmptyString.

(** The decimal text of an array length. *)
Definition string_of_nat (n : nat) : string :=
  DecimalString.NilEmpty.string_of_uint (Nat.to_uint n).

End JsStr.

(* ================================================================== *)
(** ** Regular expressions: a backtracking matcher *)
(* ================================================================== *)

Module Regex.
Import JsStr.

Definition charset := ascii -> bool.

(** The fragment of the pattern language the extractors use.  Every
    quantified atom of the source patterns is a character class, except
    one optional group. *)
Inductive regex : Type :=
| Eps
| Chr (cs : charset)
| Seq (r1 r2 : regex)
| Alt (r1 r2 : regex)
| Group (i : nat) (r : regex)
| Repeat (cs : charset) (min : nat) (max : option nat) (greedy : bool)
| Optional (r : regex)
| Bol
| Eol.

Definition captures := list (nat * chars).

Definition set_capture (i : nat) (v : chars) (caps : captures) : captures :=
  (i, v) :: filter (fun p => negb (Nat.eqb (fst p) i)) caps.

Fixpoint get_capture (i : nat) (caps : captures) : option chars :=
  match caps with
  | [] => None
  | (j, v) :: caps' => if Nat.eqb j i then Some v else get_capture i caps'
  end.

Definition or_else {A} (x : option A) (y : option A) : option A :=
  match x with Some _ => x | None => y end.

Definition may_repeat (max : option nat) : bool :=
  match max with Some O => false | _ => true end.

Section Matcher.
Variable R : Type.

(** [cs{min,max}] (greedy) or [cs{min,max}?] (lazy), continuing with [k]
    on the position and input left. *)
Fixpoint repeat_loop (cs : charset) (greedy : bool) (min : nat) (max : option nat)
         (pos : nat) (inp : chars) (k : nat -> chars -> option R) {struct inp}
  : option R :=
  let more :=
    match inp with
    | c :: inp' =>
        if cs c && may_repeat max
        then repeat_loop cs greedy (Nat.pred min) (option_map Nat.pred max) (S pos) inp' k
        else None
    | [] => None
    end in
  match min with
  | S _ => more
  | O => if greedy then or_else more (k pos inp) else or_else (k pos inp) more
  end.

(** Continuation-passing matcher: alternatives are tried left to right
    and a failure of the continuation backtracks into the last choice. *)
Fixpoint run (r : regex) (pos : nat) (inp : chars) (caps : captures)
         (k : nat -> chars -> captures -> option R) {struct r} : option R :=
  match r with
  | Eps => k pos inp caps
  | Chr cs =>
      match inp with
      | c :: inp' => if cs c then k (S pos) inp' caps else None
      | [] => None
      end
  | Seq r1 r2 =>
      run r1 pos inp caps (fun pos' inp' caps' => run r2 pos' inp' caps' k)
  | Alt r1 r2 => or_else (run r1 pos inp caps k) (run r2 pos inp caps k)
  | Group i r1 =>
      run r1 pos inp caps
          (fun pos' inp' caps' =>
             k pos' inp' (set_capture i (firstn (pos' - pos) inp) caps'))
  | Repeat cs min max greedy =>
      repeat_loop cs greedy min max pos inp (fun pos' inp' => k pos' inp' caps)
  | Optional r1 =>
      or_else
        (run r1 pos inp caps
             (fun pos' inp' caps' =>
                if Nat.eqb pos' pos then None else k pos' inp' caps'))
        (k pos inp caps)
  | Bol => if Nat.eqb pos 0 then k pos inp caps else None
  | Eol => match inp with [] => k pos inp caps | _ :: _ => None end
  end.
End Matcher.

(** A successful match: where it starts and ends, and its groups. *)
Record match_result : Type := MkMatch {
  m_start : nat;
  m_end : nat;
  m_caps : captures
}.

(** The leftmost match starting at or after [pos]. *)
Fixpoint search_from (r : regex) (pos : nat) (inp : chars) {struct inp}
  : option match_result :=
  or_else
    (run r pos inp [] (fun pos' _ caps => Some (MkMatch pos pos' caps)))
    match inp with
    | [] => None
    | _ :: inp' => search_from r (S pos) inp'
    end.

Definition exec (r : regex) (s : string) : option match_result :=
  search_from r 0 (list_ascii_of_string s).

(** [m[i]] of the array [s.match(r)] returns: group [0] is the whole
    match, an unset group is [undefined]. *)
Definition group (s : string) (m : match_result) (i : nat) : option string :=
  match i with
  | O => Some (string_of_list_ascii
                 (firstn (m_end m - m_start m)
                         (skipn (m_start m) (list_ascii_of_string s))))
  | _ => option_map string_of_list_ascii (get_capture i (m_caps m))
  end.

(** The input without the text of the match. *)
Definition cut (m : match_result) (l : chars) : chars :=
  (firstn (m_start m) l ++ skipn (m_end m) l)%list.

(** [s.replace(r, "")] for a pattern without the [g] flag. *)
Definition remove_first (r : regex) (s : string) : string :=
  match exec r s with
  | Some m => string_of_list_ascii (cut m (list_ascii_of_string s))
  | None => s
  end.

(** *** Static facts about a pattern *)



(** Group [i] is set by every match of [r]. *)
Fixpoint mustSet (i : nat) (r : regex) : bool :=
  match r with
  | Seq r1 r2 => mustSet i r1 || mustSet i r2
  | Alt r1 r2 => mustSet i r1 && mustSet i r2
  | Group j r1 => Nat.eqb j i || mustSet i r1
  | _ => false
  end.

(** *** Pattern builders *)

Fixpoint seq (rs : list regex) : regex :=
  match rs with
  | [] => Eps
  | [r] => r
  | r :: rs' => Seq r (seq rs')
  end.

Fixpoint alt (rs : list regex) : regex :=
  match rs with
  | [] => Eps
  | [r] => r
  | r :: rs' => Alt r (alt rs')
  end.

(** A literal, matched exactly or under the [i] flag. *)
Definition lit (ci : bool) (s : string) : regex :=
  seq (map (fun c => Chr (if ci then eqb_ci c else Ascii.eqb c))
           (list_ascii_of_string s)).

Definition digit : charset := is_digit.
Definition space : charset := is_space.
Definition dot : charset := fun c => negb (is_line_terminator c).
(** [[A-Z]], also matching [a-z] under the [i] flag *)
Definition upper (ci : bool) : charset :=
  fun c => is_upper (if ci then to_upper c else c).

Definition plus (cs : charset) : regex := Repeat cs 1 None true.
Definition plus_lazy (cs : charset) : regex := Repeat cs 1 None false.
Definition between (cs : charset) (lo hi : nat) : regex := Repeat cs lo (Some hi) true.

End Regex.

(* ================================================================== *)
(** ** Exceptions, [Map] and [Set] *)
(* ================================================================== *)

Inductive exn : Type :=
| TypeError
| Error (message : string).

Inductive result (A : Type) : Type :=
| Ok (a : A)
| Throw (e : exn).
Arguments Ok {A} a.
Arguments Throw {A} e.

Definition bind {A B} (x : result A) (f : A -> result B) : result B :=
  match x with
  | Ok a => f a
  | Throw e => Throw e
  end.

Notation "x <- e ;; k" := (bind e (fun x => k))
  (at level 61, e at next level, right associativity).

(** [array.filter(p)] where the callback may throw. *)
Fixpoint filterM {A} (p : A -> result bool) (l : list A) : result (list A) :=
  match l with
  | [] => Ok []
  | x :: l' =>
      b <- p x ;;
      r <- filterM p l' ;;
      Ok (if b then x :: r else r)
  end.

(** A loop [for (const x of l) body] over a state, where the body may
    throw. *)
Fixpoint forM {A S} (body : S -> A -> result S) (l : list A) (s : S) : result S :=
  match l with
  | [] => Ok s
  | x :: l' => s' <- body s x ;; forM body l' s'
  end.

Module JsMap.
Section WithValue.
Variable V : Type.

(** Entries in insertion order. *)
Definition t := list (string * V).

Definition empty : t := [].

(** [m.get(k)] *)
Fixpoint get (m : t) (k : string) : option V :=
  match m with
  | [] => None
  | (k', v) :: m' => if String.eqb k' k then Some v else get m' k
  end.

(** [m.has(k)] *)
Definition has (m : t) (k : string) : bool :=
  match get m k with Some _ => true | None => false end.

(** [m.set(k, v)]: an existing key keeps its place. *)
Fixpoint set (m : t) (k : string) (v : V) : t :=
  match m with
  | [] => [(k, v)]
  | (k', v') :: m' =>
      if String.eqb k' k then (k, v) :: m' else (k', v') :: set m' k v
  end.

(** [new Map(pairs)] *)
Definition of_entries (pairs : list (string * V)) : t :=
  fold_left (fun m p => set m (fst p) (snd p)) pairs empty.

(** [m.entries()], [m.values()], [m.size] *)
Definition entries (m : t) : list (string * V) := m.
Definition values (m : t) : list V := map snd m.
End WithValue.
End JsMap.

Module JsSet.
Definition t := list string.
Definition empty : t := [].
(** [s.has(x)] *)
Definition has (s : t) (x : string) : bool := existsb (String.eqb x) s.
(** [s.add(x)] *)
Definition add (s : t) (x : string) : t := if has s x then s else (s ++ [x])%list.
End JsSet.

(* ================================================================== *)
(** ** Data model *)
(* ================================================================== *)

Module CurriculumCourse.
(** [prerequisites] is optional: [arePrerequisitesMet] guards against
    its absence. *)
Record t : Type := Make {
  semester : jsnum;
  code : string;
  title : string;
  category : string;
  lecture : jsnum;
  tutorial : jsnum;
  lab : jsnum;
  totalCredit : jsnum;
  prerequisites : option (list string);
  ects : jsnum
}.
End CurriculumCourse.

Module CompletedCourse.
Record t : Type := Make {
  code : string;
  title : string;
  grade : string;
  credits : jsnum;
  ects : jsnum;
  gradePoints : jsnum;
  semester : option string;
  passed : bool
}.
End CompletedCourse.

Module AvailableCourse.
Record t : Type := Make {
  code : string;
  title : string
}.
End AvailableCourse.

Record StudentInfo : Type := {
  studentNo : option string;
  name : option string;
  program : option string
}.

(** A [nextSemesterCourses] entry: [{...course, priority, reason}]. *)
Record Recommended : Type := {
  course : CurriculumCourse.t;
  priority : jsnum;
  reason : string
}.

Record Recommendations : Type := {
  nextSemesterCourses : list Recommended;
  availableElectives : list CurriculumCourse.t;
  missedCourses : list CurriculumCourse.t;
  futureRecommendations : list CurriculumCourse.t
}.

Record CategoryStat : Type := {
  required : nat;
  completed : nat
}.

Record ProgressReport : Type := {
  pr_studentInfo : StudentInfo;
  pr_currentSemester : jsnum;
  totalECTS : jsnum;
  totalCredits : jsnum;
  pr_completedCourses : nat;
  totalRequiredCourses : nat;
  categoryStats : list (string * CategoryStat);
  completionPercentage : jsnum
}.

(** The fields of a [CourseAdvisorSystem] instance. *)
Record Advisor : Type := {
  curriculum : list CurriculumCourse.t;
  completedCourses : JsMap.t CompletedCourse.t;
  availableCourses : list AvailableCourse.t;
  studentInfo : StudentInfo
}.

(* ================================================================== *)
(** ** Curriculum extractor: [parseCurriculum] *)
(* ================================================================== *)

Module Patterns.
Import Regex.

(** [/^(\d+)\s+/] *)
Definition semester_leading : regex :=
  seq [Bol; Group 1 (plus digit); plus space].

(** [/semester\s+(\d+)/i] *)
Definition semester_word : regex :=
  seq [lit true "semester"; plus space; Group 1 (plus digit)].

(** [/^(\d+)st|nd|rd|th\s+semester/i]: the alternation is at the top
    level of the pattern, so it has four alternatives and only the first
    is anchored and has the group. *)
Definition semester_ordinal : regex :=
  alt [seq [Bol; Group 1 (plus digit); lit true "st"];
       lit true "nd";
       lit true "rd";
       seq [lit true "th"; plus space; lit true "semester"]].

(** [/^year\s+(\d+)/i] *)
Definition semester_year : regex :=
  seq [Bol; lit true "year"; plus space; Group 1 (plus digit)].

Definition semesterPatterns : list regex :=
  [semester_leading; semester_word; semester_ordinal; semester_year].

(** [[A-Z]{2,4}\d{3,4}] *)
Definition course_code (ci : bool) : regex :=
  seq [between (upper ci) 2 4; between digit 3 4].

(** [AC|FC|UC|FE|AE|UE|CORE|ELECTIVE] under the [i] flag *)
Definition category_token : regex :=
  alt (map (lit true) ["AC"; "FC"; "UC"; "FE"; "AE"; "UE"; "CORE"; "ELECTIVE"]%string).

(** CODE TITLE CATEGORY L T P CREDIT PREREQ ECTS:
[/([A-Z]{2,4}\d{3,4})\s+(.+?)\s+(AC|FC|UC|FE|AE|UE|CORE|ELECTIVE)\s+(\d+)\s+(\d+)\s+(\d+)\s+(\d+)(?:\s+(.+?))?\s+(\d+)/i] *)
Definition course_full : regex :=
  seq [Group 1 (course_code true); plus space;
       Group 2 (plus_lazy dot); plus space;
       Group 3 category_token; plus space;
       Group 4 (plus digit); plus space;
       Group 5 (plus digit); plus space;
       Group 6 (plus digit); plus space;
       Group 7 (plus digit);
       Optional (seq [plus space; Group 8 (plus_lazy dot)]);
       plus space;
       Group 9 (plus digit)].

(** CODE TITLE CREDITS ECTS CATEGORY:
[/([A-Z]{2,4}\d{3,4})\s+(.+?)\s+(\d+)\s+(\d+)\s+(AC|FC|UC|FE|AE|UE|CORE|ELECTIVE)/i] *)
Definition course_reduced : regex :=
  seq [Group 1 (course_code true); plus space;
       Group 2 (plus_lazy dot); plus space;
       Group 3 (plus digit); plus space;
       Group 4 (plus digit); plus space;
       Group 5 category_token].

(** CODE TITLE CREDITS: [/([A-Z]{2,4}\d{3,4})\s+(.+?)\s+(\d+)/] *)
Definition course_minimal : regex :=
  seq [Group 1 (course_code false); plus space;
       Group 2 (plus_lazy dot); plus space;
       Group 3 (plus digit)].

(** [/[A-Z]$/] *)
Definition trailing_letter : regex := seq [Chr (upper false); Eol].

End Patterns.

Module Extractor.
Import JsStr Regex Patterns.

(** [x.trim()] on a destructured group: a method call on [undefined]
    throws. *)
Definition trim_group (x : option string) : result string :=
  match x with
  | Some s => Ok (trim s)
  | None => Throw TypeError
  end.

(** ToBoolean on [currentSemester], which is [null] or a number. *)
Definition semester_truthy (cur : option jsnum) : bool :=
  match cur with
  | Some n => truthy n
  | None => false
  end.

(** The loop over [semesterPatterns]: the first pattern that matches
    assigns [parseInt(match[1])] and breaks. *)
Fixpoint detectSemester (patterns : list regex) (trimmedLine : string)
         (currentSemester : option jsnum) : option jsnum :=
  match patterns with
  | [] => currentSemester
  | pattern :: rest =>
      match exec pattern trimmedLine with
      | Some m => Some (parseInt (group trimmedLine m 1))
      | None => detectSemester rest trimmedLine currentSemester
      end
  end.

(** [prerequisites ? prerequisites.split(",").map(trim).filter(p => p && p !== "-") : []] *)
Definition parse_prerequisites (x : option string) : list string :=
  match x with
  | Some s =>
      if String.eqb s "" then []
      else filter (fun p => negb (String.eqb p "") && negb (String.eqb p "-"))
                  (map trim (split "," s))
  | None => []
  end.

Definition build_full (currentSemester : jsnum) (line : string) (m : match_result)
  : result CurriculumCourse.t :=
  let g := group line m in
  code <- trim_group (g 1) ;;
  title <- trim_group (g 2) ;;
  category <- trim_group (g 3) ;;
  Ok (CurriculumCourse.Make currentSemester code title category
        (parseInt (g 4)) (parseInt (g 5)) (parseInt (g 6)) (parseInt (g 7))
        (Some (parse_prerequisites (g 8)))
        (parseInt (g 9))).

Definition build_reduced (currentSemester : jsnum) (line : string) (m : match_result)
  : result CurriculumCourse.t :=
  let g := group line m in
  code <- trim_group (g 1) ;;
  title <- trim_group (g 2) ;;
  category <- trim_group (g 5) ;;
  Ok (CurriculumCourse.Make currentSemester code title category
        (of_Z 0) (of_Z 0) (of_Z 0) (parseInt (g 3))
        (Some [])
        (parseInt (g 4))).

Definition build_minimal (currentSemester : jsnum) (line : string) (m : match_result)
  : result CurriculumCourse.t :=
  let g := group line m in
  code <- trim_group (g 1) ;;
  title <- trim_group (g 2) ;;
  Ok (CurriculumCourse.Make currentSemester code title "UC"
        (of_Z 0) (of_Z 0) (of_Z 0) (parseInt (g 3))
        (Some [])
        (parseInt (g 3))).

(** [coursePatterns], each with the record it builds. *)
Definition coursePatterns
  : list (regex * (jsnum -> string -> match_result -> result CurriculumCourse.t)) :=
  [(course_full, build_full);
   (course_reduced, build_reduced);
   (course_minimal, build_minimal)].

(** The loop over [coursePatterns]: the first pattern that matches while
    [currentSemester] is truthy pushes one course and breaks. *)
Fixpoint extractCourse
         (patterns : list (regex * (jsnum -> string -> match_result -> result CurriculumCourse.t)))
         (trimmedLine : string) (currentSemester : option jsnum)
  : result (option CurriculumCourse.t) :=
  match patterns with
  | [] => Ok None
  | (pattern, build) :: rest =>
      match exec pattern trimmedLine, currentSemester with
      | Some m, Some n =>
          if truthy n
          then (c <- build n trimmedLine m ;; Ok (Some c))
          else extractCourse rest trimmedLine currentSemester
      | _, _ => extractCourse rest trimmedLine currentSemester
      end
  end.

(** The state of the loop over the lines. *)
Record state : Type := {
  currentSemester : option jsnum;
  emitted : list CurriculumCourse.t
}.

Definition initial : state := {| currentSemester := None; emitted := [] |}.

(** One iteration of [for (const line of lines)]. *)
Definition step (st : state) (line : string) : result state :=
  let trimmedLine := trim line in
  let cur := detectSemester semesterPatterns trimmedLine (currentSemester st) in
  c <- extractCourse coursePatterns trimmedLine cur ;;
  Ok {| currentSemester := cur;
        emitted := match c with
                   | Some course => (emitted st ++ [course])%list
                   | None => emitted st
                   end |}.

(** [parseCurriculum] from the text of the document on: the curriculum
    it returns and stores. *)
Definition parseCurriculum (content : string) : result (list CurriculumCourse.t) :=
  st <- forM step (split "010" content) initial ;;
  Ok (emitted st).

End Extractor.

(* ================================================================== *)
(** ** Grade evaluator, recommendation engine, progress reporter *)
(* ================================================================== *)

Module Engine.
Import JsStr.
Local Open Scope js_scope.

Definition failingGrades : list string := ["F"; "F*"; "FF"; "FD"; "W"].
Definition retakeIndicators : list string := ["(rst)"].

(** [isPassingGrade(grade)] *)
Definition isPassingGrade (grade : string) : bool :=
  if array_includes failingGrades grade then false
  else if existsb (fun indicator => includes indicator grade) retakeIndicators then false
  else true.

(** [completedCourse && completedCourse.passed] for [completedCourses.get(prereq)] *)
Definition hasPassed (this : Advisor) (prereq : string) : bool :=
  match JsMap.get (completedCourses this) prereq with
  | Some completedCourse => CompletedCourse.passed completedCourse
  | None => false
  end.

(** [arePrerequisitesMet(course)] *)
Definition arePrerequisitesMet (this : Advisor) (course : CurriculumCourse.t) : bool :=
  match CurriculumCourse.prerequisites course with
  | None => true
  | Some prerequisites =>
      if Nat.eqb (List.length prerequisites) 0 then true
      else forallb (hasPassed this) prerequisites
  end.

(** [getCurrentSemester()] *)
Definition getCurrentSemester (this : Advisor) : jsnum :=
  let totalCredits :=
    fold_left (fun sum course => sum +~ CompletedCourse.credits course)
              (filter CompletedCourse.passed (JsMap.values (completedCourses this)))
              #0 in
  floor (totalCredits /~ #20) +~ #1.

(** [code.replace(/[A-Z]$/, "")] *)
Definition baseCode (code : string) : string :=
  Regex.remove_first Patterns.trailing_letter code.

(** The two sets built from the passed entries of [completedCourses]:
    [completedCourseCodes] and [completedCourseBaseCodes]. *)
Definition completedSets (this : Advisor) : JsSet.t * JsSet.t :=
  fold_left
    (fun (sets : JsSet.t * JsSet.t) (entry : string * CompletedCourse.t) =>
       let '(completedCourseCodes, completedCourseBaseCodes) := sets in
       let '(code, course) := entry in
       if CompletedCourse.passed course
       then (JsSet.add completedCourseCodes code,
             JsSet.add (JsSet.add completedCourseBaseCodes (baseCode code)) code)
       else sets)
    (JsMap.entries (completedCourses this))
    (JsSet.empty, JsSet.empty).

(** [c.prerequisites.includes(code)]: throws when [c] has no
    [prerequisites]. *)
Definition lists_prerequisite (code : string) (c : CurriculumCourse.t) : result bool :=
  match CurriculumCourse.prerequisites c with
  | Some prerequisites => Ok (array_includes prerequisites code)
  | None => Throw TypeError
  end.

(** [this.curriculum.filter((c) => c.prerequisites.includes(course.code))] *)
Definition unlockedBy (this : Advisor) (course : CurriculumCourse.t)
  : result (list CurriculumCourse.t) :=
  filterM (lists_prerequisite (CurriculumCourse.code course)) (curriculum this).

(** [calculatePriority(course, currentSemester)] *)
Definition calculatePriority (this : Advisor) (course : CurriculumCourse.t)
           (currentSemester : jsnum) : result jsnum :=
  let semester := CurriculumCourse.semester course in
  let category := CurriculumCourse.category course in
  let priority := #0 in
  let priority := if String.eqb category "AC" then priority + #10 else priority in
  let priority := if String.eqb category "FC" then priority + #8 else priority in
  let priority := if String.eqb category "UC" then priority + #6 else priority in
  let priority := if semester === currentSemester then priority + #5 else priority in
  let priority := if semester === currentSemester + #1 then priority + #3 else priority in
  let priority :=
    if (currentSemester >? #8) && (semester <=? #8) then priority + #4 else priority in
  let priority :=
    if semester <? currentSemester
    then priority - (if currentSemester >? #8 then #1 else #2)
    else priority in
  unlocks <- unlockedBy this course ;;
  Ok (priority + of_nat (List.length unlocks) * #2).

(** [getRecommendationReason(course, currentSemester)] *)
Definition getRecommendationReason (this : Advisor) (course : CurriculumCourse.t)
           (currentSemester : jsnum) : result string :=
  let semester := CurriculumCourse.semester course in
  let category := CurriculumCourse.category course in
  let reasons : list string := [] in
  let reasons :=
    if semester === currentSemester then (reasons ++ ["Current semester course"])%list
    else if semester === currentSemester + #1 then (reasons ++ ["Next semester course"])%list
    else if semester <? currentSemester
         then (reasons ++ ["Delayed from previous semester"])%list
    else reasons in
  let reasons :=
    if String.eqb category "AC" then (reasons ++ ["Area Core requirement"])%list else reasons in
  let reasons :=
    if String.eqb category "FC" then (reasons ++ ["Faculty Core requirement"])%list else reasons in
  unlocks <- unlockedBy this course ;;
  let reasons :=
    if Nat.ltb 0 (List.length unlocks)
    then (reasons ++ [("Prerequisite for " ++ string_of_nat (List.length unlocks)
                         ++ " other courses")%string])%list
    else reasons in
  Ok (String.concat ", " reasons).

(** [array.sort(compare)]: the sort is stable; an element goes after
    those the comparison puts before it and before everything else. *)
Section Sort.
Variable A : Type.
Variable compare : A -> A -> jsnum.

Fixpoint insert (x : A) (l : list A) : list A :=
  match l with
  | [] => [x]
  | y :: l' => if compare x y >? #0 then y :: insert x l' else x :: l
  end.

Fixpoint sort (l : list A) : list A :=
  match l with
  | [] => []
  | x :: l' => insert x (sort l')
  end.
End Sort.

Definition emptyRecommendations : Recommendations :=
  {| nextSemesterCourses := []; availableElectives := [];
     missedCourses := []; futureRecommendations := [] |}.

(** The body of [for (const course of this.curriculum)]. *)
Definition consider (this : Advisor) (currentSemester : jsnum)
           (completedCourseCodes completedCourseBaseCodes : JsSet.t)
           (recommendations : Recommendations) (course : CurriculumCourse.t)
  : result Recommendations :=
  let code := CurriculumCourse.code course in
  let semester := CurriculumCourse.semester course in
  let category := CurriculumCourse.category course in
  if JsSet.has completedCourseCodes code || JsSet.has completedCourseBaseCodes code
  then Ok recommendations
  else
    let isAvailable :=
      existsb (fun avail => String.eqb (AvailableCourse.code avail) code)
              (availableCourses this) in
    if negb isAvailable then Ok recommendations
    else
      let canTake := arePrerequisitesMet this course in
      if negb canTake then Ok recommendations
      else if (semester === currentSemester)
              || (semester === currentSemester + #1)
              || ((currentSemester >? #8)
                  && (semester <=? #8)
                  && negb (JsSet.has completedCourseCodes code)
                  && negb (JsSet.has completedCourseBaseCodes code))
              || ((semester <=? currentSemester + #2)
                  && (semester >=? currentSemester - #2))
      then
        priority <- calculatePriority this course currentSemester ;;
        reason <- getRecommendationReason this course currentSemester ;;
        Ok {| nextSemesterCourses :=
                (nextSemesterCourses recommendations
                   ++ [{| course := course; priority := priority; reason := reason |}])%list;
              availableElectives := availableElectives recommendations;
              missedCourses := missedCourses recommendations;
              futureRecommendations := futureRecommendations recommendations |}
      else if String.eqb category "AE" || String.eqb category "FE" || String.eqb category "UE"
      then
        Ok {| nextSemesterCourses := nextSemesterCourses recommendations;
              availableElectives := (availableElectives recommendations ++ [course])%list;
              missedCourses := missedCourses recommendations;
              futureRecommendations := futureRecommendations recommendations |}
      else if semester <? currentSemester
      then
        Ok {| nextSemesterCourses := nextSemesterCourses recommendations;
              availableElectives := availableElectives recommendations;
              missedCourses := (missedCourses recommendations ++ [course])%list;
              futureRecommendations := futureRecommendations recommendations |}
      else
        Ok {| nextSemesterCourses := nextSemesterCourses recommendations;
              availableElectives := availableElectives recommendations;
              missedCourses := missedCourses recommendations;
              futureRecommendations := (futureRecommendations recommendations ++ [course])%list |}.

(** [(a, b) => b.priority - a.priority] *)
Definition byPriority (a b : Recommended) : jsnum := priority b - priority a.

(** [getRecommendedCourses()] *)
Definition getRecommendedCourses (this : Advisor) : result Recommendations :=
  let currentSemester := getCurrentSemester this in
  let '(completedCourseCodes, completedCourseBaseCodes) := completedSets this in
  recommendations <-
    forM (consider this currentSemester completedCourseCodes completedCourseBaseCodes)
         (curriculum this) emptyRecommendations ;;
  Ok {| nextSemesterCourses := sort byPriority (nextSemesterCourses recommendations);
        availableElectives := availableElectives recommendations;
        missedCourses := missedCourses recommendations;
        futureRecommendations := futureRecommendations recommendations |}.

(** One step of the loop that fills [categoryStats]. *)
Definition countCategory (this : Advisor) (stats : JsMap.t CategoryStat)
           (course : CurriculumCourse.t) : JsMap.t CategoryStat :=
  let category := CurriculumCourse.category course in
  let code := CurriculumCourse.code course in
  let stat :=
    match JsMap.get stats category with
    | Some stat => stat
    | None => {| required := 0; completed := 0 |}
    end in
  let stat := {| required := S (required stat); completed := completed stat |} in
  let stat :=
    if JsMap.has (completedCourses this) code && hasPassed this code
    then {| required := required stat; completed := S (completed stat) |}
    else stat in
  JsMap.set stats category stat.

(** [generateProgressReport()] *)
Definition generateProgressReport (this : Advisor) : ProgressReport :=
  let completedCourses :=
    filter CompletedCourse.passed (JsMap.values (completedCourses this)) in
  let totalECTS :=
    fold_left (fun sum course => sum +~ CompletedCourse.ects course) completedCourses #0 in
  let totalCredits :=
    fold_left (fun sum course => sum +~ CompletedCourse.credits course) completedCourses #0 in
  let currentSemester := getCurrentSemester this in
  let categoryStats := fold_left (countCategory this) (curriculum this) (JsMap.empty _) in
  {| pr_studentInfo := studentInfo this;
     pr_currentSemester := currentSemester;
     totalECTS := totalECTS;
     totalCredits := totalCredits;
     pr_completedCourses := List.length completedCourses;
     totalRequiredCourses := List.length (curriculum this);
     categoryStats := categoryStats;
     completionPercentage :=
       round ((of_nat (List.length completedCourses)
               /~ of_nat (List.length (curriculum this))) *~ #100) |}.

(** The content of [parsed_data.json] once read and decoded; every
    field may be missing.  [completedCourses], when it is there, is an
    array of pairs, as [saveParsedData] writes it: on any other content
    [new Map] would throw after [curriculum] has been replaced. *)
Record ParsedData : Type := {
  pd_curriculum : option (list CurriculumCourse.t);
  pd_completedCourses : option (list (string * CompletedCourse.t));
  pd_availableCourses : option (list AvailableCourse.t);
  pd_studentInfo : option StudentInfo
}.

Definition or_default {A} (x : option A) (d : A) : A :=
  match x with Some a => a | None => d end.

Definition newAdvisor : Advisor :=
  {| curriculum := []; completedCourses := JsMap.empty _; availableCourses := [];
     studentInfo := {| studentNo := None; name := None; program := None |} |}.

(** [loadParsedData()]: [file] is [None] when the file cannot be read or
    decoded; the instance after the call and the value returned. *)
Definition loadParsedData (this : Advisor) (file : option ParsedData) : Advisor * bool :=
  match file with
  | Some parsedData =>
      ({| curriculum := or_default (pd_curriculum parsedData) [];
          completedCourses :=
            JsMap.of_entries (or_default (pd_completedCourses parsedData) []);
          availableCourses := or_default (pd_availableCourses parsedData) [];
          studentInfo :=
            or_default (pd_studentInfo parsedData)
                       {| studentNo := None; name := None; program := None |} |},
       true)
  | None => (this, false)
  end.

(** What [loadAndRecommend] resolves to: [{success: true, ...}] or
    [{success: false, error}].  The echo of the parsed data, with its
    time stamp, is left out. *)
Inductive Response : Type :=
| Success (progressReport : ProgressReport) (recommendations : Recommendations)
          (message : string)
| Failure (error : exn).

(** [loadAndRecommend()] *)
Definition loadAndRecommend (this : Advisor) (file : option ParsedData) : Response :=
  let outcome :=
    let '(this, loadSuccess) := loadParsedData this file in
    if negb loadSuccess then Throw (Error "Failed to load parsed data from JSON")
    else
      recommendations <- getRecommendedCourses this ;;
      let progressReport := generateProgressReport this in
      Ok (progressReport, recommendations) in
  match outcome with
  | Ok (progressReport, recommendations) =>
      Success progressReport recommendations
              "Recommendations generated successfully from JSON data"
  | Throw error => Failure error
  end.

End Engine.

(* ================================================================== *)
(** ** The specification's own wording, to compare the code with *)
(* ================================================================== *)

Module Spec.
Import JsStr Engine.
Local Open Scope js_scope.

(** The fixed failing tokens. *)
Definition is_failing_token (g : string) : Prop :=
  g = "F" \/ g = "F*" \/ g = "FF" \/ g = "FD" \/ g = "W".

(** [g] contains the retake marker as a substring. *)
Definition has_retake_marker (g : string) : Prop :=
  exists before after : string, g = (before ++ "(rst)" ++ after)%string.

(** The code with one trailing upper case letter stripped. *)
Fixpoint stripTrailingUpper (code : string) : string :=
  match code with
  | EmptyString => EmptyString
  | String c EmptyString => if is_upper c then EmptyString else code
  | String c rest => String c (stripTrailingUpper rest)
  end.

(** [code] is the code of the entry, which is marked passed. *)
Definition passedWithCode (code : string) (entry : string * CompletedCourse.t) : bool :=
  CompletedCourse.passed (snd entry) && String.eqb code (fst entry).

(** [code] is the code or the base code of the entry, which is marked
    passed. *)
Definition passedWithBase (code : string) (entry : string * CompletedCourse.t) : bool :=
  CompletedCourse.passed (snd entry)
  && (String.eqb code (fst entry) || String.eqb code (stripTrailingUpper (fst entry))).

(** The completion set: [code] is the code or the base code of a passed
    completed course. *)
Definition isCompleted (this : Advisor) (code : string) : bool :=
  existsb (passedWithBase code) (JsMap.entries (completedCourses this)).

(** The code appears in the available-courses collection. *)
Definition isOffered (this : Advisor) (code : string) : bool :=
  if in_dec string_dec code (map AvailableCourse.code (availableCourses this))
  then true else false.

(** The eligibility filter. *)
Definition isCandidate (this : Advisor) (c : CurriculumCourse.t) : bool :=
  negb (isCompleted this (CurriculumCourse.code c))
  && isOffered this (CurriculumCourse.code c)
  && arePrerequisitesMet this c.

Inductive Bucket : Type := NextSemester | Electives | Missed | Future.

Definition Bucket_eqb (a b : Bucket) : bool :=
  match a, b with
  | NextSemester, NextSemester | Electives, Electives
  | Missed, Missed | Future, Future => true
  | _, _ => false
  end.

Definition isElectiveCategory (category : string) : bool :=
  String.eqb category "AE" || String.eqb category "FE" || String.eqb category "UE".

(** The semester is within two of the estimate. *)
Definition withinTwo (semester estimate : jsnum) : bool :=
  (semester <=? estimate + #2) && (semester >=? estimate - #2).

(** The bucketing rules, first match wins. *)
Definition bucketOf (this : Advisor) (estimate : jsnum) (c : CurriculumCourse.t) : Bucket :=
  let semester := CurriculumCourse.semester c in
  if (semester === estimate)
     || (semester === estimate + #1)
     || ((estimate >? #8) && (semester <=? #8)
         && negb (isCompleted this (CurriculumCourse.code c)))
     || withinTwo semester estimate
  then NextSemester
  else if isElectiveCategory (CurriculumCourse.category c) then Electives
  else if semester <? estimate then Missed
  else Future.

(** [c] is a candidate that the rules send to bucket [b]. *)
Definition goesTo (this : Advisor) (estimate : jsnum) (b : Bucket)
           (c : CurriculumCourse.t) : bool :=
  isCandidate this c && Bucket_eqb (bucketOf this estimate c) b.

(** The curriculum courses that go to bucket [b], in curriculum order. *)
Definition bucketContents (this : Advisor) (b : Bucket) : list CurriculumCourse.t :=
  filter (goesTo this (getCurrentSemester this) b) (curriculum this).

(** The curriculum courses in bucket [b] of a result. *)
Definition inBucket (r : Recommendations) (b : Bucket) : list CurriculumCourse.t :=
  match b with
  | NextSemester => map course (nextSemesterCourses r)
  | Electives => availableElectives r
  | Missed => missedCourses r
  | Future => futureRecommendations r
  end.





(** Decidable equality of curriculum entries. *)
Definition jsnum_eq_dec (a b : jsnum) : {a = b} + {a <> b}.
Proof.
  decide equality.
  - apply Bool.bool_dec.
  - decide equality; [apply Pos.eq_dec | apply Z.eq_dec].
Defined.

Definition course_eq_dec (a b : CurriculumCourse.t) : {a = b} + {a <> b}.
Proof.
  decide equality; try apply jsnum_eq_dec; try apply string_dec.
  decide equality. apply list_eq_dec, string_dec.
Defined.

(** [other] lists [code] among its prerequisites. *)
Definition listsPrerequisite (code : string) (other : CurriculumCourse.t) : bool :=
  match CurriculumCourse.prerequisites other with
  | Some prerequisites =>
      if in_dec string_dec code prerequisites then true else false
  | None => false
  end.

(** The number of other curriculum courses that [c] unlocks. *)
Definition unlockCount (this : Advisor) (c : CurriculumCourse.t) : nat :=
  List.length
    (filter (fun other =>
               (if course_eq_dec other c then false else true)
               && listsPrerequisite (CurriculumCourse.code c) other)
            (curriculum this)).

(** The priority score as an integer sum. *)
Definition priorityScore (this : Advisor) (estimate : jsnum) (c : CurriculumCourse.t) : Z :=
  let semester := CurriculumCourse.semester c in
  let category := CurriculumCourse.category c in
  let high := (estimate >? #8) in
  let onTime := (semester === estimate) in
  let oneAhead := (semester === estimate + #1) in
  let early := (semester <=? #8) in
  let delayed := (semester <? estimate) in
  ((if String.eqb category "AC" then 10 else 0)
   + (if String.eqb category "FC" then 8 else 0)
   + (if String.eqb category "UC" then 6 else 0)
   + (if onTime then 5 else 0)
   + (if oneAhead then 3 else 0)
   + (if high && early then 4 else 0)
   - (if delayed then (if high then 1 else 2) else 0)
   + 2 * Z.of_nat (unlockCount this c))%Z.

(** The credits of the completed courses marked passed, added to [sum]
    one after the other in the order of the collection, each sum
    rounded; a failing course contributes nothing. *)
Fixpoint passedCreditsFrom (sum : jsnum) (entries : list (string * CompletedCourse.t))
  : jsnum :=
  match entries with
  | [] => sum
  | (_, c) :: rest =>
      if CompletedCourse.passed c
      then passedCreditsFrom (sum +~ CompletedCourse.credits c) rest
      else passedCreditsFrom sum rest
  end.

Definition passedCredits (entries : list (string * CompletedCourse.t)) : jsnum :=
  passedCreditsFrom #0 entries.

(** The sum of the same credits over the rationals, with no rounding. *)
Fixpoint passedCreditsQ (entries : list (string * CompletedCourse.t)) : Q :=
  match entries with
  | [] => 0
  | (_, c) :: rest =>
      match CompletedCourse.passed c, CompletedCourse.credits c with
      | true, Fin q => q + passedCreditsQ rest
      | _, _ => passedCreditsQ rest
      end
  end.

(** Every passed course has a whole number of credits, not negative. *)
Definition wholeCredits (entries : list (string * CompletedCourse.t)) : Prop :=
  forall k c, In (k, c) entries -> CompletedCourse.passed c = true ->
              exists z : Z, (0 <= z)%Z /\ CompletedCourse.credits c = of_Z z.


(** The semester of an emitted record is an integer, at least 1. *)
Definition validSemester (c : CurriculumCourse.t) : Prop :=
  exists n : Z, (1 <= n)%Z /\ CurriculumCourse.semester c = of_Z n.

(** The codes in [course.prerequisites]; none when the list is absent. *)
Definition prerequisiteCodes (c : CurriculumCourse.t) : list string :=
  match CurriculumCourse.prerequisites c with
  | Some prerequisites => prerequisites
  | None => []
  end.

(** [code] exists in the completed-courses collection and its entry is
    marked passed. *)
Definition passedIn (this : Advisor) (code : string) : Prop :=
  exists c, JsMap.get (completedCourses this) code = Some c
            /\ CompletedCourse.passed c = true.



(** Every curriculum entry has its list of prerequisites. *)
Definition prerequisitesPresent (this : Advisor) : Prop :=
  forall c, In c (curriculum this) -> CurriculumCourse.prerequisites c <> None.

End Spec.

(* ================================================================== *)
(** ** A worked scenario *)
(* ================================================================== *)

Module Scenario.
Import Engine.
Local Open Scope js_scope.

Definition cs101 : CurriculumCourse.t :=
  CurriculumCourse.Make #1 "CS101" "Programming" "AC" #3 #1 #2 #6 (Some []) #6.

Definition cs102 : CurriculumCourse.t :=
  CurriculumCourse.Make #2 "CS102" "Data Structures" "AC" #3 #1 #2 #6 (Some ["CS101"]) #6.

(** [cs102] with the category of a university elective. *)
Definition cs102_elective : CurriculumCourse.t :=
  CurriculumCourse.Make #2 "CS102" "Data Structures" "UE" #3 #1 #2 #6 (Some ["CS101"]) #6.

Definition phys121 : CurriculumCourse.t :=
  CurriculumCourse.Make #1 "PHYS121" "Physics" "UC" #3 #0 #2 #4 (Some []) #6.

Definition hist300 : CurriculumCourse.t :=
  CurriculumCourse.Make #5 "HIST300" "History" "UE" #3 #0 #0 #3 (Some []) #5.

Definition math400 : CurriculumCourse.t :=
  CurriculumCourse.Make #6 "MATH400" "Topology" "FC" #3 #0 #0 #3 (Some []) #5.

Definition completedCourse (code grade : string) (credits : jsnum) : CompletedCourse.t :=
  CompletedCourse.Make code "" grade credits credits #0 None (isPassingGrade grade).

Definition noInfo : StudentInfo :=
  {| studentNo := None; name := None; program := None |}.

(** A student who passed CS101 and PHYS121F and failed MATH400. *)
Definition student : Advisor :=
  {| curriculum := [cs101; cs102_elective; cs102; phys121; hist300; math400];
     completedCourses :=
       JsMap.of_entries [("CS101", completedCourse "CS101" "A" #6);
                         ("PHYS121F", completedCourse "PHYS121F" "B" #4);
                         ("MATH400", completedCourse "MATH400" "F" #3)];
     availableCourses :=
       [AvailableCourse.Make "CS102" "Data Structures";
        AvailableCourse.Make "PHYS121" "Physics";
        AvailableCourse.Make "HIST300" "History";
        AvailableCourse.Make "MATH400" "Topology"];
     studentInfo := noInfo |}.

(** The Number value of a decimal. *)
Definition decimal (n : Z) (d : positive) : jsnum := Binary64.round64 (Qmake n d).


(** [n] zeros. *)
Fixpoint zeros (n : nat) : string :=
  match n with
  | O => EmptyString
  | S n' => String "0" (zeros n')
  end.


(** A curriculum text whose lecture hours have 310 digits. *)
Definition overlongHoursText : string :=
  ("Semester 1" ++ JsStr.LF
   ++ "CS101 Programming AC 1" ++ zeros 309 ++ " 1 2 6 - 6")%string.

(** The curriculum text of a small document. *)
Definition curriculumText : string :=
  ("0 Preparatory" ++ JsStr.LF
   ++ "ENG001 English 3" ++ JsStr.LF
   ++ "Semester 1" ++ JsStr.LF
   ++ "CS101 Programming AC 3 1 2 6 - 6" ++ JsStr.LF
   ++ "2nd Semester" ++ JsStr.LF
   ++ "CS102 Data Structures AC 3 1 2 6 CS101 6" ++ JsStr.LF
   ++ "Year 2" ++ JsStr.LF
   ++ "MATH201 Calculus 4 6 UC")%string.

End Scenario.

(* ================================================================== *)
(** ** Persistence, and further wording to compare the code with *)
(* ================================================================== *)

Module Persistence.
Import Engine.

(** [getParsedDataAsJSON()], which is also what [saveParsedData] writes;
    the time stamp is left out. *)
Definition getParsedDataAsJSON (this : Advisor) : ParsedData :=
  {| pd_curriculum := Some (curriculum this);
     pd_completedCourses := Some (JsMap.entries (completedCourses this));
     pd_availableCourses := Some (availableCourses this);
     pd_studentInfo := Some (studentInfo this) |}.

End Persistence.

Module SpecMore.
Import JsStr Engine Spec.
Local Open Scope js_scope.

(** A number that is not negative, or [+Infinity]. *)
Definition nonnegativeOrInfinite (n : jsnum) : Prop :=
  n = Inf false \/ exists q, n = Fin q /\ (0 <= q)%Q.

(** Every passed course has credits that are not negative, or
    [+Infinity]. *)
Definition nonnegativeCredits (entries : list (string * CompletedCourse.t)) : Prop :=
  forall k c, In (k, c) entries -> CompletedCourse.passed c = true ->
              nonnegativeOrInfinite (CompletedCourse.credits c).

(** An integer, at least 1, or [+Infinity]. *)
Definition positiveOrInfinite (n : jsnum) : Prop :=
  n = Inf false \/ exists z : Z, (1 <= z)%Z /\ n = of_Z z.

(** The keys of a map are pairwise distinct. *)
Definition distinctKeys {V} (m : JsMap.t V) : Prop := NoDup (map fst m).

(** [x] is one of the strings of [l]. *)
Definition mem (x : string) (l : list string) : bool := existsb (String.eqb x) l.

(** The statistics of category [cat] in curriculum entries [l]: how many
    there are, and how many have their very code passed. *)
Definition countIn (this : Advisor) (cat : string) (l : list CurriculumCourse.t) : nat :=
  List.length (filter (fun c => String.eqb (CurriculumCourse.category c) cat) l).

Definition countPassedIn (this : Advisor) (cat : string) (l : list CurriculumCourse.t) : nat :=
  List.length
    (filter (fun c => hasPassed this (CurriculumCourse.code c))
            (filter (fun c => String.eqb (CurriculumCourse.category c) cat) l)).

(** The strings of [l] without repetition, each at its first place. *)
Fixpoint firstSeen (l : list string) : list string :=
  match l with
  | [] => []
  | x :: rest => x :: filter (fun y => negb (String.eqb y x)) (firstSeen rest)
  end.

(** The curriculum entries of category [cat]. *)
Definition ofCategory (this : Advisor) (cat : string) : list CurriculumCourse.t :=
  filter (fun c => String.eqb (CurriculumCourse.category c) cat) (curriculum this).

(** Those of them whose very code is a completed course marked passed. *)
Definition passedOfCategory (this : Advisor) (cat : string) : list CurriculumCourse.t :=
  filter (fun c => hasPassed this (CurriculumCourse.code c)) (ofCategory this cat).

(** The number of completed courses marked passed. *)
Definition passedCount (this : Advisor) : nat :=
  List.length (filter CompletedCourse.passed (JsMap.values (completedCourses this))).


(** No fragment of a reason applies to [c]. *)
Definition noReason (this : Advisor) (estimate : jsnum) (c : CurriculumCourse.t) : Prop :=
  (CurriculumCourse.semester c === estimate) = false
  /\ (CurriculumCourse.semester c === estimate + #1) = false
  /\ (CurriculumCourse.semester c <? estimate) = false
  /\ CurriculumCourse.category c <> "AC"
  /\ CurriculumCourse.category c <> "FC"
  /\ filter (listsPrerequisite (CurriculumCourse.code c)) (curriculum this) = [].

End SpecMore.

(* ================================================================== *)
(** ** What a pattern matches, and look-ahead *)
(* ================================================================== *)

Module RegexSpec.
Import JsStr Regex.

(** [n] repetitions are allowed by the upper bound. *)
Definition within (max : option nat) (n : nat) : Prop :=
  match max with
  | Some m => n <= m
  | None => True
  end.

(** [r] can match the first [n] characters of [inp], which stands at
    position [pos] of the whole input. *)
Fixpoint reach (r : regex) (pos : nat) (inp : chars) (n : nat) : Prop :=
  match r with
  | Eps => n = 0
  | Chr cs => n = 1 /\ exists c rest, inp = c :: rest /\ cs c = true
  | Seq r1 r2 =>
      exists n1 n2, n = n1 + n2 /\ reach r1 pos inp n1
                    /\ reach r2 (pos + n1) (skipn n1 inp) n2
  | Alt r1 r2 => reach r1 pos inp n \/ reach r2 pos inp n
  | Group _ r1 => reach r1 pos inp n
  | Repeat cs min max _ =>
      min <= n /\ within max n /\ n <= List.length inp
      /\ forallb cs (firstn n inp) = true
  | Optional r1 => n = 0 \/ (n <> 0 /\ reach r1 pos inp n)
  | Bol => n = 0 /\ pos = 0
  | Eol => n = 0 /\ inp = []
  end.

(** The groups of a pattern, each with what it encloses. *)
Fixpoint groupsOf (r : regex) : list (nat * regex) :=
  match r with
  | Seq r1 r2 | Alt r1 r2 => (groupsOf r1 ++ groupsOf r2)%list
  | Group i r1 => (i, r1) :: groupsOf r1
  | Optional r1 => groupsOf r1
  | _ => []
  end.

(** [v] is the text of the group [i] of some pattern in [groups]: it
    lies [d] characters into [inp], which stands at position [pos],
    within the first [n] characters, and the group matches it there. *)
Definition capturedAt (groups : list (nat * regex)) (pos : nat) (inp : chars) (n : nat)
           (i : nat) (v : chars) : Prop :=
  exists r1 d,
    In (i, r1) groups /\ d + List.length v <= n
    /\ reach r1 (pos + d) (skipn d inp) (List.length v)
    /\ firstn (List.length v) (skipn d inp) = v.

(** The groups of [caps'] that [caps] did not have were set by a match
    of [n] characters of [inp] against a pattern with [groups]. *)
Definition capsFrom (groups : list (nat * regex)) (pos : nat) (inp : chars) (n : nat)
           (caps caps' : captures) : Prop :=
  forall i v, get_capture i caps' = Some v ->
              get_capture i caps = Some v \/ capturedAt groups pos inp n i v.

End RegexSpec.

Module Lookahead.
Import JsStr Regex RegexSpec.

(** A pattern with positive look-ahead [(?=r)], put on top of the
    patterns without it. *)
Inductive xregex : Type :=
| Plain (r : regex)
| Then (x1 x2 : xregex)
| Ahead (r : regex).

(** The matcher: a look-ahead is tried once from the current position,
    keeps the position and does not give other matches on backtracking. *)
Fixpoint xrun {R} (x : xregex) (pos : nat) (inp : chars) (caps : captures)
         (k : nat -> chars -> captures -> option R) {struct x} : option R :=
  match x with
  | Plain r => run r pos inp caps k
  | Then x1 x2 =>
      xrun x1 pos inp caps (fun pos' inp' caps' => xrun x2 pos' inp' caps' k)
  | Ahead r =>
      match run r pos inp caps (fun _ _ caps' => Some caps') with
      | Some caps' => k pos inp caps'
      | None => None
      end
  end.

Fixpoint xsearch_from (x : xregex) (pos : nat) (inp : chars) {struct inp}
  : option match_result :=
  or_else
    (xrun x pos inp [] (fun pos' _ caps => Some (MkMatch pos pos' caps)))
    match inp with
    | [] => None
    | _ :: inp' => xsearch_from x (S pos) inp'
    end.

Definition xexec (x : xregex) (s : string) : option match_result :=
  xsearch_from x 0 (list_ascii_of_string s).

Fixpoint xreach (x : xregex) (pos : nat) (inp : chars) (n : nat) : Prop :=
  match x with
  | Plain r => reach r pos inp n
  | Then x1 x2 =>
      exists n1 n2, n = n1 + n2 /\ xreach x1 pos inp n1
                    /\ xreach x2 (pos + n1) (skipn n1 inp) n2
  | Ahead r => n = 0 /\ exists m, reach r pos inp m
  end.

Fixpoint xmustSet (i : nat) (x : xregex) : bool :=
  match x with
  | Plain r => mustSet i r
  | Then x1 x2 => xmustSet i x1 || xmustSet i x2
  | Ahead r => mustSet i r
  end.

End Lookahead.

(* ================================================================== *)
(** ** Available-courses extractor: [parseAvailableCourses] *)
(* ================================================================== *)

Module GlobalReplace.
Import JsStr Regex.

(** [s.replace(r, "")] for a pattern with the [g] flag: every match is
    removed, the search going on after each; after an empty match it
    goes on one character further. *)
Fixpoint remove_all_from (fuel : nat) (r : regex) (pos : nat) (inp : chars) : chars :=
  match fuel with
  | O => inp
  | S fuel' =>
      match search_from r pos inp with
      | None => inp
      | Some m =>
          let before := m_start m - pos in
          let len := m_end m - m_start m in
          let rest := skipn before inp in
          (firstn before inp
           ++ match len with
              | O =>
                  match rest with
                  | c :: rest' => c :: remove_all_from fuel' r (S (m_start m)) rest'
                  | [] => []
                  end
              | S _ => remove_all_from fuel' r (m_end m) (skipn len rest)
              end)%list
      end
  end.

Definition remove_all (r : regex) (s : string) : string :=
  let l := list_ascii_of_string s in
  string_of_list_ascii (remove_all_from (S (List.length l)) r 0 l).

End GlobalReplace.

Module Available.
Import JsStr Regex Patterns GlobalReplace.

(** [/([A-Z]{2,4}\d{3,4})\s+(.+)/] *)
Definition code_title : regex :=
  seq [Group 1 (course_code false); plus space; Group 2 (plus dot)].

(** [/([A-Z]{2,4}\s+\d{3,4})\s+(.+)/] *)
Definition spaced_code_title : regex :=
  seq [Group 1 (seq [between (upper false) 2 4; plus space; between digit 3 4]);
       plus space; Group 2 (plus dot)].

(** [/([A-Z]{2,4}\d{3,4}[A-Z]?)\s+(.+)/] *)
Definition lettered_code_title : regex :=
  seq [Group 1 (seq [between (upper false) 2 4; between digit 3 4;
                     Repeat (upper false) 0 (Some 1) true]);
       plus space; Group 2 (plus dot)].

(** [/([A-Z]{2,4}\d{3,4})\s*$/] *)
Definition code_only : regex :=
  seq [Group 1 (course_code false); Repeat space 0 None true; Eol].

(** [/\s+/g] *)
Definition white_space_run : regex := plus space.

(** [code.trim().replace(/\s+/g, "")] *)
Definition normalise_code (code : string) : string :=
  remove_all white_space_run (trim code).

(** A method call on a group that is [undefined] throws. *)
Definition defined (x : option string) : result string :=
  match x with
  | Some s => Ok s
  | None => Throw TypeError
  end.

Definition build_titled (line : string) (m : match_result) : result AvailableCourse.t :=
  code <- defined (group line m 1) ;;
  title <- defined (group line m 2) ;;
  Ok (AvailableCourse.Make (normalise_code code) (trim title)).

Definition build_code_only (line : string) (m : match_result) : result AvailableCourse.t :=
  code <- defined (group line m 1) ;;
  Ok (AvailableCourse.Make (normalise_code code) (trim code)).

(** [coursePatterns], each with the record it builds. *)
Definition coursePatterns
  : list (regex * (string -> match_result -> result AvailableCourse.t)) :=
  [(code_title, build_titled);
   (spaced_code_title, build_titled);
   (lettered_code_title, build_titled);
   (code_only, build_code_only)].

(** The loop over [coursePatterns]: the first that matches pushes one
    course and breaks. *)
Fixpoint extractCourse
         (patterns : list (regex * (string -> match_result -> result AvailableCourse.t)))
         (trimmedLine : string) : result (option AvailableCourse.t) :=
  match patterns with
  | [] => Ok None
  | (pattern, build) :: rest =>
      match exec pattern trimmedLine with
      | Some m => c <- build trimmedLine m ;; Ok (Some c)
      | None => extractCourse rest trimmedLine
      end
  end.

(** One iteration of [for (const line of lines)]. *)
Definition step (availableCourses : list AvailableCourse.t) (line : string)
  : result (list AvailableCourse.t) :=
  c <- extractCourse coursePatterns (trim line) ;;
  Ok match c with
     | Some course => (availableCourses ++ [course])%list
     | None => availableCourses
     end.

(** [parseAvailableCourses] from the text of the document on. *)
Definition parseAvailableCourses (content : string) : result (list AvailableCourse.t) :=
  forM step (split "010" content) [].

End Available.

Module AvailableSpec.
Import JsStr.

(** A text without its white space. *)
Definition without_space (l : chars) : chars :=
  filter (fun c => negb (is_space c)) l.

(** A course code: two to four capital letters, three or four digits
    and at most one capital letter after them. *)
Definition isCourseCode (s : string) : bool :=
  let l := list_ascii_of_string s in
  let letters := take_while is_upper l in
  let rest := skipn (List.length letters) l in
  let digits := take_while is_digit rest in
  let suffix := skipn (List.length digits) rest in
  ((2 <=? List.length letters) && (List.length letters <=? 4)
   && (3 <=? List.length digits) && (List.length digits <=? 4)
   && (List.length suffix <=? 1))%nat && forallb is_upper suffix.

(** What the first group of a course pattern can hold: the letters,
    white space, the digits and a letter. *)
Definition codeText (v : chars) : Prop :=
  exists letters spaces digits suffix,
    v = (letters ++ spaces ++ digits ++ suffix)%list
    /\ (2 <= List.length letters <= 4)%nat /\ forallb is_upper letters = true
    /\ forallb is_space spaces = true
    /\ (3 <= List.length digits <= 4)%nat /\ forallb is_digit digits = true
    /\ (List.length suffix <= 1)%nat /\ forallb is_upper suffix = true.

(** The same without the letter at the end. *)
Definition isPlainCourseCode (s : string) : bool :=
  let l := list_ascii_of_string s in
  let letters := take_while is_upper l in
  let digits := skipn (List.length letters) l in
  ((2 <=? List.length letters) && (List.length letters <=? 4)
   && (3 <=? List.length digits) && (List.length digits <=? 4))%nat
  && forallb is_digit digits.

(** White space between a code and a title. *)
Definition isGap (s : string) : bool :=
  negb (s =? "")%string && forallb is_space (list_ascii_of_string s).

(** A title as a listing has it: not empty, on one line, with no white
    space around it. *)
Definition isTitle (s : string) : bool :=
  negb (s =? "")%string
  && forallb (fun c => negb (is_line_terminator c)) (list_ascii_of_string s)
  && (trim s =? s)%string.

(** The line of a course in a listing: the code and the title, or the
    code alone when the title repeats it. *)
Definition line_of (a : AvailableCourse.t) : string :=
  if (AvailableCourse.title a =? AvailableCourse.code a)%string
  then AvailableCourse.code a
  else (AvailableCourse.code a ++ " " ++ AvailableCourse.title a)%string.

(** A listing: one line for each course. *)
Fixpoint listing (l : list AvailableCourse.t) : string :=
  match l with
  | [] => ""
  | [a] => line_of a
  | a :: l' => (line_of a ++ LF ++ listing l')%string
  end.

(** A course that a listing can hold. *)
Definition listed (a : AvailableCourse.t) : bool :=
  isPlainCourseCode (AvailableCourse.code a)
  && ((AvailableCourse.title a =? AvailableCourse.code a)%string
      || isTitle (AvailableCourse.title a)).

End AvailableSpec.

Module CurriculumSpec.
Import JsStr JsNum.

(** An ASCII letter of either case: [[A-Z]] under the [i] flag. *)
Definition isLetter (c : ascii) : bool := is_upper (to_upper c).

(** A code as the curriculum patterns take it: two to four letters and
    three or four digits. *)
Definition isLetterCode (s : string) : bool :=
  let l := list_ascii_of_string s in
  let letters := take_while isLetter l in
  let digits := skipn (List.length letters) l in
  ((2 <=? List.length letters) && (List.length letters <=? 4)
   && (3 <=? List.length digits) && (List.length digits <=? 4))%nat
  && forallb is_digit digits.

Definition categoryTokens : list string :=
  ["AC"; "FC"; "UC"; "FE"; "AE"; "UE"; "CORE"; "ELECTIVE"]%string.

Definition upper_case (s : string) : string :=
  string_of_list_ascii (map to_upper (list_ascii_of_string s)).

(** One of the category tokens, in any letter case. *)
Definition isCategory (s : string) : bool :=
  array_includes categoryTokens (upper_case s).

(** A natural number, or [+Infinity]. *)
Definition naturalOrInfinite (n : jsnum) : Prop :=
  n = Inf false \/ exists z : Z, (0 <= z)%Z /\ n = of_Z z.

(** The list of prerequisites is there and holds no empty entry and no
    dash. *)
Definition cleanPrerequisites (c : CurriculumCourse.t) : Prop :=
  exists ps, CurriculumCourse.prerequisites c = Some ps
             /\ Forall (fun p => p <> ""%string /\ p <> "-"%string) ps.

Record wellFormed (c : CurriculumCourse.t) : Prop := {
  wf_code : isLetterCode (CurriculumCourse.code c) = true;
  wf_category : isCategory (CurriculumCourse.category c) = true;
  wf_lecture : naturalOrInfinite (CurriculumCourse.lecture c);
  wf_tutorial : naturalOrInfinite (CurriculumCourse.tutorial c);
  wf_lab : naturalOrInfinite (CurriculumCourse.lab c);
  wf_totalCredit : naturalOrInfinite (CurriculumCourse.totalCredit c);
  wf_ects : naturalOrInfinite (CurriculumCourse.ects c);
  wf_prerequisites : cleanPrerequisites c
}.

End CurriculumSpec.

(* ================================================================== *)
(** ** Transcript extractor: [parseTranscript], the text branch *)
(* ================================================================== *)

(** The branch for [.pdf] transcripts, from the text of the document
    on: the loop over the lines with the student patterns and the
    eighteen course patterns.  The branch for spreadsheets reads rows
    whose cells have the types the spreadsheet library gives them; it
    is not embedded. *)

Module Transcript.
Import JsStr JsNum Regex Lookahead Patterns.

(** *** [parseFloat], [slice] and [replace] *)

Fixpoint starts_with (p l : chars) : bool :=
  match p, l with
  | [], _ => true
  | a :: p', b :: l' => Ascii.eqb a b && starts_with p' l'
  | _ :: _, [] => false
  end.

(** A sign in front, and what follows it. *)
Definition read_sign (l : chars) : bool * chars :=
  match l with
  | c :: l' =>
      if Ascii.eqb c "-" then (true, l')
      else if Ascii.eqb c "+" then (false, l')
      else (false, l)
  | [] => (false, l)
  end.

Definition pow10 (e : Z) : Q :=
  if (0 <=? e)%Z then inject_Z (10 ^ e) else (1 / inject_Z (10 ^ (- e)))%Q.

(** The exponent part [e], [e+] or [e-] with digits, when there is one
    in front; a lone [e] is not part of the number. *)
Definition read_exponent (l : chars) : Z :=
  match l with
  | e :: l' =>
      if Ascii.eqb e "e" || Ascii.eqb e "E"
      then let '(negative, l'') := read_sign l' in
           match take_while is_digit l'' with
           | [] => 0%Z
           | ds => if negative then (- digits_value ds)%Z else digits_value ds
           end
      else 0%Z
  | [] => 0%Z
  end.

(** [parseFloat(s)]: leading white space is skipped and the longest
    prefix that is a decimal literal is read: a sign, [Infinity] or
    digits with a fraction and an exponent; no such prefix gives
    [NaN].  The result is the Number value for the decimal read. *)
Definition parseFloat_chars (l : chars) : jsnum :=
  let l := drop_while is_space l in
  let '(negative, l) := read_sign l in
  if starts_with (list_ascii_of_string "Infinity") l then Inf negative
  else
    let int := take_while is_digit l in
    let l1 := skipn (List.length int) l in
    let '(frac, l2) :=
      match l1 with
      | d :: l1' =>
          if Ascii.eqb d "."
          then let f := take_while is_digit l1' in (f, skipn (List.length f) l1')
          else ([], l1)
      | [] => ([], l1)
      end in
    match (int ++ frac)%list with
    | [] => NaN
    | ds =>
        let magnitude :=
          (inject_Z (digits_value ds) / pow10 (Z.of_nat (List.length frac))
           * pow10 (read_exponent l2))%Q in
        Binary64.round64 (if negative then (- magnitude)%Q else magnitude)
    end.

(** [parseFloat(x)] where [x] is a string or [undefined]. *)
Definition parseFloat (x : option string) : jsnum :=
  match x with
  | Some s => parseFloat_chars (list_ascii_of_string s)
  | None => NaN
  end.

(** [a || b] on numbers *)
Definition or_number (a b : jsnum) : jsnum := if truthy a then a else b.

(** [s.slice(-1)] *)
Definition slice_last (s : string) : string :=
  let l := list_ascii_of_string s in
  string_of_list_ascii (skipn (List.length l - 1) l).

(** [s.slice(0, -1)] *)
Definition slice_init (s : string) : string :=
  let l := list_ascii_of_string s in
  string_of_list_ascii (firstn (List.length l - 1) l).

Fixpoint replace_first (a b : ascii) (l : chars) : chars :=
  match l with
  | [] => []
  | c :: l' => if Ascii.eqb c a then b :: l' else c :: replace_first a b l'
  end.

(** [s.replace(",", ".")]: the first comma only. *)
Definition replace_comma (s : string) : string :=
  string_of_list_ascii (replace_first "," "." (list_ascii_of_string s)).

(** *** The patterns *)

Definition one_of (s : string) : charset :=
  fun c => existsb (Ascii.eqb c) (list_ascii_of_string s).

(** [cs?] and [cs*] *)
Definition opt (cs : charset) : regex := Repeat cs 0 (Some 1) true.
Definition star (cs : charset) : regex := Repeat cs 0 None true.

(** [[A-F]] *)
Definition grade_letter : charset := in_range 65 70.

(** [[A-F][+-]?] *)
Definition signed_grade : regex := seq [Chr grade_letter; opt (one_of "+-")].

(** [[A-F][+-]?|W|P|F\*?] *)
Definition grade_token : regex :=
  alt [signed_grade; lit false "W"; lit false "P"; seq [lit false "F"; opt (one_of "*")]].

(** [\d+\.\d+] *)
Definition decimal : regex := seq [plus digit; Chr (one_of "."); plus digit].
(** [\d+,\d+] *)
Definition comma_decimal : regex := seq [plus digit; Chr (one_of ","); plus digit].
(** [\d+\.?\d*] *)
Definition number : regex := seq [plus digit; opt (one_of "."); star digit].

(** [[A-Z]{2,4}\d{3,4}[A-Z]?] *)
Definition code_opt : regex :=
  seq [between (upper false) 2 4; between digit 3 4; opt (upper false)].
(** [[A-Z]{2,4}\d{3,4}[A-Z]] *)
Definition code_letter : regex :=
  seq [between (upper false) 2 4; between digit 3 4; Chr (upper false)].

(** [\s*[|\t]\s*] *)
Definition separator : regex :=
  seq [star space; Chr (fun c => Ascii.eqb c "|" || Ascii.eqb c "009"); star space].

(** [(?=\s+\d|$)] *)
Definition before_number_or_end : xregex :=
  Ahead (alt [seq [plus space; Chr digit]; Eol]).

(** Pattern 1: CODE TITLE ECTS GRADE CREDITS GRADEPOINTS *)
Definition pattern_1 : regex :=
  seq [Group 1 (course_code false); plus space; Group 2 (plus_lazy dot); plus space;
       Group 3 decimal; plus space; Group 4 grade_token; plus space;
       Group 5 decimal; plus space; Group 6 decimal].

(** Pattern 2: CODE TITLE GRADE CREDITS ECTS *)
Definition pattern_2 : regex :=
  seq [Group 1 (course_code false); plus space; Group 2 (plus_lazy dot); plus space;
       Group 3 grade_token; plus space; Group 4 (plus digit); plus space;
       Group 5 (plus digit)].

(** Pattern 3: CODE TITLE GRADE CREDITS *)
Definition pattern_3 : regex :=
  seq [Group 1 (course_code false); plus space; Group 2 (plus_lazy dot); plus space;
       Group 3 grade_token; plus space; Group 4 (plus digit)].

(** Pattern 4: [/([A-Z]{2,4}\d{3,4}[A-Z]?)\s+(\d+\.\d+)\s+(\d+\.\d+)\s+(\d+,\d+)/] *)
Definition pattern_4 : regex :=
  seq [Group 1 code_opt; plus space; Group 2 decimal; plus space;
       Group 3 decimal; plus space; Group 4 comma_decimal].

(** Pattern 5: [/([A-Z]{2,4}\d{3,4}[A-Z]?)\s+(.+?)\s+([A-F][+-]?|W|P|F\*?)\s+(\d+\.\d+)/] *)
Definition pattern_5 : regex :=
  seq [Group 1 code_opt; plus space; Group 2 (plus_lazy dot); plus space;
       Group 3 grade_token; plus space; Group 4 decimal].

(** Pattern 6: [/([A-Z]{2,4}\d{3,4}[A-Z]?)\s+(.+?)(?=\s+\d|$)/] *)
Definition pattern_6 : xregex :=
  Then (Plain (seq [Group 1 code_opt; plus space; Group 2 (plus_lazy dot)]))
       before_number_or_end.

(** Pattern 7: [/([A-Z]{2,4}\d{3,4}[A-Z])\s+(\d+\.\d+)\s+(\d+\.\d+)\s+(\d+,\d+)/] *)
Definition pattern_7 : regex :=
  seq [Group 1 code_letter; plus space; Group 2 decimal; plus space;
       Group 3 decimal; plus space; Group 4 comma_decimal].

(** Pattern 8: [/([A-Z]{2,4}\d{3,4}[A-Z])\s+(.+?)\s+([A-F][+-]?|W|P|F\*?)/] *)
Definition pattern_8 : regex :=
  seq [Group 1 code_letter; plus space; Group 2 (plus_lazy dot); plus space;
       Group 3 grade_token].

(** Pattern 9: [/([A-Z]{2,4}\d{3,4}[A-Z])\s+([A-F][+-]?|W|P|F\*?)/] *)
Definition pattern_9 : regex :=
  seq [Group 1 code_letter; plus space; Group 2 grade_token].

(** Pattern 10: [/([A-Z]{2,4}\d{3,4}[A-Z]?)\s+(.+?)\s+([A-F][+-]?|W|P|F\*?)\s+(\d+)/] *)
Definition pattern_10 : regex :=
  seq [Group 1 code_opt; plus space; Group 2 (plus_lazy dot); plus space;
       Group 3 grade_token; plus space; Group 4 (plus digit)].

(** Pattern 11: [/([A-Z]{2,4}\d{3,4}[A-Z]?)\s+(N)\s+(N)\s+(N)/], where [N] stands
    for [\d+\.?\d*] *)
Definition pattern_11 : regex :=
  seq [Group 1 code_opt; plus space; Group 2 number; plus space;
       Group 3 number; plus space; Group 4 number].

(** Pattern 12:
[/([A-Z]{2,4}\d{3,4}[A-Z]?)\s*[|\t]\s*(.+?)\s*[|\t]\s*([A-F][+-]?|W|P|F\*?)\s*[|\t]\s*(N)/],
    where [N] stands for [\d+\.?\d*] *)
Definition pattern_12 : regex :=
  seq [Group 1 code_opt; separator; Group 2 (plus_lazy dot); separator;
       Group 3 grade_token; separator; Group 4 number].

(** Pattern 13: [/([A-Z]{2,4}\d{3,4}[A-Z]?)\s+(N)/], where [N] stands for
    [\d+\.?\d*] *)
Definition pattern_13 : regex :=
  seq [Group 1 code_opt; plus space; Group 2 number].

(** Pattern 14: [/([A-Z]{2,4}\d{3,4}[A-Z]?)\s{2,}(.+?)(?=\s+\d|$)/] *)
Definition pattern_14 : xregex :=
  Then (Plain (seq [Group 1 code_opt; Repeat space 2 None true; Group 2 (plus_lazy dot)]))
       before_number_or_end.

(** Pattern 15:
[/([A-Z]{2,4}\d{3,4}[A-Z]?)\s+([A-F][+-]?)\s+(\d+\.\d+)\s+(\d+\.\d+)\s+(\d+,\d+)/] *)
Definition pattern_15 : regex :=
  seq [Group 1 code_opt; plus space; Group 2 signed_grade; plus space;
       Group 3 decimal; plus space; Group 4 decimal; plus space; Group 5 comma_decimal].

(** Pattern 16:
[/([A-Z]{2,4}\d{3,4}[A-Z]?)\s+([A-F][+-]?)\s+(\d+\.\d+)\s+(\d+\.\d+)\s+(\d+\.\d+)/] *)
Definition pattern_16 : regex :=
  seq [Group 1 code_opt; plus space; Group 2 signed_grade; plus space;
       Group 3 decimal; plus space; Group 4 decimal; plus space; Group 5 decimal].

(** Pattern 17: [/([A-Z]{2,4}\d{3,4})([A-F][+-]?)\s+(\d+\.\d+)\s+(\d+\.\d+)\s+(\d+,\d+)/] *)
Definition pattern_17 : regex :=
  seq [Group 1 (course_code false); Group 2 signed_grade; plus space;
       Group 3 decimal; plus space; Group 4 decimal; plus space; Group 5 comma_decimal].

(** Pattern 18: [/([A-Z]{2,4}\d{3,4})([A-F][+-]?)\s+(\d+\.\d+)\s+(\d+\.\d+)\s+(\d+\.\d+)/] *)
Definition pattern_18 : regex :=
  seq [Group 1 (course_code false); Group 2 signed_grade; plus space;
       Group 3 decimal; plus space; Group 4 decimal; plus space; Group 5 decimal].

(** [coursePatterns], in the order of the array. *)
Definition coursePatterns : list xregex :=
  [Plain pattern_1; Plain pattern_2; Plain pattern_3; Plain pattern_4; Plain pattern_5;
   pattern_6; Plain pattern_7; Plain pattern_8; Plain pattern_9; Plain pattern_10;
   Plain pattern_11; Plain pattern_12; Plain pattern_13; pattern_14; Plain pattern_15;
   Plain pattern_16; Plain pattern_17; Plain pattern_18].

(** [[:\s]] and [[:\s-]] *)
Definition colon_space : charset := fun c => Ascii.eqb c ":" || is_space c.
Definition colon_space_dash : charset :=
  fun c => Ascii.eqb c ":" || is_space c || Ascii.eqb c "-".

(** [/Student No[:\s]+(\d+)/] *)
Definition student_no : regex :=
  seq [lit false "Student No"; plus colon_space; Group 1 (plus digit)].
(** [/Name[:\s]+(.+)/] *)
Definition student_name : regex :=
  seq [lit false "Name"; plus colon_space; Group 1 (plus dot)].
(** [/Department[:\s-]+Program[:\s]+(.+)/] *)
Definition department_program : regex :=
  seq [lit false "Department"; plus colon_space_dash; lit false "Program";
       plus colon_space; Group 1 (plus dot)].
(** [/Program[:\s]+(.+)/] *)
Definition student_program : regex :=
  seq [lit false "Program"; plus colon_space; Group 1 (plus dot)].

Inductive key : Type := studentNoKey | nameKey | programKey.

Definition studentPatterns : list (regex * key) :=
  [(student_no, studentNoKey); (student_name, nameKey);
   (department_program, programKey); (student_program, programKey)].

(** *** The records *)

(** A method call on a group that is [undefined] throws. *)
Definition defined (x : option string) : result string :=
  match x with
  | Some s => Ok s
  | None => Throw TypeError
  end.

(** [studentInfo[key] = value] *)
Definition assign (info : StudentInfo) (k : key) (value : string) : StudentInfo :=
  match k with
  | studentNoKey =>
      {| studentNo := Some value; name := name info; program := program info |}
  | nameKey =>
      {| studentNo := studentNo info; name := Some value; program := program info |}
  | programKey =>
      {| studentNo := studentNo info; name := name info; program := Some value |}
  end.

(** The loop over [studentPatterns]: every pattern that matches assigns
    [match[1].trim()] to its key; the loop does not break. *)
Fixpoint readStudentInfo (patterns : list (regex * key)) (line : string)
         (info : StudentInfo) : result StudentInfo :=
  match patterns with
  | [] => Ok info
  | (pattern, k) :: rest =>
      match exec pattern line with
      | Some m =>
          value <- defined (group line m 1) ;;
          readStudentInfo rest line (assign info k (trim value))
      | None => readStudentInfo rest line info
      end
  end.

(** The first pattern of the array that matches, with its index. *)
Fixpoint firstMatch (patterns : list xregex) (index : nat) (line : string)
  : option (nat * match_result) :=
  match patterns with
  | [] => None
  | pattern :: rest =>
      match xexec pattern line with
      | Some m => Some (index, m)
      | None => firstMatch rest (S index) line
      end
  end.

(** Code, title and grade as groups, numbers read from groups. *)
Definition graded (code title grade : option string) (credits ects gradePoints : jsnum)
  : result CompletedCourse.t :=
  code <- defined code ;;
  title <- defined title ;;
  grade <- defined grade ;;
  Ok (CompletedCourse.Make (trim code) (trim title) (trim grade)
        credits ects gradePoints None (Engine.isPassingGrade (trim grade))).

(** The formats without a title: the grade is a group. *)
Definition untitled (code grade : option string) (credits : result jsnum)
           (ects gradePoints : jsnum) : result CompletedCourse.t :=
  code <- defined code ;;
  grade <- defined grade ;;
  credits <- credits ;;
  Ok (CompletedCourse.Make (trim code) "" (trim grade)
        credits ects gradePoints None (Engine.isPassingGrade (trim grade))).

(** The formats without a grade: the course is taken as passed. *)
Definition assumed_passed (code : option string) (title : result string)
           (credits : result jsnum) (ects gradePoints : jsnum)
  : result CompletedCourse.t :=
  code <- defined code ;;
  title <- title ;;
  credits <- credits ;;
  Ok (CompletedCourse.Make (trim code) title "P" credits ects gradePoints None true).

(** [parseFloat(credits.replace(",", "."))] *)
Definition comma_credits (credits : option string) : result jsnum :=
  credits <- defined credits ;;
  Ok (parseFloat (Some (replace_comma credits))).

(** [title.trim()] *)
Definition trimmed (title : option string) : result string :=
  title <- defined title ;;
  Ok (trim title).

(** The chain of [if (pattern === coursePatterns[i])]: the record that
    the branch of index [index] builds.  Index 2 has no branch of its
    own and is served by the final [else]. *)
Definition courseData (index : nat) (line : string) (m : match_result)
  : result CompletedCourse.t :=
  let g := group line m in
  match index with
  | 0 => graded (g 1) (g 2) (g 4) (parseFloat (g 5)) (parseFloat (g 3)) (parseFloat (g 6))
  | 1 => graded (g 1) (g 2) (g 3) (parseFloat (g 4)) (parseFloat (g 5)) (of_Z 0)
  | 3 => assumed_passed (g 1) (Ok ""%string) (comma_credits (g 4))
           (parseFloat (g 2)) (parseFloat (g 3))
  | 4 => graded (g 1) (g 2) (g 3) (parseFloat (g 4)) (parseFloat (g 4)) (of_Z 0)
  | 5 => assumed_passed (g 1) (trimmed (g 2)) (Ok (of_Z 3)) (of_Z 3) (of_Z 0)
  | 6 =>
      code <- defined (g 1) ;;
      let grade := slice_last code in
      let code' := trim (slice_init code) in
      credits <- comma_credits (g 4) ;;
      Ok (CompletedCourse.Make code' "" grade credits (parseFloat (g 2)) (parseFloat (g 3))
            None (Engine.isPassingGrade grade))
  | 7 => graded (g 1) (g 2) (g 3) (of_Z 3) (of_Z 3) (of_Z 0)
  | 8 => untitled (g 1) (g 2) (Ok (of_Z 3)) (of_Z 3) (of_Z 0)
  | 9 => graded (g 1) (g 2) (g 3) (parseFloat (g 4)) (parseFloat (g 4)) (of_Z 0)
  | 10 => assumed_passed (g 1) (Ok ""%string)
            (Ok (or_number (parseFloat (g 4)) (of_Z 3)))
            (or_number (parseFloat (g 2)) (of_Z 3))
            (or_number (parseFloat (g 3)) (of_Z 0))
  | 11 => graded (g 1) (g 2) (g 3)
            (or_number (parseFloat (g 4)) (of_Z 3))
            (or_number (parseFloat (g 4)) (of_Z 3)) (of_Z 0)
  | 12 => assumed_passed (g 1) (Ok ""%string)
            (Ok (or_number (parseFloat (g 2)) (of_Z 3)))
            (or_number (parseFloat (g 2)) (of_Z 3)) (of_Z 0)
  | 13 => assumed_passed (g 1) (trimmed (g 2)) (Ok (of_Z 3)) (of_Z 3) (of_Z 0)
  | 14 | 16 =>
      untitled (g 1) (g 2) (comma_credits (g 5)) (parseFloat (g 3)) (parseFloat (g 4))
  | 15 | 17 =>
      untitled (g 1) (g 2) (Ok (parseFloat (g 5))) (parseFloat (g 3)) (parseFloat (g 4))
  | _ => graded (g 1) (g 2) (g 3) (parseFloat (g 4)) (parseFloat (g 4)) (of_Z 0)
  end.

(** The state of the loop over the lines. *)
Record state : Type := {
  completed : JsMap.t CompletedCourse.t;
  info : StudentInfo
}.

Definition initial : state :=
  {| completed := JsMap.empty _;
     info := {| studentNo := None; name := None; program := None |} |}.

(** The loop over [coursePatterns]: the first pattern that matches
    stores one record under its code and breaks. *)
Definition readCourse (line : string) (completedCourses : JsMap.t CompletedCourse.t)
  : result (JsMap.t CompletedCourse.t) :=
  match firstMatch coursePatterns 0 line with
  | Some (index, m) =>
      courseData <- courseData index line m ;;
      Ok (JsMap.set completedCourses (CompletedCourse.code courseData) courseData)
  | None => Ok completedCourses
  end.

(** One iteration of [for (const line of lines)]; the line is not
    trimmed. *)
Definition step (st : state) (line : string) : result state :=
  info' <- readStudentInfo studentPatterns line (info st) ;;
  completed' <- readCourse line (completed st) ;;
  Ok {| completed := completed'; info := info' |}.

(** [parseTranscript] on the text of a PDF transcript: the completed
    courses and the student information it returns and stores. *)
Definition parseTranscript (content : string) : result state :=
  forM step (split "010" content) initial.

End Transcript.

Module TranscriptSpec.
Import JsStr JsNum Regex Lookahead Transcript SpecMore.

(** What holds of every stored record. *)
Record soundEntry (k : string) (c : CompletedCourse.t) : Prop := {
  se_key : k = CompletedCourse.code c;
  se_passed : CompletedCourse.passed c = Engine.isPassingGrade (CompletedCourse.grade c);
  se_credits : nonnegativeOrInfinite (CompletedCourse.credits c);
  se_ects : nonnegativeOrInfinite (CompletedCourse.ects c);
  se_gradePoints : nonnegativeOrInfinite (CompletedCourse.gradePoints c);
  se_semester : CompletedCourse.semester c = None
}.

(** The indices of [coursePatterns] (from 0) whose branch some line
    reaches, and those whose branch no line reaches: patterns 7, 10,
    11, 14, 15 and 16. *)
Definition liveBranches : list nat := [0; 1; 2; 3; 4; 5; 7; 8; 11; 12; 16; 17].
Definition deadBranches : list nat := [6; 9; 10; 13; 14; 15].

(** The student patterns without [Department ... Program]. *)
Definition studentPatternsShort : list (regex * key) :=
  [(student_no, studentNoKey); (student_name, nameKey); (student_program, programKey)].

(** The record that a line gives, when it gives one. *)
Definition recordOf (line : string) : option CompletedCourse.t :=
  match firstMatch coursePatterns 0 line with
  | Some (index, m) =>
      match courseData index line m with
      | Ok c => Some c
      | Throw _ => None
      end
  | None => None
  end.

(** The records of the lines, in the order of the lines. *)
Definition records (lines : list string) : list CompletedCourse.t :=
  flat_map (fun line => match recordOf line with Some c => [c] | None => [] end) lines.

(** The last of the records with code [k]. *)
Definition lastRecord (k : string) (l : list CompletedCourse.t) : option CompletedCourse.t :=
  find (fun c => String.eqb (CompletedCourse.code c) k) (rev l).

(** A carriage return, as a string. *)
Definition CR : string := String "013" EmptyString.

(** A transcript line whose number of credits has 310 digits. *)
Definition overlongCreditsLine : string :=
  ("CS101 Intro to Programming A 1" ++ Scenario.zeros 309)%string.

(** An advisor that holds the completed courses read from [content]. *)
Definition holding (content : string) : Advisor :=
  {| curriculum := [];
     completedCourses :=
       match parseTranscript content with
       | Ok st => completed st
       | Throw _ => JsMap.empty _
       end;
     availableCourses := [];
     studentInfo := {| studentNo := None; name := None; program := None |} |}.

End TranscriptSpec.

(* ================================================================== *)
(** ** The two workflows: [processDocuments] and the JSON workflow *)
(* ================================================================== *)

Module Workflow.
Import Engine Persistence.

(** A method of the advisor: it may assign fields of [this] and then
    return or throw; what it assigned stays assigned when it throws. *)
Definition method (A : Type) : Type := Advisor -> Advisor * result A.

Definition andThen {A B} (m : method A) (k : A -> method B) : method B :=
  fun this =>
    match m this with
    | (this', Ok a) => k a this'
    | (this', Throw e) => (this', Throw e)
    end.

Definition lift {A} (r : result A) : method A := fun this => (this, r).

Notation "x <~ m ;;; k" := (andThen m (fun x => k))
  (at level 61, m at next level, right associativity).

(** A document as the parsers see it: the text taken from the file
    (empty when the extension is not one they read), or the exception
    of reading it.  A spreadsheet transcript is not covered. *)
Definition document : Type := result string.

(** [await this.parseCurriculum(path)] *)
Definition parseCurriculum (doc : document) : method (list CurriculumCourse.t) :=
  content <~ lift doc ;;;
  parsed <~ lift (Extractor.parseCurriculum content) ;;;
  fun this =>
    ({| curriculum := parsed;
        completedCourses := completedCourses this;
        availableCourses := availableCourses this;
        studentInfo := studentInfo this |}, Ok parsed).

(** [await this.parseTranscript(path)] for a transcript that is not a
    spreadsheet *)
Definition parseTranscript (doc : document) : method Transcript.state :=
  content <~ lift doc ;;;
  parsed <~ lift (Transcript.parseTranscript content) ;;;
  fun this =>
    ({| curriculum := curriculum this;
        completedCourses := Transcript.completed parsed;
        availableCourses := availableCourses this;
        studentInfo := Transcript.info parsed |}, Ok parsed).

(** [await this.parseAvailableCourses(path)] *)
Definition parseAvailableCourses (doc : document) : method (list AvailableCourse.t) :=
  content <~ lift doc ;;;
  parsed <~ lift (Available.parseAvailableCourses content) ;;;
  fun this =>
    ({| curriculum := curriculum this;
        completedCourses := completedCourses this;
        availableCourses := parsed;
        studentInfo := studentInfo this |}, Ok parsed).

(** [processDocuments(...)]: the instance after the call and what the
    call resolves to. *)
Definition processDocuments (curriculumDoc transcriptDoc availableDoc : document)
           (this : Advisor) : Advisor * Response :=
  let body : method (ProgressReport * Recommendations) :=
    _ <~ parseCurriculum curriculumDoc ;;;
    _ <~ parseTranscript transcriptDoc ;;;
    _ <~ parseAvailableCourses availableDoc ;;;
    recommendations <~ (fun this => (this, getRecommendedCourses this)) ;;;
    fun this => (this, Ok (generateProgressReport this, recommendations)) in
  match body this with
  | (this', Ok (progressReport, recommendations)) =>
      (this', Success progressReport recommendations "Documents processed successfully")
  | (this', Throw error) => (this', Failure error)
  end.

(** What [parseAndSaveDocuments] resolves to; the path of the file is
    left out. *)
Inductive SaveResponse : Type :=
| Saved (parsedData : ParsedData) (message : string)
| NotSaved (error : exn).

(** [saveParsedData()]: [writeError] is the exception of creating the
    directory or writing the file, when there is one; the content of
    [parsed_data.json] after the call. *)
Definition saveParsedData (writeError : option exn) (file : option ParsedData)
           (this : Advisor) : option ParsedData * result unit :=
  match writeError with
  | Some e => (file, Throw e)
  | None => (Some (getParsedDataAsJSON this), Ok tt)
  end.

(** [parseAndSaveDocuments(...)]: the instance and the file after the
    call, and what the call resolves to. *)
Definition parseAndSaveDocuments (curriculumDoc transcriptDoc availableDoc : document)
           (writeError : option exn) (file : option ParsedData) (this : Advisor)
  : Advisor * option ParsedData * SaveResponse :=
  let parse : method unit :=
    _ <~ parseCurriculum curriculumDoc ;;;
    _ <~ parseTranscript transcriptDoc ;;;
    _ <~ parseAvailableCourses availableDoc ;;;
    lift (Ok tt) in
  match parse this with
  | (this', Ok _) =>
      match saveParsedData writeError file this' with
      | (file', Ok _) =>
          (this', file',
           Saved (getParsedDataAsJSON this')
                 "Documents parsed and saved to JSON successfully")
      | (file', Throw error) => (this', file', NotSaved error)
      end
  | (this', Throw error) => (this', file, NotSaved error)
  end.

(** The advisor with the three documents parsed into it. *)
Definition parsedFrom (curriculumText transcriptText availableText : string)
  : option Advisor :=
  match Extractor.parseCurriculum curriculumText,
        Transcript.parseTranscript transcriptText,
        Available.parseAvailableCourses availableText with
  | Ok parsedCurriculum, Ok parsedTranscript, Ok parsedAvailable =>
      Some {| curriculum := parsedCurriculum;
              completedCourses := Transcript.completed parsedTranscript;
              availableCourses := parsedAvailable;
              studentInfo := Transcript.info parsedTranscript |}
  | _, _, _ => None
  end.

End Workflow.

(* ================================================================== *)
(** ** Properties *)
(* ================================================================== *)

Unset Implicit Arguments.

(** *** Numbers *)

Module JsNumFacts.
Local Open Scope Z_scope.

Lemma Qred_inject_Z (z : Z) : Qred (inject_Z z) = inject_Z z.
Proof.
  apply Qcanon.Qred_identity. simpl. apply Z.gcd_1_r.
Qed.

Lemma fin_inject_Z (q : Q) (z : Z) : (q == inject_Z z)%Q -> fin q = of_Z z.
Proof.
  intros H. unfold fin, of_Z. f_equal.
  rewrite (Qred_complete _ _ H). apply Qred_inject_Z.
Qed.

Lemma add_of_Z (a b : Z) : add (of_Z a) (of_Z b) = of_Z (a + b).
Proof.
  unfold of_Z at 1 2. simpl. apply fin_inject_Z.
  rewrite inject_Z_plus. reflexivity.
Qed.

Lemma neg_of_Z (a : Z) : neg (of_Z a) = of_Z (- a).
Proof.
  unfold of_Z at 1. simpl. apply fin_inject_Z.
  rewrite inject_Z_opp. reflexivity.
Qed.

Lemma sub_of_Z (a b : Z) : sub (of_Z a) (of_Z b) = of_Z (a - b).
Proof.
  unfold sub. rewrite neg_of_Z, add_of_Z. reflexivity.
Qed.

Lemma mul_of_Z (a b : Z) : mul (of_Z a) (of_Z b) = of_Z (a * b).
Proof.
  unfold of_Z at 1 2. simpl. apply fin_inject_Z.
  rewrite inject_Z_mult. reflexivity.
Qed.

Lemma Qle_bool_inject_Z (a b : Z) : Qle_bool (inject_Z a) (inject_Z b) = (a <=? b).
Proof.
  unfold Qle_bool. simpl. rewrite !Z.mul_1_r. reflexivity.
Qed.

Lemma Qeq_bool_inject_Z (a b : Z) : Qeq_bool (inject_Z a) (inject_Z b) = (a =? b).
Proof.
  unfold Qeq_bool. simpl. rewrite !Z.mul_1_r.
  destruct (Z.eqb_spec a b) as [->|Hne].
  - destruct (Z.eq_dec b b); [reflexivity | contradiction].
  - destruct (Z.eq_dec a b); [contradiction | reflexivity].
Qed.

Lemma lt_of_Z (a b : Z) : lt (of_Z a) (of_Z b) = (a <? b).
Proof.
  unfold lt, of_Z, Qlt_bool. rewrite Qle_bool_inject_Z.
  rewrite Z.ltb_antisym. reflexivity.
Qed.

Lemma strict_eq_of_Z (a b : Z) : strict_eq (of_Z a) (of_Z b) = (a =? b).
Proof. unfold strict_eq, of_Z. apply Qeq_bool_inject_Z. Qed.

Lemma le_of_Z (a b : Z) : le (of_Z a) (of_Z b) = (a <=? b).
Proof.
  unfold le. rewrite lt_of_Z, strict_eq_of_Z.
  destruct (Z.ltb_spec a b), (Z.eqb_spec a b), (Z.leb_spec a b); simpl; try reflexivity; lia.
Qed.

Lemma gt_of_Z (a b : Z) : gt (of_Z a) (of_Z b) = (b <? a).
Proof. unfold gt. apply lt_of_Z. Qed.


Lemma of_Z_inj (a b : Z) : of_Z a = of_Z b -> a = b.
Proof. unfold of_Z, inject_Z. intros H. injection H. auto. Qed.

End JsNumFacts.

(** *** Binary64 rounding *)

Module Binary64Facts.
Import JsNumFacts Binary64.
Local Open Scope Q_scope.

Lemma pow2_pos (e : Z) : 0 < pow2 e.
Proof. apply Qpower_0_lt. reflexivity. Qed.

Lemma pow2_add (a b : Z) : pow2 (a + b) == pow2 a * pow2 b.
Proof. apply Qpower_plus. discriminate. Qed.

Lemma pow2_sub (a b : Z) : pow2 (a - b) == pow2 a / pow2 b.
Proof. apply Qpower_minus. discriminate. Qed.

Lemma pow2_Z (e : Z) : (0 <= e)%Z -> pow2 e == inject_Z (2 ^ e).
Proof. intros H. unfold pow2. symmetry. exact (Zpower_Qpower 2 e H). Qed.

Lemma pow2_le (a b : Z) : (a <= b)%Z -> pow2 a <= pow2 b.
Proof. intros H. apply Qpower_le_compat_l; [exact H | discriminate]. Qed.

Lemma pow2_lt_inv (a b : Z) : pow2 a < pow2 b -> (a < b)%Z.
Proof.
  intros H. destruct (Z.lt_ge_cases a b) as [Hlt | Hge]; [exact Hlt |].
  apply pow2_le in Hge. exfalso. apply (Qlt_irrefl (pow2 a)).
  eapply Qlt_le_trans; eassumption.
Qed.

Lemma pow2_cancel (e : Z) (q : Q) : q / pow2 e * pow2 e == q.
Proof.
  unfold Qdiv. rewrite <- Qmult_assoc, (Qmult_comm (/ pow2 e)), Qmult_inv_r.
  - apply Qmult_1_r.
  - intros H. pose proof (pow2_pos e) as Hp. rewrite H in Hp. discriminate.
Qed.

(** Multiplying an integer by a power of two that is itself an integer. *)
Lemma pow2_scale (z : Z) (j e : Z) :
  (e <= - j)%Z ->
  inject_Z z * pow2 (- j) / pow2 e == inject_Z (z * 2 ^ (- j - e)).
Proof.
  intros H. rewrite inject_Z_mult, <- pow2_Z by lia.
  rewrite pow2_sub. unfold Qdiv. now rewrite Qmult_assoc.
Qed.

Lemma nearest_even_floor (q : Q) : (Qfloor q <= nearest_even q <= Qfloor q + 1)%Z.
Proof.
  unfold nearest_even. destruct (Qcompare (q - inject_Z (Qfloor q)) (Qmake 1 2));
    [destruct (Z.even (Qfloor q)) | |]; lia.
Qed.

Lemma nearest_even_ge (q : Q) (k : Z) : inject_Z k <= q -> (k <= nearest_even q)%Z.
Proof.
  intros H. apply Qfloor_resp_le in H. rewrite Qfloor_Z in H.
  pose proof (nearest_even_floor q). lia.
Qed.

Lemma nearest_even_le (q : Q) (k : Z) : q <= inject_Z k -> (nearest_even q <= k)%Z.
Proof.
  intros H. pose proof (nearest_even_floor q) as Hf.
  pose proof (Qfloor_resp_le _ _ H) as Hk. rewrite Qfloor_Z in Hk.
  destruct (Z.eq_dec (Qfloor q) k) as [Heq | Hne]; [| lia].
  unfold nearest_even.
  assert (Hlt : q - inject_Z (Qfloor q) < Qmake 1 2).
  { rewrite Heq. apply Qle_lt_trans with (y := 0); [| reflexivity].
    apply (Qplus_le_l _ _ (inject_Z k)). ring_simplify. exact H. }
  assert (Hc : Qcompare (q - inject_Z (Qfloor q)) (Qmake 1 2) = Lt)
    by (apply Qlt_alt; exact Hlt).
  rewrite Hc. lia.
Qed.

Lemma nearest_even_Z (q : Q) (z : Z) : q == inject_Z z -> nearest_even q = z.
Proof.
  intros H. apply Z.le_antisymm.
  - apply nearest_even_le. rewrite H. apply Qle_refl.
  - apply nearest_even_ge. rewrite H. apply Qle_refl.
Qed.

(** [ilog2] is the integer logarithm. *)
Lemma ilog2_spec (q : Q) : 0 < q -> pow2 (ilog2 q) <= q /\ q < pow2 (ilog2 q + 1).
Proof.
  destruct q as [n d]. intros Hq.
  assert (Hn : (0 < n)%Z).
  { unfold Qlt in Hq. simpl in Hq. lia. }
  unfold ilog2. cbn [Qnum Qden].
  set (ln := Z.log2 n). set (ld := Z.log2 (Z.pos d)).
  destruct (Z.log2_spec n Hn) as [Hn1 Hn2]. fold ln in Hn1, Hn2.
  destruct (Z.log2_spec (Z.pos d) eq_refl) as [Hd1 Hd2]. fold ld in Hd1, Hd2.
  assert (Hln : (0 <= ln)%Z) by apply Z.log2_nonneg.
  assert (Hld : (0 <= ld)%Z) by apply Z.log2_nonneg.
  assert (Hnd : Qmake n d == inject_Z n / inject_Z (Z.pos d)) by apply Qmake_Qdiv.
  assert (Hdpos : 0 < inject_Z (Z.pos d)) by reflexivity.
  destruct (Qle_bool (pow2 (ln - ld)) (Qmake n d)) eqn:Hb.
  - split; [now apply Qle_bool_iff |].
    replace (ln - ld + 1)%Z with ((ln + 1) - ld)%Z by lia.
    rewrite pow2_sub, Hnd, !pow2_Z by lia.
    apply Qlt_shift_div_l; [rewrite <- pow2_Z by lia; apply pow2_pos |].
    unfold Qdiv. rewrite <- Qmult_assoc, (Qmult_comm (/ _)), Qmult_assoc.
    apply Qlt_shift_div_r; [exact Hdpos |].
    rewrite <- !inject_Z_mult, <- Zlt_Qlt. nia.
  - split.
    + replace (ln - ld - 1)%Z with (ln - (ld + 1))%Z by lia.
      rewrite pow2_sub, Hnd, !pow2_Z by lia.
      apply Qle_shift_div_r; [rewrite <- pow2_Z by lia; apply pow2_pos |].
      unfold Qdiv. rewrite <- Qmult_assoc, (Qmult_comm (/ _)), Qmult_assoc.
      apply Qle_shift_div_l; [exact Hdpos |].
      rewrite <- !inject_Z_mult, <- Zle_Qle. nia.
    + replace (ln - ld - 1 + 1)%Z with (ln - ld)%Z by lia.
      apply Qnot_le_lt. intros H. apply Qle_bool_iff in H. congruence.
Qed.

Lemma ilog2_lt (q : Q) (t : Z) : 0 < q -> q < pow2 t -> (ilog2 q < t)%Z.
Proof.
  intros Hq Ht. apply pow2_lt_inv.
  eapply Qle_lt_trans; [apply (ilog2_spec q Hq) | exact Ht].
Qed.

Lemma round64_comp (p q : Q) : p == q -> round64 p = round64 q.
Proof. intros H. unfold round64. now rewrite (Qred_complete _ _ H). Qed.

Lemma round64_zero (q : Q) : q == 0 -> round64 q = of_Z 0.
Proof. intros H. rewrite (round64_comp _ _ H). reflexivity. Qed.

(** What [round64] computes on a positive real. *)
Lemma round64_positive (q : Q) :
  0 < q ->
  exists e v,
    e = ulp_exponent (Qabs (Qred q))
    /\ v = inject_Z (nearest_even (q / pow2 e)) * pow2 e
    /\ round64 q = if Qle_bool (pow2 1024) v then Inf false else fin v.
Proof.
  intros Hq.
  assert (Hred : Qred q == q) by apply Qred_correct.
  assert (Habs : Qabs (Qred q) == q).
  { rewrite Hred. apply Qabs_pos. now apply Qlt_le_weak. }
  exists (ulp_exponent (Qabs (Qred q))).
  exists (inject_Z (nearest_even (q / pow2 (ulp_exponent (Qabs (Qred q)))))
          * pow2 (ulp_exponent (Qabs (Qred q)))).
  split; [reflexivity |]. split; [reflexivity |].
  unfold round64. cbv zeta.
  assert (Hz : Qis_zero (Qred q) = false).
  { unfold Qis_zero. destruct (Qeq_bool (Qred q) 0) eqn:E; [| reflexivity].
    apply Qeq_bool_eq in E. rewrite Hred in E. rewrite E in Hq. discriminate. }
  assert (Hneg : Qlt_bool (Qred q) 0 = false).
  { unfold Qlt_bool. apply negb_false_iff, Qle_bool_iff. rewrite Hred.
    now apply Qlt_le_weak. }
  rewrite Hz, Hneg.
  set (e := ulp_exponent (Qabs (Qred q))).
  assert (Hm : nearest_even (Qabs (Qred q) / pow2 e) = nearest_even (q / pow2 e)).
  { unfold nearest_even.
    assert (Hx : Qabs (Qred q) / pow2 e == q / pow2 e) by now rewrite Habs.
    rewrite (Qfloor_comp _ _ Hx).
    assert (Hc : Qcompare (Qabs (Qred q) / pow2 e - inject_Z (Qfloor (q / pow2 e))) (Qmake 1 2)
                 = Qcompare (q / pow2 e - inject_Z (Qfloor (q / pow2 e))) (Qmake 1 2)).
    { apply Qcompare_comp; [now rewrite Hx | reflexivity]. }
    now rewrite Hc. }
  rewrite Hm. reflexivity.
Qed.

(** Between two multiples of [2^-j] with at most 53 bits, the rounded
    value stays between them. *)
Lemma round64_between (q : Q) (lo hi j : Z) :
  (0 <= j <= 1074)%Z -> (hi < 2 ^ 53)%Z ->
  0 < q ->
  inject_Z lo * pow2 (- j) <= q -> q <= inject_Z hi * pow2 (- j) ->
  exists v, round64 q = fin v
            /\ inject_Z lo * pow2 (- j) <= v /\ v <= inject_Z hi * pow2 (- j).
Proof.
  intros Hj Hhi Hq Hlo Hup.
  destruct (round64_positive q Hq) as [e [v [He [Hv Hr]]]].
  assert (Habs : Qabs (Qred q) == q).
  { rewrite Qred_correct. apply Qabs_pos. now apply Qlt_le_weak. }
  assert (Hpos : 0 < Qabs (Qred q)) by now rewrite Habs.
  assert (Hej : (e <= - j)%Z).
  { rewrite He. unfold ulp_exponent.
    assert (ilog2 (Qabs (Qred q)) < 53 - j)%Z; [| lia].
    apply ilog2_lt; [exact Hpos |]. rewrite Habs.
    eapply Qle_lt_trans; [exact Hup |].
    replace (53 - j)%Z with (53 + - j)%Z by lia. rewrite pow2_add.
    apply Qmult_lt_compat_r; [apply pow2_pos |].
    rewrite pow2_Z by lia. now rewrite <- Zlt_Qlt. }
  assert (Hscale : forall z, inject_Z z * pow2 (- j)
                             == inject_Z (z * 2 ^ (- j - e)) * pow2 e).
  { intros z. rewrite <- (pow2_scale z j e Hej). now rewrite pow2_cancel. }
  assert (Hm1 : (lo * 2 ^ (- j - e) <= nearest_even (q / pow2 e))%Z).
  { apply nearest_even_ge. rewrite <- (pow2_scale lo j e Hej).
    apply Qmult_le_compat_r; [exact Hlo |].
    apply Qlt_le_weak, Qinv_lt_0_compat, pow2_pos. }
  assert (Hm2 : (nearest_even (q / pow2 e) <= hi * 2 ^ (- j - e))%Z).
  { apply nearest_even_le. rewrite <- (pow2_scale hi j e Hej).
    apply Qmult_le_compat_r; [exact Hup |].
    apply Qlt_le_weak, Qinv_lt_0_compat, pow2_pos. }
  assert (Hv1 : inject_Z lo * pow2 (- j) <= v).
  { rewrite Hv, Hscale. apply Qmult_le_compat_r.
    - now rewrite <- Zle_Qle.
    - apply Qlt_le_weak, pow2_pos. }
  assert (Hv2 : v <= inject_Z hi * pow2 (- j)).
  { rewrite Hv, Hscale. apply Qmult_le_compat_r.
    - now rewrite <- Zle_Qle.
    - apply Qlt_le_weak, pow2_pos. }
  exists v. split; [| split; assumption].
  rewrite Hr.
  assert (Hsmall : Qle_bool (pow2 1024) v = false).
  { destruct (Qle_bool (pow2 1024) v) eqn:E; [| reflexivity].
    apply Qle_bool_iff in E. exfalso.
    assert (Hb : v < pow2 1024).
    { eapply Qle_lt_trans; [exact Hv2 |].
      apply Qlt_le_trans with (y := inject_Z (2 ^ 53) * pow2 (- j)).
      - apply Qmult_lt_compat_r; [apply pow2_pos |]. now rewrite <- Zlt_Qlt.
      - rewrite <- pow2_Z by lia. rewrite <- pow2_add. apply pow2_le. lia. }
    apply (Qlt_irrefl v). eapply Qlt_le_trans; eassumption. }
  now rewrite Hsmall.
Qed.

(** A natural number below [2^53] is a binary64 number. *)
Lemma round64_of_Z (z : Z) :
  (0 <= z < 2 ^ 53)%Z -> round64 (inject_Z z) = of_Z z.
Proof.
  intros Hz.
  assert (Hone : pow2 (- 0) == 1) by reflexivity.
  destruct (Z.eq_dec z 0) as [-> | Hne]; [reflexivity |].
  destruct (round64_between (inject_Z z) z z 0) as [v [Hr [H1 H2]]];
    try lia.
  - change (inject_Z 0 < inject_Z z). rewrite <- Zlt_Qlt. lia.
  - rewrite Hone, Qmult_1_r. apply Qle_refl.
  - rewrite Hone, Qmult_1_r. apply Qle_refl.
  - rewrite Hr. apply fin_inject_Z.
    rewrite Hone, Qmult_1_r in H1, H2. now apply Qle_antisym.
Qed.

(** A real that is not negative rounds to a number that is not negative,
    or to [+Infinity]. *)
Lemma round64_nonneg (q : Q) :
  0 <= q -> round64 q = Inf false \/ exists v, round64 q = Fin v /\ 0 <= v.
Proof.
  intros Hq. destruct (Qlt_le_dec 0 q) as [Hpos | Hle].
  - destruct (round64_positive q Hpos) as [e [v [He [Hv Hr]]]].
    rewrite Hr. destruct (Qle_bool (pow2 1024) v); [now left |].
    right. exists (Qred v). split; [reflexivity |].
    rewrite Qred_correct, Hv.
    apply Qmult_le_0_compat; [| apply Qlt_le_weak, pow2_pos].
    change 0 with (inject_Z 0) at 1. rewrite <- Zle_Qle. apply (nearest_even_ge _ 0).
    apply Qmult_le_0_compat; [now apply Qlt_le_weak |].
    apply Qlt_le_weak, Qinv_lt_0_compat, pow2_pos.
  - right. exists 0. split; [| apply Qle_refl].
    apply round64_zero. now apply Qle_antisym.
Qed.

(** A positive whole number of any size rounds to a positive whole
    number, or to [+Infinity]. *)
Lemma round64_positive_Z (z : Z) :
  (1 <= z)%Z ->
  round64 (inject_Z z) = Inf false
  \/ exists z' : Z, (1 <= z')%Z /\ round64 (inject_Z z) = of_Z z'.
Proof.
  intros Hz. destruct (Z.lt_ge_cases z (2 ^ 53)) as [Hs | Hb].
  - right. exists z. split; [exact Hz |]. apply round64_of_Z. lia.
  - assert (Hq : 0 < inject_Z z) by (change (inject_Z 0 < inject_Z z); rewrite <- Zlt_Qlt; lia).
    destruct (round64_positive _ Hq) as [e [v [He [Hv Hr]]]].
    rewrite Hr. destruct (Qle_bool (pow2 1024) v); [now left |]. right.
    assert (Habs : Qabs (Qred (inject_Z z)) == inject_Z z).
    { rewrite Qred_correct. apply Qabs_pos. now apply Qlt_le_weak. }
    assert (Hpos : 0 < Qabs (Qred (inject_Z z))) by now rewrite Habs.
    destruct (ilog2_spec _ Hpos) as [Hl1 Hl2].
    assert (Hl1' : pow2 (ilog2 (Qabs (Qred (inject_Z z)))) <= inject_Z z).
    { eapply Qle_trans; [exact Hl1 |]. rewrite Habs. apply Qle_refl. }
    assert (Hl2' : inject_Z z < pow2 (ilog2 (Qabs (Qred (inject_Z z))) + 1)).
    { eapply Qle_lt_trans; [| exact Hl2]. rewrite Habs. apply Qle_refl. }
    clear Hl1 Hl2.
    assert (He0 : (1 <= e)%Z /\ e = (ilog2 (Qabs (Qred (inject_Z z))) - 52)%Z).
    { rewrite He. unfold ulp_exponent.
      assert (53 < ilog2 (Qabs (Qred (inject_Z z))) + 1)%Z; [| lia].
      apply pow2_lt_inv. eapply Qle_lt_trans; [| exact Hl2'].
      rewrite pow2_Z by lia. now rewrite <- Zle_Qle. }
    destruct He0 as [He1 He2].
    assert (Hm : (1 <= nearest_even (inject_Z z / pow2 e))%Z).
    { apply nearest_even_ge. apply Qle_shift_div_l; [apply pow2_pos |].
      rewrite Qmult_1_l. eapply Qle_trans; [| exact Hl1'].
      apply pow2_le. lia. }
    exists (nearest_even (inject_Z z / pow2 e) * 2 ^ e)%Z. split.
    + assert (0 < 2 ^ e)%Z by (apply Z.pow_pos_nonneg; lia). nia.
    + apply fin_inject_Z. rewrite Hv, inject_Z_mult.

      rewrite <- (pow2_Z e) by lia. reflexivity.
Qed.

(** Between zero and a natural number below [2^53], the rounded value
    stays between them. *)
Lemma round64_range (q : Q) (hi : Z) :
  (hi < 2 ^ 53)%Z -> 0 <= q -> q <= inject_Z hi ->
  exists v, round64 q = Fin v /\ 0 <= v /\ v <= inject_Z hi.
Proof.
  intros Hhi H0 H1. destruct (Qlt_le_dec 0 q) as [Hpos | Hle].
  - assert (Hone : pow2 (- 0) == 1) by reflexivity.
    destruct (round64_between q 0 hi 0) as [v [Hr [Hv0 Hv1]]]; try lia;
      try assumption.
    + rewrite Hone, Qmult_1_r. exact H1.
    + rewrite Hone, Qmult_1_r in Hv0, Hv1.
      exists (Qred v). split; [exact Hr |]. now rewrite Qred_correct.
  - exists 0. split; [apply round64_zero; now apply Qle_antisym |].
    split; [apply Qle_refl |]. now apply Qle_trans with q.
Qed.

Lemma round64_natural (z : Z) :
  (0 <= z)%Z ->
  round64 (inject_Z z) = Inf false
  \/ exists z' : Z, (0 <= z')%Z /\ round64 (inject_Z z) = of_Z z'.
Proof.
  intros Hz. destruct (Z.eq_dec z 0) as [-> | Hne].
  - right. exists 0%Z. split; [lia | reflexivity].
  - destruct (round64_positive_Z z) as [H | [z' [H1 H2]]]; [lia | now left |].
    right. exists z'. split; [lia | exact H2].
Qed.

(** Rounding is the identity on the results of rounding: they are
    binary64 numbers. *)
Lemma round64_fixed_positive (q : Q) : 0 < q -> rounded (round64 q) = round64 q.
Proof.
  intros Hq. destruct (round64_positive q Hq) as [e [v [He [Hv Hr]]]].
  rewrite Hr. destruct (Qle_bool (pow2 1024) v) eqn:Hov; [reflexivity |].
  unfold fin. cbn [rounded].
  assert (Habs : Qabs (Qred q) == q).
  { rewrite Qred_correct. apply Qabs_pos. now apply Qlt_le_weak. }
  assert (Hpos : 0 < Qabs (Qred q)) by now rewrite Habs.
  destruct (ilog2_spec _ Hpos) as [_ Hl2].
  assert (Hup : q < pow2 (e + 53)).
  { apply Qle_lt_trans with (Qabs (Qred q)); [rewrite Habs; apply Qle_refl |].
    eapply Qlt_le_trans; [exact Hl2 |]. apply pow2_le.
    rewrite He. unfold ulp_exponent. lia. }
  assert (Hlow : (- 1074 <= e)%Z) by (rewrite He; unfold ulp_exponent; lia).
  set (m := nearest_even (q / pow2 e)) in *.
  assert (Hm0 : (0 <= m)%Z).
  { apply nearest_even_ge. apply Qle_shift_div_l; [apply pow2_pos |].
    rewrite Qmult_0_l. now apply Qlt_le_weak. }
  assert (Hm1 : (m <= 2 ^ 53)%Z).
  { apply nearest_even_le. apply Qle_shift_div_r; [apply pow2_pos |].
    rewrite <- pow2_Z by lia. rewrite <- pow2_add, Z.add_comm.
    now apply Qlt_le_weak. }
  destruct (Z.eq_dec m 0) as [Hz | Hnz].
  { assert (H0 : v == 0) by (rewrite Hv, Hz; apply Qmult_0_l).
    rewrite (Qred_complete _ _ H0). reflexivity. }
  assert (Hvpos : 0 < Qred v).
  { rewrite Qred_correct, Hv. apply Qmult_lt_0_compat; [| apply pow2_pos].
    change (inject_Z 0 < inject_Z m). rewrite <- Zlt_Qlt. lia. }
  destruct (round64_positive (Qred v) Hvpos) as [e' [v' [He' [Hv' Hr']]]].
  assert (Habs' : Qabs (Qred (Qred v)) == v).
  { rewrite !Qred_correct. apply Qabs_pos. rewrite <- (Qred_correct v).
    now apply Qlt_le_weak. }
  assert (Hpos' : 0 < Qabs (Qred (Qred v))).
  { rewrite Habs', <- (Qred_correct v). exact Hvpos. }
  assert (Hbound : forall t : Z, (m < 2 ^ t)%Z -> (53 <= t)%Z -> (e' <= e + t - 53)%Z).
  { intros t Ht Ht0. rewrite He'. unfold ulp_exponent.
    assert (ilog2 (Qabs (Qred (Qred v))) < e + t)%Z; [| lia].
    apply ilog2_lt; [exact Hpos' |]. rewrite Habs', Hv, Z.add_comm, pow2_add.
    apply Qmult_lt_compat_r; [apply pow2_pos |].
    rewrite pow2_Z by lia. now rewrite <- Zlt_Qlt. }
  assert (Hint : exists K : Z, Qred v / pow2 e' == inject_Z K).
  { destruct (Z.eq_dec m (2 ^ 53)) as [Htop | Hlt].
    - assert (Hle : (e' <= e + 1)%Z).
      { assert (m < 2 ^ 54)%Z by (rewrite Htop; reflexivity).
        pose proof (Hbound 54%Z H ltac:(lia)). lia. }
      exists (2 ^ (e + 53 - e'))%Z.
      rewrite Qred_correct, Hv, Htop, <- !pow2_Z by lia.
      rewrite <- pow2_add, pow2_sub. unfold Qdiv.
      now replace (53 + e)%Z with (e + 53)%Z by lia.
    - assert (Hle : (e' <= e)%Z).
      { assert (m < 2 ^ 53)%Z by lia. pose proof (Hbound 53%Z H ltac:(lia)). lia. }
      exists (m * 2 ^ (e - e'))%Z.
      rewrite Qred_correct, Hv, inject_Z_mult, <- (pow2_Z (e - e')) by lia.
      rewrite pow2_sub. unfold Qdiv. now rewrite Qmult_assoc. }
  destruct Hint as [K HK].
  assert (Hsame : v' == v).
  { rewrite Hv', (nearest_even_Z _ _ HK), <- HK, pow2_cancel. apply Qred_correct. }
  rewrite Hr'.
  assert (Hov' : Qle_bool (pow2 1024) v' = false).
  { destruct (Qle_bool (pow2 1024) v') eqn:E; [| reflexivity].
    apply Qle_bool_iff in E. rewrite Hsame in E. apply Qle_bool_iff in E.
    congruence. }
  rewrite Hov'. unfold fin. f_equal. now apply Qred_complete.
Qed.

(** Rounding commutes with the change of sign. *)
Lemma round64_opp (q : Q) : round64 (- q) = neg (round64 q).
Proof.
  unfold round64. cbv zeta. rewrite Qred_opp.
  set (x := Qred q).
  assert (Habs : Qabs (- x) = Qabs x).
  { destruct x as [n d]. unfold Qabs, Qopp. cbn [Qnum Qden]. now rewrite Z.abs_opp. }
  assert (Hzero : Qis_zero (- x) = Qis_zero x).
  { unfold Qis_zero. destruct (Qeq_bool x 0) eqn:E.
    - apply Qeq_bool_eq in E. apply Qeq_eq_bool. rewrite E. reflexivity.
    - destruct (Qeq_bool (- x) 0) eqn:E'; [| reflexivity].
      apply Qeq_bool_eq in E'. rewrite <- E. symmetry. apply Qeq_eq_bool.
      rewrite <- (Qopp_involutive x), E'. reflexivity. }
  rewrite Habs, Hzero.
  destruct (Qis_zero x) eqn:Hz; [reflexivity |].
  assert (Hsign : Qlt_bool (- x) 0 = negb (Qlt_bool x 0)).
  { unfold Qlt_bool. rewrite negb_involutive.
    destruct (Qle_bool 0 x) eqn:E.
    - apply Qle_bool_iff in E. apply negb_true_iff.
      destruct (Qle_bool 0 (- x)) eqn:E'; [| reflexivity].
      apply Qle_bool_iff in E'. exfalso.
      assert (H0 : x == 0).
      { apply Qle_antisym; [| exact E].
        rewrite <- (Qopp_involutive x). change 0 with (- 0).
        now apply Qopp_le_compat. }
      unfold Qis_zero in Hz. apply Qeq_eq_bool in H0. congruence.
    - apply negb_false_iff, Qle_bool_iff.
      assert (Hlt : x < 0).
      { apply Qnot_le_lt. intros H. apply Qle_bool_iff in H. congruence. }
      change 0 with (- 0). apply Qopp_le_compat. now apply Qlt_le_weak. }
  rewrite Hsign.
  set (v := inject_Z (nearest_even (Qabs x / pow2 (ulp_exponent (Qabs x))))
            * pow2 (ulp_exponent (Qabs x))).
  destruct (Qle_bool (pow2 1024) v); [reflexivity |].
  destruct (Qlt_bool x 0); cbn [negb]; unfold fin; cbn [neg]; unfold fin; f_equal;
    apply Qred_complete; rewrite Qred_correct;
    [symmetry; apply Qopp_involutive | reflexivity].
Qed.

Lemma rounded_neg (a : jsnum) : rounded (neg a) = neg (rounded a).
Proof.
  destruct a as [| s | q]; try reflexivity.
  cbn [neg rounded]. unfold fin. cbn [rounded].
  rewrite (round64_comp _ _ (Qred_correct (- q))). apply round64_opp.
Qed.

(** The result of rounding is a binary64 number: rounding it again
    changes nothing. *)
Lemma rounded_idempotent (a : jsnum) : rounded (rounded a) = rounded a.
Proof.
  destruct a as [| s | q]; try reflexivity. cbn [rounded].
  destruct (Qlt_le_dec 0 q) as [Hpos | Hle].
  - now apply round64_fixed_positive.
  - destruct (Qlt_le_dec q 0) as [Hneg | Hge].
    + assert (Hq : q == - (- q)) by (symmetry; apply Qopp_involutive).
      rewrite (round64_comp _ _ Hq), round64_opp, rounded_neg.
      rewrite round64_fixed_positive; [reflexivity |].
      change 0 with (- 0). now apply Qopp_lt_compat.
    + rewrite (round64_zero q) by now apply Qle_antisym. reflexivity.
Qed.

Lemma rounded_of_Z (z : Z) :
  (0 <= z < 2 ^ 53)%Z -> rounded (of_Z z) = of_Z z.
Proof. intros Hz. unfold of_Z. cbn [rounded]. now apply round64_of_Z. Qed.

Lemma rounded_natural (z : Z) :
  (0 <= z)%Z ->
  rounded (of_Z z) = Inf false
  \/ exists z' : Z, (0 <= z')%Z /\ rounded (of_Z z) = of_Z z'.
Proof. intros Hz. unfold of_Z. cbn [rounded]. now apply round64_natural. Qed.

Lemma rounded_positive_Z (z : Z) :
  (1 <= z)%Z ->
  rounded (of_Z z) = Inf false
  \/ exists z' : Z, (1 <= z')%Z /\ rounded (of_Z z) = of_Z z'.
Proof. intros Hz. unfold of_Z. cbn [rounded]. now apply round64_positive_Z. Qed.

End Binary64Facts.

(** *** Strings *)

Module JsStrFacts.
Import JsStr.

Lemma prefix_iff (needle s : string) :
  String.prefix needle s = true <-> exists rest, s = (needle ++ rest)%string.
Proof.
  revert s. induction needle as [| a needle IH]; intros s.
  - split; [intros _; exists s; reflexivity | intros _; destruct s; reflexivity].
  - destruct s as [| b s].
    + split; [discriminate | intros [rest H]; discriminate].
    + simpl. destruct (ascii_dec a b) as [-> | Hne].
      * rewrite IH. split; intros [rest H]; exists rest.
        -- now rewrite H.
        -- now injection H.
      * split; [discriminate | intros [rest H]; injection H; intros _ Hab; now elim Hne].
Qed.

Lemma includes_unfold (needle s : string) :
  includes needle s =
  String.prefix needle s
  || match s with
     | EmptyString => false
     | String _ s' => includes needle s'
     end.
Proof. destruct s; reflexivity. Qed.

Lemma includes_iff (needle s : string) :
  includes needle s = true
  <-> exists before after, s = (before ++ needle ++ after)%string.
Proof.
  induction s as [| c s IH]; rewrite includes_unfold.
  - rewrite orb_false_r, prefix_iff. split.
    + intros [rest H]. exists EmptyString, rest. exact H.
    + intros [before [after H]]. destruct before; [now exists after | discriminate].
  - rewrite orb_true_iff, IH, prefix_iff. split.
    + intros [[rest H] | [before [after H]]].
      * exists EmptyString, rest. exact H.
      * exists (String c before), after. simpl. now rewrite H.
    + intros [before [after H]]. destruct before as [| b before].
      * left. now exists after.
      * right. simpl in H. injection H as _ H. now exists before, after.
Qed.

Lemma array_includes_iff (l : list string) (x : string) :
  array_includes l x = true <-> In x l.
Proof.
  unfold array_includes. rewrite existsb_exists. split.
  - intros [y [Hin Heq]]. apply String.eqb_eq in Heq. now subst.
  - intros Hin. exists x. split; [exact Hin | apply String.eqb_refl].
Qed.

End JsStrFacts.

(** *** Grade evaluator *)

Module GradeFacts.
Import JsStr JsStrFacts Engine Spec.

Lemma failing_token_iff (g : string) :
  array_includes failingGrades g = true <-> is_failing_token g.
Proof.
  rewrite array_includes_iff. unfold failingGrades, is_failing_token. simpl.
  intuition congruence.
Qed.

Lemma retake_marker_iff (g : string) :
  existsb (fun indicator => includes indicator g) retakeIndicators = true
  <-> has_retake_marker g.
Proof.
  unfold retakeIndicators, has_retake_marker. simpl.
  rewrite orb_false_r. apply includes_iff.
Qed.

(** C4: [isPassingGrade] answers [false] exactly on the failing tokens
    F, F*, FF, FD, W and on the grades that contain the retake marker;
    on every other string, known or not, it answers [true]. *)
Theorem isPassingGrade_closed_world (g : string) :
  (isPassingGrade g = false <-> is_failing_token g \/ has_retake_marker g)
  /\ (~ (is_failing_token g \/ has_retake_marker g) -> isPassingGrade g = true).
Proof.
  assert (Hiff : isPassingGrade g = false <-> is_failing_token g \/ has_retake_marker g).
  { unfold isPassingGrade.
    rewrite <- failing_token_iff, <- retake_marker_iff.
    destruct (array_includes failingGrades g);
      destruct (existsb (fun indicator => includes indicator g) retakeIndicators);
      intuition congruence. }
  split; [exact Hiff |].
  intros Hnot. destruct (isPassingGrade g) eqn:E; [reflexivity |].
  exfalso. apply Hnot. now apply Hiff.
Qed.

End GradeFacts.

(** *** Prerequisite check *)

Module PrerequisiteFacts.
Import JsStr Engine Spec.

Lemma hasPassed_iff (this : Advisor) (code : string) :
  hasPassed this code = true <-> passedIn this code.
Proof.
  unfold hasPassed, passedIn.
  destruct (JsMap.get (completedCourses this) code) as [c |].
  - split; [intros H; now exists c | intros [c' [E H]]; now injection E as ->].
  - split; [discriminate | intros [c [E _]]; discriminate].
Qed.

Lemma arePrerequisitesMet_forallb (this : Advisor) (course : CurriculumCourse.t) :
  arePrerequisitesMet this course = forallb (hasPassed this) (prerequisiteCodes course).
Proof.
  unfold arePrerequisitesMet, prerequisiteCodes.
  destruct (CurriculumCourse.prerequisites course) as [[| p l] |]; reflexivity.
Qed.

Lemma arePrerequisitesMet_iff_passedIn (this : Advisor) (course : CurriculumCourse.t) :
  arePrerequisitesMet this course = true
  <-> forall code, In code (prerequisiteCodes course) -> passedIn this code.
Proof.
  rewrite arePrerequisitesMet_forallb, forallb_forall.
  split; intros H code Hin; apply hasPassed_iff; now apply H.
Qed.

(** C5: [arePrerequisitesMet] holds exactly when every prerequisite code
    has an entry in the completed courses that is marked passed; so it
    holds when the list is empty or absent, and fails as soon as one
    prerequisite has no entry. *)
Theorem arePrerequisitesMet_all_passed (this : Advisor) (course : CurriculumCourse.t) :
  (arePrerequisitesMet this course = true
   <-> forall code, In code (prerequisiteCodes course) -> passedIn this code)
  /\ (CurriculumCourse.prerequisites course = None -> arePrerequisitesMet this course = true)
  /\ (CurriculumCourse.prerequisites course = Some [] -> arePrerequisitesMet this course = true)
  /\ (forall code, In code (prerequisiteCodes course) ->
                   JsMap.get (completedCourses this) code = None ->
                   arePrerequisitesMet this course = false).
Proof.
  rewrite arePrerequisitesMet_forallb.
  repeat split.
  - intros H code Hin. apply hasPassed_iff.
    rewrite forallb_forall in H. now apply H.
  - intros H. apply forallb_forall. intros code Hin.
    apply hasPassed_iff. now apply H.
  - unfold prerequisiteCodes. now intros ->.
  - unfold prerequisiteCodes. now intros ->.
  - intros code Hin Hget.
    destruct (forallb (hasPassed this) (prerequisiteCodes course)) eqn:E; [| reflexivity].
    rewrite forallb_forall in E. specialize (E code Hin).
    unfold hasPassed in E. rewrite Hget in E. discriminate.
Qed.

End PrerequisiteFacts.

(** *** Current semester estimate *)

Module SemesterFacts.
Import JsNumFacts Binary64Facts Engine Spec.
Local Open Scope js_scope.

Lemma reduce_credits (entries : list (string * CompletedCourse.t)) (z : jsnum) :
  fold_left (fun sum course => sum +~ CompletedCourse.credits course)
            (filter CompletedCourse.passed (map snd entries)) z
  = passedCreditsFrom z entries.
Proof.
  revert z. induction entries as [| [k c] rest IH]; intros z; simpl.
  - reflexivity.
  - destruct (CompletedCourse.passed c); simpl; apply IH.
Qed.

Lemma getCurrentSemester_passedCredits (this : Advisor) :
  getCurrentSemester this
  = floor (passedCredits (JsMap.entries (completedCourses this)) /~ #20) +~ #1.
Proof.
  unfold getCurrentSemester, JsMap.values, JsMap.entries, passedCredits.
  now rewrite reduce_credits.
Qed.

(** Natural numbers with a sum below [2^53] are added without
    rounding. *)
Lemma add_whole (a b : Z) :
  (0 <= a)%Z -> (0 <= b)%Z -> (a + b < 2 ^ 53)%Z -> of_Z a +~ of_Z b = of_Z (a + b).
Proof.
  intros Ha Hb H. unfold Binary64.add.
  rewrite !rounded_of_Z, add_of_Z by lia. apply rounded_of_Z. lia.
Qed.

Lemma wholeCredits_tail (e : string * CompletedCourse.t)
      (rest : list (string * CompletedCourse.t)) :
  wholeCredits (e :: rest) -> wholeCredits rest.
Proof. intros H k c Hin. apply (H k c). now right. Qed.

(** The exact sum of whole credits is a natural number. *)
Lemma passedCreditsQ_whole (entries : list (string * CompletedCourse.t)) :
  wholeCredits entries ->
  exists t : Z, (0 <= t)%Z /\ (passedCreditsQ entries == inject_Z t)%Q.
Proof.
  induction entries as [| [k c] rest IH]; intros Hw; simpl.
  - exists 0%Z. split; [lia | reflexivity].
  - destruct (IH (wholeCredits_tail _ _ Hw)) as [t [Ht Hq]].
    destruct (CompletedCourse.passed c) eqn:Hp; [| now exists t].
    destruct (Hw k c (or_introl eq_refl) Hp) as [z [Hz ->]].
    exists (z + t)%Z. split; [lia |].
    unfold of_Z. now rewrite Hq, inject_Z_plus.
Qed.

(** While the total stays below [2^53], the sums of whole credits are
    exact. *)
Lemma passedCreditsFrom_whole (entries : list (string * CompletedCourse.t)) (a t : Z) :
  wholeCredits entries ->
  (passedCreditsQ entries == inject_Z t)%Q ->
  (0 <= a)%Z -> (a + t < 2 ^ 53)%Z ->
  passedCreditsFrom (of_Z a) entries = of_Z (a + t).
Proof.
  revert a t. induction entries as [| [k c] rest IH]; intros a t Hw Hq Ha Hb.
  - simpl in *. f_equal.
    assert (t = 0)%Z; [| lia].
    apply eq_sym. change (0 == inject_Z t)%Q in Hq.
    unfold Qeq in Hq. simpl in Hq. lia.
  - simpl in *. pose proof (wholeCredits_tail _ _ Hw) as Hrest.
    destruct (passedCreditsQ_whole rest Hrest) as [r [Hr Hqr]].
    destruct (CompletedCourse.passed c) eqn:Hp.
    + destruct (Hw k c (or_introl eq_refl) Hp) as [z [Hz Hc]].
      rewrite Hc in *. unfold of_Z at 1 in Hq.
      assert (Ht : t = (z + r)%Z).
      { rewrite Hqr, <- inject_Z_plus in Hq.
        unfold Qeq in Hq. simpl in Hq. lia. }
      rewrite add_whole by lia.
      rewrite (IH (a + z)%Z r Hrest Hqr) by lia. f_equal. lia.
    + now apply IH.
Qed.

(** The quotient by 20 of a natural number below [2^52] is rounded to a
    number with the same integer part. *)
Lemma estimate_of_whole (t : Z) :
  (0 <= t < 2 ^ 52)%Z -> floor (of_Z t /~ #20) +~ #1 = of_Z (t / 20 + 1).
Proof.
  intros Ht.
  assert (Hdiv : of_Z t /~ #20 = Binary64.round64 (inject_Z t / inject_Z 20)).
  { unfold Binary64.div. rewrite !rounded_of_Z by lia.
    unfold div, of_Z. change (Qis_zero (inject_Z 20)) with false.
    cbv iota. unfold fin, Binary64.rounded. apply round64_comp, Qred_correct. }
  rewrite Hdiv. clear Hdiv.
  assert (Hm : (0 <= t / 20 /\ 20 * (t / 20) <= t <= 20 * (t / 20) + 19)%Z).
  { pose proof (Z.div_mod t 20 ltac:(lia)). pose proof (Z.mod_pos_bound t 20 ltac:(lia)).
    split; [apply Z.div_pos; lia | lia]. }
  destruct (Z.eq_dec t 0) as [-> | Hne]; [reflexivity |].
  assert (H32 : (Binary64.pow2 (- 5) == Qmake 1 32)%Q) by reflexivity.
  destruct Hm as [Hm0 Hm]. revert Hm0 Hm. generalize (t / 20)%Z. intros m Hm0 Hm.
  destruct (round64_between (inject_Z t / inject_Z 20)
                            (32 * m) (32 * m + 31) 5)
    as [v [Hr [H1 H2]]]; try lia.
  - apply Qlt_shift_div_l; [reflexivity |]. rewrite Qmult_0_l.
    change (inject_Z 0 < inject_Z t)%Q. rewrite <- Zlt_Qlt. lia.
  - rewrite H32. apply Qle_shift_div_l; [reflexivity |].
    unfold Qle, Qmult, inject_Z; cbn [Qnum Qden]; lia.
  - rewrite H32. apply Qle_shift_div_r; [reflexivity |].
    unfold Qle, Qmult, inject_Z; cbn [Qnum Qden]; lia.
  - rewrite Hr. unfold fin, floor.
    assert (Hf : Qfloor (Qred v) = m).
    { rewrite (Qfloor_comp _ _ (Qred_correct v)). rewrite H32 in H1, H2.
      apply Z.le_antisymm.
      - assert (Hlt : (inject_Z (Qfloor v) < inject_Z (m + 1))%Q).
        { eapply Qle_lt_trans; [apply Qfloor_le |].
          eapply Qle_lt_trans; [exact H2 |]. unfold Qlt, Qmult, inject_Z; cbn [Qnum Qden]; lia. }
        rewrite <- Zlt_Qlt in Hlt. lia.
      - rewrite <- (Qfloor_Z m). apply Qfloor_resp_le.
        eapply Qle_trans; [| exact H1]. unfold Qle, Qmult, inject_Z; cbn [Qnum Qden]; lia. }
    rewrite Hf. apply add_whole; lia.
Qed.

Lemma getCurrentSemester_whole (this : Advisor) :
  wholeCredits (JsMap.entries (completedCourses this)) ->
  (passedCreditsQ (JsMap.entries (completedCourses this)) < inject_Z (2 ^ 52))%Q ->
  exists t : Z,
    (0 <= t < 2 ^ 52)%Z
    /\ (passedCreditsQ (JsMap.entries (completedCourses this)) == inject_Z t)%Q
    /\ getCurrentSemester this = of_Z (t / 20 + 1).
Proof.
  intros Hw Hb.
  destruct (passedCreditsQ_whole _ Hw) as [t [Ht Hq]].
  assert (Hlt : (t < 2 ^ 52)%Z).
  { rewrite Zlt_Qlt. now rewrite <- Hq. }
  exists t. split; [lia |]. split; [exact Hq |].
  rewrite getCurrentSemester_passedCredits. unfold passedCredits.
  rewrite (passedCreditsFrom_whole _ 0 t Hw Hq) by lia.
  apply estimate_of_whole. lia.
Qed.




End SemesterFacts.

(** *** Progress report and missing curriculum *)

Module ReportFacts.
Import JsNumFacts Engine Spec.
Local Open Scope js_scope.

Lemma percentage_over_zero (n : nat) :
  round ((of_nat n /~ of_nat 0) *~ #100)
  = match n with O => NaN | S _ => Inf false end.
Proof.
  destruct n as [| n]; [reflexivity |].
  unfold Binary64.mul, Binary64.div, of_nat. change (Z.of_nat 0) with 0%Z.
  rewrite (Binary64Facts.rounded_of_Z 0), (Binary64Facts.rounded_of_Z 100) by lia.
  destruct (Binary64Facts.rounded_positive_Z (Z.of_nat (S n))) as [-> | [z [Hz ->]]];
    [lia | reflexivity |].
  unfold div, of_Z. change (Qis_zero (inject_Z 0)) with true. cbv iota.
  assert (Hnz : Qis_zero (inject_Z z) = false).
  { unfold Qis_zero. change (Qeq_bool (inject_Z z) (inject_Z 0) = false).
    rewrite Qeq_bool_inject_Z. apply Z.eqb_neq. lia. }
  assert (Hpos : Qlt_bool (inject_Z z) 0 = false).
  { unfold Qlt_bool. change (negb (Qle_bool (inject_Z 0) (inject_Z z)) = false).
    rewrite Qle_bool_inject_Z. apply negb_false_iff, Z.leb_le. lia. }
  rewrite Hnz, Hpos. reflexivity.
Qed.

Lemma percentage_without_curriculum (this : Advisor) :
  curriculum this = [] ->
  completionPercentage (generateProgressReport this)
  = match filter CompletedCourse.passed (JsMap.values (completedCourses this)) with
    | [] => NaN
    | _ :: _ => Inf false
    end.
Proof.
  intros H. unfold generateProgressReport. cbn [completionPercentage]. rewrite H.
  change (List.length (@nil CurriculumCourse.t)) with 0.
  rewrite percentage_over_zero.
  now destruct (filter CompletedCourse.passed (JsMap.values (completedCourses this))).
Qed.

Lemma getRecommendedCourses_empty_curriculum (this : Advisor) :
  curriculum this = [] -> getRecommendedCourses this = Ok emptyRecommendations.
Proof.
  intros H. unfold getRecommendedCourses.
  destruct (completedSets this) as [codes bases]. now rewrite H.
Qed.

(** C3: with an empty curriculum the completion percentage is not the
    sentinel 0: a freshly created advisor reports [NaN], and one with a
    passed course reports [+Infinity]. *)
Theorem completionPercentage_empty_curriculum_not_zero :
  completionPercentage (generateProgressReport newAdvisor) = NaN
  /\ completionPercentage
       (generateProgressReport
          {| curriculum := [];
             completedCourses :=
               JsMap.of_entries
                 [("CS101",
                   CompletedCourse.Make "CS101" "Programming" "A" #6 #6 #4 None
                                        (isPassingGrade "A"))];
             availableCourses := [];
             studentInfo := studentInfo newAdvisor |})
     = Inf false
  /\ NaN <> #0 /\ Inf false <> #0.
Proof. repeat split; try reflexivity; discriminate. Qed.

(** C9, as the claim states it, fails: with no curriculum loaded the
    recommendations are computed without any error and the request
    succeeds with four empty buckets. *)
Lemma missing_curriculum_not_reported :
  curriculum newAdvisor = []
  /\ getRecommendedCourses newAdvisor = Ok emptyRecommendations
  /\ loadAndRecommend
       newAdvisor
       (Some {| pd_curriculum := None; pd_completedCourses := None;
                pd_availableCourses := None; pd_studentInfo := None |})
     = Success (generateProgressReport newAdvisor) emptyRecommendations
               "Recommendations generated successfully from JSON data"
  /\ ~ (exists e, getRecommendedCourses newAdvisor = Throw e).
Proof.
  repeat split; try reflexivity. intros [e H]. discriminate.
Qed.

(** C9, amended: when the loaded data has no curriculum, or an empty
    one, [loadAndRecommend] succeeds with four empty buckets and a
    report of zero required courses; it fails only when the data cannot
    be loaded, with the error of the failed load. *)
Theorem loadAndRecommend_empty_curriculum (this : Advisor) (parsedData : ParsedData) :
  or_default (pd_curriculum parsedData) [] = [] ->
  (exists report,
      loadAndRecommend this (Some parsedData)
      = Success report emptyRecommendations
                "Recommendations generated successfully from JSON data"
      /\ totalRequiredCourses report = 0
      /\ report = generateProgressReport (fst (loadParsedData this (Some parsedData))))
  /\ getRecommendedCourses (fst (loadParsedData this (Some parsedData)))
     = Ok emptyRecommendations
  /\ loadAndRecommend this None = Failure (Error "Failed to load parsed data from JSON").
Proof.
  intros H.
  assert (Hrec : getRecommendedCourses (fst (loadParsedData this (Some parsedData)))
                 = Ok emptyRecommendations).
  { apply getRecommendedCourses_empty_curriculum. exact H. }
  split; [| split; [exact Hrec | reflexivity]].
  exists (generateProgressReport (fst (loadParsedData this (Some parsedData)))).
  split; [| split; [| reflexivity]].
  - unfold loadAndRecommend. simpl loadParsedData in *. simpl fst in Hrec.
    cbv iota. simpl negb. cbv iota. rewrite Hrec. reflexivity.
  - unfold generateProgressReport. simpl. now rewrite H.
Qed.

Lemma loadAndRecommend_empty_curriculum_witness :
  or_default (pd_curriculum
                {| pd_curriculum := Some []; pd_completedCourses := None;
                   pd_availableCourses := None; pd_studentInfo := None |}) [] = []
  /\ loadAndRecommend
       newAdvisor
       (Some {| pd_curriculum := Some []; pd_completedCourses := None;
                pd_availableCourses := None; pd_studentInfo := None |})
     = Success (generateProgressReport newAdvisor) emptyRecommendations
               "Recommendations generated successfully from JSON data".
Proof.
  split; [reflexivity |].
  destruct (loadAndRecommend_empty_curriculum
              newAdvisor
              {| pd_curriculum := Some []; pd_completedCourses := None;
                 pd_availableCourses := None; pd_studentInfo := None |}
              eq_refl) as [[report [Hload [_ Hreport]]] _].
  rewrite Hload, Hreport. reflexivity.
Defined.

End ReportFacts.

(** *** Line classifier *)

Module ClassifierFacts.
Import JsStr Regex Patterns Extractor.

(** The patterns are tried in order and the first that matches decides. *)
Lemma detectSemester_first_match (before after : list regex) (pattern : regex)
      (line : string) (cur : option jsnum) (m : match_result) :
  Forall (fun p => exec p line = None) before ->
  exec pattern line = Some m ->
  detectSemester (before ++ pattern :: after)%list line cur
  = Some (parseInt (group line m 1)).
Proof.
  intros Hbefore Hm. induction Hbefore as [| p before Hp _ IH]; simpl.
  - now rewrite Hm.
  - now rewrite Hp.
Qed.

(** When no pattern matches, the semester is left as it was. *)
Lemma detectSemester_no_match (patterns : list regex) (line : string)
      (cur : option jsnum) :
  Forall (fun p => exec p line = None) patterns ->
  detectSemester patterns line cur = cur.
Proof.
  intros H. induction H as [| p patterns Hp _ IH]; simpl.
  - reflexivity.
  - now rewrite Hp.
Qed.

(** C8: the ordinal marker ["2nd Semester"] does not set the semester to
    2.  The third pattern matches it through its alternative [nd], which
    has no group, so the semester becomes [NaN] whatever it was, and the
    course lines that follow are dropped; ["1st Semester"] and
    ["Semester 2"] are read as 1 and 2. *)
Theorem ordinal_marker_gives_NaN :
  (forall cur, detectSemester semesterPatterns "2nd Semester" cur = Some NaN)
  /\ exec semester_leading "2nd Semester" = None
  /\ exec semester_word "2nd Semester" = None
  /\ option_map (fun m => group "2nd Semester" m 1)
                (exec semester_ordinal "2nd Semester") = Some None
  /\ (forall cur, detectSemester semesterPatterns "1st Semester" cur = Some (of_Z 1))
  /\ (forall cur, detectSemester semesterPatterns "Semester 2" cur = Some (of_Z 2))
  /\ option_map (map CurriculumCourse.semester)
       (match parseCurriculum ("2nd Semester" ++ LF ++ "CS201 Algorithms 6") with
        | Ok l => Some l | Throw _ => None end) = Some []
  /\ option_map (map CurriculumCourse.semester)
       (match parseCurriculum ("Semester 2" ++ LF ++ "CS201 Algorithms 6") with
        | Ok l => Some l | Throw _ => None end) = Some [of_Z 2].
Proof.
  repeat split; intros; vm_compute; reflexivity.
Qed.

End ClassifierFacts.

(** *** Completion set *)

Module CompletionFacts.
Import JsStr JsStrFacts Regex Patterns Engine Spec.

Lemma string_of_list_ascii_app (a b : chars) :
  string_of_list_ascii (a ++ b)%list
  = (string_of_list_ascii a ++ string_of_list_ascii b)%string.
Proof. induction a as [| c a IH]; simpl; [reflexivity | now rewrite IH]. Qed.

Lemma string_append_assoc (a b c : string) :
  ((a ++ b) ++ c = a ++ (b ++ c))%string.
Proof. induction a as [| x a IH]; simpl; [reflexivity | now rewrite IH]. Qed.

Lemma search_from_cons (r : regex) (pos : nat) (c : ascii) (inp : chars) :
  search_from r pos (c :: inp)
  = or_else (run r pos (c :: inp) [] (fun pos' _ caps => Some (MkMatch pos pos' caps)))
            (search_from r (S pos) inp).
Proof. reflexivity. Qed.

Lemma run_trailing_letter_long {R} (pos : nat) (c c' : ascii) (inp : chars)
      (k : nat -> chars -> captures -> option R) :
  run trailing_letter pos (c :: c' :: inp) [] k = None.
Proof.
  unfold trailing_letter. cbn [seq run]. destruct (upper false c); reflexivity.
Qed.

Lemma cut_last (before : chars) (c : ascii) (caps : captures) :
  cut (MkMatch (List.length before) (S (List.length before)) caps) (before ++ [c])%list
  = before.
Proof.
  unfold cut. cbn [m_start m_end].
  rewrite firstn_app, Nat.sub_diag, firstn_all, firstn_O, app_nil_r.
  rewrite skipn_all2 by (rewrite length_app; simpl; lia).
  apply app_nil_r.
Qed.

(** Searching [/[A-Z]$/] from the end of [before]: what [replace] leaves. *)
Lemma search_trailing_letter (s : string) (before : chars) :
  match search_from trailing_letter (List.length before) (list_ascii_of_string s) with
  | Some m =>
      string_of_list_ascii (cut m (before ++ list_ascii_of_string s)%list)
      = (string_of_list_ascii before ++ stripTrailingUpper s)%string
  | None => stripTrailingUpper s = s
  end.
Proof.
  revert before. induction s as [| c s IH]; intros before.
  - reflexivity.
  - destruct s as [| c' s'].
    + cbn. unfold upper. destruct (is_upper c) eqn:Hc.
      * cbn [orb or_else]. rewrite cut_last. cbn.
        induction before; cbn; congruence.
      * cbn. reflexivity.
    + specialize (IH (before ++ [c])%list).
      rewrite length_app in IH. cbn [List.length] in IH.
      rewrite Nat.add_1_r in IH.
      replace (search_from trailing_letter (List.length before)
                           (list_ascii_of_string (String c (String c' s'))))
        with (search_from trailing_letter (S (List.length before))
                          (list_ascii_of_string (String c' s'))).
      * destruct (search_from trailing_letter (S (List.length before))
                              (list_ascii_of_string (String c' s'))) as [m |].
        -- rewrite <- app_assoc in IH. cbn [app] in IH.
           change (list_ascii_of_string (String c (String c' s')))
             with (c :: list_ascii_of_string (String c' s')).
           rewrite IH, string_of_list_ascii_app, string_append_assoc.
           reflexivity.
        -- change (stripTrailingUpper (String c (String c' s')))
             with (String c (stripTrailingUpper (String c' s'))).
           now rewrite IH.
      * change (list_ascii_of_string (String c (String c' s')))
          with (c :: c' :: list_ascii_of_string s').
        change (list_ascii_of_string (String c' s'))
          with (c' :: list_ascii_of_string s').
        symmetry. rewrite search_from_cons, run_trailing_letter_long. reflexivity.
Qed.

(** [baseCode] strips one trailing upper case letter. *)
Lemma baseCode_spec (code : string) : baseCode code = stripTrailingUpper code.
Proof.
  unfold baseCode, remove_first, exec.
  pose proof (search_trailing_letter code []) as H. cbn [List.length app] in H.
  destruct (search_from trailing_letter 0 (list_ascii_of_string code)) as [m |].
  - exact H.
  - now rewrite H.
Qed.

Lemma JsSet_has_add (s : JsSet.t) (x y : string) :
  JsSet.has (JsSet.add s x) y = JsSet.has s y || String.eqb y x.
Proof.
  unfold JsSet.add. destruct (JsSet.has s x) eqn:Hx.
  - destruct (String.eqb_spec y x) as [-> | Hne].
    + now rewrite Hx.
    + now rewrite orb_false_r.
  - unfold JsSet.has. rewrite existsb_app. simpl. now rewrite orb_false_r.
Qed.

Lemma completedSets_fold (code : string) (entries : list (string * CompletedCourse.t))
      (codes bases : JsSet.t) :
  let step :=
    fun (sets : JsSet.t * JsSet.t) (entry : string * CompletedCourse.t) =>
      let '(completedCourseCodes, completedCourseBaseCodes) := sets in
      let '(code, course) := entry in
      if CompletedCourse.passed course
      then (JsSet.add completedCourseCodes code,
            JsSet.add (JsSet.add completedCourseBaseCodes (baseCode code)) code)
      else sets in
  JsSet.has (fst (fold_left step entries (codes, bases))) code
  = JsSet.has codes code || existsb (passedWithCode code) entries
  /\ JsSet.has (snd (fold_left step entries (codes, bases))) code
     = JsSet.has bases code || existsb (passedWithBase code) entries.
Proof.
  intros step. revert codes bases.
  induction entries as [| [k c] rest IH]; intros codes bases.
  - simpl. now rewrite !orb_false_r.
  - cbn [fold_left existsb]. unfold step at 2 4. cbn [fst snd].
    unfold passedWithCode at 1, passedWithBase at 1. cbn [fst snd].
    destruct (CompletedCourse.passed c).
    + destruct (IH (JsSet.add codes k) (JsSet.add (JsSet.add bases (baseCode k)) k))
        as [H1 H2].
      fold step in H1, H2. rewrite H1, H2, !JsSet_has_add, baseCode_spec.
      cbn [andb]. split.
      * now rewrite orb_assoc.
      * rewrite !orb_assoc. f_equal. rewrite <- !orb_assoc. f_equal. apply orb_comm.
    + destruct (IH codes bases) as [H1 H2]. fold step in H1, H2.
      rewrite H1, H2. cbn [andb orb]. now split.
Qed.

Lemma passedWithCode_absorbed (code : string) (entries : list (string * CompletedCourse.t)) :
  existsb (passedWithCode code) entries || existsb (passedWithBase code) entries
  = existsb (passedWithBase code) entries.
Proof.
  induction entries as [| e rest IH].
  - reflexivity.
  - cbn [existsb]. rewrite <- IH.
    unfold passedWithCode at 1, passedWithBase at 1 3.
    destruct (CompletedCourse.passed (snd e)), (String.eqb code (fst e)),
      (String.eqb code (stripTrailingUpper (fst e))),
      (existsb (passedWithCode code) rest), (existsb (passedWithBase code) rest);
      reflexivity.
Qed.

(** The test of the loop, that the code is in one of the two sets, is the
    test of the completion set. *)
Lemma completedSets_spec (this : Advisor) (code : string) :
  JsSet.has (fst (completedSets this)) code || JsSet.has (snd (completedSets this)) code
  = isCompleted this code.
Proof.
  unfold completedSets, isCompleted.
  destruct (completedSets_fold code (JsMap.entries (completedCourses this))
                               JsSet.empty JsSet.empty) as [H1 H2].
  cbv zeta in H1, H2. rewrite H1, H2. clear H1 H2.
  cbn [JsSet.has JsSet.empty existsb orb].
  apply passedWithCode_absorbed.
Qed.

(** A passed completed course completes its own code and its base code. *)
Lemma isCompleted_passed (this : Advisor) (k : string) (c : CompletedCourse.t) :
  In (k, c) (JsMap.entries (completedCourses this)) ->
  CompletedCourse.passed c = true ->
  isCompleted this k = true /\ isCompleted this (stripTrailingUpper k) = true.
Proof.
  intros Hin Hp. unfold isCompleted. split; apply existsb_exists; exists (k, c);
    (split; [exact Hin |]); unfold passedWithBase; cbn [fst snd];
    rewrite Hp, String.eqb_refl; cbn.
  - reflexivity.
  - apply orb_true_r.
Qed.

Lemma JsMap_get_In {V} (m : JsMap.t V) (k : string) (v : V) :
  JsMap.get m k = Some v -> In (k, v) (JsMap.entries m).
Proof.
  unfold JsMap.entries. induction m as [| [k' v'] m IH]; simpl; [discriminate |].
  destruct (String.eqb_spec k' k) as [-> | Hne].
  - intros H. injection H as ->. now left.
  - intros H. right. now apply IH.
Qed.

Lemma isOffered_spec (this : Advisor) (code : string) :
  existsb (fun avail => String.eqb (AvailableCourse.code avail) code)
          (availableCourses this)
  = isOffered this code.
Proof.
  unfold isOffered.
  destruct (in_dec string_dec code (map AvailableCourse.code (availableCourses this)))
    as [Hin | Hnin].
  - apply existsb_exists. apply in_map_iff in Hin. destruct Hin as [a [Ha Hin]].
    exists a. split; [exact Hin |]. rewrite Ha. apply String.eqb_refl.
  - apply not_true_is_false. intros H. apply Hnin.
    apply existsb_exists in H. destruct H as [a [Hin Ha]].
    apply String.eqb_eq in Ha. apply in_map_iff. now exists a.
Qed.

End CompletionFacts.

(** *** Recommendation buckets *)

Module BucketFacts.
Import JsStr JsStrFacts JsNumFacts Engine Spec CompletionFacts PrerequisiteFacts.
Local Open Scope js_scope.

Lemma filterM_inv {A} (p : A -> result bool) (l r : list A) :
  filterM p l = Ok r ->
  Forall (fun x => exists b, p x = Ok b) l
  /\ r = filter (fun x => match p x with Ok b => b | Throw _ => false end) l.
Proof.
  revert r. induction l as [| x l IH]; intros r; simpl.
  - intros H. injection H as <-. split; [constructor | reflexivity].
  - destruct (p x) as [b | e] eqn:Hx; simpl; [| discriminate].
    destruct (filterM p l) as [r' | e]; simpl; [| discriminate].
    intros H. injection H as <-. destruct (IH r' eq_refl) as [Hall ->].
    split; [constructor; [now exists b | exact Hall] | reflexivity].
Qed.

Lemma filterM_ok {A} (p : A -> result bool) (q : A -> bool) (l : list A) :
  Forall (fun x => p x = Ok (q x)) l -> filterM p l = Ok (filter q l).
Proof.
  induction 1 as [| x l Hx _ IH]; simpl; [reflexivity |].
  now rewrite Hx, IH.
Qed.

Lemma listsPrerequisite_includes (code : string) (l : list string) :
  array_includes l code = if in_dec string_dec code l then true else false.
Proof.
  destruct (in_dec string_dec code l) as [Hin | Hnin].
  - now apply array_includes_iff.
  - apply not_true_is_false. intros H. apply Hnin. now apply array_includes_iff.
Qed.

(** When the scan of the curriculum does not throw, it returns the
    entries that list the code. *)
Lemma unlockedBy_inv (this : Advisor) (c : CurriculumCourse.t)
      (unlocks : list CurriculumCourse.t) :
  unlockedBy this c = Ok unlocks ->
  unlocks = filter (listsPrerequisite (CurriculumCourse.code c)) (curriculum this).
Proof.
  unfold unlockedBy. intros H. apply filterM_inv in H. destruct H as [Hall ->].
  apply filter_ext_in. intros x Hin.
  rewrite Forall_forall in Hall. destruct (Hall x Hin) as [b Hb].
  unfold lists_prerequisite, listsPrerequisite in *.
  destruct (CurriculumCourse.prerequisites x); [| discriminate].
  apply listsPrerequisite_includes.
Qed.

Lemma unlockedBy_ok (this : Advisor) (c : CurriculumCourse.t) :
  prerequisitesPresent this ->
  unlockedBy this c
  = Ok (filter (listsPrerequisite (CurriculumCourse.code c)) (curriculum this)).
Proof.
  intros Hwf. unfold unlockedBy. apply filterM_ok. apply Forall_forall.
  intros x Hin. specialize (Hwf x Hin).
  unfold lists_prerequisite, listsPrerequisite.
  destruct (CurriculumCourse.prerequisites x); [| contradiction].
  f_equal. apply listsPrerequisite_includes.
Qed.

(** A candidate never lists its own code as a prerequisite: the code
    would then be completed. *)
Lemma candidate_not_own_prerequisite (this : Advisor) (c : CurriculumCourse.t) :
  isCandidate this c = true ->
  listsPrerequisite (CurriculumCourse.code c) c = false.
Proof.
  unfold isCandidate. rewrite !andb_true_iff, negb_true_iff.
  intros [[Hnot _] Hmet].
  unfold listsPrerequisite.
  destruct (CurriculumCourse.prerequisites c) as [l |] eqn:Hl; [| reflexivity].
  destruct (in_dec string_dec (CurriculumCourse.code c) l) as [Hin | _]; [| reflexivity].
  exfalso.
  destruct (proj1 (arePrerequisitesMet_iff_passedIn this c) Hmet (CurriculumCourse.code c))
    as [cc [Hget Hp]].
  { unfold prerequisiteCodes. now rewrite Hl. }
  apply JsMap_get_In in Hget.
  destruct (isCompleted_passed this _ _ Hget Hp) as [Hc _]. congruence.
Qed.

Lemma unlockCount_candidate (this : Advisor) (c : CurriculumCourse.t) :
  isCandidate this c = true ->
  unlockCount this c
  = List.length (filter (listsPrerequisite (CurriculumCourse.code c)) (curriculum this)).
Proof.
  intros Hc. unfold unlockCount. f_equal. apply filter_ext. intros other.
  destruct (course_eq_dec other c) as [-> | _]; [| reflexivity].
  now rewrite (candidate_not_own_prerequisite this c Hc).
Qed.

Lemma priority_sum (ac fc uc onTime oneAhead high early delayed : bool) (n : nat) :
  (let priority := #0 in
   let priority := if ac then priority + #10 else priority in
   let priority := if fc then priority + #8 else priority in
   let priority := if uc then priority + #6 else priority in
   let priority := if onTime then priority + #5 else priority in
   let priority := if oneAhead then priority + #3 else priority in
   let priority := if high && early then priority + #4 else priority in
   let priority :=
     if delayed then priority - (if high then #1 else #2) else priority in
   priority + of_nat n * #2)
  = of_Z ((if ac then 10 else 0) + (if fc then 8 else 0) + (if uc then 6 else 0)
          + (if onTime then 5 else 0) + (if oneAhead then 3 else 0)
          + (if high && early then 4 else 0)
          - (if delayed then (if high then 1 else 2) else 0)
          + 2 * Z.of_nat n).
Proof.
  unfold of_nat.
  destruct ac, fc, uc, onTime, oneAhead, high, early, delayed; cbv zeta; cbn [andb];
    rewrite ?add_of_Z, ?sub_of_Z, ?mul_of_Z, ?add_of_Z; f_equal; lia.
Qed.

(** The priority the code computes is the integer score, with every
    curriculum entry that lists the code counted. *)
Lemma calculatePriority_inv (this : Advisor) (c : CurriculumCourse.t)
      (est p : jsnum) :
  calculatePriority this c est = Ok p ->
  isCandidate this c = true ->
  p = of_Z (priorityScore this est c).
Proof.
  unfold calculatePriority. intros H Hc.
  destruct (unlockedBy this c) as [unlocks | e] eqn:Hu; [| discriminate].
  apply unlockedBy_inv in Hu.
  unfold priorityScore. rewrite (unlockCount_candidate this c Hc), <- Hu.
  unfold bind in H. injection H as <-. apply priority_sum.
Qed.

(** One iteration of the loop, by the rules of the specification. *)
Lemma consider_cases (this : Advisor) (est : jsnum) (recs : Recommendations)
      (c : CurriculumCourse.t) :
  consider this est (fst (completedSets this)) (snd (completedSets this)) recs c
  = if isCandidate this c
    then match bucketOf this est c with
         | NextSemester =>
             priority <- calculatePriority this c est ;;
             reason <- getRecommendationReason this c est ;;
             Ok {| nextSemesterCourses :=
                     (nextSemesterCourses recs
                        ++ [{| course := c; priority := priority; reason := reason |}])%list;
                   availableElectives := availableElectives recs;
                   missedCourses := missedCourses recs;
                   futureRecommendations := futureRecommendations recs |}
         | Electives =>
             Ok {| nextSemesterCourses := nextSemesterCourses recs;
                   availableElectives := (availableElectives recs ++ [c])%list;
                   missedCourses := missedCourses recs;
                   futureRecommendations := futureRecommendations recs |}
         | Missed =>
             Ok {| nextSemesterCourses := nextSemesterCourses recs;
                   availableElectives := availableElectives recs;
                   missedCourses := (missedCourses recs ++ [c])%list;
                   futureRecommendations := futureRecommendations recs |}
         | Future =>
             Ok {| nextSemesterCourses := nextSemesterCourses recs;
                   availableElectives := availableElectives recs;
                   missedCourses := missedCourses recs;
                   futureRecommendations := (futureRecommendations recs ++ [c])%list |}
         end
    else Ok recs.
Proof.
  unfold consider, isCandidate, bucketOf, withinTwo, isElectiveCategory.
  rewrite <- completedSets_spec, isOffered_spec.
  generalize (JsSet.has (fst (completedSets this)) (CurriculumCourse.code c)).
  generalize (JsSet.has (snd (completedSets this)) (CurriculumCourse.code c)).
  generalize (isOffered this (CurriculumCourse.code c)).
  generalize (arePrerequisitesMet this c).
  generalize (calculatePriority this c est).
  generalize (getRecommendationReason this c est).
  generalize (CurriculumCourse.semester c === est).
  generalize (CurriculumCourse.semester c === est + #1).
  generalize (est >? #8).
  generalize (CurriculumCourse.semester c <=? #8).
  generalize (CurriculumCourse.semester c <=? est + #2).
  generalize (CurriculumCourse.semester c >=? est - #2).
  generalize (CurriculumCourse.semester c <? est).
  generalize (String.eqb (CurriculumCourse.category c) "AE").
  generalize (String.eqb (CurriculumCourse.category c) "FE").
  generalize (String.eqb (CurriculumCourse.category c) "UE").
  intros ue fe ae delayed ge2 le2 early high oneAhead onTime reason priority met offered hb hc.
  destruct hc, hb, offered, met; try reflexivity.
  destruct onTime, oneAhead, high, early, le2, ge2; try reflexivity;
    destruct ae, fe, ue; try reflexivity; destruct delayed; reflexivity.
Qed.

(** The loop over the curriculum: what each bucket receives. *)
Lemma forM_consider (this : Advisor) (est : jsnum) (l : list CurriculumCourse.t) :
  forall acc acc',
    forM (consider this est (fst (completedSets this)) (snd (completedSets this))) l acc
    = Ok acc' ->
    map course (nextSemesterCourses acc')
    = (map course (nextSemesterCourses acc) ++ filter (goesTo this est NextSemester) l)%list
    /\ availableElectives acc'
       = (availableElectives acc ++ filter (goesTo this est Electives) l)%list
    /\ missedCourses acc'
       = (missedCourses acc ++ filter (goesTo this est Missed) l)%list
    /\ futureRecommendations acc'
       = (futureRecommendations acc ++ filter (goesTo this est Future) l)%list
    /\ (forall x, In x (nextSemesterCourses acc') ->
                  In x (nextSemesterCourses acc)
                  \/ (isCandidate this (course x) = true
                      /\ calculatePriority this (course x) est = Ok (priority x))).
Proof.
  induction l as [| c l IH]; intros acc acc'.
  - simpl. intros H. injection H as <-. rewrite !app_nil_r. repeat split. now left.
  - cbn [forM filter]. rewrite consider_cases.
    assert (Hgo : forall b, goesTo this est b c
                            = isCandidate this c && Bucket_eqb (bucketOf this est c) b)
      by reflexivity.
    rewrite !Hgo. clear Hgo.
    destruct (isCandidate this c) eqn:Hc; cbn [andb].
    + destruct (bucketOf this est c) eqn:Hb; cbn [Bucket_eqb].
      * destruct (calculatePriority this c est) as [p | e] eqn:Hp; [| discriminate].
        destruct (getRecommendationReason this c est) as [r | e]; [| discriminate].
        cbn [bind]. intros H. apply IH in H. cbn [nextSemesterCourses availableElectives
          missedCourses futureRecommendations] in H.
        destruct H as (H1 & H2 & H3 & H4 & H5).
        rewrite H1, map_app, <- app_assoc. repeat split; try assumption.
        intros x Hx. destruct (H5 x Hx) as [Hin | Hnew]; [| now right].
        apply in_app_or in Hin. destruct Hin as [Hin | [<- | []]]; [now left |].
        right. cbn [course priority]. now split.
      * cbn [bind]. intros H. apply IH in H. cbn [nextSemesterCourses availableElectives
          missedCourses futureRecommendations] in H.
        destruct H as (H1 & H2 & H3 & H4 & H5).
        rewrite H2, <- app_assoc. repeat split; assumption.
      * cbn [bind]. intros H. apply IH in H. cbn [nextSemesterCourses availableElectives
          missedCourses futureRecommendations] in H.
        destruct H as (H1 & H2 & H3 & H4 & H5).
        rewrite H3, <- app_assoc. repeat split; assumption.
      * cbn [bind]. intros H. apply IH in H. cbn [nextSemesterCourses availableElectives
          missedCourses futureRecommendations] in H.
        destruct H as (H1 & H2 & H3 & H4 & H5).
        rewrite H4, <- app_assoc. repeat split; assumption.
    + cbn [bind]. apply IH.
Qed.

Lemma getRecommendationReason_ok (this : Advisor) (c : CurriculumCourse.t) (est : jsnum) :
  prerequisitesPresent this -> exists r, getRecommendationReason this c est = Ok r.
Proof.
  intros Hwf. unfold getRecommendationReason. rewrite (unlockedBy_ok this c Hwf).
  cbn [bind]. eexists. reflexivity.
Qed.

Lemma calculatePriority_ok (this : Advisor) (c : CurriculumCourse.t) (est : jsnum) :
  prerequisitesPresent this -> exists p, calculatePriority this c est = Ok p.
Proof.
  intros Hwf. unfold calculatePriority. rewrite (unlockedBy_ok this c Hwf).
  cbn [bind]. eexists. reflexivity.
Qed.

(** With every list of prerequisites present the loop does not throw. *)
Lemma forM_consider_ok (this : Advisor) (est : jsnum) (l : list CurriculumCourse.t) :
  prerequisitesPresent this ->
  forall acc, exists acc',
    forM (consider this est (fst (completedSets this)) (snd (completedSets this))) l acc
    = Ok acc'.
Proof.
  intros Hwf. induction l as [| c l IH]; intros acc.
  - now exists acc.
  - cbn [forM]. rewrite consider_cases.
    destruct (isCandidate this c); [| apply IH].
    destruct (bucketOf this est c); try apply IH.
    destruct (calculatePriority_ok this c est Hwf) as [p ->].
    destruct (getRecommendationReason_ok this c est Hwf) as [r ->].
    apply IH.
Qed.

End BucketFacts.

(** *** The stable sort *)

Module SortFacts.
Import JsNumFacts Engine Spec.
Local Open Scope js_scope.

Section Stable.
Variable A : Type.
Variable compare : A -> A -> jsnum.
Variable key : A -> Z.

Lemma insert_perm (x : A) (l : list A) : Permutation (insert compare x l) (x :: l).
Proof.
  induction l as [| y l IH]; cbn [insert].
  - apply Permutation_refl.
  - destruct (compare x y >? #0).
    + apply perm_trans with (y :: x :: l).
      * now apply perm_skip.
      * apply perm_swap.
    + apply Permutation_refl.
Qed.

Lemma sort_perm (l : list A) : Permutation (sort compare l) l.
Proof.
  induction l as [| x l IH]; cbn [sort].
  - apply perm_nil.
  - apply perm_trans with (x :: sort compare l).
    + apply insert_perm.
    + now apply perm_skip.
Qed.

Lemma sort_In (l : list A) (x : A) : In x (sort compare l) <-> In x l.
Proof.
  split; apply Permutation_in; [| apply Permutation_sym]; apply sort_perm.
Qed.




End Stable.



End SortFacts.

(** *** Recommendations *)

Module RecommendationFacts.
Import JsStr JsNumFacts Engine Spec CompletionFacts BucketFacts SortFacts.
Local Open Scope js_scope.

(** What a call that returns has computed: the next-semester entries
    before the sort, in curriculum order, and the other three buckets. *)
Lemma getRecommendedCourses_inv (this : Advisor) (r : Recommendations) :
  getRecommendedCourses this = Ok r ->
  exists unsorted,
    nextSemesterCourses r = sort byPriority unsorted
    /\ map course unsorted = bucketContents this NextSemester
    /\ availableElectives r = bucketContents this Electives
    /\ missedCourses r = bucketContents this Missed
    /\ futureRecommendations r = bucketContents this Future
    /\ (forall x, In x unsorted ->
                  isCandidate this (course x) = true
                  /\ priority x
                     = of_Z (priorityScore this (getCurrentSemester this) (course x))).
Proof.
  unfold getRecommendedCourses.
  rewrite (surjective_pairing (completedSets this)).
  destruct (forM _ (curriculum this) emptyRecommendations) as [acc | e] eqn:HF;
    [| discriminate].
  apply forM_consider in HF. cbn [emptyRecommendations nextSemesterCourses
    availableElectives missedCourses futureRecommendations map app] in HF.
  destruct HF as (H1 & H2 & H3 & H4 & H5).
  cbn [bind]. intros H. injection H as <-.
  exists (nextSemesterCourses acc).
  cbn [nextSemesterCourses availableElectives missedCourses futureRecommendations].
  repeat split; try assumption.
  - destruct (H5 x H) as [[] | [Hc _]]. exact Hc.
  - destruct (H5 x H) as [[] | [Hc Hp]]. now apply calculatePriority_inv.
Qed.

Lemma getRecommendedCourses_ok (this : Advisor) :
  prerequisitesPresent this -> exists r, getRecommendedCourses this = Ok r.
Proof.
  intros Hwf. unfold getRecommendedCourses.
  rewrite (surjective_pairing (completedSets this)).
  destruct (forM_consider_ok this (getCurrentSemester this) (curriculum this) Hwf
                             emptyRecommendations) as [acc ->].
  cbn [bind]. eexists. reflexivity.
Qed.

Lemma Bucket_eqb_eq (a b : Bucket) : Bucket_eqb a b = true <-> a = b.
Proof. destruct a, b; simpl; split; congruence. Qed.

Lemma bucketContents_In (this : Advisor) (b : Bucket) (c : CurriculumCourse.t) :
  In c (bucketContents this b)
  <-> In c (curriculum this)
      /\ isCandidate this c = true
      /\ bucketOf this (getCurrentSemester this) c = b.
Proof.
  unfold bucketContents, goesTo.
  rewrite filter_In, andb_true_iff, Bucket_eqb_eq. tauto.
Qed.

Lemma inBucket_perm (this : Advisor) (r : Recommendations) :
  getRecommendedCourses this = Ok r ->
  forall b, Permutation (inBucket r b) (bucketContents this b).
Proof.
  intros H b. apply getRecommendedCourses_inv in H.
  destruct H as (unsorted & Hn & Hu & He & Hm & Hf & _).
  destruct b; cbn [inBucket].
  - rewrite Hn, <- Hu. apply Permutation_map, sort_perm.
  - rewrite He. apply Permutation_refl.
  - rewrite Hm. apply Permutation_refl.
  - rewrite Hf. apply Permutation_refl.
Qed.

Lemma inBucket_In (this : Advisor) (r : Recommendations) :
  getRecommendedCourses this = Ok r ->
  forall c b,
    In c (inBucket r b)
    <-> In c (curriculum this)
        /\ isCandidate this c = true
        /\ bucketOf this (getCurrentSemester this) c = b.
Proof.
  intros H c b. rewrite <- bucketContents_In.
  pose proof (inBucket_perm this r H b) as Hp.
  split; apply Permutation_in; [exact Hp | now apply Permutation_sym].
Qed.


Lemma student_prerequisitesPresent : prerequisitesPresent Scenario.student.
Proof.
  intros c Hin. simpl in Hin.
  repeat (destruct Hin as [<- | Hin]; [discriminate |]). destruct Hin.
Qed.








(** C7: a passed completed course puts its code and its base code, the
    code without one trailing upper case letter, in the sets of completed
    codes, and no course of any of the four buckets has one of the two as
    its code. *)
Theorem passed_code_and_base_code_excluded
        (this : Advisor) (code : string) (completedCourse : CompletedCourse.t) :
  In (code, completedCourse) (JsMap.entries (completedCourses this)) ->
  CompletedCourse.passed completedCourse = true ->
  baseCode code = stripTrailingUpper code
  /\ JsSet.has (fst (completedSets this)) code = true
  /\ JsSet.has (snd (completedSets this)) (baseCode code) = true
  /\ forall r, getRecommendedCourses this = Ok r ->
       forall b c, In c (inBucket r b) ->
                   CurriculumCourse.code c <> code
                   /\ CurriculumCourse.code c <> baseCode code.
Proof.
  intros Hin Hp. split; [apply baseCode_spec |].
  pose proof (completedSets_fold code (JsMap.entries (completedCourses this))
                                 JsSet.empty JsSet.empty) as [Hc _].
  pose proof (completedSets_fold (baseCode code) (JsMap.entries (completedCourses this))
                                 JsSet.empty JsSet.empty) as [_ Hb].
  cbv zeta in Hc, Hb. fold (completedSets this) in Hc, Hb.
  split; [| split].
  - rewrite Hc. apply orb_true_iff. right. apply existsb_exists.
    exists (code, completedCourse). split; [exact Hin |].
    unfold passedWithCode. cbn [fst snd]. now rewrite Hp, String.eqb_refl.
  - rewrite Hb. apply orb_true_iff. right. apply existsb_exists.
    exists (code, completedCourse). split; [exact Hin |].
    unfold passedWithBase. cbn [fst snd].
    rewrite Hp, baseCode_spec, String.eqb_refl. cbn. apply orb_true_r.
  - intros r Hr b c Hc'. apply (inBucket_In this r Hr) in Hc'.
    destruct Hc' as (_ & Hcand & _).
    unfold isCandidate in Hcand. rewrite !andb_true_iff, negb_true_iff in Hcand.
    destruct Hcand as [[Hnot _] _].
    destruct (isCompleted_passed this code completedCourse Hin Hp) as [H1 H2].
    rewrite baseCode_spec. split; intros Heq; rewrite Heq in Hnot; congruence.
Qed.

Lemma passed_code_and_base_code_excluded_witness :
  In ("PHYS121F", Scenario.completedCourse "PHYS121F" "B" (of_Z 4))
     (JsMap.entries (completedCourses Scenario.student))
  /\ CompletedCourse.passed (Scenario.completedCourse "PHYS121F" "B" (of_Z 4)) = true
  /\ baseCode "PHYS121F" = "PHYS121"
  /\ In Scenario.phys121 (curriculum Scenario.student)
  /\ exists r, getRecommendedCourses Scenario.student = Ok r
               /\ forall b, ~ In Scenario.phys121 (inBucket r b).
Proof.
  assert (Hin : In ("PHYS121F", Scenario.completedCourse "PHYS121F" "B" (of_Z 4))
                   (JsMap.entries (completedCourses Scenario.student)))
    by (right; left; reflexivity).
  assert (Hp : CompletedCourse.passed (Scenario.completedCourse "PHYS121F" "B" (of_Z 4))
               = true) by reflexivity.
  split; [exact Hin |]. split; [exact Hp |]. split; [reflexivity |].
  split; [do 3 right; left; reflexivity |].
  destruct (getRecommendedCourses_ok Scenario.student student_prerequisitesPresent)
    as [r Hr].
  exists r. split; [exact Hr |]. intros b Hb.
  destruct (passed_code_and_base_code_excluded
              Scenario.student "PHYS121F"
              (Scenario.completedCourse "PHYS121F" "B" (of_Z 4)) Hin Hp)
    as (_ & _ & _ & Hex).
  destruct (Hex r Hr b Scenario.phys121 Hb) as [_ Hne]. apply Hne. reflexivity.
Defined.

End RecommendationFacts.

(** *** The matcher *)

Module RegexFacts.
Import JsStr Regex.

(** A successful repetition has consumed some [n] characters of the
    class, at least [min], and then called its continuation. *)
Lemma repeat_loop_inv {R} (cs : charset) (greedy : bool) (inp : chars) :
  forall (min : nat) (max : option nat) (pos : nat)
         (k : nat -> chars -> option R) (res : R),
    repeat_loop cs greedy min max pos inp k = Some res ->
    exists n, min <= n /\ n <= List.length inp
              /\ forallb cs (firstn n inp) = true
              /\ k (pos + n) (skipn n inp) = Some res.
Proof.
  induction inp as [| c inp IH]; intros min max pos k res H.
  - destruct min as [| min]; cbn in H.
    + exists 0. rewrite Nat.add_0_r. cbn.
      assert (Hk : k pos [] = Some res).
      { destruct greedy; [exact H |]. unfold or_else in H.
        now destruct (k pos []). }
      now repeat split.
    + discriminate.
  - cbn [repeat_loop] in H.
    assert (Hmore :
              (if cs c && may_repeat max
               then repeat_loop cs greedy (Nat.pred min) (option_map Nat.pred max)
                                (S pos) inp k
               else None) = Some res ->
              exists n, min <= n /\ n <= List.length (c :: inp)
                        /\ forallb cs (firstn n (c :: inp)) = true
                        /\ k (pos + n) (skipn n (c :: inp)) = Some res).
    { destruct (cs c) eqn:Hc; [| discriminate].
      destruct (may_repeat max); [| discriminate]. cbn [andb].
      intros H'. apply IH in H'. destruct H' as (n & Hmin & Hlen & Hall & Hk).
      exists (S n). cbn [firstn skipn forallb List.length].
      rewrite Hc, Hall, Nat.add_succ_r. cbn [andb]. repeat split; try lia.
      exact Hk. }
    destruct min as [| min]; [| now apply Hmore].
    assert (Hstop : k pos (c :: inp) = Some res ->
                    exists n, 0 <= n /\ n <= List.length (c :: inp)
                              /\ forallb cs (firstn n (c :: inp)) = true
                              /\ k (pos + n) (skipn n (c :: inp)) = Some res).
    { intros H'. exists 0. rewrite Nat.add_0_r. cbn. repeat split; try lia. exact H'. }
    destruct greedy; unfold or_else in H.
    + destruct (if cs c && may_repeat max then _ else None) eqn:E.
      * apply Hmore. now rewrite <- H.
      * now apply Hstop.
    + destruct (k pos (c :: inp)) eqn:E.
      * apply Hstop. now rewrite <- H.
      * now apply Hmore.
Qed.

Lemma get_set_capture (i j : nat) (v : chars) (caps : captures) :
  get_capture j (set_capture i v caps)
  = if Nat.eqb i j then Some v else get_capture j caps.
Proof.
  unfold set_capture. cbn [get_capture]. destruct (Nat.eqb_spec i j) as [-> | Hne].
  - reflexivity.
  - induction caps as [| [a w] caps IH]; [reflexivity |].
    cbn [filter fst]. destruct (Nat.eqb_spec a i) as [-> | Hai]; cbn [negb].
    + cbn [get_capture]. destruct (Nat.eqb_spec i j); [contradiction | exact IH].
    + cbn [get_capture]. destruct (Nat.eqb a j); [reflexivity | exact IH].
Qed.


(** A match sets every group that the pattern must set, and unsets
    none. *)
Lemma run_mustSet {R} (r : regex) :
  forall (pos : nat) (inp : chars) (caps : captures)
         (k : nat -> chars -> captures -> option R) (res : R),
    run r pos inp caps k = Some res ->
    exists pos' inp' caps',
      k pos' inp' caps' = Some res
      /\ forall i, mustSet i r = true \/ get_capture i caps <> None ->
                   get_capture i caps' <> None.
Proof.
  induction r as [| cs | r1 IH1 r2 IH2 | r1 IH1 r2 IH2 | j r1 IH1
                  | cs min max greedy | r1 IH1 | |];
    intros pos inp caps k res H; cbn [run] in H;
    try (assert (Hkeep : forall i, mustSet i Eps = true \/ get_capture i caps <> None ->
                                   get_capture i caps <> None)
          by (intros i [Hi | Hi]; [discriminate | exact Hi])).
  - now exists pos, inp, caps.
  - destruct inp as [| c inp]; [discriminate |].
    destruct (cs c); [| discriminate]. now exists (S pos), inp, caps.
  - apply IH1 in H. destruct H as (pos1 & inp1 & caps1 & H & Hset1).
    apply IH2 in H. destruct H as (pos2 & inp2 & caps2 & H & Hset2).
    exists pos2, inp2, caps2. split; [exact H |].
    intros i Hi. apply Hset2. cbn [mustSet] in Hi. rewrite orb_true_iff in Hi.
    destruct Hi as [[Hi | Hi] | Hi]; [right; apply Hset1; now left | now left |
                                       right; apply Hset1; now right].
  - unfold or_else in H. destruct (run r1 pos inp caps k) eqn:E.
    + rewrite H in E. apply IH1 in E. destruct E as (pos1 & inp1 & caps1 & E & Hset).
      exists pos1, inp1, caps1. split; [exact E |].
      intros i Hi. apply Hset. cbn [mustSet] in Hi. rewrite andb_true_iff in Hi. tauto.
    + apply IH2 in H. destruct H as (pos1 & inp1 & caps1 & H & Hset).
      exists pos1, inp1, caps1. split; [exact H |].
      intros i Hi. apply Hset. cbn [mustSet] in Hi. rewrite andb_true_iff in Hi. tauto.
  - apply IH1 in H. destruct H as (pos1 & inp1 & caps1 & H & Hset).
    eexists _, _, _. split; [exact H |].
    intros i Hi. rewrite get_set_capture.
    destruct (Nat.eqb_spec j i) as [-> | Hne]; [discriminate |].
    apply Hset. cbn [mustSet] in Hi. rewrite orb_true_iff, Nat.eqb_eq in Hi.
    destruct Hi as [[Hi | Hi] | Hi]; [contradiction | now left | now right].
  - apply repeat_loop_inv in H. destruct H as (n & _ & _ & _ & H).
    exists (pos + n), (skipn n inp), caps. now split.
  - unfold or_else in H. destruct (run r1 pos inp caps _) eqn:E.
    + rewrite H in E. apply IH1 in E. destruct E as (pos1 & inp1 & caps1 & E & Hset).
      destruct (Nat.eqb pos1 pos); [discriminate |].
      exists pos1, inp1, caps1. split; [exact E |].
      intros i [Hi | Hi]; [discriminate |]. apply Hset. now right.
    + now exists pos, inp, caps.
  - destruct (Nat.eqb pos 0); [| discriminate]. now exists pos, inp, caps.
  - destruct inp; [| discriminate]. now exists pos, [], caps.
Qed.

Lemma search_from_inv (r : regex) (inp : chars) :
  forall (pos : nat) (m : match_result),
    search_from r pos inp = Some m ->
    exists pos0 inp0,
      run r pos0 inp0 [] (fun pos' _ caps => Some (MkMatch pos0 pos' caps)) = Some m.
Proof.
  induction inp as [| c inp IH]; intros pos m H; cbn [search_from] in H;
    unfold or_else in H.
  - destruct (run r pos [] [] _) eqn:E; [| discriminate].
    rewrite <- H in *. now exists pos, [].
  - destruct (run r pos (c :: inp) [] _) eqn:E.
    + rewrite <- H in *. now exists pos, (c :: inp).
    + now apply IH in H.
Qed.


Lemma exec_mustSet (r : regex) (s : string) (m : match_result) (i : nat) :
  mustSet (S i) r = true -> exec r s = Some m ->
  exists v, group s m (S i) = Some v.
Proof.
  intros Hi H. apply search_from_inv in H. destruct H as (pos0 & inp0 & H).
  apply run_mustSet in H. destruct H as (pos' & inp' & caps' & H & Hset).
  injection H as <-. cbn [group m_caps].
  specialize (Hset (S i) (or_introl Hi)).
  destruct (get_capture (S i) caps') as [v |]; [| contradiction].
  now eexists.
Qed.

End RegexFacts.

(** *** Curriculum extractor *)

Module ExtractorFacts.
Import JsStr JsNumFacts Regex Patterns RegexFacts Extractor Spec.

Lemma digit_is_plain (c : ascii) :
  is_digit c = true ->
  is_space c = false
  /\ Ascii.eqb c "-" = false /\ Ascii.eqb c "+" = false
  /\ Ascii.eqb c "x" = false /\ Ascii.eqb c "X" = false.
Proof.
  destruct c as [b0 b1 b2 b3 b4 b5 b6 b7].
  destruct b0, b1, b2, b3, b4, b5, b6, b7; vm_compute; intros H;
    try discriminate H; repeat split.
Qed.

Lemma digits_value_nonneg (l : chars) : (0 <= digits_value l)%Z.
Proof.
  unfold digits_value.
  assert (H : forall acc, (0 <= acc)%Z ->
                          (0 <= fold_left (fun a c => 10 * a + digit_value c) l acc)%Z).
  { induction l as [| c l IH]; intros acc Hacc; [exact Hacc |].
    cbn [fold_left]. apply IH. unfold digit_value. lia. }
  apply H. lia.
Qed.

Lemma take_while_all (p : ascii -> bool) (l : chars) :
  forallb p l = true -> take_while p l = l.
Proof.
  induction l as [| c l IH]; [reflexivity |].
  cbn [forallb take_while]. rewrite andb_true_iff. intros [-> Hl]. now rewrite IH.
Qed.

(** [parseInt] on a run of digits is the Number value for its decimal
    value. *)
Lemma parseInt_chars_digits (v : chars) :
  v <> [] -> forallb is_digit v = true ->
  parseInt_chars v = Binary64.round64 (inject_Z (digits_value v)).
Proof.
  intros Hne Hall. destruct v as [| c v]; [contradiction |].
  pose proof Hall as Hall'. cbn [forallb] in Hall'. apply andb_true_iff in Hall'.
  destruct Hall' as [Hc Hv].
  destruct (digit_is_plain c Hc) as (Hs & Hm & Hp & _).
  unfold parseInt_chars. cbn [drop_while]. rewrite Hs, Hm, Hp.
  assert (Hhex : match c :: v with
                 | z :: x :: l' =>
                     if Ascii.eqb z "0" && (Ascii.eqb x "x" || Ascii.eqb x "X")
                     then Some l' else None
                 | _ => None
                 end = None).
  { destruct v as [| x v]; [reflexivity |].
    cbn [forallb] in Hv. apply andb_true_iff in Hv. destruct Hv as [Hx _].
    destruct (digit_is_plain x Hx) as (_ & _ & _ & -> & ->).
    now rewrite andb_false_r. }
  rewrite Hhex, (take_while_all is_digit (c :: v) Hall).
  do 2 f_equal. apply Z.mul_1_l.
Qed.

(** It is a natural number, or [+Infinity] when the run is too long. *)
Lemma parseInt_chars_natural (v : chars) :
  v <> [] -> forallb is_digit v = true ->
  parseInt_chars v = Inf false
  \/ exists z : Z, (0 <= z)%Z /\ parseInt_chars v = of_Z z.
Proof.
  intros Hne Hall. rewrite (parseInt_chars_digits v Hne Hall).
  apply Binary64Facts.round64_natural, digits_value_nonneg.
Qed.

(** A run of digits whose value is below [2^53] is read exactly. *)
Lemma parseInt_chars_exact (v : chars) :
  v <> [] -> forallb is_digit v = true -> (digits_value v < 2 ^ 53)%Z ->
  parseInt_chars v = of_Z (digits_value v).
Proof.
  intros Hne Hall Hb. rewrite (parseInt_chars_digits v Hne Hall).
  apply Binary64Facts.round64_of_Z. split; [apply digits_value_nonneg | exact Hb].
Qed.












End ExtractorFacts.

(** *** The worked scenario, evaluated *)

Module ScenarioFacts.
Import Engine Extractor Spec.

(** The marker of value 0 and the ordinal marker let nothing through;
    the other records carry the semester of the last marker read. *)
Lemma curriculumText_parsed :
  match parseCurriculum Scenario.curriculumText with
  | Ok emitted =>
      map (fun c => (CurriculumCourse.code c, CurriculumCourse.semester c)) emitted
      = [("CS101", of_Z 1); ("MATH201", of_Z 2)]
  | Throw _ => False
  end.
Proof. vm_compute. reflexivity. Qed.

(** The student of the scenario is estimated to be in semester 1. *)
Lemma student_estimate : getCurrentSemester Scenario.student = of_Z 1.
Proof. reflexivity. Qed.

End ScenarioFacts.

(** *** More on the semester estimate *)

Module EstimateFacts.
Import JsNumFacts Binary64Facts Engine Spec SpecMore SemesterFacts.
Local Open Scope js_scope.

Lemma rounded_nonnegative (n : jsnum) :
  nonnegativeOrInfinite n -> nonnegativeOrInfinite (Binary64.rounded n).
Proof.
  intros [-> | [q [-> Hq]]]; [now left |].
  cbn [Binary64.rounded].
  destruct (round64_nonneg q Hq) as [H | [v [H Hv]]]; rewrite H.
  - now left.
  - right. now exists v.
Qed.

Lemma add_nonnegative (a b : jsnum) :
  nonnegativeOrInfinite a -> nonnegativeOrInfinite b -> nonnegativeOrInfinite (a +~ b).
Proof.
  intros Ha Hb. unfold Binary64.add. apply rounded_nonnegative.
  destruct (rounded_nonnegative a Ha) as [-> | [p [-> Hp]]],
           (rounded_nonnegative b Hb) as [-> | [q [-> Hq]]]; try (now left).
  right. exists (Qred (p + q)). split; [reflexivity |].
  rewrite Qred_correct. replace 0%Q with (0 + 0)%Q by reflexivity.
  now apply Qplus_le_compat.
Qed.

Lemma passedCreditsFrom_nonnegative (entries : list (string * CompletedCourse.t))
      (sum : jsnum) :
  nonnegativeCredits entries -> nonnegativeOrInfinite sum ->
  nonnegativeOrInfinite (passedCreditsFrom sum entries).
Proof.
  revert sum. induction entries as [| [k c] rest IH]; intros sum H Hs; simpl.
  - exact Hs.
  - assert (Hrest : nonnegativeCredits rest).
    { intros k' c' Hin. apply (H k' c'). now right. }
    destruct (CompletedCourse.passed c) eqn:Hp; [| now apply IH].
    apply IH; [exact Hrest |]. apply add_nonnegative; [exact Hs |].
    exact (H k c (or_introl eq_refl) Hp).
Qed.

(** From a total that is not negative, the estimate is an integer, at
    least 1, or [+Infinity]. *)
Lemma estimate_positive (total : jsnum) :
  nonnegativeOrInfinite total -> positiveOrInfinite (floor (total /~ #20) +~ #1).
Proof.
  intros Ht.
  assert (Hq : nonnegativeOrInfinite (total /~ #20)).
  { unfold Binary64.div. apply rounded_nonnegative.
    rewrite (rounded_of_Z 20) by lia.
    destruct (rounded_nonnegative total Ht) as [-> | [p [-> Hp]]]; [now left |].
    right. unfold div, of_Z.
    change (Qis_zero (inject_Z 20)) with false. cbv iota.
    exists (Qred (p / inject_Z 20)). split; [reflexivity |].
    rewrite Qred_correct. apply Qle_shift_div_l; [reflexivity |].
    now rewrite Qmult_0_l. }
  unfold Binary64.add. rewrite (rounded_of_Z 1) by lia.
  destruct Hq as [-> | [v [-> Hv]]]; [now left |].
  cbn [floor].
  assert (H0 : (0 <= Qfloor v)%Z).
  { change 0%Z with (Qfloor 0). now apply Qfloor_resp_le. }
  destruct (rounded_natural (Qfloor v) H0) as [-> | [f [Hf ->]]]; [now left |].
  rewrite add_of_Z.
  destruct (rounded_positive_Z (f + 1)) as [H | [z [Hz H]]]; [lia | |].
  - left. exact H.
  - right. now exists z.
Qed.

Lemma getCurrentSemester_positive (this : Advisor) :
  nonnegativeCredits (JsMap.entries (completedCourses this)) ->
  positiveOrInfinite (getCurrentSemester this).
Proof.
  intros H. rewrite getCurrentSemester_passedCredits.
  apply estimate_positive, passedCreditsFrom_nonnegative; [exact H |].
  right. exists 0%Q. split; [reflexivity | apply Qle_refl].
Qed.

(** With whole credits that are not negative and a total below [2^52],
    the estimate is an integer [n], at least 1, and the passed credits
    lie between [20 (n - 1)] included and [20 n] excluded. *)
Theorem estimate_brackets_credits (this : Advisor) :
  wholeCredits (JsMap.entries (completedCourses this)) ->
  (passedCreditsQ (JsMap.entries (completedCourses this)) < inject_Z (2 ^ 52))%Q ->
  exists n : Z,
    getCurrentSemester this = of_Z n
    /\ (1 <= n)%Z
    /\ (inject_Z (20 * (n - 1)) <= passedCreditsQ (JsMap.entries (completedCourses this)))%Q
    /\ (passedCreditsQ (JsMap.entries (completedCourses this)) < inject_Z (20 * n))%Q.
Proof.
  intros Hw Hb.
  destruct (getCurrentSemester_whole this Hw Hb) as [t [Ht [Hq He]]].
  exists (t / 20 + 1)%Z. split; [exact He |].
  pose proof (Z.div_mod t 20 ltac:(lia)) as Hdm.
  pose proof (Z.mod_pos_bound t 20 ltac:(lia)) as Hmod.
  assert (H0 : (0 <= t / 20)%Z) by (apply Z.div_pos; lia).
  split; [lia |]. rewrite Hq, <- Zle_Qle, <- Zlt_Qlt. lia.
Qed.

Lemma estimate_brackets_credits_witness :
  exists n : Z, getCurrentSemester Scenario.student = of_Z n /\ (1 <= n)%Z.
Proof.
  destruct (estimate_brackets_credits Scenario.student) as (n & Hn & H1 & _).
  - intros k c Hin Hp. simpl in Hin.
    destruct Hin as [E | [E | [E | []]]]; injection E as <- <-.
    + exists 6%Z. split; [lia | reflexivity].
    + exists 4%Z. split; [lia | reflexivity].
    + discriminate Hp.
  - vm_compute. reflexivity.
  - exists n. now split.
Defined.

End EstimateFacts.

(** *** Maps *)

Module JsMapFacts.
Import SpecMore.

Section WithValue.
Variable V : Type.

Lemma get_set (m : JsMap.t V) (k k' : string) (v : V) :
  JsMap.get (JsMap.set m k v) k'
  = if String.eqb k k' then Some v else JsMap.get m k'.
Proof.
  induction m as [| [a w] m IH]; cbn [JsMap.set JsMap.get].
  - reflexivity.
  - destruct (String.eqb_spec a k) as [-> | Hak]; cbn [JsMap.get].
    + destruct (String.eqb k k'); reflexivity.
    + rewrite IH. destruct (String.eqb_spec a k') as [-> | Hak'].
      * destruct (String.eqb_spec k k') as [-> | _]; [contradiction | reflexivity].
      * reflexivity.
Qed.

Lemma get_None_keys (m : JsMap.t V) (k : string) :
  JsMap.get m k = None <-> ~ In k (map fst m).
Proof.
  induction m as [| [a w] m IH]; cbn [JsMap.get map fst In].
  - tauto.
  - destruct (String.eqb_spec a k) as [-> | Hak].
    + split; [discriminate | intros H; exfalso; apply H; now left].
    + rewrite IH. tauto.
Qed.

(** [set] on a new key appends; on a known key it keeps the keys. *)
Lemma keys_set (m : JsMap.t V) (k : string) (v : V) :
  map fst (JsMap.set m k v)
  = if JsMap.has m k then map fst m else (map fst m ++ [k])%list.
Proof.
  unfold JsMap.has. induction m as [| [a w] m IH]; cbn [JsMap.set JsMap.get map fst app].
  - reflexivity.
  - destruct (String.eqb_spec a k) as [-> | Hak]; cbn [map fst].
    + reflexivity.
    + rewrite IH. now destruct (JsMap.get m k).
Qed.

Lemma set_new (m : JsMap.t V) (k : string) (v : V) :
  ~ In k (map fst m) -> JsMap.set m k v = (m ++ [(k, v)])%list.
Proof.
  induction m as [| [a w] m IH]; cbn [JsMap.set map fst In app]; intros H.
  - reflexivity.
  - destruct (String.eqb_spec a k) as [-> | Hak]; [exfalso; apply H; now left |].
    rewrite IH by tauto. reflexivity.
Qed.

Lemma set_distinctKeys (m : JsMap.t V) (k : string) (v : V) :
  distinctKeys m -> distinctKeys (JsMap.set m k v).
Proof.
  unfold distinctKeys. intros H. rewrite keys_set. unfold JsMap.has.
  destruct (JsMap.get m k) eqn:E; [exact H |].
  apply get_None_keys in E.
  apply (Permutation_NoDup (l := k :: map fst m)).
  - apply Permutation_cons_append.
  - now constructor.
Qed.

Lemma fold_set_distinctKeys (pairs : list (string * V)) (m : JsMap.t V) :
  distinctKeys m ->
  distinctKeys (fold_left (fun m p => JsMap.set m (fst p) (snd p)) pairs m).
Proof.
  revert m. induction pairs as [| [k v] pairs IH]; intros m H; cbn [fold_left].
  - exact H.
  - apply IH. now apply set_distinctKeys.
Qed.

(** A map made by [new Map(pairs)] has distinct keys. *)
Lemma of_entries_distinctKeys (pairs : list (string * V)) :
  distinctKeys (JsMap.of_entries pairs).
Proof. apply fold_set_distinctKeys. constructor. Qed.

Lemma fold_set_append (pairs : list (string * V)) (m : JsMap.t V) :
  NoDup (map fst m ++ map fst pairs) ->
  fold_left (fun m p => JsMap.set m (fst p) (snd p)) pairs m = (m ++ pairs)%list.
Proof.
  revert m. induction pairs as [| [k v] pairs IH]; intros m H; cbn [fold_left fst snd].
  - now rewrite app_nil_r.
  - cbn [map fst] in H.
    assert (Hk : ~ In k (map fst m)).
    { apply NoDup_remove_2 in H. intros Hin. apply H. apply in_or_app. now left. }
    rewrite (set_new m k v Hk), IH.
    + now rewrite <- app_assoc.
    + rewrite map_app, <- app_assoc. exact H.
Qed.

(** [new Map(Array.from(m.entries()))] is [m]. *)
Lemma of_entries_entries (m : JsMap.t V) :
  distinctKeys m -> JsMap.of_entries (JsMap.entries m) = m.
Proof.
  intros H. unfold JsMap.of_entries, JsMap.entries, JsMap.empty.
  now rewrite fold_set_append.
Qed.

Lemma find_append {A} (f : A -> bool) (l1 l2 : list A) :
  find f (l1 ++ l2)
  = match find f l1 with Some x => Some x | None => find f l2 end.
Proof.
  induction l1 as [| x l1 IH]; cbn [app find]; [reflexivity |].
  now destruct (f x).
Qed.

(** The later of two pairs with one key gives the value. *)
Lemma fold_set_get (pairs : list (string * V)) (m : JsMap.t V) (k : string) :
  JsMap.get (fold_left (fun m p => JsMap.set m (fst p) (snd p)) pairs m) k
  = match find (fun p => String.eqb (fst p) k) (rev pairs) with
    | Some p => Some (snd p)
    | None => JsMap.get m k
    end.
Proof.
  revert m. induction pairs as [| [a v] pairs IH]; intros m; cbn [fold_left fst snd].
  - reflexivity.
  - rewrite IH, get_set. cbn [rev]. rewrite find_append.
    destruct (find (fun p => String.eqb (fst p) k) (rev pairs)); [reflexivity |].
    cbn [find fst snd]. now destruct (String.eqb a k).
Qed.

End WithValue.
End JsMapFacts.

(** *** Saving and loading *)

Module PersistenceFacts.
Import Engine SpecMore Persistence JsMapFacts.

(** Loading what [getParsedDataAsJSON] returned restores the curriculum,
    the completed courses, the available courses and the student
    information of an advisor whose map has distinct keys, whatever the
    advisor that loads held before, and [loadAndRecommend] then answers
    what the saved advisor itself recommends and reports. *)
Theorem load_saved_restores (this other : Advisor) :
  distinctKeys (completedCourses this) ->
  loadParsedData other (Some (getParsedDataAsJSON this)) = (this, true)
  /\ loadAndRecommend other (Some (getParsedDataAsJSON this))
     = match getRecommendedCourses this with
       | Ok recommendations =>
           Success (generateProgressReport this) recommendations
                   "Recommendations generated successfully from JSON data"
       | Throw error => Failure error
       end.
Proof.
  intros Hm.
  assert (Hload : loadParsedData other (Some (getParsedDataAsJSON this)) = (this, true)).
  { unfold loadParsedData, getParsedDataAsJSON. cbn [pd_curriculum pd_completedCourses
      pd_availableCourses pd_studentInfo or_default].
    rewrite (of_entries_entries _ _ Hm). now destruct this. }
  split; [exact Hload |].
  unfold loadAndRecommend. rewrite Hload. cbn [negb].
  now destruct (getRecommendedCourses this).
Qed.

Lemma load_saved_restores_witness :
  distinctKeys (completedCourses Scenario.student)
  /\ loadParsedData newAdvisor (Some (getParsedDataAsJSON Scenario.student))
     = (Scenario.student, true).
Proof.
  assert (H : distinctKeys (completedCourses Scenario.student))
    by apply of_entries_distinctKeys.
  split; [exact H |].
  apply (load_saved_restores Scenario.student newAdvisor H).
Defined.

End PersistenceFacts.

(** *** More on the recommendations *)

Module RecommendationMoreFacts.
Import JsStr JsNumFacts Engine Spec SpecMore CompletionFacts BucketFacts SortFacts
       RecommendationFacts.
Local Open Scope js_scope.






Lemma partition_lengths (this : Advisor) (est : jsnum) (l : list CurriculumCourse.t) :
  (List.length (filter (goesTo this est NextSemester) l)
   + List.length (filter (goesTo this est Electives) l)
   + List.length (filter (goesTo this est Missed) l)
   + List.length (filter (goesTo this est Future) l)
   = List.length (filter (isCandidate this) l))%nat.
Proof.
  assert (Hgo : forall b x, goesTo this est b x
                            = isCandidate this x && Bucket_eqb (bucketOf this est x) b)
    by reflexivity.
  induction l as [| c l IH]; [reflexivity |].
  cbn [filter]. rewrite !Hgo.
  destruct (isCandidate this c); cbn [andb]; [| exact IH].
  destruct (bucketOf this est c); cbn [Bucket_eqb List.length]; lia.
Qed.

(** The four buckets together hold as many entries as the curriculum has
    candidates: none is lost and none is recommended twice. *)
Theorem buckets_hold_each_candidate_once (this : Advisor) (r : Recommendations) :
  getRecommendedCourses this = Ok r ->
  (List.length (nextSemesterCourses r) + List.length (availableElectives r)
   + List.length (missedCourses r) + List.length (futureRecommendations r)
   = List.length (filter (isCandidate this) (curriculum this)))%nat
  /\ forall c,
       (count_occ course_eq_dec (inBucket r NextSemester) c
        + count_occ course_eq_dec (inBucket r Electives) c
        + count_occ course_eq_dec (inBucket r Missed) c
        + count_occ course_eq_dec (inBucket r Future) c
        = if isCandidate this c then count_occ course_eq_dec (curriculum this) c else 0)%nat.
Proof.
  intros H. split.
  - rewrite <- (partition_lengths this (getCurrentSemester this) (curriculum this)).
    pose proof (inBucket_perm this r H) as Hp.
    pose proof (Permutation_length (Hp NextSemester)) as H1.
    pose proof (Permutation_length (Hp Electives)) as H2.
    pose proof (Permutation_length (Hp Missed)) as H3.
    pose proof (Permutation_length (Hp Future)) as H4.
    cbn [inBucket] in H1, H2, H3, H4. rewrite length_map in H1.
    unfold bucketContents in H1, H2, H3, H4. lia.
  - intros c. pose proof (inBucket_perm this r H) as Hp.
    assert (Hperm : forall b, count_occ course_eq_dec (inBucket r b) c
                              = count_occ course_eq_dec (bucketContents this b) c).
    { intros b. apply (Permutation_count_occ course_eq_dec). apply (inBucket_perm this r H). }
    rewrite !Hperm. unfold bucketContents. clear Hp Hperm.
    assert (Hgo : forall b x, goesTo this (getCurrentSemester this) b x
                              = isCandidate this x
                                && Bucket_eqb (bucketOf this (getCurrentSemester this) x) b)
      by reflexivity.
    induction (curriculum this) as [| x l IH].
    + now destruct (isCandidate this c).
    + cbn [filter count_occ]. rewrite !Hgo.
      destruct (course_eq_dec x c) as [-> | Hne].
      * destruct (isCandidate this c); cbn [andb]; [| exact IH].
        destruct (bucketOf this (getCurrentSemester this) c);
          cbn [Bucket_eqb count_occ];
          destruct (course_eq_dec c c); try contradiction; lia.
      * destruct (isCandidate this x); cbn [andb]; [| exact IH].
        destruct (bucketOf this (getCurrentSemester this) x);
          cbn [Bucket_eqb count_occ];
          destruct (course_eq_dec x c); try contradiction; exact IH.
Qed.

Lemma buckets_hold_each_candidate_once_witness :
  exists r, getRecommendedCourses Scenario.student = Ok r
            /\ (List.length (nextSemesterCourses r) + List.length (availableElectives r)
                + List.length (missedCourses r) + List.length (futureRecommendations r)
                = 4)%nat.
Proof.
  destruct (getRecommendedCourses_ok Scenario.student student_prerequisitesPresent)
    as [r Hr].
  exists r. split; [exact Hr |].
  rewrite (proj1 (buckets_hold_each_candidate_once Scenario.student r Hr)).
  reflexivity.
Defined.

(** The bucket of a course whose semester, like the estimate, is an
    integer. *)
Lemma bucketOf_integers (this : Advisor) (c : CurriculumCourse.t) (s n : Z) :
  CurriculumCourse.semester c = of_Z s ->
  bucketOf this (of_Z n) c
  = if (s =? n)%Z || (s =? n + 1)%Z
       || ((8 <? n)%Z && (s <=? 8)%Z && negb (isCompleted this (CurriculumCourse.code c)))
       || ((s <=? n + 2)%Z && (n - 2 <=? s)%Z)
    then NextSemester
    else if isElectiveCategory (CurriculumCourse.category c) then Electives
    else if (s <? n)%Z then Missed
    else Future.
Proof.
  intros Hs. unfold bucketOf, withinTwo, ge. rewrite Hs.
  now rewrite add_of_Z, add_of_Z, sub_of_Z, !strict_eq_of_Z, gt_of_Z, !le_of_Z, lt_of_Z.
Qed.

(** The buckets by the gap between the semester of a course and the
    estimate, as whole numbers. *)
Lemma buckets_by_gap (this : Advisor) (r : Recommendations) (n : Z) :
  getRecommendedCourses this = Ok r ->
  getCurrentSemester this = of_Z n ->
  forall c s,
    CurriculumCourse.semester c = of_Z s ->
    (In c (missedCourses r) -> (s <= n - 3)%Z /\ (n <= 8 \/ 8 < s)%Z)
    /\ (In c (futureRecommendations r) -> (n + 3 <= s)%Z)
    /\ (In c (availableElectives r) ->
        ((s <= n - 3)%Z /\ (n <= 8 \/ 8 < s)%Z) \/ (n + 3 <= s)%Z)
    /\ (In c (map course (nextSemesterCourses r)) ->
        (n - 2 <= s <= n + 2)%Z \/ (8 < n /\ s <= 8)%Z).
Proof.
  intros Hr Hn c s Hs.
  assert (Hb : forall b, In c (inBucket r b) ->
                         bucketOf this (of_Z n) c = b
                         /\ isCompleted this (CurriculumCourse.code c) = false).
  { intros b Hin. apply (inBucket_In this r Hr) in Hin.
    destruct Hin as (_ & Hcand & Hb). rewrite Hn in Hb. split; [exact Hb |].
    unfold isCandidate in Hcand. rewrite !andb_true_iff, negb_true_iff in Hcand. tauto. }
  split; [| split; [| split]]; intros Hin.
  1: destruct (Hb Missed Hin) as [H Hc].
  2: destruct (Hb Future Hin) as [H Hc].
  3: destruct (Hb Electives Hin) as [H Hc].
  4: destruct (Hb NextSemester Hin) as [H Hc].
  all: rewrite (bucketOf_integers this c s n Hs), Hc in H; cbn [negb] in H;
    rewrite andb_true_r in H;
    destruct (Z.eqb_spec s n), (Z.eqb_spec s (n + 1)), (Z.ltb_spec 8 n),
      (Z.leb_spec s 8), (Z.leb_spec s (n + 2)), (Z.leb_spec (n - 2) s);
    cbn [orb andb] in H;
    try discriminate H; try lia;
    destruct (isElectiveCategory (CurriculumCourse.category c));
    try discriminate H; destruct (Z.ltb_spec s n); try discriminate H; lia.
Qed.

(** With semesters and an estimate that are whole numbers below [2^53]
    in magnitude, the estimate staying two away from that bound, a
    course is in the missed bucket only when it lies at least three
    semesters behind the estimate, in the future bucket only when at
    least three ahead, and an elective is kept out of the next-semester
    bucket only by such a gap. *)
Theorem buckets_by_semester_gap (this : Advisor) (r : Recommendations) (n : Z) :
  getRecommendedCourses this = Ok r ->
  getCurrentSemester this = of_Z n ->
  (Z.abs n + 2 < 2 ^ 53)%Z ->
  forall c s,
    CurriculumCourse.semester c = of_Z s ->
    (Z.abs s < 2 ^ 53)%Z ->
    (In c (missedCourses r) -> (s <= n - 3)%Z /\ (n <= 8 \/ 8 < s)%Z)
    /\ (In c (futureRecommendations r) -> (n + 3 <= s)%Z)
    /\ (In c (availableElectives r) ->
        ((s <= n - 3)%Z /\ (n <= 8 \/ 8 < s)%Z) \/ (n + 3 <= s)%Z)
    /\ (In c (map course (nextSemesterCourses r)) ->
        (n - 2 <= s <= n + 2)%Z \/ (8 < n /\ s <= 8)%Z).
Proof.
  intros Hr Hn _ c s Hs _. exact (buckets_by_gap this r n Hr Hn c s Hs).
Qed.

Lemma buckets_by_semester_gap_witness :
  exists r, getRecommendedCourses Scenario.student = Ok r
            /\ (In Scenario.math400 (futureRecommendations r) -> (1 + 3 <= 6)%Z).
Proof.
  destruct (getRecommendedCourses_ok Scenario.student student_prerequisitesPresent)
    as [r Hr].
  exists r. split; [exact Hr |].
  apply (buckets_by_semester_gap Scenario.student r 1 Hr eq_refl ltac:(lia)
                                 Scenario.math400 6 eq_refl ltac:(lia)).
Defined.

(** From a curriculum whose semesters are integers from 1 on, a student
    whose estimate is at most 3 is never shown a missed course. *)
Theorem no_missed_course_before_semester_4 (this : Advisor) (r : Recommendations) (n : Z) :
  getRecommendedCourses this = Ok r ->
  getCurrentSemester this = of_Z n ->
  (n <= 3)%Z ->
  Forall validSemester (curriculum this) ->
  missedCourses r = [].
Proof.
  intros Hr Hn Hle Hvalid.
  destruct (missedCourses r) as [| c l] eqn:E; [reflexivity |]. exfalso.
  assert (Hin : In c (missedCourses r)) by (rewrite E; now left).
  assert (Hcur : In c (curriculum this)).
  { apply (proj1 (inBucket_In this r Hr c Missed)). exact Hin. }
  rewrite Forall_forall in Hvalid. destruct (Hvalid c Hcur) as [s [Hs1 Hs]].
  destruct (buckets_by_gap this r n Hr Hn c s Hs) as [Hm _].
  destruct (Hm Hin) as [Hgap _]. lia.
Qed.

Lemma no_missed_course_before_semester_4_witness :
  exists r, getRecommendedCourses Scenario.student = Ok r /\ missedCourses r = [].
Proof.
  destruct (getRecommendedCourses_ok Scenario.student student_prerequisitesPresent)
    as [r Hr].
  exists r. split; [exact Hr |].
  apply (no_missed_course_before_semester_4 Scenario.student r 1 Hr eq_refl).
  - lia.
  - repeat constructor;
      [exists 1%Z | exists 2%Z | exists 2%Z | exists 1%Z | exists 5%Z | exists 6%Z];
      split; try reflexivity; lia.
Defined.

End RecommendationMoreFacts.

(** *** Reasons *)

Module ReasonFacts.
Import JsStr JsNumFacts Engine Spec SpecMore CompletionFacts BucketFacts SortFacts
       RecommendationFacts.
Local Open Scope js_scope.

Lemma forM_consider_reason (this : Advisor) (est : jsnum) (l : list CurriculumCourse.t) :
  forall acc acc',
    forM (consider this est (fst (completedSets this)) (snd (completedSets this))) l acc
    = Ok acc' ->
    forall x, In x (nextSemesterCourses acc') ->
              In x (nextSemesterCourses acc)
              \/ getRecommendationReason this (course x) est = Ok (reason x).
Proof.
  induction l as [| c l IH]; intros acc acc'.
  - simpl. intros H. injection H as <-. now left.
  - cbn [forM]. rewrite consider_cases.
    destruct (isCandidate this c); [| cbn [bind]; apply IH].
    destruct (bucketOf this est c); cbn [bind];
      try (intros H x Hx; exact (IH _ _ H x Hx)).
    destruct (calculatePriority this c est) as [p | e]; [| discriminate].
    destruct (getRecommendationReason this c est) as [r | e] eqn:Hr; [| discriminate].
    cbn [bind]. intros H x Hx. destruct (IH _ _ H x Hx) as [Hin | Hnew]; [| now right].
    cbn [nextSemesterCourses] in Hin. apply in_app_or in Hin.
    destruct Hin as [Hin | [<- | []]]; [now left | now right].
Qed.

Lemma nextSemester_reason (this : Advisor) (r : Recommendations) :
  getRecommendedCourses this = Ok r ->
  forall x, In x (nextSemesterCourses r) ->
            getRecommendationReason this (course x) (getCurrentSemester this)
            = Ok (reason x).
Proof.
  unfold getRecommendedCourses.
  rewrite (surjective_pairing (completedSets this)).
  destruct (forM _ (curriculum this) emptyRecommendations) as [acc | e] eqn:HF;
    [| discriminate].
  cbn [bind]. intros H. injection H as <-. cbn [nextSemesterCourses].
  intros x Hx. apply sort_In in Hx.
  destruct (forM_consider_reason this _ _ _ _ HF x Hx) as [[] | H]. exact H.
Qed.

(** What a computed reason says. *)
Lemma reason_cases (this : Advisor) (c : CurriculumCourse.t) (est : jsnum) (r : string) :
  getRecommendationReason this c est = Ok r ->
  (r = "" <-> noReason this est c)
  /\ ((CurriculumCourse.semester c === est) = true ->
      String.prefix "Current semester course" r = true)
  /\ ((CurriculumCourse.semester c === est) = false ->
      (CurriculumCourse.semester c === est + #1) = true ->
      String.prefix "Next semester course" r = true)
  /\ ((CurriculumCourse.semester c === est) = false ->
      (CurriculumCourse.semester c === est + #1) = false ->
      (CurriculumCourse.semester c <? est) = true ->
      String.prefix "Delayed from previous semester" r = true).
Proof.
  unfold getRecommendationReason, noReason. intros H.
  destruct (unlockedBy this c) as [unlocks | e] eqn:Hu; [| discriminate].
  apply unlockedBy_inv in Hu. rewrite <- Hu. clear Hu.
  unfold bind in H. injection H as <-.
  generalize (CurriculumCourse.semester c === est).
  generalize (CurriculumCourse.semester c === est + #1).
  generalize (CurriculumCourse.semester c <? est).
  intros delayed oneAhead onTime.
  destruct (String.eqb_spec (CurriculumCourse.category c) "AC") as [Hac | Hac];
    destruct (String.eqb_spec (CurriculumCourse.category c) "FC") as [Hfc | Hfc];
    destruct onTime, oneAhead, delayed, unlocks as [| u us];
    cbn [Nat.ltb Nat.leb List.length app String.concat String.append];
    (split; [split; [intros H; try discriminate H; repeat split; congruence
                    | intros (H1 & H2 & H3 & H4 & H5 & H6);
                      try discriminate; try contradiction; reflexivity]
            |]);
    repeat split; intros; try discriminate; reflexivity.
Qed.

(** Every next-semester entry has the reason the code computes for its
    course: it is empty exactly when the course is neither on time, one
    semester ahead nor delayed, is neither Area Core nor Faculty Core and
    unlocks nothing; otherwise it begins with the timing fragment that
    applies. *)
Theorem nextSemester_reason_text (this : Advisor) (r : Recommendations) :
  getRecommendedCourses this = Ok r ->
  forall x, In x (nextSemesterCourses r) ->
    let semester := CurriculumCourse.semester (course x) in
    let estimate := getCurrentSemester this in
    (reason x = "" <-> noReason this estimate (course x))
    /\ ((semester === estimate) = true ->
        String.prefix "Current semester course" (reason x) = true)
    /\ ((semester === estimate) = false -> (semester === estimate + #1) = true ->
        String.prefix "Next semester course" (reason x) = true)
    /\ ((semester === estimate) = false -> (semester === estimate + #1) = false ->
        (semester <? estimate) = true ->
        String.prefix "Delayed from previous semester" (reason x) = true).
Proof.
  intros Hr x Hx. cbv zeta. apply reason_cases.
  exact (nextSemester_reason this r Hr x Hx).
Qed.

Lemma nextSemester_reason_text_witness :
  exists r, getRecommendedCourses Scenario.student = Ok r
            /\ forall x, In x (nextSemesterCourses r) ->
                         String.prefix "Next semester course" (reason x) = true.
Proof.
  destruct (getRecommendedCourses_ok Scenario.student student_prerequisitesPresent)
    as [r Hr].
  exists r. split; [exact Hr |]. intros x Hx.
  destruct (nextSemester_reason_text Scenario.student r Hr x Hx) as (_ & _ & Hnext & _).
  assert (E : Ok r = getRecommendedCourses Scenario.student) by (symmetry; exact Hr).
  vm_compute in E. injection E as ->.
  destruct Hx as [<- | [<- | []]]; apply Hnext; reflexivity.
Defined.

End ReasonFacts.

(** *** More on the progress report *)

Module ReportMoreFacts.
Import JsStr JsNumFacts Engine Spec SpecMore JsMapFacts.

Lemma has_hasPassed (this : Advisor) (code : string) :
  JsMap.has (completedCourses this) code && hasPassed this code = hasPassed this code.
Proof.
  unfold JsMap.has, hasPassed.
  now destruct (JsMap.get (completedCourses this) code).
Qed.

(** The statistics after the loop over [l], from those before it. *)
Lemma fold_countCategory_get (this : Advisor) (cat : string) (l : list CurriculumCourse.t) :
  forall stats,
    JsMap.get (fold_left (countCategory this) l stats) cat
    = match JsMap.get stats cat with
      | Some s => Some {| required := required s + countIn this cat l;
                          completed := completed s + countPassedIn this cat l |}
      | None => match countIn this cat l with
                | O => None
                | S _ => Some {| required := countIn this cat l;
                                 completed := countPassedIn this cat l |}
                end
      end.
Proof.
  unfold countIn, countPassedIn.
  induction l as [| c l IH]; intros stats.
  - cbn [fold_left filter List.length].
    destruct (JsMap.get stats cat) as [[r p] |]; [| reflexivity].
    now rewrite !Nat.add_0_r.
  - cbn [fold_left filter]. rewrite IH. unfold countCategory at 1.
    rewrite get_set, has_hasPassed.
    destruct (String.eqb_spec (CurriculumCourse.category c) cat) as [-> | Hne].
    + cbn [filter List.length].
      destruct (JsMap.get stats cat) as [[r p] |];
        destruct (hasPassed this (CurriculumCourse.code c));
        cbn [required completed filter List.length]; f_equal; f_equal; lia.
    + reflexivity.
Qed.

Lemma filter_filter_mem (keys : list string) (x : string) (l : list string) :
  mem x keys = true ->
  filter (fun y => negb (mem y keys)) (filter (fun y => negb (String.eqb y x)) l)
  = filter (fun y => negb (mem y keys)) l.
Proof.
  intros Hx. induction l as [| y l IH]; [reflexivity |].
  cbn [filter]. destruct (String.eqb_spec y x) as [-> | Hne]; cbn [negb filter].
  - now rewrite Hx, IH.
  - now rewrite IH.
Qed.

Lemma mem_app_single (keys : list string) (x y : string) :
  mem y (keys ++ [x]) = mem y keys || String.eqb y x.
Proof. unfold mem. rewrite existsb_app. cbn. now rewrite orb_false_r. Qed.

Lemma filter_new_key (keys : list string) (x : string) (l : list string) :
  filter (fun y => negb (mem y (keys ++ [x]))) l
  = filter (fun y => negb (mem y keys)) (filter (fun y => negb (String.eqb y x)) l).
Proof.
  induction l as [| y l IH]; [reflexivity |].
  cbn [filter]. rewrite mem_app_single, IH.
  destruct (String.eqb y x); cbn [negb filter].
  - now rewrite orb_true_r.
  - now rewrite orb_false_r.
Qed.

Lemma has_mem {V} (m : JsMap.t V) (k : string) :
  JsMap.has m k = mem k (map fst m).
Proof.
  unfold JsMap.has, mem. induction m as [| [a v] m IH]; [reflexivity |].
  cbn [JsMap.get map fst existsb]. rewrite String.eqb_sym.
  destruct (String.eqb k a); [reflexivity | exact IH].
Qed.

(** The keys after the loop over [l]: those before it, then the new
    categories in the order of their first entry. *)
Lemma fold_countCategory_keys (this : Advisor) (l : list CurriculumCourse.t) :
  forall stats,
    map fst (fold_left (countCategory this) l stats)
    = (map fst stats
       ++ filter (fun y => negb (mem y (map fst stats)))
                 (firstSeen (map CurriculumCourse.category l)))%list.
Proof.
  induction l as [| c l IH]; intros stats.
  - cbn. now rewrite app_nil_r.
  - cbn [fold_left map firstSeen filter]. rewrite IH. unfold countCategory at 1 2.
    rewrite keys_set, has_mem.
    destruct (mem (CurriculumCourse.category c) (map fst stats)) eqn:Hm; cbn [negb].
    + now rewrite filter_filter_mem.
    + now rewrite <- app_assoc, filter_new_key.
Qed.

Lemma firstSeen_NoDup (l : list string) : NoDup (firstSeen l).
Proof.
  induction l as [| x l IH]; cbn [firstSeen].
  - constructor.
  - constructor.
    + rewrite filter_In, String.eqb_refl. intros [_ H]. discriminate H.
    + apply NoDup_filter. exact IH.
Qed.

Lemma filter_shorter {A} (f : A -> bool) (l : list A) :
  List.length (filter f l) <= List.length l.
Proof.
  induction l as [| x l IH]; cbn [filter List.length]; [lia |].
  destruct (f x); cbn [List.length]; lia.
Qed.

(** The category statistics of the report, for a curriculum whose
    categories are category tokens (AC, FC, UC, FE, AE, UE, CORE,
    ELECTIVE, in any letter case), as [parseCurriculum] gives them: a
    category has an entry exactly when the curriculum has a course of
    it; [required] counts these courses and [completed] those of them
    whose very code is a completed course marked passed, so that
    [completed] never exceeds [required]; the entries come in the order
    in which the categories first occur, each once.  Such a category is
    neither an integer index, which an object lists first, nor the name
    of a property that every object inherits. *)
Theorem categoryStats_counts (this : Advisor) :
  Forall (fun c => CurriculumSpec.isCategory (CurriculumCourse.category c) = true)
         (curriculum this) ->
  let stats := categoryStats (generateProgressReport this) in
  (forall cat,
      JsMap.get stats cat
      = match ofCategory this cat with
        | [] => None
        | _ :: _ => Some {| required := List.length (ofCategory this cat);
                            completed := List.length (passedOfCategory this cat) |}
        end)
  /\ map fst stats = firstSeen (map CurriculumCourse.category (curriculum this))
  /\ distinctKeys stats
  /\ (forall cat s, JsMap.get stats cat = Some s ->
                    completed s <= required s /\ 1 <= required s).
Proof.
  intros _. cbv zeta. unfold generateProgressReport. cbn [categoryStats].
  assert (Hget : forall cat,
             JsMap.get (fold_left (countCategory this) (curriculum this) (JsMap.empty _)) cat
             = match ofCategory this cat with
               | [] => None
               | _ :: _ => Some {| required := List.length (ofCategory this cat);
                                   completed := List.length (passedOfCategory this cat) |}
               end).
  { intros cat. rewrite fold_countCategory_get. cbn [JsMap.get JsMap.empty].
    unfold countIn, countPassedIn, passedOfCategory, ofCategory.
    now destruct (filter _ (curriculum this)). }
  assert (Hkeys : map fst (fold_left (countCategory this) (curriculum this) (JsMap.empty _))
                  = firstSeen (map CurriculumCourse.category (curriculum this))).
  { rewrite fold_countCategory_keys. cbn [JsMap.empty map app].
    induction (firstSeen _) as [| y l IH]; [reflexivity |].
    cbn [filter]. unfold mem at 1. cbn [existsb negb]. now rewrite IH. }
  split; [exact Hget |]. split; [exact Hkeys |]. split.
  - unfold distinctKeys. rewrite Hkeys. apply firstSeen_NoDup.
  - intros cat s. rewrite Hget. unfold passedOfCategory.
    destruct (ofCategory this cat) as [| c l] eqn:E; [discriminate |].
    intros H. injection H as <-. cbn [required completed]. split.
    + apply (filter_shorter (fun c0 => hasPassed this (CurriculumCourse.code c0)) (c :: l)).
    + cbn [List.length]. lia.
Qed.

Lemma categoryStats_counts_witness :
  Forall (fun c => CurriculumSpec.isCategory (CurriculumCourse.category c) = true)
         (curriculum Scenario.student)
  /\ map fst (categoryStats (generateProgressReport Scenario.student))
     = firstSeen (map CurriculumCourse.category (curriculum Scenario.student)).
Proof.
  assert (H : Forall (fun c => CurriculumSpec.isCategory (CurriculumCourse.category c)
                               = true)
                     (curriculum Scenario.student))
    by (repeat constructor).
  split; [exact H |].
  exact (proj1 (proj2 (categoryStats_counts Scenario.student H))).
Defined.

End ReportMoreFacts.

(** *** The completion percentage *)

Module PercentageFacts.
Import JsNumFacts Binary64Facts Engine Spec SpecMore.
Local Open Scope Z_scope.

(** The quotient and the product are rounded: 23 passed courses out of
    40 give 57, although [100 * 23 / 40] is [57.5]. *)
Lemma percentage_23_of_40 :
  round (Binary64.mul (Binary64.div (of_nat 23) (of_nat 40)) (of_Z 100)) = of_Z 57.
Proof. vm_compute. reflexivity. Qed.

Lemma percentage_range (k : nat) (p : positive) :
  Z.of_nat k <= Zpos p -> Zpos p < 2 ^ 53 ->
  exists z,
    round (Binary64.mul (Binary64.div (of_nat k) (of_Z (Zpos p))) (of_Z 100)) = of_Z z
    /\ 0 <= z <= 100.
Proof.
  intros Hk Hp. unfold of_nat, Binary64.mul, Binary64.div.
  rewrite !rounded_of_Z by lia. unfold div, of_Z.
  change (Qis_zero (inject_Z (Z.pos p))) with false. cbv iota.
  unfold fin. cbn [Binary64.rounded].
  destruct (round64_range (Qred (inject_Z (Z.of_nat k) / inject_Z (Z.pos p))) 1)
    as [v [-> [Hv0 Hv1]]]; [lia | | |].
  - rewrite Qred_correct. apply Qle_shift_div_l; [reflexivity |].
    rewrite Qmult_0_l. change 0%Q with (inject_Z 0). rewrite <- Zle_Qle. lia.
  - rewrite Qred_correct. apply Qle_shift_div_r; [reflexivity |].
    rewrite Qmult_1_l, <- Zle_Qle. exact Hk.
  - cbn [Binary64.rounded].
    destruct (round64_range v 1) as [w [-> [Hw0 Hw1]]]; [lia | assumption | assumption |].
    unfold mul, fin. cbn [Binary64.rounded].
    destruct (round64_range (Qred (w * inject_Z 100)) 100)
      as [u [-> [Hu0 Hu1]]]; [lia | | |].
    + rewrite Qred_correct. apply Qmult_le_0_compat; [exact Hw0 | discriminate].
    + rewrite Qred_correct. rewrite <- (Qmult_1_l (inject_Z 100)) at 2.
      apply Qmult_le_compat_r; [exact Hw1 | discriminate].
    + cbn [round]. exists (Qfloor (u + Qmake 1 2)). split; [reflexivity |]. split.
      * change 0 with (Qfloor 0). apply Qfloor_resp_le.
        replace 0%Q with (0 + 0)%Q by reflexivity.
        apply Qplus_le_compat; [exact Hu0 | discriminate].
      * change 100 with (Qfloor (inject_Z 100 + Qmake 1 2)). apply Qfloor_resp_le.
        apply Qplus_le_compat; [exact Hu1 | apply Qle_refl].
Qed.

Lemma percentage_full (p : positive) :
  Zpos p < 2 ^ 53 ->
  round (Binary64.mul (Binary64.div (of_Z (Zpos p)) (of_Z (Zpos p))) (of_Z 100))
  = of_Z 100.
Proof.
  intros Hp. unfold Binary64.mul, Binary64.div.
  rewrite !rounded_of_Z by lia. unfold div, of_Z.
  change (Qis_zero (inject_Z (Z.pos p))) with false. cbv iota.
  unfold fin. cbn [Binary64.rounded].
  assert (H1 : (Qred (inject_Z (Z.pos p) / inject_Z (Z.pos p)) == inject_Z 1)%Q).
  { rewrite Qred_correct. unfold Qdiv. rewrite Qmult_inv_r; [reflexivity |].
    intros H. unfold Qeq in H. simpl in H. lia. }
  rewrite (round64_comp _ _ H1). reflexivity.
Qed.

Lemma percentage_none (p : positive) :
  Zpos p < 2 ^ 53 ->
  round (Binary64.mul (Binary64.div (of_nat 0) (of_Z (Zpos p))) (of_Z 100)) = of_Z 0.
Proof.
  intros Hp. unfold of_nat, Binary64.mul, Binary64.div. change (Z.of_nat 0) with 0.
  rewrite !rounded_of_Z by lia. unfold div, of_Z.
  change (Qis_zero (inject_Z (Z.pos p))) with false. cbv iota.
  unfold fin. cbn [Binary64.rounded].
  assert (H0 : (Qred (inject_Z 0 / inject_Z (Z.pos p)) == 0)%Q).
  { rewrite Qred_correct. reflexivity. }
  rewrite (round64_comp _ _ H0). reflexivity.
Qed.

(** For a curriculum that is not empty, of fewer than [2^53] entries (an
    array has fewer than [2^32]), and with no more completed courses
    marked passed than curriculum entries, the completion percentage is
    an integer between 0 and 100; it is 100 when the two counts are
    equal and 0 when no completed course is passed.  The passed courses
    are counted whether they are in the curriculum or not. *)
Theorem completionPercentage_range (this : Advisor) :
  curriculum this <> [] ->
  Z.of_nat (List.length (curriculum this)) < 2 ^ 53 ->
  (passedCount this <= List.length (curriculum this))%nat ->
  (exists p : Z,
      completionPercentage (generateProgressReport this) = of_Z p /\ 0 <= p <= 100)
  /\ (passedCount this = List.length (curriculum this) ->
      completionPercentage (generateProgressReport this) = of_Z 100)
  /\ (passedCount this = 0%nat ->
      completionPercentage (generateProgressReport this) = of_Z 0).
Proof.
  intros Hne Hb Hle.
  unfold generateProgressReport. cbn [completionPercentage].
  fold (passedCount this).
  destruct (List.length (curriculum this)) as [| m] eqn:Hlen.
  { destruct (curriculum this); [contradiction | discriminate]. }
  assert (Hn : Z.of_nat (S m) = Zpos (Pos.of_succ_nat m)) by (rewrite Zpos_P_of_succ_nat; lia).
  rewrite Hn in Hb.
  unfold of_nat at 2 4 6. rewrite Hn.
  split; [| split].
  - apply percentage_range; lia.
  - intros ->. unfold of_nat. rewrite Hn. now apply percentage_full.
  - intros ->. now apply percentage_none.
Qed.

Lemma completionPercentage_range_witness :
  curriculum Scenario.student <> []
  /\ (passedCount Scenario.student <= List.length (curriculum Scenario.student))%nat
  /\ exists p : Z,
       completionPercentage (generateProgressReport Scenario.student) = of_Z p
       /\ 0 <= p <= 100.
Proof.
  assert (H : curriculum Scenario.student <> []) by discriminate.
  assert (Hb : Z.of_nat (List.length (curriculum Scenario.student)) < 2 ^ 53)
    by (vm_compute; reflexivity).
  assert (Hle : (passedCount Scenario.student
                 <= List.length (curriculum Scenario.student))%nat)
    by (vm_compute; repeat constructor).
  split; [exact H |]. split; [exact Hle |].
  exact (proj1 (completionPercentage_range Scenario.student H Hb Hle)).
Defined.

End PercentageFacts.

(** *** The matcher against what a pattern matches *)

Module ReachFacts.
Import JsStr Regex RegexSpec RegexFacts.

Lemma repeat_loop_sound {R} (cs : charset) (greedy : bool) (inp : chars) :
  forall (min : nat) (max : option nat) (pos : nat)
         (k : nat -> chars -> option R) (res : R),
    repeat_loop cs greedy min max pos inp k = Some res ->
    exists n, min <= n /\ within max n /\ n <= List.length inp
              /\ forallb cs (firstn n inp) = true
              /\ k (pos + n) (skipn n inp) = Some res.
Proof.
  induction inp as [| c inp IH]; intros min max pos k res H.
  - destruct min as [| min]; cbn in H; [| discriminate].
    exists 0. rewrite Nat.add_0_r. cbn.
    assert (Hk : k pos [] = Some res).
    { destruct greedy; [exact H |]. unfold or_else in H. now destruct (k pos []). }
    repeat split; try lia; [destruct max; cbn; lia | exact Hk].
  - cbn [repeat_loop] in H.
    assert (Hmore :
              (if cs c && may_repeat max
               then repeat_loop cs greedy (Nat.pred min) (option_map Nat.pred max)
                                (S pos) inp k
               else None) = Some res ->
              exists n, min <= n /\ within max n /\ n <= List.length (c :: inp)
                        /\ forallb cs (firstn n (c :: inp)) = true
                        /\ k (pos + n) (skipn n (c :: inp)) = Some res).
    { destruct (cs c) eqn:Hc; [| discriminate].
      destruct (may_repeat max) eqn:Hmax; [| discriminate]. cbn [andb].
      intros H'. apply IH in H'. destruct H' as (n & Hmin & Hw & Hlen & Hall & Hk).
      exists (S n). cbn [firstn skipn forallb List.length].
      rewrite Hc, Hall, Nat.add_succ_r. cbn [andb]. repeat split; try lia; [| exact Hk].
      destruct max as [[| m] |]; cbn in *; try discriminate; lia. }
    destruct min as [| min]; [| now apply Hmore].
    assert (Hstop : k pos (c :: inp) = Some res ->
                    exists n, 0 <= n /\ within max n /\ n <= List.length (c :: inp)
                              /\ forallb cs (firstn n (c :: inp)) = true
                              /\ k (pos + n) (skipn n (c :: inp)) = Some res).
    { intros H'. exists 0. rewrite Nat.add_0_r. cbn.
      repeat split; try lia; [destruct max; cbn; lia | exact H']. }
    destruct greedy; unfold or_else in H.
    + destruct (if cs c && may_repeat max then _ else None) eqn:E.
      * apply Hmore. now rewrite <- H.
      * now apply Hstop.
    + destruct (k pos (c :: inp)) eqn:E.
      * apply Hstop. now rewrite <- H.
      * now apply Hmore.
Qed.

Lemma or_else_some {A} (x y : option A) : x <> None \/ y <> None -> or_else x y <> None.
Proof. destruct x; cbn; [intros _; discriminate | tauto]. Qed.

Lemma repeat_loop_complete {R} (cs : charset) (greedy : bool) (inp : chars) :
  forall (n min : nat) (max : option nat) (pos : nat) (k : nat -> chars -> option R),
    min <= n -> within max n -> n <= List.length inp ->
    forallb cs (firstn n inp) = true ->
    k (pos + n) (skipn n inp) <> None ->
    repeat_loop cs greedy min max pos inp k <> None.
Proof.
  induction inp as [| c inp IH]; intros n min max pos k Hmin Hw Hlen Hall Hk.
  - cbn in Hlen. assert (n = 0) by lia. subst n. assert (min = 0) by lia. subst min.
    rewrite Nat.add_0_r in Hk. cbn in *.
    destruct greedy; [exact Hk |]. apply or_else_some. now left.
  - cbn [repeat_loop]. destruct n as [| n].
    + assert (min = 0) by lia. subst min. rewrite Nat.add_0_r in Hk. cbn in Hk.
      destruct greedy; apply or_else_some; [right | left]; exact Hk.
    + cbn [firstn forallb skipn List.length] in *. apply andb_true_iff in Hall.
      destruct Hall as [Hc Hall].
      assert (Hmay : may_repeat max = true).
      { destruct max as [[| m] |]; cbn in *; [lia | reflexivity | reflexivity]. }
      rewrite Hc, Hmay. cbn [andb].
      assert (Hmore : repeat_loop cs greedy (Nat.pred min) (option_map Nat.pred max)
                                  (S pos) inp k <> None).
      { apply (IH n); try lia; try assumption.
        - destruct max as [m |]; cbn in *; lia.
        - now rewrite Nat.add_succ_r in Hk. }
      destruct min as [| min]; [| exact Hmore].
      destruct greedy; apply or_else_some; [left | right]; exact Hmore.
Qed.

(** A match takes no more than the input has. *)
Lemma reach_length (r : regex) :
  forall pos inp n, reach r pos inp n -> n <= List.length inp.
Proof.
  induction r as [| cs | r1 IH1 r2 IH2 | r1 IH1 r2 IH2 | i r1 IH1
                  | cs min max greedy | r1 IH1 | |];
    intros pos inp n H; cbn [reach] in H.
  - lia.
  - destruct H as (-> & c & rest & -> & _). cbn. lia.
  - destruct H as (n1 & n2 & -> & H1 & H2).
    apply IH1 in H1. apply IH2 in H2. rewrite length_skipn in H2. lia.
  - destruct H as [H | H]; [now apply IH1 in H | now apply IH2 in H].
  - now apply IH1 in H.
  - tauto.
  - destruct H as [-> | [_ H]]; [lia | now apply IH1 in H].
  - destruct H as [-> _]. lia.
  - destruct H as [-> _]. lia.
Qed.

Lemma capsFrom_refl (groups : list (nat * regex)) (pos : nat) (inp : chars) (n : nat)
      (caps : captures) :
  capsFrom groups pos inp n caps caps.
Proof. intros i v H. now left. Qed.

Lemma capturedAt_incl (g g' : list (nat * regex)) (pos : nat) (inp : chars) (n n' : nat)
      (i : nat) (v : chars) :
  incl g g' -> n <= n' -> capturedAt g pos inp n i v -> capturedAt g' pos inp n' i v.
Proof.
  intros Hincl Hn (r1 & d & Hin & Hd & H). exists r1, d.
  split; [now apply Hincl | split; [lia | exact H]].
Qed.

(** A group set by a match that began [n1] characters further on. *)
Lemma capturedAt_shift (g : list (nat * regex)) (pos : nat) (inp : chars) (n1 n2 : nat)
      (i : nat) (v : chars) :
  capturedAt g (pos + n1) (skipn n1 inp) n2 i v -> capturedAt g pos inp (n1 + n2) i v.
Proof.
  intros (r1 & d & Hin & Hd & Hr & Hv). exists r1, (n1 + d).
  rewrite skipn_skipn in Hr, Hv.
  replace (pos + (n1 + d)) with (pos + n1 + d) by lia.
  replace (n1 + d) with (d + n1) by lia.
  repeat split; [exact Hin | lia | exact Hr | exact Hv].
Qed.

Lemma capsFrom_incl (g g' : list (nat * regex)) (pos : nat) (inp : chars) (n n' : nat)
      (a b : captures) :
  incl g g' -> n <= n' -> capsFrom g pos inp n a b -> capsFrom g' pos inp n' a b.
Proof.
  intros Hincl Hn H i v Hv. destruct (H i v Hv) as [Ha | Hc]; [now left | right].
  now apply (capturedAt_incl g _ _ _ n).
Qed.

(** The matcher is sound: when it succeeds, the pattern matches some
    [n] characters, the continuation has succeeded after them, and each
    group set on the way holds a piece of those [n] characters that the
    group matches. *)
Lemma run_sound {R} (r : regex) :
  forall (pos : nat) (inp : chars) (caps : captures)
         (k : nat -> chars -> captures -> option R) (res : R),
    run r pos inp caps k = Some res ->
    exists n caps',
      reach r pos inp n
      /\ k (pos + n) (skipn n inp) caps' = Some res
      /\ capsFrom (groupsOf r) pos inp n caps caps'.
Proof.
  induction r as [| cs | r1 IH1 r2 IH2 | r1 IH1 r2 IH2 | i r1 IH1
                  | cs min max greedy | r1 IH1 | |];
    intros pos inp caps k res H; cbn [run] in H.
  - exists 0, caps. rewrite Nat.add_0_r. cbn. repeat split; [exact H | apply capsFrom_refl].
  - destruct inp as [| c inp]; [discriminate |].
    destruct (cs c) eqn:Hc; [| discriminate].
    exists 1, caps. rewrite Nat.add_1_r. cbn.
    repeat split; [now exists c, inp | exact H | apply capsFrom_refl].
  - apply IH1 in H. destruct H as (n1 & caps1 & H1 & H & Hc1).
    apply IH2 in H. destruct H as (n2 & caps2 & H2 & H & Hc2).
    exists (n1 + n2), caps2. cbn [reach groupsOf].
    rewrite skipn_skipn, (Nat.add_comm n2 n1), <- Nat.add_assoc in H.
    repeat split; [now exists n1, n2 | exact H |].
    intros j v Hv. destruct (Hc2 j v Hv) as [Hb | Hb].
    + destruct (Hc1 j v Hb) as [Ha | Ha]; [now left | right].
      apply (capturedAt_incl (groupsOf r1) _ _ _ n1);
        [apply incl_appl, incl_refl | lia | exact Ha].
    + right. apply capturedAt_shift.
      apply (capturedAt_incl (groupsOf r2) _ _ _ n2);
        [apply incl_appr, incl_refl | lia | exact Hb].
  - unfold or_else in H. destruct (run r1 pos inp caps k) eqn:E.
    + rewrite H in E. apply IH1 in E. destruct E as (n & caps' & H1 & Hk & Hc).
      exists n, caps'. cbn [reach groupsOf].
      repeat split; [now left | exact Hk |].
      apply (capsFrom_incl (groupsOf r1) _ _ _ n);
        [apply incl_appl, incl_refl | lia | exact Hc].
    + apply IH2 in H. destruct H as (n & caps' & H2 & Hk & Hc).
      exists n, caps'. cbn [reach groupsOf].
      repeat split; [now right | exact Hk |].
      apply (capsFrom_incl (groupsOf r2) _ _ _ n);
        [apply incl_appr, incl_refl | lia | exact Hc].
  - apply IH1 in H. destruct H as (n & caps' & H1 & Hk & Hc).
    exists n, (set_capture i (firstn (pos + n - pos) inp) caps'). cbn [reach groupsOf].
    repeat split; [exact H1 | exact Hk |].
    intros j v. rewrite get_set_capture.
    replace (pos + n - pos) with n by lia.
    pose proof (reach_length r1 pos inp n H1) as Hlen.
    destruct (Nat.eqb_spec i j) as [<- | Hne].
    + intros Hv. injection Hv as <-. right.
      exists r1, 0. rewrite length_firstn, Nat.min_l, Nat.add_0_r by exact Hlen.
      cbn [skipn]. repeat split; [now left | lia | exact H1].
    + intros Hv. destruct (Hc j v Hv) as [Ha | Hb]; [now left | right].
      apply (capturedAt_incl (groupsOf r1) _ _ _ n);
        [apply incl_tl, incl_refl | lia | exact Hb].
  - apply repeat_loop_sound in H. destruct H as (n & Hmin & Hw & Hlen & Hall & Hk).
    exists n, caps. cbn [reach]. repeat split; try assumption. apply capsFrom_refl.
  - unfold or_else in H. destruct (run r1 pos inp caps _) eqn:E.
    + rewrite H in E. apply IH1 in E. destruct E as (n & caps' & H1 & Hk & Hc).
      destruct (Nat.eqb_spec (pos + n) pos) as [_ | Hne]; [discriminate |].
      exists n, caps'. cbn [reach groupsOf].
      repeat split; [right; split; [lia | exact H1] | exact Hk | exact Hc].
    + exists 0, caps. rewrite Nat.add_0_r. cbn [reach skipn].
      repeat split; [now left | exact H | apply capsFrom_refl].
  - destruct (Nat.eqb_spec pos 0) as [-> | _]; [| discriminate].
    exists 0, caps. cbn. repeat split; [exact H | apply capsFrom_refl].
  - destruct inp; [| discriminate].
    exists 0, caps. rewrite Nat.add_0_r. cbn. repeat split; [exact H | apply capsFrom_refl].
Qed.

(** The matcher is complete: when the pattern matches [n] characters
    after which the continuation succeeds, the matcher succeeds. *)
Lemma run_complete {R} (r : regex) :
  forall (pos : nat) (inp : chars) (n : nat) (caps : captures)
         (k : nat -> chars -> captures -> option R),
    reach r pos inp n ->
    (forall caps', k (pos + n) (skipn n inp) caps' <> None) ->
    run r pos inp caps k <> None.
Proof.
  induction r as [| cs | r1 IH1 r2 IH2 | r1 IH1 r2 IH2 | i r1 IH1
                  | cs min max greedy | r1 IH1 | |];
    intros pos inp n caps k H Hk; cbn [reach] in H; cbn [run].
  - subst n. rewrite Nat.add_0_r in Hk. apply Hk.
  - destruct H as (-> & c & rest & -> & Hc). rewrite Hc, <- Nat.add_1_r. apply Hk.
  - destruct H as (n1 & n2 & -> & H1 & H2).
    apply (IH1 pos inp n1); [exact H1 |]. intros caps1.
    apply (IH2 _ _ n2); [exact H2 |]. intros caps2.
    rewrite skipn_skipn, (Nat.add_comm n2 n1), <- Nat.add_assoc. apply Hk.
  - apply or_else_some. destruct H as [H | H]; [left | right].
    + now apply (IH1 pos inp n).
    + now apply (IH2 pos inp n).
  - apply (IH1 pos inp n); [exact H |]. intros caps'. apply Hk.
  - destruct H as (Hmin & Hw & Hlen & Hall).
    apply (repeat_loop_complete cs greedy inp n); try assumption. apply Hk.
  - apply or_else_some. destruct H as [-> | [Hne H]].
    + right. rewrite Nat.add_0_r in Hk. apply Hk.
    + left. apply (IH1 pos inp n); [exact H |]. intros caps'.
      destruct (Nat.eqb_spec (pos + n) pos) as [E | _]; [lia | apply Hk].
  - destruct H as [-> ->]. rewrite Nat.add_0_r in Hk. apply Hk.
  - destruct H as [-> ->]. rewrite Nat.add_0_r in Hk. apply Hk.
Qed.

(** A search returns the leftmost position at which the pattern matches,
    with groups that hold pieces of the match. *)
Lemma search_from_sound (r : regex) (inp : chars) :
  forall (pos : nat) (m : match_result),
    search_from r pos inp = Some m ->
    exists j n,
      j <= List.length inp
      /\ m_start m = pos + j /\ m_end m = pos + j + n
      /\ reach r (pos + j) (skipn j inp) n
      /\ capsFrom (groupsOf r) (pos + j) (skipn j inp) n [] (m_caps m)
      /\ forall i n', i < j -> ~ reach r (pos + i) (skipn i inp) n'.
Proof.
  induction inp as [| c inp IH]; intros pos m H; cbn [search_from] in H;
    unfold or_else in H.
  - destruct (run r pos [] [] _) eqn:E; [| discriminate].
    rewrite H in E. apply run_sound in E. destruct E as (n & caps' & H1 & Hk & Hc).
    injection Hk as <-. exists 0, n. rewrite Nat.add_0_r. cbn.
    repeat split; try assumption; try lia.
  - destruct (run r pos (c :: inp) [] _) eqn:E.
    + rewrite H in E. apply run_sound in E. destruct E as (n & caps' & H1 & Hk & Hc).
      injection Hk as <-. exists 0, n. rewrite Nat.add_0_r. cbn [skipn m_start m_end m_caps].
      repeat split; try assumption; try lia.
    + apply IH in H. destruct H as (j & n & Hj & Hs & He & Hr & Hc & Hleft).
      exists (S j), n. cbn [skipn List.length]. rewrite Nat.add_succ_r.
      repeat split; try assumption; try lia.
      intros i n' Hi Hreach. destruct i as [| i].
      * rewrite Nat.add_0_r in Hreach. cbn [skipn] in Hreach.
        apply (run_complete r pos (c :: inp) n' []
                 (fun pos' _ caps => Some (MkMatch pos pos' caps))) in Hreach.
        -- contradiction.
        -- discriminate.
      * cbn [skipn] in Hreach. rewrite Nat.add_succ_r in Hreach.
        apply (Hleft i n'); [lia | exact Hreach].
Qed.

Lemma search_from_complete (r : regex) (inp : chars) :
  forall (pos j n : nat),
    j <= List.length inp ->
    reach r (pos + j) (skipn j inp) n ->
    search_from r pos inp <> None.
Proof.
  induction inp as [| c inp IH]; intros pos j n Hj H; cbn [search_from];
    apply or_else_some.
  - left. cbn in Hj. assert (j = 0) by lia. subst j.
    rewrite Nat.add_0_r in H. cbn in H.
    apply (run_complete r pos [] n); [exact H | discriminate].
  - destruct j as [| j].
    + left. rewrite Nat.add_0_r in H. cbn in H.
      apply (run_complete r pos (c :: inp) n); [exact H | discriminate].
    + right. apply (IH (S pos) j n).
      * cbn in Hj. lia.
      * cbn [skipn] in H. now rewrite Nat.add_succ_r in H.
Qed.

(** A pattern finds a match in every text in which a pattern that it
    covers finds one. *)
Lemma exec_covered (p q : regex) (s : string) :
  (forall pos inp n, reach p pos inp n -> exists n', reach q pos inp n') ->
  exec p s <> None -> exec q s <> None.
Proof.
  intros Hcov H. unfold exec in *.
  destruct (search_from p 0 (list_ascii_of_string s)) as [m |] eqn:E; [| contradiction].
  apply search_from_sound in E. destruct E as (j & n & Hj & _ & _ & Hr & _).
  destruct (Hcov _ _ _ Hr) as [n' Hq].
  now apply (search_from_complete q _ 0 j n').
Qed.

End ReachFacts.

(** *** Removing every match of a character run *)

Module GlobalReplaceFacts.
Import JsStr Regex GlobalReplace AvailableSpec.

(** A greedy, unbounded run whose continuation never fails takes every
    character of the class in front. *)
Lemma repeat_greedy {R} (cs : charset) (inp : chars) :
  forall (min pos : nat) (g : nat -> chars -> R),
    repeat_loop cs true min None pos inp (fun p l => Some (g p l))
    = let taken := take_while cs inp in
      if (min <=? List.length taken)%nat
      then Some (g (pos + List.length taken) (skipn (List.length taken) inp))
      else None.
Proof.
  induction inp as [| c inp IH]; intros min pos g.
  - destruct min; cbn; [now rewrite Nat.add_0_r | reflexivity].
  - cbn [repeat_loop take_while may_repeat option_map]. destruct (cs c) eqn:Hc; cbn [andb].
    + rewrite IH. cbn zeta. cbn [List.length skipn]. rewrite Nat.add_succ_r.
      destruct min as [| min]; cbn [Nat.pred Nat.leb]; [| reflexivity].
      reflexivity.
    + destruct min; cbn; [now rewrite Nat.add_0_r | reflexivity].
Qed.

Lemma search_plus_nil (cs : charset) (pos : nat) : search_from (plus cs) pos [] = None.
Proof. reflexivity. Qed.

Lemma search_plus_in (cs : charset) (pos : nat) (c : ascii) (inp : chars) :
  cs c = true ->
  search_from (plus cs) pos (c :: inp)
  = Some (MkMatch pos (pos + S (List.length (take_while cs inp))) []).
Proof.
  intros Hc. cbn [search_from]. unfold plus at 1. cbn [run].
  rewrite (repeat_greedy cs (c :: inp) 1 pos (fun p _ => MkMatch pos p [])).
  cbn [take_while]. rewrite Hc. reflexivity.
Qed.

Lemma search_plus_out (cs : charset) (pos : nat) (c : ascii) (inp : chars) :
  cs c = false ->
  search_from (plus cs) pos (c :: inp) = search_from (plus cs) (S pos) inp.
Proof.
  intros Hc. cbn [search_from]. unfold plus at 1. cbn [run].
  rewrite (repeat_greedy cs (c :: inp) 1 pos (fun p _ => MkMatch pos p [])).
  cbn [take_while]. rewrite Hc. reflexivity.
Qed.

(** The first run of the class: what is before it, the run and the
    rest. *)
Lemma search_plus_spec (cs : charset) (inp : chars) :
  forall pos,
    (search_from (plus cs) pos inp = None /\ filter (fun c => negb (cs c)) inp = inp)
    \/ exists before run rest,
        inp = (before ++ run ++ rest)%list
        /\ filter (fun c => negb (cs c)) before = before
        /\ run <> [] /\ filter (fun c => negb (cs c)) run = []
        /\ search_from (plus cs) pos inp
           = Some (MkMatch (pos + List.length before)
                           (pos + List.length before + List.length run) []).
Proof.
  induction inp as [| c inp IH]; intros pos.
  - left. split; reflexivity.
  - destruct (cs c) eqn:Hc.
    + right. exists [], (c :: take_while cs inp), (skipn (List.length (take_while cs inp)) inp).
      rewrite (search_plus_in cs pos c inp Hc). cbn [List.app List.length filter].
      rewrite Hc, Nat.add_0_r. cbn [negb].
      assert (Htw : forall l, (take_while cs l ++ skipn (List.length (take_while cs l)) l)%list = l
                              /\ filter (fun c => negb (cs c)) (take_while cs l) = []).
      { induction l as [| x l [IHa IHb]]; [split; reflexivity |].
        cbn [take_while]. destruct (cs x) eqn:Hx; [| split; reflexivity].
        cbn [List.length skipn List.app filter]. rewrite Hx, IHa. now split. }
      destruct (Htw inp) as [Ha Hb]. rewrite Ha.
      repeat split; [discriminate | exact Hb].
    + rewrite (search_plus_out cs pos c inp Hc).
      destruct (IH (S pos)) as [[Hnone Hall] | (before & run & rest & -> & Hb & Hne & Hr & Hs)].
      * left. split; [exact Hnone |]. cbn [filter]. rewrite Hc. cbn [negb]. now rewrite Hall.
      * right. exists (c :: before), run, rest. cbn [List.app List.length filter].
        rewrite Hc, Hb, Hs, Nat.add_succ_r. cbn [negb]. repeat split; assumption.
Qed.

Lemma remove_all_from_plus (cs : charset) (fuel : nat) :
  forall pos inp,
    List.length inp < fuel ->
    remove_all_from fuel (plus cs) pos inp = filter (fun c => negb (cs c)) inp.
Proof.
  induction fuel as [| fuel IH]; intros pos inp Hlen; [lia |].
  cbn [remove_all_from].
  destruct (search_plus_spec cs inp pos)
    as [[-> Hall] | (before & run & rest & -> & Hb & Hne & Hr & ->)]; [now rewrite Hall |].
  cbn [m_start m_end].
  replace (pos + List.length before - pos) with (List.length before) by lia.
  replace (pos + List.length before + List.length run - (pos + List.length before))
    with (List.length run) by lia.
  rewrite firstn_app, Nat.sub_diag, firstn_all, firstn_O, app_nil_r.
  rewrite skipn_app, Nat.sub_diag, skipn_all. cbn [skipn List.app].
  destruct run as [| c run]; [contradiction |]. cbn [List.length].
  rewrite skipn_app.
  replace (S (List.length run) - List.length (c :: run)) with 0 by (cbn; lia).
  replace (skipn (S (List.length run)) (c :: run)) with (@nil ascii)
    by (symmetry; apply skipn_all2; cbn; lia).
  cbn [skipn List.app]. rewrite IH.
  - change (before ++ c :: run ++ rest)%list with (before ++ (c :: run) ++ rest)%list.
    rewrite !filter_app, Hb, Hr. reflexivity.
  - rewrite !length_app in Hlen. cbn [List.length] in Hlen. lia.
Qed.

Lemma list_ascii_of_string_of_list (l : chars) :
  list_ascii_of_string (string_of_list_ascii l) = l.
Proof. apply list_ascii_of_string_of_list_ascii. Qed.

Lemma without_space_drop (l : chars) :
  without_space (drop_while is_space l) = without_space l.
Proof.
  induction l as [| c l IH]; [reflexivity |]. cbn [drop_while].
  destruct (is_space c) eqn:Hc; [| reflexivity].
  unfold without_space in *. cbn [filter]. rewrite Hc. exact IH.
Qed.

Lemma without_space_trim (l : chars) : without_space (trim_chars l) = without_space l.
Proof.
  unfold trim_chars. unfold without_space at 1.
  rewrite filter_rev. fold (without_space (drop_while is_space (rev (drop_while is_space l)))).
  rewrite without_space_drop. unfold without_space at 1. rewrite filter_rev.
  fold (without_space (drop_while is_space l)). rewrite rev_involutive.
  apply without_space_drop.
Qed.

(** X10: [code.trim().replace(/\s+/g, "")] is the code without any of
    its white space, inside as well as around; the [trim] before the
    replacement changes nothing. *)
Theorem normalise_code_removes_white_space (code : string) :
  Available.normalise_code code
  = string_of_list_ascii (without_space (list_ascii_of_string code))
  /\ Available.normalise_code code = remove_all Available.white_space_run code.
Proof.
  assert (H : forall s, remove_all Available.white_space_run s
                        = string_of_list_ascii (without_space (list_ascii_of_string s))).
  { intros s. unfold remove_all, Available.white_space_run. cbn zeta.
    rewrite (remove_all_from_plus space); [reflexivity | lia]. }
  unfold Available.normalise_code. rewrite !H. unfold trim.
  rewrite list_ascii_of_string_of_list, without_space_trim. split; reflexivity.
Qed.

End GlobalReplaceFacts.

(** *** The available-courses extractor *)

Module AvailableFacts.
Import JsStr Regex RegexSpec RegexFacts ReachFacts Patterns.
Import Available AvailableSpec GlobalReplaceFacts.

Lemma upper_is_plain (c : ascii) :
  is_upper c = true -> is_space c = false /\ is_digit c = false.
Proof.
  destruct c as [b0 b1 b2 b3 b4 b5 b6 b7].
  destruct b0, b1, b2, b3, b4, b5, b6, b7; vm_compute; intros H;
    try discriminate H; repeat split.
Qed.

Lemma digit_is_not_upper (c : ascii) :
  is_digit c = true -> is_space c = false /\ is_upper c = false.
Proof.
  destruct c as [b0 b1 b2 b3 b4 b5 b6 b7].
  destruct b0, b1, b2, b3, b4, b5, b6, b7; vm_compute; intros H;
    try discriminate H; repeat split.
Qed.

Lemma firstn_add (n1 n2 : nat) (l : chars) :
  firstn (n1 + n2) l = (firstn n1 l ++ firstn n2 (skipn n1 l))%list.
Proof.
  revert l. induction n1 as [| n1 IH]; intros l; [reflexivity |].
  destruct l as [| c l]; cbn [Nat.add firstn skipn List.app].
  - now rewrite firstn_nil.
  - now rewrite IH.
Qed.

Lemma without_space_keeps (p : ascii -> bool) (l : chars) :
  (forall c, p c = true -> is_space c = false) ->
  forallb p l = true -> without_space l = l.
Proof.
  intros Hp. induction l as [| c l IH]; [reflexivity |]. cbn [forallb].
  intros H. apply andb_true_iff in H. destruct H as [Hc Hl].
  unfold without_space in *. cbn [filter]. rewrite (Hp c Hc). cbn [negb].
  now rewrite IH.
Qed.

Lemma without_space_spaces (l : chars) :
  forallb is_space l = true -> without_space l = [].
Proof.
  induction l as [| c l IH]; [reflexivity |]. cbn [forallb].
  intros H. apply andb_true_iff in H. destruct H as [Hc Hl].
  unfold without_space in *. cbn [filter]. rewrite Hc. cbn [negb]. now apply IH.
Qed.

Lemma without_space_app (a b : chars) :
  without_space (a ++ b)%list = (without_space a ++ without_space b)%list.
Proof. apply filter_app. Qed.

(** [take_while] stops where the class stops. *)
Lemma take_while_app_stop (p : ascii -> bool) (a b : chars) :
  forallb p a = true ->
  (forall c l, b = c :: l -> p c = false) ->
  take_while p (a ++ b)%list = a.
Proof.
  intros Ha Hb. induction a as [| c a IH].
  - destruct b as [| c l]; [reflexivity |]. cbn. now rewrite (Hb c l eq_refl).
  - cbn [forallb] in Ha. apply andb_true_iff in Ha. destruct Ha as [Hc Ha].
    cbn [List.app take_while]. rewrite Hc. now rewrite IH.
Qed.

Lemma skipn_length_app (a b : chars) : skipn (List.length a) (a ++ b)%list = b.
Proof. rewrite skipn_app, skipn_all, Nat.sub_diag. reflexivity. Qed.

(** A code text without its white space is a course code. *)
Lemma codeText_normalised (v : chars) :
  codeText v -> isCourseCode (normalise_code (string_of_list_ascii v)) = true.
Proof.
  intros (letters & spaces & digits & suffix & -> & Hl & Hu & Hs & Hd & Hdig & Hx & Hxu).
  destruct (normalise_code_removes_white_space
              (string_of_list_ascii (letters ++ spaces ++ digits ++ suffix)%list)) as [-> _].
  rewrite list_ascii_of_string_of_list, !without_space_app.
  rewrite (without_space_keeps is_upper letters (fun c H => proj1 (upper_is_plain c H)) Hu).
  rewrite (without_space_spaces spaces Hs).
  rewrite (without_space_keeps is_digit digits (fun c H => proj1 (digit_is_not_upper c H)) Hdig).
  rewrite (without_space_keeps is_upper suffix (fun c H => proj1 (upper_is_plain c H)) Hxu).
  cbn [List.app]. unfold isCourseCode. rewrite list_ascii_of_string_of_list. cbn zeta.
  rewrite (take_while_app_stop is_upper letters (digits ++ suffix)%list Hu).
  - rewrite skipn_length_app.
    rewrite (take_while_app_stop is_digit digits suffix Hdig).
    + rewrite skipn_length_app, Hxu.
      repeat (apply andb_true_iff; split); try reflexivity; apply Nat.leb_le; lia.
    + intros c l ->. cbn [forallb] in Hxu. apply andb_true_iff in Hxu.
      apply (upper_is_plain c), (proj1 Hxu).
  - intros c l E. destruct digits as [| d digits]; [cbn in Hd; lia |].
    cbn [List.app] in E. injection E as <- _. cbn [forallb] in Hdig.
    apply andb_true_iff in Hdig. apply (digit_is_not_upper d), (proj1 Hdig).
Qed.

(** The three forms of the first group. *)
Lemma reach_course_code (pos : nat) (inp : chars) (n : nat) :
  reach (course_code false) pos inp n ->
  exists letters digits,
    firstn n inp = (letters ++ digits)%list
    /\ 2 <= List.length letters <= 4 /\ forallb is_upper letters = true
    /\ 3 <= List.length digits <= 4 /\ forallb is_digit digits = true.
Proof.
  intros (n1 & n2 & -> & (H1 & H1' & H1l & H1c) & (H2 & H2' & H2l & H2c)).
  cbn [within] in *. exists (firstn n1 inp), (firstn n2 (skipn n1 inp)).
  rewrite firstn_add, !length_firstn, !Nat.min_l by assumption.
  repeat split; try assumption.
Qed.

Lemma plain_codeText (letters digits : chars) :
  2 <= List.length letters <= 4 -> forallb is_upper letters = true ->
  3 <= List.length digits <= 4 -> forallb is_digit digits = true ->
  codeText (letters ++ digits)%list.
Proof.
  intros Hl Hu Hd Hdig. exists letters, [], digits, [].
  rewrite app_nil_r. cbn. repeat split; try assumption; lia.
Qed.

Lemma reach_spaced_code (pos : nat) (inp : chars) (n : nat) :
  reach (seq [between (upper false) 2 4; plus space; between digit 3 4]) pos inp n ->
  codeText (firstn n inp).
Proof.
  intros (n1 & n' & -> & (H1 & H1' & H1l & H1c)
          & (n2 & n3 & -> & (H2 & H2' & H2l & H2c) & (H3 & H3' & H3l & H3c))).
  cbn [within] in *.
  exists (firstn n1 inp), (firstn n2 (skipn n1 inp)),
    (firstn n3 (skipn n2 (skipn n1 inp))), [].
  rewrite !firstn_add, app_nil_r, !length_firstn, !Nat.min_l by assumption.
  cbn. repeat split; try assumption; lia.
Qed.

Lemma reach_lettered_code (pos : nat) (inp : chars) (n : nat) :
  reach (seq [between (upper false) 2 4; between digit 3 4;
              Repeat (upper false) 0 (Some 1) true]) pos inp n ->
  codeText (firstn n inp).
Proof.
  intros (n1 & n' & -> & (H1 & H1' & H1l & H1c)
          & (n2 & n3 & -> & (H2 & H2' & H2l & H2c) & (H3 & H3' & H3l & H3c))).
  cbn [within] in *.
  exists (firstn n1 inp), [], (firstn n2 (skipn n1 inp)),
    (firstn n3 (skipn n2 (skipn n1 inp))).
  rewrite !firstn_add, !length_firstn, !Nat.min_l by assumption.
  cbn [List.app forallb]. repeat split; try assumption; lia.
Qed.

(** A group of a match of [s] holds a piece of the match. *)
Lemma exec_group_captured (r : regex) (s : string) (m : match_result) (i : nat) (c : string) :
  exec r s = Some m -> group s m (S i) = Some c ->
  exists v j n,
    c = string_of_list_ascii v
    /\ m_start m = j /\ m_end m = j + n
    /\ capturedAt (groupsOf r) j (skipn j (list_ascii_of_string s)) n (S i) v.
Proof.
  unfold exec, group. intros E G.
  apply search_from_sound in E. destruct E as (j & n & _ & Hs & He & _ & Hc & _).
  destruct (get_capture (S i) (m_caps m)) as [v |] eqn:Hv; [| discriminate].
  injection G as <-. exists v, j, n.
  destruct (Hc (S i) v Hv) as [Hnil | Hcap]; [discriminate |].
  repeat split; assumption.
Qed.

(** The first group of each of the four patterns holds a code text. *)
Lemma coursePatterns_group_1 (line : string) (m : match_result) (c : string) :
  forall pattern build,
    In (pattern, build) coursePatterns ->
    exec pattern line = Some m -> group line m 1 = Some c ->
    exists v, c = string_of_list_ascii v /\ codeText v.
Proof.
  intros pattern build Hin E G.
  destruct (exec_group_captured pattern line m 0 c E G)
    as (v & j & n & -> & _ & _ & (r1 & d & Hg & _ & Hr & Hv)).
  exists v. split; [reflexivity |]. rewrite <- Hv.
  cbn in Hin.
  destruct Hin as [H | [H | [H | [H | []]]]]; injection H as <- _; cbn in Hg;
    repeat (destruct Hg as [Hg | Hg]; [try discriminate Hg |]); try contradiction;
    injection Hg as <-.
  - destruct (reach_course_code _ _ _ Hr) as (l & dg & -> & Hl & Hu & Hd & Hdig).
    now apply plain_codeText.
  - now apply reach_spaced_code in Hr.
  - now apply reach_lettered_code in Hr.
  - destruct (reach_course_code _ _ _ Hr) as (l & dg & -> & Hl & Hu & Hd & Hdig).
    now apply plain_codeText.
Qed.

(** The loop over the patterns does not throw, and what it gives has a
    course code. *)
Lemma extractCourse_available_ok (line : string) :
  exists o,
    extractCourse coursePatterns line = Ok o
    /\ forall a, o = Some a -> isCourseCode (AvailableCourse.code a) = true.
Proof.
  assert (Htitled : forall pattern m,
             In (pattern, build_titled) coursePatterns ->
             mustSet 1 pattern = true -> mustSet 2 pattern = true ->
             exec pattern line = Some m ->
             exists a, build_titled line m = Ok a
                       /\ isCourseCode (AvailableCourse.code a) = true).
  { intros pattern m Hin H1 H2 E.
    destruct (exec_mustSet pattern line m 0 H1 E) as [c Hc].
    destruct (exec_mustSet pattern line m 1 H2 E) as [t Ht].
    destruct (coursePatterns_group_1 line m c pattern build_titled Hin E Hc)
      as (v & -> & Hv).
    unfold build_titled. rewrite Hc, Ht. cbn [defined bind].
    eexists. split; [reflexivity |]. cbn [AvailableCourse.code].
    now apply codeText_normalised. }
  unfold coursePatterns in *. cbn [extractCourse].
  destruct (exec code_title line) as [m |] eqn:E0.
  { destruct (Htitled code_title m) as (a & -> & Ha);
      [now left | reflexivity | reflexivity | exact E0 |].
    exists (Some a). split; [reflexivity |]. now intros ? [= <-]. }
  destruct (exec spaced_code_title line) as [m |] eqn:E1.
  { destruct (Htitled spaced_code_title m) as (a & -> & Ha);
      [right; now left | reflexivity | reflexivity | exact E1 |].
    exists (Some a). split; [reflexivity |]. now intros ? [= <-]. }
  destruct (exec lettered_code_title line) as [m |] eqn:E2.
  { destruct (Htitled lettered_code_title m) as (a & -> & Ha);
      [right; right; now left | reflexivity | reflexivity | exact E2 |].
    exists (Some a). split; [reflexivity |]. now intros ? [= <-]. }
  destruct (exec code_only line) as [m |] eqn:E3.
  { destruct (exec_mustSet code_only line m 0 eq_refl E3) as [c Hc].
    destruct (coursePatterns_group_1 line m c code_only build_code_only
                ltac:(right; right; right; now left) E3 Hc) as (v & -> & Hv).
    unfold build_code_only. rewrite Hc. cbn [defined bind].
    eexists. split; [reflexivity |]. intros a [= <-]. cbn [AvailableCourse.code].
    now apply codeText_normalised. }
  exists None. split; [reflexivity | discriminate].
Qed.

Lemma forM_step_ok (lines : list string) :
  forall acc,
    Forall (fun a => isCourseCode (AvailableCourse.code a) = true) acc ->
    exists l,
      forM step lines acc = Ok l
      /\ List.length l <= List.length acc + List.length lines
      /\ Forall (fun a => isCourseCode (AvailableCourse.code a) = true) l.
Proof.
  induction lines as [| line lines IH]; intros acc Hacc.
  - exists acc. cbn. repeat split; [lia | exact Hacc].
  - cbn [forM]. unfold step at 1.
    destruct (extractCourse_available_ok (trim line)) as (o & -> & Ho). cbn [bind].
    destruct o as [a |].
    + destruct (IH (acc ++ [a])%list) as (l & -> & Hlen & Hl).
      * apply Forall_app. split; [exact Hacc |]. constructor; [now apply Ho | constructor].
      * exists l. rewrite length_app in Hlen. cbn [List.length] in *.
        repeat split; [lia | exact Hl].
    + destruct (IH acc Hacc) as (l & -> & Hlen & Hl).
      exists l. cbn [List.length]. repeat split; [lia | exact Hl].
Qed.

(** X11: for every text, [parseAvailableCourses] returns without
    throwing; it gives at most one course per line, and the code of
    each is a course code (two to four capital letters, three or four
    digits, at most one capital letter) without white space. *)
Theorem parseAvailableCourses_codes (content : string) :
  exists l,
    parseAvailableCourses content = Ok l
    /\ List.length l <= List.length (split "010" content)
    /\ Forall (fun a => isCourseCode (AvailableCourse.code a) = true) l.
Proof.
  unfold parseAvailableCourses.
  destruct (forM_step_ok (split "010" content) [] (Forall_nil _)) as (l & H & Hlen & Hl).
  exists l. repeat split; assumption.
Qed.

(** **** Lines of the expected form *)

(** A greedy run takes all of [a] when what follows is outside the
    class and the continuation succeeds after it. *)
Lemma repeat_greedy_first {R} (cs : charset) (a b : chars) :
  forall (min : nat) (max : option nat) (pos : nat) (k : nat -> chars -> option R) (res : R),
    forallb cs a = true -> min <= List.length a -> within max (List.length a) ->
    (forall c l, b = c :: l -> cs c = false) ->
    k (pos + List.length a) b = Some res ->
    repeat_loop cs true min max pos (a ++ b)%list k = Some res.
Proof.
  induction a as [| c a IH]; intros min max pos k res Ha Hmin Hmax Hb Hk.
  - cbn [List.length] in *. assert (min = 0) by lia. subst min.
    rewrite Nat.add_0_r in Hk. cbn [List.app].
    destruct b as [| c l]; cbn [repeat_loop]; [exact Hk |].
    rewrite (Hb c l eq_refl). exact Hk.
  - cbn [forallb] in Ha. apply andb_true_iff in Ha. destruct Ha as [Hc Ha].
    cbn [List.length] in *. cbn [List.app repeat_loop]. rewrite Hc.
    assert (Hmay : may_repeat max = true).
    { destruct max as [[| m] |]; cbn in *; [lia | reflexivity | reflexivity]. }
    rewrite Hmay. cbn [andb].
    assert (Hmore : repeat_loop cs true (Nat.pred min) (option_map Nat.pred max)
                                (S pos) (a ++ b)%list k = Some res).
    { apply IH; try assumption; [lia | |].
      - destruct max as [m |]; cbn in *; lia.
      - now rewrite Nat.add_succ_r in Hk. }
    destruct min; rewrite Hmore; reflexivity.
Qed.

Lemma search_from_here (r : regex) (pos : nat) (inp : chars) (m : match_result) :
  run r pos inp [] (fun pos' _ caps => Some (MkMatch pos pos' caps)) = Some m ->
  search_from r pos inp = Some m.
Proof. intros H. destruct inp; cbn [search_from]; now rewrite H. Qed.

Lemma list_ascii_of_string_app (a b : string) :
  list_ascii_of_string (a ++ b)
  = (list_ascii_of_string a ++ list_ascii_of_string b)%list.
Proof. induction a as [| c a IH]; cbn; [reflexivity | now rewrite IH]. Qed.

Lemma take_while_forallb (p : ascii -> bool) (l : chars) :
  forallb p (take_while p l) = true.
Proof.
  induction l as [| c l IH]; [reflexivity |]. cbn [take_while].
  destruct (p c) eqn:Hc; [| reflexivity]. cbn [forallb]. now rewrite Hc, IH.
Qed.

Lemma take_while_skipn (p : ascii -> bool) (l : chars) :
  (take_while p l ++ skipn (List.length (take_while p l)) l)%list = l.
Proof.
  induction l as [| c l IH]; [reflexivity |]. cbn [take_while].
  destruct (p c); [| reflexivity]. cbn [List.length skipn List.app]. now rewrite IH.
Qed.

(** The letters and the digits of a plain course code. *)
Lemma plain_code_parts (code : string) :
  isPlainCourseCode code = true ->
  exists letters digits,
    list_ascii_of_string code = (letters ++ digits)%list
    /\ 2 <= List.length letters <= 4 /\ forallb is_upper letters = true
    /\ 3 <= List.length digits <= 4 /\ forallb is_digit digits = true.
Proof.
  unfold isPlainCourseCode. cbn zeta. intros H.
  repeat (apply andb_true_iff in H; destruct H as [H ?]).
  exists (take_while is_upper (list_ascii_of_string code)),
    (skipn (List.length (take_while is_upper (list_ascii_of_string code)))
           (list_ascii_of_string code)).
  rewrite take_while_skipn, take_while_forallb.
  repeat match goal with
         | E : (_ <=? _)%nat = true |- _ => apply Nat.leb_le in E
         end.
  repeat split; try assumption; lia.
Qed.

Lemma plain_code_normalised (code : string) :
  isPlainCourseCode code = true -> normalise_code code = code /\ trim code = code.
Proof.
  intros H. destruct (plain_code_parts code H) as (letters & digits & E & _ & Hu & Hd & Hdig).
  assert (Hns : without_space (list_ascii_of_string code) = list_ascii_of_string code).
  { rewrite E, without_space_app.
    rewrite (without_space_keeps is_upper letters (fun c H => proj1 (upper_is_plain c H)) Hu).
    now rewrite (without_space_keeps is_digit digits
                   (fun c H => proj1 (digit_is_not_upper c H)) Hdig). }
  split.
  - destruct (normalise_code_removes_white_space code) as [-> _].
    now rewrite Hns, string_of_list_ascii_of_string.
  - unfold trim. rewrite <- (string_of_list_ascii_of_string code) at 2. f_equal.
    assert (Hdrop : forall l, without_space l = l -> drop_while is_space l = l).
    { intros [| c l] Hl; [reflexivity |]. cbn [drop_while].
      destruct (is_space c) eqn:Hc; [| reflexivity]. exfalso.
      unfold without_space in Hl. cbn [filter] in Hl. rewrite Hc in Hl. cbn [negb] in Hl.
      pose proof (filter_length_le (fun c => negb (is_space c)) l) as Hle.
      rewrite Hl in Hle. cbn in Hle. lia. }
    unfold trim_chars. rewrite (Hdrop _ Hns).
    rewrite Hdrop; [apply rev_involutive |].
    unfold without_space in *. now rewrite filter_rev, Hns.
Qed.

(** A text that [trim] keeps does not begin with white space. *)
Lemma trimmed_head (c : ascii) (l : chars) :
  trim_chars (c :: l) = c :: l -> is_space c = false.
Proof.
  intros H. destruct (is_space c) eqn:Hc; [exfalso | reflexivity].
  assert (Hlen : forall p l', List.length (drop_while p l') <= List.length l').
  { intros p l'. induction l' as [| x l' IH]; [cbn; lia |]. cbn [drop_while].
    destruct (p x); cbn [List.length]; lia. }
  apply (f_equal (@List.length ascii)) in H. unfold trim_chars in H.
  rewrite length_rev in H. cbn [drop_while] in H. rewrite Hc in H.
  pose proof (Hlen is_space (rev (drop_while is_space l))) as H1.
  rewrite length_rev in H1. pose proof (Hlen is_space l) as H2.
  cbn [List.length] in H. lia.
Qed.

(** On a line that is a plain code, white space and a title, the first
    pattern matches at the start and takes the code and the title. *)
Lemma code_title_exact (letters digits gap title : chars) :
  2 <= List.length letters <= 4 -> forallb is_upper letters = true ->
  3 <= List.length digits <= 4 -> forallb is_digit digits = true ->
  gap <> [] -> forallb is_space gap = true ->
  forallb dot title = true ->
  (exists c rest, title = c :: rest /\ is_space c = false) ->
  let s := string_of_list_ascii (letters ++ digits ++ gap ++ title) in
  exists m,
    exec code_title s = Some m
    /\ group s m 1 = Some (string_of_list_ascii (letters ++ digits))
    /\ group s m 2 = Some (string_of_list_ascii title).
Proof.
  intros Hl Hu Hd Hdig Hg Hgap Hdot (c & rest & Ht & Hc) s.
  eexists. split.
  - unfold exec, s. rewrite list_ascii_of_string_of_list.
    apply search_from_here.
    unfold code_title, course_code, seq, plus, between. cbn [run].
    apply repeat_greedy_first; [exact Hu | lia | cbn; lia | |].
    { intros x l E. destruct digits as [| d digits]; [cbn in Hd; lia |].
      cbn [List.app forallb] in *. injection E as <- _.
      apply andb_true_iff in Hdig. apply (digit_is_not_upper d), (proj1 Hdig). }
    apply repeat_greedy_first; [exact Hdig | lia | cbn; lia | |].
    { intros x l E. destruct gap as [| g gap]; [contradiction |].
      cbn [List.app forallb] in *. injection E as <- _.
      apply andb_true_iff in Hgap. destruct Hgap as [Hx _].
      change (is_digit g = false). destruct (is_digit g) eqn:Hdx; [| reflexivity].
      apply digit_is_not_upper in Hdx. destruct Hdx as [Hsp _].
      unfold space in Hx. congruence. }
    apply repeat_greedy_first; [exact Hgap | | exact I | |].
    { destruct gap; [contradiction | cbn; lia]. }
    { intros x l E. rewrite Ht in E. injection E as <- _. exact Hc. }
    rewrite <- (app_nil_r title) at 1.
    apply repeat_greedy_first; [exact Hdot | | exact I | discriminate | reflexivity].
    rewrite Ht. cbn. lia.
  - cbn [group m_caps get_capture set_capture filter fst Nat.eqb negb option_map].
    rewrite Nat.sub_0_r, Nat.add_0_l.
    replace (List.length letters + List.length digits)
      with (List.length (letters ++ digits)) by apply length_app.
    rewrite (app_assoc letters digits), firstn_app, Nat.sub_diag, firstn_all, firstn_O,
      app_nil_r.
    split; [reflexivity |].
    match goal with
    | |- context [firstn ?n title] => replace n with (List.length title) by lia
    end.
    now rewrite firstn_all.
Qed.

Lemma In_skipn (x : ascii) (n : nat) (l : chars) : In x (skipn n l) -> In x l.
Proof.
  intros H. rewrite <- (firstn_skipn n l). apply in_or_app. now right.
Qed.

(** The three patterns with a title need white space in the line. *)
Lemma titled_needs_space (g : regex) (s : string) :
  without_space (list_ascii_of_string s) = list_ascii_of_string s ->
  exec (Seq (Group 1 g) (Seq (plus space) (Group 2 (plus dot)))) s = None.
Proof.
  intros Hns. unfold exec.
  destruct (search_from _ 0 (list_ascii_of_string s)) as [m |] eqn:E; [exfalso | reflexivity].
  apply search_from_sound in E. destruct E as (j & n & _ & _ & _ & Hr & _).
  cbn [reach plus] in Hr.
  destruct Hr as (n1 & n' & _ & _ & (n2 & n3 & _ & (Hmin & _ & Hlen & Hall) & _)).
  destruct (skipn n1 (skipn j (list_ascii_of_string s))) as [| x l] eqn:Hs;
    [cbn in Hlen; lia |].
  destruct n2 as [| n2]; [lia |]. cbn [firstn forallb] in Hall.
  apply andb_true_iff in Hall. destruct Hall as [Hx _].
  assert (Hin : In x (list_ascii_of_string s)).
  { apply (In_skipn x j), (In_skipn x n1). rewrite Hs. now left. }
  rewrite <- Hns in Hin. apply filter_In in Hin. destruct Hin as [_ Hnot].
  unfold space in Hx. rewrite Hx in Hnot. discriminate.
Qed.

(** On a line that is a plain code, the last pattern matches at the
    start and takes the code. *)
Lemma code_only_exact (letters digits : chars) :
  2 <= List.length letters <= 4 -> forallb is_upper letters = true ->
  3 <= List.length digits <= 4 -> forallb is_digit digits = true ->
  let s := string_of_list_ascii (letters ++ digits) in
  exists m, exec code_only s = Some m /\ group s m 1 = Some s.
Proof.
  intros Hl Hu Hd Hdig s.
  eexists. split.
  - unfold exec, s. rewrite list_ascii_of_string_of_list.
    apply search_from_here.
    unfold code_only, course_code, seq, between. cbn [run].
    apply repeat_greedy_first; [exact Hu | lia | cbn; lia | |].
    { intros x l E. destruct digits as [| d digits]; [cbn in Hd; lia |].
      cbn [List.app forallb] in *. injection E as <- _.
      apply andb_true_iff in Hdig. apply (digit_is_not_upper d), (proj1 Hdig). }
    rewrite <- (app_nil_r digits) at 1.
    apply repeat_greedy_first; [exact Hdig | lia | cbn; lia | discriminate |].
    reflexivity.
  - cbn [group m_caps get_capture set_capture filter fst Nat.eqb negb option_map].
    rewrite Nat.sub_0_r, Nat.add_0_l, <- length_app, firstn_all. reflexivity.
Qed.

Lemma extractCourse_titled (code gap title : string) :
  isPlainCourseCode code = true -> isGap gap = true -> isTitle title = true ->
  extractCourse coursePatterns (code ++ gap ++ title)
  = Ok (Some (AvailableCourse.Make code title)).
Proof.
  intros Hcode Hgap Htitle.
  destruct (plain_code_parts code Hcode) as (letters & digits & Ec & Hl & Hu & Hd & Hdig).
  destruct (plain_code_normalised code Hcode) as [Hnorm _].
  unfold isGap in Hgap. apply andb_true_iff in Hgap. destruct Hgap as [Hg Hsp].
  unfold isTitle in Htitle. apply andb_true_iff in Htitle. destruct Htitle as [Htitle Htrim].
  apply andb_true_iff in Htitle. destruct Htitle as [Hne Hdot].
  apply String.eqb_eq in Htrim.
  assert (Hhead : exists c rest, list_ascii_of_string title = c :: rest /\ is_space c = false).
  { destruct title as [| c rest]; [discriminate |]. exists c, (list_ascii_of_string rest).
    split; [reflexivity |]. apply (trimmed_head c (list_ascii_of_string rest)).
    apply (f_equal list_ascii_of_string) in Htrim. unfold trim in Htrim.
    now rewrite list_ascii_of_string_of_list in Htrim. }
  assert (Hgne : list_ascii_of_string gap <> []) by (destruct gap; [discriminate | discriminate]).
  destruct (code_title_exact letters digits (list_ascii_of_string gap)
              (list_ascii_of_string title) Hl Hu Hd Hdig Hgne Hsp Hdot Hhead)
    as (m & E & G1 & G2).
  assert (Es : string_of_list_ascii
                 (letters ++ digits ++ list_ascii_of_string gap ++ list_ascii_of_string title)
               = (code ++ gap ++ title)%string).
  { rewrite app_assoc, <- Ec, <- !list_ascii_of_string_app.
    apply string_of_list_ascii_of_string. }
  rewrite Es in E, G1, G2. rewrite <- Ec in G1.
  rewrite !string_of_list_ascii_of_string in *.
  unfold coursePatterns. cbn [extractCourse].
  rewrite E. unfold build_titled. rewrite G1, G2. cbn [defined bind].
  now rewrite Hnorm, Htrim.
Qed.

Lemma extractCourse_code_only (code : string) :
  isPlainCourseCode code = true ->
  extractCourse coursePatterns code = Ok (Some (AvailableCourse.Make code code)).
Proof.
  intros Hcode.
  destruct (plain_code_parts code Hcode) as (letters & digits & Ec & Hl & Hu & Hd & Hdig).
  destruct (plain_code_normalised code Hcode) as [Hnorm Htrim].
  assert (Hns : without_space (list_ascii_of_string code) = list_ascii_of_string code).
  { destruct (normalise_code_removes_white_space code) as [Hn _].
    rewrite Hnorm in Hn. apply (f_equal list_ascii_of_string) in Hn.
    now rewrite list_ascii_of_string_of_list in Hn. }
  destruct (code_only_exact letters digits Hl Hu Hd Hdig) as (m & E & G).
  cbn zeta in E, G. rewrite <- Ec, string_of_list_ascii_of_string in E, G.
  unfold coursePatterns. cbn [extractCourse].
  unfold code_title, spaced_code_title, lettered_code_title. cbn [seq].
  rewrite !(titled_needs_space _ code Hns).
  rewrite E. unfold build_code_only. rewrite G. cbn [defined bind].
  now rewrite Hnorm, Htrim.
Qed.

(** X12: a line that is, between white space, a plain course code,
    white space and a title gives the course of that code and title. *)
Theorem titled_line_parsed (acc : list AvailableCourse.t) (line code gap title : string) :
  trim line = (code ++ gap ++ title)%string ->
  isPlainCourseCode code = true -> isGap gap = true -> isTitle title = true ->
  step acc line = Ok (acc ++ [AvailableCourse.Make code title])%list.
Proof.
  intros Hline Hcode Hgap Htitle. unfold step.
  now rewrite Hline, (extractCourse_titled code gap title Hcode Hgap Htitle).
Qed.

Lemma titled_line_parsed_witness :
  step [] "  CS101   Intro to CS " = Ok [AvailableCourse.Make "CS101" "Intro to CS"].
Proof.
  apply (titled_line_parsed [] "  CS101   Intro to CS " "CS101" "   " "Intro to CS");
    reflexivity.
Defined.

(** X13: a line that is, between white space, a plain course code gives
    the course with that code, and the code again as its title. *)
Theorem code_only_line_parsed (acc : list AvailableCourse.t) (line code : string) :
  trim line = code -> isPlainCourseCode code = true ->
  step acc line = Ok (acc ++ [AvailableCourse.Make code code])%list.
Proof.
  intros Hline Hcode. unfold step.
  now rewrite Hline, (extractCourse_code_only code Hcode).
Qed.

Lemma code_only_line_parsed_witness :
  step [] " MATH1011 " = Ok [AvailableCourse.Make "MATH1011" "MATH1011"].
Proof.
  apply (code_only_line_parsed [] " MATH1011 " "MATH1011"); reflexivity.
Defined.

(** **** Listings *)

Lemma split_chars_line (sep : ascii) (a b : chars) :
  forallb (fun c => negb (Ascii.eqb c sep)) a = true ->
  split_chars sep (a ++ sep :: b)%list = a :: split_chars sep b.
Proof.
  induction a as [| c a IH]; intros H.
  - cbn. now rewrite Ascii.eqb_refl.
  - cbn [forallb] in H. apply andb_true_iff in H. destruct H as [Hc Ha].
    cbn [List.app split_chars]. apply negb_true_iff in Hc. rewrite Hc.
    now rewrite (IH Ha).
Qed.

Lemma split_chars_no_sep (sep : ascii) (a : chars) :
  forallb (fun c => negb (Ascii.eqb c sep)) a = true -> split_chars sep a = [a].
Proof.
  induction a as [| c a IH]; intros H; [reflexivity |].
  cbn [forallb] in H. apply andb_true_iff in H. destruct H as [Hc Ha].
  cbn [split_chars]. apply negb_true_iff in Hc. rewrite Hc. now rewrite (IH Ha).
Qed.

Lemma drop_while_shorter (p : ascii -> bool) (l : chars) :
  List.length (drop_while p l) <= List.length l.
Proof.
  induction l as [| x l IH]; [cbn; lia |]. cbn [drop_while].
  destruct (p x); cbn [List.length]; lia.
Qed.

Lemma drop_while_fixed (c : ascii) (l : chars) :
  drop_while is_space (c :: l) = c :: l -> is_space c = false.
Proof.
  cbn [drop_while]. destruct (is_space c); [| reflexivity]. intros H.
  pose proof (drop_while_shorter is_space l) as Hle. rewrite H in Hle.
  cbn [List.length] in Hle. lia.
Qed.

(** A text that begins outside white space, followed by a text that
    [trim] keeps, is kept by [trim]. *)
Lemma trim_chars_app (x : ascii) (a b : chars) :
  is_space x = false -> b <> [] -> trim_chars b = b ->
  trim_chars (x :: a ++ b) = (x :: a ++ b)%list.
Proof.
  intros Hx Hb Htrim. unfold trim_chars. cbn [drop_while]. rewrite Hx.
  destruct b as [| y b]; [contradiction |].
  pose proof (trimmed_head y b Htrim) as Hy.
  unfold trim_chars in Htrim. cbn [drop_while] in Htrim. rewrite Hy in Htrim.
  apply (f_equal (@rev ascii)) in Htrim. rewrite rev_involutive in Htrim.
  change (x :: a ++ y :: b)%list with ((x :: a) ++ y :: b)%list.
  rewrite rev_app_distr.
  destruct (rev (y :: b)) as [| z r] eqn:Hr.
  { apply (f_equal (@List.length ascii)) in Hr. rewrite length_rev in Hr. discriminate. }
  pose proof (drop_while_fixed z r Htrim) as Hz.
  cbn [List.app drop_while]. rewrite Hz.
  change (z :: r ++ rev (x :: a))%list with ((z :: r) ++ rev (x :: a))%list.
  now rewrite <- Hr, <- rev_app_distr, rev_involutive.
Qed.

Lemma plain_code_chars (code : string) :
  isPlainCourseCode code = true ->
  (exists x a, list_ascii_of_string code = x :: a /\ is_space x = false)
  /\ forallb (fun c => negb (Ascii.eqb c "010")) (list_ascii_of_string code) = true.
Proof.
  intros H. destruct (plain_code_parts code H) as (letters & digits & E & Hl & Hu & Hd & Hdig).
  rewrite E. split.
  - destruct letters as [| x letters]; [cbn in Hl; lia |].
    exists x, (letters ++ digits)%list. split; [reflexivity |].
    cbn [forallb] in Hu. apply andb_true_iff in Hu. apply (upper_is_plain x), (proj1 Hu).
  - rewrite forallb_app. apply andb_true_iff. split; apply forallb_forall; intros c Hc.
    + rewrite forallb_forall in Hu. specialize (Hu c Hc).
      destruct (Ascii.eqb_spec c "010") as [-> | _]; [discriminate Hu | reflexivity].
    + rewrite forallb_forall in Hdig. specialize (Hdig c Hc).
      destruct (Ascii.eqb_spec c "010") as [-> | _]; [discriminate Hdig | reflexivity].
Qed.

(** The line of a listed course: [trim] keeps it, it holds no line
    feed, and the extractor reads the course back. *)
Lemma line_of_listed (a : AvailableCourse.t) :
  listed a = true ->
  trim (line_of a) = line_of a
  /\ forallb (fun c => negb (Ascii.eqb c "010")) (list_ascii_of_string (line_of a)) = true
  /\ extractCourse coursePatterns (line_of a) = Ok (Some a).
Proof.
  destruct a as [code title]. unfold listed, line_of. cbn [AvailableCourse.code AvailableCourse.title].
  intros H. apply andb_true_iff in H. destruct H as [Hcode Htitle].
  destruct (plain_code_chars code Hcode) as [(x & a & Ex & Hx) Hnl].
  destruct (String.eqb_spec title code) as [-> | Hne].
  - split; [apply (plain_code_normalised code Hcode) | split; [exact Hnl |]].
    now apply extractCourse_code_only.
  - cbn [orb] in Htitle. pose proof Htitle as Ht. unfold isTitle in Ht.
    apply andb_true_iff in Ht. destruct Ht as [Ht Htrim].
    apply andb_true_iff in Ht. destruct Ht as [Hnon Hdot].
    apply String.eqb_eq in Htrim. split; [| split].
    + unfold trim. rewrite <- (string_of_list_ascii_of_string (code ++ " " ++ title)) at 2.
      f_equal. rewrite list_ascii_of_string_app, Ex.
      assert (E : ((x :: a) ++ list_ascii_of_string (" " ++ title))%list
                  = (x :: (a ++ [" "%char]) ++ list_ascii_of_string title)%list).
      { cbn. now rewrite <- app_assoc. }
      rewrite E. apply trim_chars_app; [exact Hx | |].
      * destruct title; [discriminate | discriminate].
      * apply (f_equal list_ascii_of_string) in Htrim. unfold trim in Htrim.
        now rewrite list_ascii_of_string_of_list in Htrim.
    + rewrite list_ascii_of_string_app, forallb_app, Hnl. cbn.
      apply forallb_forall. intros c Hc. rewrite forallb_forall in Hdot.
      specialize (Hdot c Hc).
      destruct (Ascii.eqb_spec c "010") as [-> | _]; [discriminate Hdot | reflexivity].
    + now apply (extractCourse_titled code " " title).
Qed.

Lemma forM_step_lines (l : list AvailableCourse.t) :
  Forall (fun a => listed a = true) l ->
  forall acc, forM step (map line_of l) acc = Ok (acc ++ l)%list.
Proof.
  induction 1 as [| a l Ha Hl IH]; intros acc; [cbn; now rewrite app_nil_r |].
  cbn [map forM]. unfold step at 1.
  destruct (line_of_listed a Ha) as (-> & _ & ->). cbn [bind].
  rewrite IH, <- app_assoc. reflexivity.
Qed.

Lemma split_listing (a : AvailableCourse.t) (l : list AvailableCourse.t) :
  Forall (fun a => listed a = true) (a :: l) ->
  split "010" (listing (a :: l)) = map line_of (a :: l).
Proof.
  revert a. induction l as [| b l IH]; intros a H; inversion H as [| ? ? Ha Hl]; subst.
  - destruct (line_of_listed a Ha) as (_ & Hnl & _).
    unfold split. cbn [listing map]. rewrite (split_chars_no_sep _ _ Hnl). cbn [map].
    now rewrite string_of_list_ascii_of_string.
  - destruct (line_of_listed a Ha) as (_ & Hnl & _).
    specialize (IH b Hl). unfold split in *.
    change (listing (a :: b :: l)) with (line_of a ++ LF ++ listing (b :: l))%string.
    rewrite list_ascii_of_string_app. unfold LF.
    change (list_ascii_of_string (String "010" "" ++ listing (b :: l)))
      with ("010"%char :: list_ascii_of_string (listing (b :: l))).
    rewrite (split_chars_line _ _ _ Hnl). cbn [map]. rewrite IH.
    now rewrite string_of_list_ascii_of_string.
Qed.

(** X14: reading a listing gives its courses back: for courses with a
    plain course code and a one-line title without white space around
    it, written one to a line as the code and the title (the code
    alone when the title repeats it), [parseAvailableCourses] returns
    exactly these courses, in order. *)
Theorem parseAvailableCourses_listing (l : list AvailableCourse.t) :
  Forall (fun a => listed a = true) l ->
  parseAvailableCourses (listing l) = Ok l.
Proof.
  intros H. unfold parseAvailableCourses. destruct l as [| a l]; [reflexivity |].
  rewrite (split_listing a l H). now rewrite (forM_step_lines (a :: l) H []).
Qed.

Lemma parseAvailableCourses_listing_witness :
  parseAvailableCourses
    (listing [AvailableCourse.Make "CS101" "Intro to CS";
              AvailableCourse.Make "MATH1011" "MATH1011"])
  = Ok [AvailableCourse.Make "CS101" "Intro to CS";
        AvailableCourse.Make "MATH1011" "MATH1011"].
Proof.
  apply parseAvailableCourses_listing.
  repeat constructor.
Defined.

End AvailableFacts.

(** *** The records of the curriculum extractor *)

Module CurriculumFacts.
Import JsStr JsNum JsNumFacts Regex RegexSpec RegexFacts ReachFacts Patterns.
Import Extractor Spec CurriculumSpec AvailableSpec GlobalReplaceFacts AvailableFacts.

Lemma letter_is_plain (c : ascii) :
  isLetter c = true -> is_space c = false /\ is_digit c = false.
Proof.
  destruct c as [b0 b1 b2 b3 b4 b5 b6 b7].
  destruct b0, b1, b2, b3, b4, b5, b6, b7; vm_compute; intros H;
    try discriminate H; repeat split.
Qed.

Lemma upper_is_letter (ci : bool) (c : ascii) : upper ci c = true -> isLetter c = true.
Proof.
  destruct ci; [trivial |].
  destruct c as [b0 b1 b2 b3 b4 b5 b6 b7].
  destruct b0, b1, b2, b3, b4, b5, b6, b7; vm_compute; intros H;
    try discriminate H; reflexivity.
Qed.

Lemma space_to_upper (c : ascii) : is_space (to_upper c) = is_space c.
Proof.
  destruct c as [b0 b1 b2 b3 b4 b5 b6 b7].
  destruct b0, b1, b2, b3, b4, b5, b6, b7; vm_compute; reflexivity.
Qed.

(** [trim] keeps a text without white space. *)
Lemma trim_chars_no_space (l : chars) : without_space l = l -> trim_chars l = l.
Proof.
  intros Hns.
  assert (Hdrop : forall l', without_space l' = l' -> drop_while is_space l' = l').
  { intros [| c l'] Hl; [reflexivity |]. cbn [drop_while].
    destruct (is_space c) eqn:Hc; [| reflexivity]. exfalso.
    unfold without_space in Hl. cbn [filter] in Hl. rewrite Hc in Hl. cbn [negb] in Hl.
    pose proof (filter_length_le (fun c => negb (is_space c)) l') as Hle.
    rewrite Hl in Hle. cbn in Hle. lia. }
  unfold trim_chars. rewrite (Hdrop _ Hns).
  rewrite Hdrop; [apply rev_involutive |].
  unfold without_space in *. now rewrite filter_rev, Hns.
Qed.

Lemma trim_no_space (v : chars) :
  without_space v = v -> trim (string_of_list_ascii v) = string_of_list_ascii v.
Proof.
  intros H. unfold trim. now rewrite list_ascii_of_string_of_list, trim_chars_no_space.
Qed.

Lemma reach_seq_cons (r : regex) (rs : list regex) (pos : nat) (inp : chars) (n : nat) :
  reach (seq (r :: rs)) pos inp n
  <-> exists n1 n2, n = n1 + n2 /\ reach r pos inp n1
                    /\ reach (seq rs) (pos + n1) (skipn n1 inp) n2.
Proof.
  destruct rs as [| r' rs]; [| reflexivity]. cbn [seq reach]. split.
  - intros H. exists n, 0. rewrite Nat.add_0_r. now repeat split.
  - intros (n1 & n2 & -> & H & ->). now rewrite Nat.add_0_r.
Qed.

Lemma reach_alt (rs : list regex) (pos : nat) (inp : chars) (n : nat) :
  rs <> [] -> reach (alt rs) pos inp n -> exists r, In r rs /\ reach r pos inp n.
Proof.
  induction rs as [| r rs IH]; [contradiction |]. intros _ H.
  destruct rs as [| r' rs].
  - exists r. split; [now left | exact H].
  - cbn [alt reach] in H. destruct H as [H | H].
    + exists r. split; [now left | exact H].
    + destruct (IH ltac:(discriminate) H) as (r0 & Hin & Hr).
      exists r0. split; [now right | exact Hr].
Qed.

(** A literal under the [i] flag matches its text in any letter case. *)
Lemma reach_lit_ci (l : chars) :
  forall pos inp n,
    reach (seq (map (fun c => Chr (eqb_ci c)) l)) pos inp n ->
    n = List.length l /\ map to_upper (firstn n inp) = map to_upper l.
Proof.
  induction l as [| c l IH]; intros pos inp n H.
  - cbn in H. subst n. split; reflexivity.
  - cbn [map] in H. apply reach_seq_cons in H.
    destruct H as (n1 & n2 & -> & (-> & x & rest & -> & Hx) & H2).
    cbn [skipn] in H2. apply IH in H2. destruct H2 as [-> H2].
    split; [reflexivity |]. cbn [Nat.add firstn map]. rewrite H2. f_equal.
    unfold eqb_ci in Hx. apply Ascii.eqb_eq in Hx. now symmetry.
Qed.

Lemma without_space_upper (v : chars) :
  without_space (map to_upper v) = map to_upper v -> without_space v = v.
Proof.
  induction v as [| c v IH]; [reflexivity |]. unfold without_space in *.
  cbn [map filter]. rewrite space_to_upper. destruct (is_space c); cbn [negb].
  - intros H. pose proof (filter_length_le (fun c => negb (is_space c)) (map to_upper v)) as Hle.
    rewrite H in Hle. cbn in Hle. lia.
  - intros H. injection H as H. now rewrite IH.
Qed.

(** What the category group holds is a category token in some letter
    case. *)
Lemma category_group (pos : nat) (inp : chars) (n : nat) :
  reach category_token pos inp n ->
  isCategory (trim (string_of_list_ascii (firstn n inp))) = true.
Proof.
  intros H. unfold category_token in H.
  apply reach_alt in H; [| discriminate]. destruct H as (r & Hin & Hr).
  apply in_map_iff in Hin. destruct Hin as (t & <- & Ht).
  apply reach_lit_ci in Hr. destruct Hr as [_ Hr].
  assert (Hcase : map to_upper (list_ascii_of_string t) = list_ascii_of_string t
                  /\ without_space (list_ascii_of_string t) = list_ascii_of_string t
                  /\ array_includes categoryTokens t = true).
  { cbn in Ht. repeat (destruct Ht as [<- | Ht]; [repeat split |]). contradiction. }
  destruct Hcase as (Hup & Hns & Hinc). rewrite Hup in Hr.
  rewrite trim_no_space by (apply without_space_upper; now rewrite Hr).
  unfold isCategory, upper_case.
  now rewrite list_ascii_of_string_of_list, Hr, string_of_list_ascii_of_string.
Qed.

(** What the code group holds is a letter code. *)
Lemma code_group (ci : bool) (pos : nat) (inp : chars) (n : nat) :
  reach (course_code ci) pos inp n ->
  isLetterCode (trim (string_of_list_ascii (firstn n inp))) = true.
Proof.
  intros (n1 & n2 & -> & (H1 & H1' & H1l & H1c) & (H2 & H2' & H2l & H2c)).
  cbn [within] in *. rewrite firstn_add.
  set (letters := firstn n1 inp) in *. set (digits := firstn n2 (skipn n1 inp)) in *.
  change (forallb is_digit digits = true) in H2c.
  assert (Hll : List.length letters = n1) by (unfold letters; rewrite length_firstn; lia).
  assert (Hdl : List.length digits = n2) by (unfold digits; rewrite length_firstn; lia).
  assert (Hu : forallb isLetter letters = true).
  { apply forallb_forall. intros c Hc. rewrite forallb_forall in H1c.
    apply (upper_is_letter ci), H1c, Hc. }
  rewrite trim_no_space.
  - unfold isLetterCode. rewrite list_ascii_of_string_of_list. cbn zeta.
    rewrite (take_while_app_stop isLetter letters digits Hu).
    + rewrite skipn_length_app, H2c, Hll, Hdl.
      repeat (apply andb_true_iff; split); try reflexivity; apply Nat.leb_le; lia.
    + intros c l E. rewrite E in H2c. cbn [forallb] in H2c.
      apply andb_true_iff in H2c. destruct H2c as [Hc _].
      destruct (isLetter c) eqn:Hlc; [| reflexivity].
      apply letter_is_plain in Hlc. destruct Hlc. congruence.
  - rewrite without_space_app.
    rewrite (without_space_keeps isLetter letters (fun c H => proj1 (letter_is_plain c H)) Hu).
    now rewrite (without_space_keeps is_digit digits
                   (fun c H => proj1 (digit_is_not_upper c H)) H2c).
Qed.

(** What a group of digits holds reads as a natural number, or as
    [+Infinity] when there are too many digits. *)
Lemma digits_group (pos : nat) (inp : chars) (n : nat) :
  reach (plus digit) pos inp n ->
  naturalOrInfinite (parseInt (Some (string_of_list_ascii (firstn n inp)))).
Proof.
  intros (Hmin & _ & Hlen & Hall).
  cbn [parseInt]. rewrite list_ascii_of_string_of_list.
  apply ExtractorFacts.parseInt_chars_natural; [| exact Hall].
  intros E. apply (f_equal (@List.length ascii)) in E. rewrite length_firstn in E.
  cbn in E. lia.
Qed.

(** A group that every match sets holds a text that its pattern
    matches. *)
Lemma group_reach (r : regex) (s : string) (m : match_result) (i : nat) (r1 : regex)
      (P : string -> Prop) :
  exec r s = Some m -> mustSet (S i) r = true ->
  (forall r', In (S i, r') (groupsOf r) -> r' = r1) ->
  (forall pos inp n, reach r1 pos inp n -> P (string_of_list_ascii (firstn n inp))) ->
  exists c, group s m (S i) = Some c /\ P c.
Proof.
  intros E Hset Hone HP.
  destruct (exec_mustSet r s m i Hset E) as [c Hc].
  destruct (exec_group_captured r s m i c E Hc)
    as (v & j & n & -> & _ & _ & (r' & d & Hin & _ & Hr & Hv)).
  apply Hone in Hin. subst r'. exists (string_of_list_ascii v).
  split; [exact Hc |]. rewrite <- Hv. now apply (HP _ _ _ Hr).
Qed.

Ltac only_group :=
  let r' := fresh "r" in
  let Hg := fresh "Hg" in
  intros r' Hg; cbn in Hg;
  repeat (destruct Hg as [Hg | Hg]; [try discriminate Hg |]); try contradiction;
  injection Hg as <-; reflexivity.

Lemma natural_zero : naturalOrInfinite (of_Z 0).
Proof. right. exists 0%Z. split; [lia | reflexivity]. Qed.

Lemma parse_prerequisites_clean (x : option string) :
  Forall (fun p => p <> ""%string /\ p <> "-"%string) (parse_prerequisites x).
Proof.
  unfold parse_prerequisites. destruct x as [s |]; [| constructor].
  destruct (String.eqb s ""); [constructor |].
  apply Forall_forall. intros p Hp. apply filter_In in Hp. destruct Hp as [_ Hp].
  apply andb_true_iff in Hp. destruct Hp as [H1 H2].
  apply negb_true_iff in H1, H2. apply String.eqb_neq in H1, H2. now split.
Qed.

Lemma build_full_wf (n : jsnum) (line : string) (m : match_result) :
  exec course_full line = Some m ->
  exists c, build_full n line m = Ok c /\ wellFormed c.
Proof.
  intros E. unfold build_full. cbn zeta.
  destruct (group_reach course_full line m 0 (course_code true)
              (fun c => isLetterCode (trim c) = true) E eq_refl ltac:(only_group)
              (code_group true)) as (g1 & -> & H1).
  destruct (exec_mustSet course_full line m 1 eq_refl E) as [g2 ->].
  destruct (group_reach course_full line m 2 category_token
              (fun c => isCategory (trim c) = true) E eq_refl ltac:(only_group)
              category_group) as (g3 & -> & H3).
  destruct (group_reach course_full line m 3 (plus digit)
              (fun c => naturalOrInfinite (parseInt (Some c))) E eq_refl ltac:(only_group)
              digits_group) as (g4 & -> & H4).
  destruct (group_reach course_full line m 4 (plus digit)
              (fun c => naturalOrInfinite (parseInt (Some c))) E eq_refl ltac:(only_group)
              digits_group) as (g5 & -> & H5).
  destruct (group_reach course_full line m 5 (plus digit)
              (fun c => naturalOrInfinite (parseInt (Some c))) E eq_refl ltac:(only_group)
              digits_group) as (g6 & -> & H6).
  destruct (group_reach course_full line m 6 (plus digit)
              (fun c => naturalOrInfinite (parseInt (Some c))) E eq_refl ltac:(only_group)
              digits_group) as (g7 & -> & H7).
  destruct (group_reach course_full line m 8 (plus digit)
              (fun c => naturalOrInfinite (parseInt (Some c))) E eq_refl ltac:(only_group)
              digits_group) as (g9 & -> & H9).
  cbn [trim_group bind]. eexists. split; [reflexivity |].
  constructor; cbn; try assumption.
  eexists. split; [reflexivity | apply parse_prerequisites_clean].
Qed.

Lemma build_reduced_wf (n : jsnum) (line : string) (m : match_result) :
  exec course_reduced line = Some m ->
  exists c, build_reduced n line m = Ok c /\ wellFormed c.
Proof.
  intros E. unfold build_reduced. cbn zeta.
  destruct (group_reach course_reduced line m 0 (course_code true)
              (fun c => isLetterCode (trim c) = true) E eq_refl ltac:(only_group)
              (code_group true)) as (g1 & -> & H1).
  destruct (exec_mustSet course_reduced line m 1 eq_refl E) as [g2 ->].
  destruct (group_reach course_reduced line m 2 (plus digit)
              (fun c => naturalOrInfinite (parseInt (Some c))) E eq_refl ltac:(only_group)
              digits_group) as (g3 & -> & H3).
  destruct (group_reach course_reduced line m 3 (plus digit)
              (fun c => naturalOrInfinite (parseInt (Some c))) E eq_refl ltac:(only_group)
              digits_group) as (g4 & -> & H4).
  destruct (group_reach course_reduced line m 4 category_token
              (fun c => isCategory (trim c) = true) E eq_refl ltac:(only_group)
              category_group) as (g5 & -> & H5).
  cbn [trim_group bind]. eexists. split; [reflexivity |].
  constructor; cbn; try assumption; try apply natural_zero.
  eexists. split; [reflexivity | constructor].
Qed.

Lemma build_minimal_wf (n : jsnum) (line : string) (m : match_result) :
  exec course_minimal line = Some m ->
  exists c, build_minimal n line m = Ok c /\ wellFormed c.
Proof.
  intros E. unfold build_minimal. cbn zeta.
  destruct (group_reach course_minimal line m 0 (course_code false)
              (fun c => isLetterCode (trim c) = true) E eq_refl ltac:(only_group)
              (code_group false)) as (g1 & -> & H1).
  destruct (exec_mustSet course_minimal line m 1 eq_refl E) as [g2 ->].
  destruct (group_reach course_minimal line m 2 (plus digit)
              (fun c => naturalOrInfinite (parseInt (Some c))) E eq_refl ltac:(only_group)
              digits_group) as (g3 & -> & H3).
  cbn [trim_group bind]. eexists. split; [reflexivity |].
  constructor; cbn; try assumption; try apply natural_zero; try reflexivity.
  eexists. split; [reflexivity | constructor].
Qed.

Lemma extractCourse_wf (line : string) (cur : option jsnum) :
  exists o, extractCourse coursePatterns line cur = Ok o
            /\ forall c, o = Some c -> wellFormed c.
Proof.
  assert (Hnone : exists o : option CurriculumCourse.t,
             Ok None = Ok o /\ forall c, o = Some c -> wellFormed c).
  { exists None. split; [reflexivity | discriminate]. }
  unfold coursePatterns. cbn [extractCourse].
  destruct cur as [n |];
    [| destruct (exec course_full line), (exec course_reduced line),
         (exec course_minimal line); exact Hnone].
  destruct (truthy n);
    [| destruct (exec course_full line), (exec course_reduced line),
         (exec course_minimal line); exact Hnone].
  destruct (exec course_full line) as [m |] eqn:E0.
  { destruct (build_full_wf n line m E0) as (c & -> & Hc).
    exists (Some c). split; [reflexivity |]. now intros ? [= <-]. }
  destruct (exec course_reduced line) as [m |] eqn:E1.
  { destruct (build_reduced_wf n line m E1) as (c & -> & Hc).
    exists (Some c). split; [reflexivity |]. now intros ? [= <-]. }
  destruct (exec course_minimal line) as [m |] eqn:E2.
  { destruct (build_minimal_wf n line m E2) as (c & -> & Hc).
    exists (Some c). split; [reflexivity |]. now intros ? [= <-]. }
  exact Hnone.
Qed.

Lemma forM_step_wf (lines : list string) :
  forall st,
    Forall wellFormed (emitted st) ->
    exists st', forM step lines st = Ok st'
                /\ List.length (emitted st') <= List.length (emitted st) + List.length lines
                /\ Forall wellFormed (emitted st').
Proof.
  induction lines as [| line lines IH]; intros st Hst.
  - exists st. cbn. repeat split; [lia | exact Hst].
  - cbn [forM]. unfold step at 1. cbn zeta.
    destruct (extractCourse_wf (trim line)
                (detectSemester semesterPatterns (trim line) (currentSemester st)))
      as (o & -> & Ho). cbn [bind].
    match goal with
    | |- exists st', forM step lines ?s = _ /\ _ => destruct (IH s) as (st' & -> & Hlen & Hwf)
    end.
    + cbn [emitted]. destruct o as [c |]; [| exact Hst].
      apply Forall_app. split; [exact Hst |]. constructor; [now apply Ho | constructor].
    + exists st'. split; [reflexivity |]. split; [| exact Hwf].
      cbn [emitted List.length] in *. destruct o; [rewrite length_app in Hlen; cbn in Hlen |]; lia.
Qed.

Lemma parseCurriculum_records_aux (content : string) :
  exists l, parseCurriculum content = Ok l /\ Forall wellFormed l.
Proof.
  unfold parseCurriculum.
  destruct (forM_step_wf (split "010" content) initial (Forall_nil _))
    as (st & -> & _ & Hwf).
  exists (emitted st). cbn [bind]. split; [reflexivity | exact Hwf].
Qed.


(** The infinite case is met: lecture hours of 310 digits are stored
    as [Infinity]. *)
Lemma overlong_hours_infinite :
  exists c,
    parseCurriculum Scenario.overlongHoursText = Ok [c]
    /\ CurriculumCourse.lecture c = Inf false
    /\ CurriculumCourse.semester c = of_Z 1.
Proof.
  eexists. split; [vm_compute; reflexivity |]. split; reflexivity.
Qed.

(** X16: the recommendation engine does not throw on a curriculum that
    [parseCurriculum] gave, whatever the transcript and the available
    courses are. *)
Theorem parsed_curriculum_recommends (content : string) (this : Advisor) :
  parseCurriculum content = Ok (curriculum this) ->
  exists r, Engine.getRecommendedCourses this = Ok r.
Proof.
  intros H. apply RecommendationFacts.getRecommendedCourses_ok.
  destruct (parseCurriculum_records_aux content) as (l & Hl & Hwf).
  rewrite H in Hl. injection Hl as <-.
  intros c Hc. rewrite Forall_forall in Hwf.
  destruct (wf_prerequisites (Hwf c Hc)) as (ps & -> & _). discriminate.
Qed.

Lemma parsed_curriculum_recommends_witness :
  exists r,
    Engine.getRecommendedCourses
      {| curriculum := match parseCurriculum Scenario.curriculumText with
                       | Ok l => l
                       | Throw _ => []
                       end;
         completedCourses := completedCourses Scenario.student;
         availableCourses := availableCourses Scenario.student;
         studentInfo := studentInfo Scenario.student |} = Ok r.
Proof.
  apply (parsed_curriculum_recommends Scenario.curriculumText).
  vm_compute. reflexivity.
Defined.

End CurriculumFacts.

(** *** Patterns with look-ahead *)

Module LookaheadFacts.
Import JsStr Regex RegexSpec Lookahead RegexFacts ReachFacts.

Lemma xsearch_plain (r : regex) (inp : chars) :
  forall pos, xsearch_from (Plain r) pos inp = search_from r pos inp.
Proof.
  induction inp as [| c inp IH]; intros pos; cbn [xsearch_from search_from xrun];
    [reflexivity | now rewrite IH].
Qed.

Lemma xexec_plain (r : regex) (s : string) : xexec (Plain r) s = exec r s.
Proof. apply xsearch_plain. Qed.

Lemma xrun_sound {R} (x : xregex) :
  forall (pos : nat) (inp : chars) (caps : captures)
         (k : nat -> chars -> captures -> option R) (res : R),
    xrun x pos inp caps k = Some res ->
    exists n caps', xreach x pos inp n /\ k (pos + n) (skipn n inp) caps' = Some res.
Proof.
  induction x as [r | x1 IH1 x2 IH2 | r]; intros pos inp caps k res H; cbn [xrun] in H.
  - apply run_sound in H. destruct H as (n & caps' & Hr & Hk & _). now exists n, caps'.
  - apply IH1 in H. destruct H as (n1 & caps1 & H1 & H).
    apply IH2 in H. destruct H as (n2 & caps2 & H2 & H).
    exists (n1 + n2), caps2. cbn [xreach].
    rewrite skipn_skipn, (Nat.add_comm n2 n1), <- Nat.add_assoc in H.
    split; [now exists n1, n2 | exact H].
  - destruct (run r pos inp caps _) as [caps' |] eqn:E; [| discriminate].
    apply run_sound in E. destruct E as (m & caps'' & Hr & _ & _).
    exists 0, caps'. rewrite Nat.add_0_r. cbn [xreach skipn].
    split; [split; [reflexivity | now exists m] | exact H].
Qed.

Lemma xrun_complete {R} (x : xregex) :
  forall (pos : nat) (inp : chars) (n : nat) (caps : captures)
         (k : nat -> chars -> captures -> option R),
    xreach x pos inp n ->
    (forall caps', k (pos + n) (skipn n inp) caps' <> None) ->
    xrun x pos inp caps k <> None.
Proof.
  induction x as [r | x1 IH1 x2 IH2 | r]; intros pos inp n caps k H Hk;
    cbn [xreach] in H; cbn [xrun].
  - now apply (run_complete r pos inp n).
  - destruct H as (n1 & n2 & -> & H1 & H2).
    apply (IH1 pos inp n1); [exact H1 |]. intros caps1.
    apply (IH2 _ _ n2); [exact H2 |]. intros caps2.
    rewrite skipn_skipn, (Nat.add_comm n2 n1), <- Nat.add_assoc. apply Hk.
  - destruct H as [-> [m Hr]].
    destruct (run r pos inp caps (fun _ _ caps' => Some caps')) as [caps' |] eqn:E.
    + rewrite Nat.add_0_r in Hk. apply Hk.
    + exfalso. revert E. apply (run_complete r pos inp m); [exact Hr | discriminate].
Qed.

Lemma xrun_mustSet {R} (x : xregex) :
  forall (pos : nat) (inp : chars) (caps : captures)
         (k : nat -> chars -> captures -> option R) (res : R),
    xrun x pos inp caps k = Some res ->
    exists pos' inp' caps',
      k pos' inp' caps' = Some res
      /\ forall i, xmustSet i x = true \/ get_capture i caps <> None ->
                   get_capture i caps' <> None.
Proof.
  induction x as [r | x1 IH1 x2 IH2 | r]; intros pos inp caps k res H; cbn [xrun] in H.
  - now apply run_mustSet in H.
  - apply IH1 in H. destruct H as (pos1 & inp1 & caps1 & H & Hset1).
    apply IH2 in H. destruct H as (pos2 & inp2 & caps2 & H & Hset2).
    exists pos2, inp2, caps2. split; [exact H |].
    intros i Hi. apply Hset2. cbn [xmustSet] in Hi. rewrite orb_true_iff in Hi.
    destruct Hi as [[Hi | Hi] | Hi]; [right; apply Hset1; now left | now left |
                                       right; apply Hset1; now right].
  - destruct (run r pos inp caps _) as [caps' |] eqn:E; [| discriminate].
    apply run_mustSet in E. destruct E as (pos1 & inp1 & caps1 & E & Hset).
    injection E as ->. exists pos, inp, caps'. split; [exact H | exact Hset].
Qed.

Lemma xsearch_from_sound (x : xregex) (inp : chars) :
  forall (pos : nat) (m : match_result),
    xsearch_from x pos inp = Some m ->
    exists j n,
      j <= List.length inp
      /\ m_start m = pos + j /\ m_end m = pos + j + n
      /\ xreach x (pos + j) (skipn j inp) n
      /\ (forall i, xmustSet i x = true -> get_capture i (m_caps m) <> None)
      /\ forall i n', i < j -> ~ xreach x (pos + i) (skipn i inp) n'.
Proof.
  assert (Hhere : forall pos inp m,
             xrun x pos inp [] (fun pos' _ caps => Some (MkMatch pos pos' caps)) = Some m ->
             exists n, m_start m = pos /\ m_end m = pos + n /\ xreach x pos inp n
                       /\ forall i, xmustSet i x = true -> get_capture i (m_caps m) <> None).
  { intros pos inp0 m E. pose proof E as E'.
    apply xrun_sound in E. destruct E as (n & caps' & Hr & Hk).
    apply xrun_mustSet in E'. destruct E' as (pos1 & inp1 & caps1 & Hk1 & Hset).
    injection Hk as <-. injection Hk1 as _ <-. exists n. cbn [m_start m_end m_caps].
    repeat split; try assumption.
    intros i Hi. apply Hset. now left. }
  induction inp as [| c inp IH]; intros pos m H; cbn [xsearch_from] in H;
    unfold or_else in H.
  - destruct (xrun x pos [] [] _) eqn:E; [| discriminate].
    rewrite H in E. destruct (Hhere _ _ _ E) as (n & Hs & He & Hr & Hset).
    exists 0, n. rewrite Nat.add_0_r. cbn.
    repeat split; try assumption; try lia.
  - destruct (xrun x pos (c :: inp) [] _) eqn:E.
    + rewrite H in E. destruct (Hhere _ _ _ E) as (n & Hs & He & Hr & Hset).
      exists 0, n. rewrite Nat.add_0_r. cbn [skipn].
      repeat split; try assumption; try lia.
    + apply IH in H. destruct H as (j & n & Hj & Hs & He & Hr & Hset & Hleft).
      exists (S j), n. cbn [skipn List.length]. rewrite Nat.add_succ_r.
      repeat split; try assumption; try lia.
      intros i n' Hi Hreach. destruct i as [| i].
      * rewrite Nat.add_0_r in Hreach. cbn [skipn] in Hreach.
        apply (xrun_complete x pos (c :: inp) n' []
                 (fun pos' _ caps => Some (MkMatch pos pos' caps))) in Hreach.
        -- contradiction.
        -- discriminate.
      * cbn [skipn] in Hreach. rewrite Nat.add_succ_r in Hreach.
        apply (Hleft i n'); [lia | exact Hreach].
Qed.

Lemma xsearch_from_complete (x : xregex) (inp : chars) :
  forall (pos j n : nat),
    j <= List.length inp ->
    xreach x (pos + j) (skipn j inp) n ->
    xsearch_from x pos inp <> None.
Proof.
  induction inp as [| c inp IH]; intros pos j n Hj H; cbn [xsearch_from];
    apply or_else_some.
  - left. cbn in Hj. assert (j = 0) by lia. subst j.
    rewrite Nat.add_0_r in H. cbn in H.
    apply (xrun_complete x pos [] n); [exact H | discriminate].
  - destruct j as [| j].
    + left. rewrite Nat.add_0_r in H. cbn in H.
      apply (xrun_complete x pos (c :: inp) n); [exact H | discriminate].
    + right. apply (IH (S pos) j n).
      * cbn in Hj. lia.
      * cbn [skipn] in H. now rewrite Nat.add_succ_r in H.
Qed.

(** A pattern finds a match in every text in which a pattern that it
    covers finds one. *)
Lemma xexec_covered (p q : xregex) (s : string) :
  (forall pos inp n, xreach p pos inp n -> exists n', xreach q pos inp n') ->
  xexec p s <> None -> xexec q s <> None.
Proof.
  intros Hcov H. unfold xexec in *.
  destruct (xsearch_from p 0 (list_ascii_of_string s)) as [m |] eqn:E; [| contradiction].
  apply xsearch_from_sound in E. destruct E as (j & n & Hj & _ & _ & Hr & _).
  destruct (Hcov _ _ _ Hr) as [n' Hq].
  now apply (xsearch_from_complete q _ 0 j n').
Qed.

Lemma xexec_mustSet (x : xregex) (s : string) (m : match_result) (i : nat) :
  xmustSet (S i) x = true -> xexec x s = Some m ->
  exists v, group s m (S i) = Some v.
Proof.
  intros Hi H. apply xsearch_from_sound in H.
  destruct H as (j & n & _ & _ & _ & _ & Hset & _).
  cbn [group]. specialize (Hset (S i) Hi).
  destruct (get_capture (S i) (m_caps m)) as [v |]; [| contradiction].
  now eexists.
Qed.

End LookaheadFacts.

(** *** The transcript extractor *)

Module TranscriptFacts.
Import JsStr JsNum JsNumFacts Regex RegexSpec Lookahead RegexFacts ReachFacts Patterns.
Import LookaheadFacts Transcript TranscriptSpec SpecMore.
Import GlobalReplaceFacts AvailableFacts CurriculumFacts.

Lemma pow10_pos (e : Z) : (0 < pow10 e)%Q.
Proof.
  assert (Hpos : forall z, (0 <= z)%Z -> (0 < inject_Z (10 ^ z))%Q).
  { intros z Hz. unfold Qlt. cbn. rewrite Z.mul_1_r. apply Z.pow_pos_nonneg; lia. }
  unfold pow10. destruct (Z.leb_spec 0 e) as [He | He].
  - now apply Hpos.
  - unfold Qdiv. rewrite Qmult_1_l. apply Qinv_lt_0_compat, Hpos. lia.
Qed.

Lemma digit_not_I (c : ascii) : is_digit c = true -> Ascii.eqb "I" c = false.
Proof.
  destruct c as [b0 b1 b2 b3 b4 b5 b6 b7].
  destruct b0, b1, b2, b3, b4, b5, b6, b7; vm_compute; intros H;
    try discriminate H; reflexivity.
Qed.

Lemma digit_not_comma (c : ascii) : is_digit c = true -> Ascii.eqb c "," = false.
Proof.
  destruct c as [b0 b1 b2 b3 b4 b5 b6 b7].
  destruct b0, b1, b2, b3, b4, b5, b6, b7; vm_compute; intros H;
    try discriminate H; reflexivity.
Qed.

(** [parseFloat] of a text that begins with a digit is a number that is
    not negative, or [+Infinity]. *)
Lemma parseFloat_digit_head (c : ascii) (l : chars) :
  is_digit c = true -> nonnegativeOrInfinite (parseFloat_chars (c :: l)).
Proof.
  intros Hc. destruct (ExtractorFacts.digit_is_plain c Hc) as (Hs & Hm & Hp & _).
  unfold parseFloat_chars. cbn [drop_while]. rewrite Hs. cbn [read_sign].
  rewrite Hm, Hp. cbn [list_ascii_of_string starts_with]. rewrite (digit_not_I c Hc).
  cbn [andb take_while]. rewrite Hc. cbn zeta.
  destruct (match skipn (List.length (c :: take_while is_digit l)) (c :: l) with
            | [] => _
            | d :: l1' => _
            end) as [frac l2].
  cbn [List.app]. apply Binary64Facts.round64_nonneg.
  apply Qmult_le_0_compat.
  - apply Qle_shift_div_l; [apply pow10_pos |]. rewrite Qmult_0_l.
    pose proof (ExtractorFacts.digits_value_nonneg
                  (c :: take_while is_digit l ++ frac)) as Hnn.
    unfold Qle. cbn [Qnum Qden inject_Z]. lia.
  - apply Qlt_le_weak, pow10_pos.
Qed.

Lemma nonnegative_of_Z (z : Z) : (0 <= z)%Z -> nonnegativeOrInfinite (of_Z z).
Proof.
  intros Hz. right. exists (inject_Z z). split; [reflexivity |].
  unfold Qle. cbn. lia.
Qed.

Lemma nonnegative_or_number (a d : jsnum) :
  nonnegativeOrInfinite a -> nonnegativeOrInfinite d -> nonnegativeOrInfinite (or_number a d).
Proof. intros Ha Hd. unfold or_number. now destruct (truthy a). Qed.

(** A text that a pattern beginning with [\d+] matches begins with a
    digit. *)
Lemma reach_digit_head (rest : list regex) (pos : nat) (inp : chars) (n : nat) :
  reach (seq (plus digit :: rest)) pos inp n ->
  exists c l, firstn n inp = c :: l /\ is_digit c = true.
Proof.
  intros H. apply reach_seq_cons in H.
  destruct H as (n1 & n2 & -> & (Hmin & _ & Hlen & Hall) & _).
  destruct inp as [| c inp]; [cbn in Hlen; lia |].
  destruct n1 as [| n1]; [lia |]. cbn [Nat.add firstn forallb] in *.
  apply andb_true_iff in Hall. destruct Hall as [Hc _].
  now exists c, (firstn (n1 + n2) inp).
Qed.

(** The numbers read from groups that begin with [\d+]. *)
Lemma number_group (rest : list regex) (pos : nat) (inp : chars) (n : nat) :
  reach (seq (plus digit :: rest)) pos inp n ->
  nonnegativeOrInfinite (parseFloat (Some (string_of_list_ascii (firstn n inp)))).
Proof.
  intros H. destruct (reach_digit_head rest pos inp n H) as (c & l & -> & Hc).
  cbn [parseFloat]. rewrite list_ascii_of_string_of_list.
  now apply parseFloat_digit_head.
Qed.

Lemma comma_group (rest : list regex) (pos : nat) (inp : chars) (n : nat) :
  reach (seq (plus digit :: rest)) pos inp n ->
  nonnegativeOrInfinite (parseFloat (Some (replace_comma (string_of_list_ascii (firstn n inp))))).
Proof.
  intros H. destruct (reach_digit_head rest pos inp n H) as (c & l & -> & Hc).
  cbn [parseFloat]. unfold replace_comma. rewrite !list_ascii_of_string_of_list.
  cbn [replace_first]. rewrite (digit_not_comma c Hc).
  now apply parseFloat_digit_head.
Qed.

Lemma isPassingGrade_P : Engine.isPassingGrade "P" = true.
Proof. reflexivity. Qed.

Ltac record_done :=
  cbn [graded untitled assumed_passed comma_credits trimmed defined bind];
  eexists; split;
  [ reflexivity
  | constructor;
    cbn [CompletedCourse.code CompletedCourse.passed CompletedCourse.grade
         CompletedCourse.credits CompletedCourse.ects CompletedCourse.gradePoints
         CompletedCourse.semester];
    first [ reflexivity
          | assumption
          | apply nonnegative_of_Z; lia
          | apply nonnegative_or_number; [assumption | apply nonnegative_of_Z; lia] ] ].

(** The record of each branch: it is built without an exception, its
    [passed] is what [isPassingGrade] says of its grade, and its numbers
    are not negative, or [+Infinity]. *)
Lemma record_1 (line : string) (m : match_result) :
  exec pattern_1 line = Some m ->
  exists c, courseData 0 line m = Ok c /\ soundEntry (CompletedCourse.code c) c.
Proof.
  intros E. unfold courseData. cbv zeta.
  destruct (exec_mustSet pattern_1 line m 0 eq_refl E) as [g1 ->].
  destruct (exec_mustSet pattern_1 line m 1 eq_refl E) as [g2 ->].
  destruct (exec_mustSet pattern_1 line m 3 eq_refl E) as [g4 ->].
  destruct (group_reach pattern_1 line m 4 decimal
              (fun c => nonnegativeOrInfinite (parseFloat (Some c))) E eq_refl ltac:(only_group)
              (number_group [Chr (one_of "."); plus digit])) as (g5 & -> & H5).
  destruct (group_reach pattern_1 line m 2 decimal
              (fun c => nonnegativeOrInfinite (parseFloat (Some c))) E eq_refl ltac:(only_group)
              (number_group [Chr (one_of "."); plus digit])) as (g3 & -> & H3).
  destruct (group_reach pattern_1 line m 5 decimal
              (fun c => nonnegativeOrInfinite (parseFloat (Some c))) E eq_refl ltac:(only_group)
              (number_group [Chr (one_of "."); plus digit])) as (g6 & -> & H6).
  record_done.
Qed.

Lemma record_2 (line : string) (m : match_result) :
  exec pattern_2 line = Some m ->
  exists c, courseData 1 line m = Ok c /\ soundEntry (CompletedCourse.code c) c.
Proof.
  intros E. unfold courseData. cbv zeta.
  destruct (exec_mustSet pattern_2 line m 0 eq_refl E) as [g1 ->].
  destruct (exec_mustSet pattern_2 line m 1 eq_refl E) as [g2 ->].
  destruct (exec_mustSet pattern_2 line m 2 eq_refl E) as [g3 ->].
  destruct (group_reach pattern_2 line m 3 (plus digit)
              (fun c => nonnegativeOrInfinite (parseFloat (Some c))) E eq_refl ltac:(only_group)
              (number_group [])) as (g4 & -> & H4).
  destruct (group_reach pattern_2 line m 4 (plus digit)
              (fun c => nonnegativeOrInfinite (parseFloat (Some c))) E eq_refl ltac:(only_group)
              (number_group [])) as (g5 & -> & H5).
  record_done.
Qed.

Lemma record_3 (line : string) (m : match_result) :
  exec pattern_3 line = Some m ->
  exists c, courseData 2 line m = Ok c /\ soundEntry (CompletedCourse.code c) c.
Proof.
  intros E. unfold courseData. cbv zeta.
  destruct (exec_mustSet pattern_3 line m 0 eq_refl E) as [g1 ->].
  destruct (exec_mustSet pattern_3 line m 1 eq_refl E) as [g2 ->].
  destruct (exec_mustSet pattern_3 line m 2 eq_refl E) as [g3 ->].
  destruct (group_reach pattern_3 line m 3 (plus digit)
              (fun c => nonnegativeOrInfinite (parseFloat (Some c))) E eq_refl ltac:(only_group)
              (number_group [])) as (g4 & -> & H4).
  record_done.
Qed.

Lemma record_4 (line : string) (m : match_result) :
  exec pattern_4 line = Some m ->
  exists c, courseData 3 line m = Ok c /\ soundEntry (CompletedCourse.code c) c.
Proof.
  intros E. unfold courseData. cbv zeta.
  destruct (exec_mustSet pattern_4 line m 0 eq_refl E) as [g1 ->].
  destruct (group_reach pattern_4 line m 1 decimal
              (fun c => nonnegativeOrInfinite (parseFloat (Some c))) E eq_refl ltac:(only_group)
              (number_group [Chr (one_of "."); plus digit])) as (g2 & -> & H2).
  destruct (group_reach pattern_4 line m 2 decimal
              (fun c => nonnegativeOrInfinite (parseFloat (Some c))) E eq_refl ltac:(only_group)
              (number_group [Chr (one_of "."); plus digit])) as (g3 & -> & H3).
  destruct (group_reach pattern_4 line m 3 comma_decimal
              (fun c => nonnegativeOrInfinite (parseFloat (Some (replace_comma c)))) E eq_refl
              ltac:(only_group) (comma_group [Chr (one_of ","); plus digit])) as (g4 & -> & H4).
  record_done.
Qed.

Lemma record_5 (line : string) (m : match_result) :
  exec pattern_5 line = Some m ->
  exists c, courseData 4 line m = Ok c /\ soundEntry (CompletedCourse.code c) c.
Proof.
  intros E. unfold courseData. cbv zeta.
  destruct (exec_mustSet pattern_5 line m 0 eq_refl E) as [g1 ->].
  destruct (exec_mustSet pattern_5 line m 1 eq_refl E) as [g2 ->].
  destruct (exec_mustSet pattern_5 line m 2 eq_refl E) as [g3 ->].
  destruct (group_reach pattern_5 line m 3 decimal
              (fun c => nonnegativeOrInfinite (parseFloat (Some c))) E eq_refl ltac:(only_group)
              (number_group [Chr (one_of "."); plus digit])) as (g4 & -> & H4).
  record_done.
Qed.

Lemma record_6 (line : string) (m : match_result) :
  xexec pattern_6 line = Some m ->
  exists c, courseData 5 line m = Ok c /\ soundEntry (CompletedCourse.code c) c.
Proof.
  intros E. unfold courseData. cbv zeta.
  destruct (xexec_mustSet pattern_6 line m 0 eq_refl E) as [g1 ->].
  destruct (xexec_mustSet pattern_6 line m 1 eq_refl E) as [g2 ->].
  record_done.
Qed.

Lemma record_7 (line : string) (m : match_result) :
  exec pattern_7 line = Some m ->
  exists c, courseData 6 line m = Ok c /\ soundEntry (CompletedCourse.code c) c.
Proof.
  intros E. unfold courseData. cbv zeta.
  destruct (exec_mustSet pattern_7 line m 0 eq_refl E) as [g1 ->].
  destruct (group_reach pattern_7 line m 1 decimal
              (fun c => nonnegativeOrInfinite (parseFloat (Some c))) E eq_refl ltac:(only_group)
              (number_group [Chr (one_of "."); plus digit])) as (g2 & -> & H2).
  destruct (group_reach pattern_7 line m 2 decimal
              (fun c => nonnegativeOrInfinite (parseFloat (Some c))) E eq_refl ltac:(only_group)
              (number_group [Chr (one_of "."); plus digit])) as (g3 & -> & H3).
  destruct (group_reach pattern_7 line m 3 comma_decimal
              (fun c => nonnegativeOrInfinite (parseFloat (Some (replace_comma c)))) E eq_refl
              ltac:(only_group) (comma_group [Chr (one_of ","); plus digit])) as (g4 & -> & H4).
  record_done.
Qed.

Lemma record_8 (line : string) (m : match_result) :
  exec pattern_8 line = Some m ->
  exists c, courseData 7 line m = Ok c /\ soundEntry (CompletedCourse.code c) c.
Proof.
  intros E. unfold courseData. cbv zeta.
  destruct (exec_mustSet pattern_8 line m 0 eq_refl E) as [g1 ->].
  destruct (exec_mustSet pattern_8 line m 1 eq_refl E) as [g2 ->].
  destruct (exec_mustSet pattern_8 line m 2 eq_refl E) as [g3 ->].
  record_done.
Qed.

Lemma record_9 (line : string) (m : match_result) :
  exec pattern_9 line = Some m ->
  exists c, courseData 8 line m = Ok c /\ soundEntry (CompletedCourse.code c) c.
Proof.
  intros E. unfold courseData. cbv zeta.
  destruct (exec_mustSet pattern_9 line m 0 eq_refl E) as [g1 ->].
  destruct (exec_mustSet pattern_9 line m 1 eq_refl E) as [g2 ->].
  record_done.
Qed.

Lemma record_10 (line : string) (m : match_result) :
  exec pattern_10 line = Some m ->
  exists c, courseData 9 line m = Ok c /\ soundEntry (CompletedCourse.code c) c.
Proof.
  intros E. unfold courseData. cbv zeta.
  destruct (exec_mustSet pattern_10 line m 0 eq_refl E) as [g1 ->].
  destruct (exec_mustSet pattern_10 line m 1 eq_refl E) as [g2 ->].
  destruct (exec_mustSet pattern_10 line m 2 eq_refl E) as [g3 ->].
  destruct (group_reach pattern_10 line m 3 (plus digit)
              (fun c => nonnegativeOrInfinite (parseFloat (Some c))) E eq_refl ltac:(only_group)
              (number_group [])) as (g4 & -> & H4).
  record_done.
Qed.

Lemma record_11 (line : string) (m : match_result) :
  exec pattern_11 line = Some m ->
  exists c, courseData 10 line m = Ok c /\ soundEntry (CompletedCourse.code c) c.
Proof.
  intros E. unfold courseData. cbv zeta.
  destruct (exec_mustSet pattern_11 line m 0 eq_refl E) as [g1 ->].
  destruct (group_reach pattern_11 line m 3 number
              (fun c => nonnegativeOrInfinite (parseFloat (Some c))) E eq_refl ltac:(only_group)
              (number_group [opt (one_of "."); star digit])) as (g4 & -> & H4).
  destruct (group_reach pattern_11 line m 1 number
              (fun c => nonnegativeOrInfinite (parseFloat (Some c))) E eq_refl ltac:(only_group)
              (number_group [opt (one_of "."); star digit])) as (g2 & -> & H2).
  destruct (group_reach pattern_11 line m 2 number
              (fun c => nonnegativeOrInfinite (parseFloat (Some c))) E eq_refl ltac:(only_group)
              (number_group [opt (one_of "."); star digit])) as (g3 & -> & H3).
  record_done.
Qed.

Lemma record_12 (line : string) (m : match_result) :
  exec pattern_12 line = Some m ->
  exists c, courseData 11 line m = Ok c /\ soundEntry (CompletedCourse.code c) c.
Proof.
  intros E. unfold courseData. cbv zeta.
  destruct (exec_mustSet pattern_12 line m 0 eq_refl E) as [g1 ->].
  destruct (exec_mustSet pattern_12 line m 1 eq_refl E) as [g2 ->].
  destruct (exec_mustSet pattern_12 line m 2 eq_refl E) as [g3 ->].
  destruct (group_reach pattern_12 line m 3 number
              (fun c => nonnegativeOrInfinite (parseFloat (Some c))) E eq_refl ltac:(only_group)
              (number_group [opt (one_of "."); star digit])) as (g4 & -> & H4).
  record_done.
Qed.

Lemma record_13 (line : string) (m : match_result) :
  exec pattern_13 line = Some m ->
  exists c, courseData 12 line m = Ok c /\ soundEntry (CompletedCourse.code c) c.
Proof.
  intros E. unfold courseData. cbv zeta.
  destruct (exec_mustSet pattern_13 line m 0 eq_refl E) as [g1 ->].
  destruct (group_reach pattern_13 line m 1 number
              (fun c => nonnegativeOrInfinite (parseFloat (Some c))) E eq_refl ltac:(only_group)
              (number_group [opt (one_of "."); star digit])) as (g2 & -> & H2).
  record_done.
Qed.

Lemma record_14 (line : string) (m : match_result) :
  xexec pattern_14 line = Some m ->
  exists c, courseData 13 line m = Ok c /\ soundEntry (CompletedCourse.code c) c.
Proof.
  intros E. unfold courseData. cbv zeta.
  destruct (xexec_mustSet pattern_14 line m 0 eq_refl E) as [g1 ->].
  destruct (xexec_mustSet pattern_14 line m 1 eq_refl E) as [g2 ->].
  record_done.
Qed.

Lemma record_15 (line : string) (m : match_result) :
  exec pattern_15 line = Some m ->
  exists c, courseData 14 line m = Ok c /\ soundEntry (CompletedCourse.code c) c.
Proof.
  intros E. unfold courseData. cbv zeta.
  destruct (exec_mustSet pattern_15 line m 0 eq_refl E) as [g1 ->].
  destruct (exec_mustSet pattern_15 line m 1 eq_refl E) as [g2 ->].
  destruct (group_reach pattern_15 line m 2 decimal
              (fun c => nonnegativeOrInfinite (parseFloat (Some c))) E eq_refl ltac:(only_group)
              (number_group [Chr (one_of "."); plus digit])) as (g3 & -> & H3).
  destruct (group_reach pattern_15 line m 3 decimal
              (fun c => nonnegativeOrInfinite (parseFloat (Some c))) E eq_refl ltac:(only_group)
              (number_group [Chr (one_of "."); plus digit])) as (g4 & -> & H4).
  destruct (group_reach pattern_15 line m 4 comma_decimal
              (fun c => nonnegativeOrInfinite (parseFloat (Some (replace_comma c)))) E eq_refl
              ltac:(only_group) (comma_group [Chr (one_of ","); plus digit])) as (g5 & -> & H5).
  record_done.
Qed.

Lemma record_16 (line : string) (m : match_result) :
  exec pattern_16 line = Some m ->
  exists c, courseData 15 line m = Ok c /\ soundEntry (CompletedCourse.code c) c.
Proof.
  intros E. unfold courseData. cbv zeta.
  destruct (exec_mustSet pattern_16 line m 0 eq_refl E) as [g1 ->].
  destruct (exec_mustSet pattern_16 line m 1 eq_refl E) as [g2 ->].
  destruct (group_reach pattern_16 line m 4 decimal
              (fun c => nonnegativeOrInfinite (parseFloat (Some c))) E eq_refl ltac:(only_group)
              (number_group [Chr (one_of "."); plus digit])) as (g5 & -> & H5).
  destruct (group_reach pattern_16 line m 2 decimal
              (fun c => nonnegativeOrInfinite (parseFloat (Some c))) E eq_refl ltac:(only_group)
              (number_group [Chr (one_of "."); plus digit])) as (g3 & -> & H3).
  destruct (group_reach pattern_16 line m 3 decimal
              (fun c => nonnegativeOrInfinite (parseFloat (Some c))) E eq_refl ltac:(only_group)
              (number_group [Chr (one_of "."); plus digit])) as (g4 & -> & H4).
  record_done.
Qed.

Lemma record_17 (line : string) (m : match_result) :
  exec pattern_17 line = Some m ->
  exists c, courseData 16 line m = Ok c /\ soundEntry (CompletedCourse.code c) c.
Proof.
  intros E. unfold courseData. cbv zeta.
  destruct (exec_mustSet pattern_17 line m 0 eq_refl E) as [g1 ->].
  destruct (exec_mustSet pattern_17 line m 1 eq_refl E) as [g2 ->].
  destruct (group_reach pattern_17 line m 2 decimal
              (fun c => nonnegativeOrInfinite (parseFloat (Some c))) E eq_refl ltac:(only_group)
              (number_group [Chr (one_of "."); plus digit])) as (g3 & -> & H3).
  destruct (group_reach pattern_17 line m 3 decimal
              (fun c => nonnegativeOrInfinite (parseFloat (Some c))) E eq_refl ltac:(only_group)
              (number_group [Chr (one_of "."); plus digit])) as (g4 & -> & H4).
  destruct (group_reach pattern_17 line m 4 comma_decimal
              (fun c => nonnegativeOrInfinite (parseFloat (Some (replace_comma c)))) E eq_refl
              ltac:(only_group) (comma_group [Chr (one_of ","); plus digit])) as (g5 & -> & H5).
  record_done.
Qed.

Lemma record_18 (line : string) (m : match_result) :
  exec pattern_18 line = Some m ->
  exists c, courseData 17 line m = Ok c /\ soundEntry (CompletedCourse.code c) c.
Proof.
  intros E. unfold courseData. cbv zeta.
  destruct (exec_mustSet pattern_18 line m 0 eq_refl E) as [g1 ->].
  destruct (exec_mustSet pattern_18 line m 1 eq_refl E) as [g2 ->].
  destruct (group_reach pattern_18 line m 4 decimal
              (fun c => nonnegativeOrInfinite (parseFloat (Some c))) E eq_refl ltac:(only_group)
              (number_group [Chr (one_of "."); plus digit])) as (g5 & -> & H5).
  destruct (group_reach pattern_18 line m 2 decimal
              (fun c => nonnegativeOrInfinite (parseFloat (Some c))) E eq_refl ltac:(only_group)
              (number_group [Chr (one_of "."); plus digit])) as (g3 & -> & H3).
  destruct (group_reach pattern_18 line m 3 decimal
              (fun c => nonnegativeOrInfinite (parseFloat (Some c))) E eq_refl ltac:(only_group)
              (number_group [Chr (one_of "."); plus digit])) as (g4 & -> & H4).
  record_done.
Qed.

(** The record of the first pattern that matches. *)
Lemma firstMatch_sound (line : string) (index : nat) (m : match_result) :
  firstMatch coursePatterns 0 line = Some (index, m) ->
  exists c, courseData index line m = Ok c /\ soundEntry (CompletedCourse.code c) c.
Proof.
  intros H. unfold coursePatterns in H. cbn [firstMatch] in H.
  rewrite !xexec_plain in H.
  destruct (exec pattern_1 line) as [m' |] eqn:E1;
    [injection H as <- <-; now apply record_1 |].
  destruct (exec pattern_2 line) as [m' |] eqn:E2;
    [injection H as <- <-; now apply record_2 |].
  destruct (exec pattern_3 line) as [m' |] eqn:E3;
    [injection H as <- <-; now apply record_3 |].
  destruct (exec pattern_4 line) as [m' |] eqn:E4;
    [injection H as <- <-; now apply record_4 |].
  destruct (exec pattern_5 line) as [m' |] eqn:E5;
    [injection H as <- <-; now apply record_5 |].
  destruct (xexec pattern_6 line) as [m' |] eqn:E6;
    [injection H as <- <-; now apply record_6 |].
  destruct (exec pattern_7 line) as [m' |] eqn:E7;
    [injection H as <- <-; now apply record_7 |].
  destruct (exec pattern_8 line) as [m' |] eqn:E8;
    [injection H as <- <-; now apply record_8 |].
  destruct (exec pattern_9 line) as [m' |] eqn:E9;
    [injection H as <- <-; now apply record_9 |].
  destruct (exec pattern_10 line) as [m' |] eqn:E10;
    [injection H as <- <-; now apply record_10 |].
  destruct (exec pattern_11 line) as [m' |] eqn:E11;
    [injection H as <- <-; now apply record_11 |].
  destruct (exec pattern_12 line) as [m' |] eqn:E12;
    [injection H as <- <-; now apply record_12 |].
  destruct (exec pattern_13 line) as [m' |] eqn:E13;
    [injection H as <- <-; now apply record_13 |].
  destruct (xexec pattern_14 line) as [m' |] eqn:E14;
    [injection H as <- <-; now apply record_14 |].
  destruct (exec pattern_15 line) as [m' |] eqn:E15;
    [injection H as <- <-; now apply record_15 |].
  destruct (exec pattern_16 line) as [m' |] eqn:E16;
    [injection H as <- <-; now apply record_16 |].
  destruct (exec pattern_17 line) as [m' |] eqn:E17;
    [injection H as <- <-; now apply record_17 |].
  destruct (exec pattern_18 line) as [m' |] eqn:E18;
    [injection H as <- <-; now apply record_18 |].
  discriminate H.
Qed.

Lemma set_Forall {V} (P : string * V -> Prop) (m : JsMap.t V) (k : string) (v : V) :
  Forall P m -> P (k, v) -> Forall P (JsMap.set m k v).
Proof.
  intros Hm Hkv. induction Hm as [| [k' v'] m Hx Hm IH]; cbn [JsMap.set].
  - constructor; [exact Hkv | constructor].
  - destruct (String.eqb k' k); constructor; assumption.
Qed.

Lemma set_size {V} (m : JsMap.t V) (k : string) (v : V) :
  List.length (JsMap.set m k v) <= S (List.length m).
Proof.
  induction m as [| [k' v'] m IH]; cbn [JsMap.set List.length]; [lia |].
  destruct (String.eqb k' k); cbn [List.length]; lia.
Qed.

(** The loop over the course patterns does not throw and keeps the map
    sound. *)
Lemma readCourse_sound (line : string) (completedCourses : JsMap.t CompletedCourse.t) :
  Forall (fun kc => soundEntry (fst kc) (snd kc)) completedCourses ->
  distinctKeys completedCourses ->
  exists completed',
    readCourse line completedCourses = Ok completed'
    /\ Forall (fun kc => soundEntry (fst kc) (snd kc)) completed'
    /\ distinctKeys completed'
    /\ List.length completed' <= S (List.length completedCourses).
Proof.
  intros Hsound Hkeys. unfold readCourse.
  destruct (firstMatch coursePatterns 0 line) as [[index m] |] eqn:E.
  - destruct (firstMatch_sound line index m E) as (c & -> & Hc). cbn [bind].
    eexists. split; [reflexivity |]. split; [| split].
    + now apply set_Forall.
    + now apply JsMapFacts.set_distinctKeys.
    + apply set_size.
  - exists completedCourses. repeat split; try assumption. lia.
Qed.

(** The loop over the student patterns does not throw. *)
Lemma readStudentInfo_ok (line : string) (info0 : StudentInfo) :
  exists info', readStudentInfo studentPatterns line info0 = Ok info'.
Proof.
  unfold studentPatterns. cbn [readStudentInfo].
  destruct (exec student_no line) as [m1 |] eqn:E1;
    [destruct (exec_mustSet student_no line m1 0 eq_refl E1) as [v1 ->]; cbn [defined bind] |];
    (destruct (exec student_name line) as [m2 |] eqn:E2;
     [destruct (exec_mustSet student_name line m2 0 eq_refl E2) as [v2 ->];
      cbn [defined bind] |]);
    (destruct (exec department_program line) as [m3 |] eqn:E3;
     [destruct (exec_mustSet department_program line m3 0 eq_refl E3) as [v3 ->];
      cbn [defined bind] |]);
    (destruct (exec student_program line) as [m4 |] eqn:E4;
     [destruct (exec_mustSet student_program line m4 0 eq_refl E4) as [v4 ->];
      cbn [defined bind] |]);
    eexists; reflexivity.
Qed.

Lemma forM_step_sound (lines : list string) :
  forall st,
    Forall (fun kc => soundEntry (fst kc) (snd kc)) (completed st) ->
    distinctKeys (completed st) ->
    exists st',
      forM step lines st = Ok st'
      /\ Forall (fun kc => soundEntry (fst kc) (snd kc)) (completed st')
      /\ distinctKeys (completed st')
      /\ List.length (completed st') <= List.length (completed st) + List.length lines.
Proof.
  induction lines as [| line lines IH]; intros st Hsound Hkeys.
  - exists st. cbn. repeat split; try assumption. lia.
  - cbn [forM]. unfold step at 1.
    destruct (readStudentInfo_ok line (info st)) as [info' ->]. cbn [bind].
    destruct (readCourse_sound line (completed st) Hsound Hkeys)
      as (completed' & -> & Hs & Hk & Hlen). cbn [bind].
    destruct (IH {| completed := completed'; info := info' |} Hs Hk)
      as (st' & -> & Hs' & Hk' & Hlen').
    exists st'. cbn [completed List.length] in *. repeat split; try assumption. lia.
Qed.


(** **** Branches that no line reaches *)

Lemma reach_seq_app (l1 l2 : list regex) :
  forall pos inp n,
    reach (seq (l1 ++ l2)) pos inp n
    <-> exists n1 n2, n = n1 + n2 /\ reach (seq l1) pos inp n1
                      /\ reach (seq l2) (pos + n1) (skipn n1 inp) n2.
Proof.
  induction l1 as [| r l1 IH]; intros pos inp n.
  - cbn [List.app seq reach]. split.
    + intros H. exists 0, n. rewrite Nat.add_0_r. now repeat split.
    + intros (n1 & n2 & -> & -> & H). now rewrite Nat.add_0_r in H.
  - change ((r :: l1) ++ l2)%list with (r :: (l1 ++ l2))%list.
    rewrite (reach_seq_cons r (l1 ++ l2)). split.
    + intros (n1 & m & -> & H1 & H). apply IH in H.
      destruct H as (n2 & n3 & -> & H2 & H3).
      exists (n1 + n2), n3. split; [lia |]. split.
      * apply reach_seq_cons. now exists n1, n2.
      * rewrite skipn_skipn in H3. rewrite (Nat.add_comm n1 n2), Nat.add_assoc.
        now rewrite <- (Nat.add_assoc pos n1 n2), (Nat.add_comm n1 n2), Nat.add_assoc in H3.
    + intros (m & n3 & -> & H & H3). apply reach_seq_cons in H.
      destruct H as (n1 & n2 & -> & H1 & H2).
      exists n1, (n2 + n3). split; [lia |]. split; [exact H1 |].
      apply IH. exists n2, n3. split; [reflexivity |]. split; [exact H2 |].
      rewrite skipn_skipn. rewrite (Nat.add_comm n1 n2), Nat.add_assoc in H3.
      now rewrite <- (Nat.add_assoc pos n1 n2), (Nat.add_comm n1 n2), Nat.add_assoc.
Qed.

(** A sequence matches where a longer one does. *)
Lemma reach_seq_prefix (l1 l2 : list regex) (pos : nat) (inp : chars) (n : nat) :
  reach (seq (l1 ++ l2)) pos inp n -> exists n', reach (seq l1) pos inp n'.
Proof.
  intros H. apply reach_seq_app in H. destruct H as (n1 & _ & _ & H & _). now exists n1.
Qed.

(** The first group of a sequence replaced by one that matches as
    much. *)
Lemma reach_seq_head (a b : regex) (rest : list regex) (pos : nat) (inp : chars) (n : nat) :
  (forall pos inp n, reach a pos inp n -> reach b pos inp n) ->
  reach (seq (Group 1 a :: rest)) pos inp n -> reach (seq (Group 1 b :: rest)) pos inp n.
Proof.
  intros Hab H. apply reach_seq_cons in H. destruct H as (n1 & n2 & -> & H1 & H2).
  apply reach_seq_cons. exists n1, n2. split; [reflexivity |]. split; [| exact H2].
  cbn [reach] in *. now apply Hab.
Qed.

(** A code with its letter is a code with an optional letter. *)
Lemma code_letter_opt (pos : nat) (inp : chars) (n : nat) :
  reach code_letter pos inp n -> reach code_opt pos inp n.
Proof.
  unfold code_letter, code_opt, opt. cbn [seq reach].
  intros (n1 & n' & -> & H1 & (n2 & n3 & -> & H2 & (-> & c & rest & Hskip & Hc))).
  exists n1, (n2 + 1). split; [reflexivity |]. split; [exact H1 |].
  exists n2, 1. split; [reflexivity |]. split; [exact H2 |].
  rewrite Hskip. cbn. rewrite Hc. repeat split; lia.
Qed.

(** A code with an optional letter has the letter or has it not. *)
Lemma code_opt_cases (pos : nat) (inp : chars) (n : nat) :
  reach code_opt pos inp n ->
  reach code_letter pos inp n \/ reach (course_code false) pos inp n.
Proof.
  unfold code_letter, code_opt, course_code, opt. cbn [seq reach within].
  intros (n1 & n' & -> & H1 & (n2 & n3 & -> & H2 & (_ & Hmax & Hlen & Hall))).
  destruct n3 as [| [| n3]]; [right | left | lia].
  - exists n1, n2. rewrite Nat.add_0_r. split; [reflexivity |]. split; assumption.
  - exists n1, (n2 + 1). split; [reflexivity |]. split; [exact H1 |].
    exists n2, 1. split; [reflexivity |]. split; [exact H2 |]. split; [reflexivity |].
    destruct (skipn n2 (skipn n1 inp)) as [| c rest]; [cbn in Hlen; lia |].
    exists c, rest. split; [reflexivity |]. cbn in Hall. now rewrite andb_true_r in Hall.
Qed.

Lemma exec_reach (r : regex) (s : string) :
  exec r s <> None
  <-> exists j n, j <= String.length s
                  /\ reach r j (skipn j (list_ascii_of_string s)) n.
Proof.
  assert (Hlen : String.length s = List.length (list_ascii_of_string s)).
  { induction s as [| c s IH]; cbn; [reflexivity | now rewrite IH]. }
  unfold exec. split.
  - destruct (search_from r 0 (list_ascii_of_string s)) as [m |] eqn:E; [| contradiction].
    intros _. apply search_from_sound in E. destruct E as (j & n & Hj & _ & _ & Hr & _).
    exists j, n. rewrite Hlen. now split.
  - intros (j & n & Hj & Hr). rewrite Hlen in Hj.
    now apply (search_from_complete r _ 0 j n).
Qed.

Lemma xexec_reach (x : xregex) (s : string) :
  xexec x s <> None
  <-> exists j n, j <= String.length s
                  /\ xreach x j (skipn j (list_ascii_of_string s)) n.
Proof.
  assert (Hlen : String.length s = List.length (list_ascii_of_string s)).
  { induction s as [| c s IH]; cbn; [reflexivity | now rewrite IH]. }
  unfold xexec. split.
  - destruct (xsearch_from x 0 (list_ascii_of_string s)) as [m |] eqn:E; [| contradiction].
    intros _. apply xsearch_from_sound in E. destruct E as (j & n & Hj & _ & _ & Hr & _).
    exists j, n. rewrite Hlen. now split.
  - intros (j & n & Hj & Hr). rewrite Hlen in Hj.
    now apply (xsearch_from_complete x _ 0 j n).
Qed.

(** Pattern 7 matches only where pattern 4 does. *)
Lemma pattern_7_covered (line : string) :
  exec pattern_4 line = None -> exec pattern_7 line = None.
Proof.
  intros H4. destruct (exec pattern_7 line) as [m |] eqn:E; [exfalso | reflexivity].
  assert (H7 : exec pattern_7 line <> None) by (rewrite E; discriminate).
  apply exec_reach in H7. destruct H7 as (j & n & Hj & Hr).
  assert (H : exec pattern_4 line <> None); [| contradiction].
  apply exec_reach. exists j, n. split; [exact Hj |].
  revert Hr. unfold pattern_7, pattern_4. apply reach_seq_head. exact code_letter_opt.
Qed.

(** Pattern 10 matches only where pattern 3 or pattern 8 does. *)
Lemma pattern_10_covered (line : string) :
  exec pattern_3 line = None -> exec pattern_8 line = None -> exec pattern_10 line = None.
Proof.
  intros H3 H8. destruct (exec pattern_10 line) as [m |] eqn:E; [exfalso | reflexivity].
  assert (H10 : exec pattern_10 line <> None) by (rewrite E; discriminate).
  apply exec_reach in H10. destruct H10 as (j & n & Hj & Hr).
  unfold pattern_10 in Hr. apply reach_seq_cons in Hr.
  destruct Hr as (n1 & n2 & -> & H1 & H2). cbn [reach] in H1.
  destruct (code_opt_cases _ _ _ H1) as [Hletter | Hplain].
  - assert (H : exec pattern_8 line <> None); [| contradiction].
    change [plus space; Group 2 (plus_lazy dot); plus space; Group 3 grade_token;
            plus space; Group 4 (plus digit)]
      with ([plus space; Group 2 (plus_lazy dot); plus space; Group 3 grade_token]
            ++ [plus space; Group 4 (plus digit)])%list in H2.
    apply reach_seq_prefix in H2. destruct H2 as [n' H2].
    apply exec_reach. exists j, (n1 + n'). split; [exact Hj |].
    unfold pattern_8. apply reach_seq_cons. exists n1, n'. now repeat split.
  - assert (H : exec pattern_3 line <> None); [| contradiction].
    apply exec_reach. exists j, (n1 + n2). split; [exact Hj |].
    unfold pattern_3. apply reach_seq_cons. exists n1, n2. now repeat split.
Qed.

Lemma plain_is_dot (c : ascii) :
  is_digit c || one_of "." c || grade_letter c || one_of "+-" c = true -> dot c = true.
Proof.
  destruct c as [b0 b1 b2 b3 b4 b5 b6 b7].
  destruct b0, b1, b2, b3, b4, b5, b6, b7; vm_compute; intros H;
    try discriminate H; reflexivity.
Qed.

Lemma forallb_dot (cs : charset) (l : chars) :
  (forall c, cs c = true -> dot c = true) -> forallb cs l = true -> forallb dot l = true.
Proof.
  intros Hcs H. apply forallb_forall. intros c Hc. rewrite forallb_forall in H.
  now apply Hcs, H.
Qed.

(** A number and a signed grade are one-line texts: [(.+?)] matches
    them. *)
Lemma number_one_line (pos : nat) (inp : chars) (n : nat) :
  reach number pos inp n -> reach (plus_lazy dot) pos inp n.
Proof.
  intros H. pose proof (reach_length _ _ _ _ H) as Hlen. revert H.
  unfold number, opt, star, plus, plus_lazy. cbn [seq reach within].
  intros (n1 & n' & -> & (Hmin & _ & _ & H1) & (n2 & n3 & -> & (_ & _ & _ & H2)
                                                 & (_ & _ & _ & H3))).
  repeat split; [lia | exact Hlen |].
  rewrite !firstn_add, !forallb_app.
  rewrite (forallb_dot digit _ (fun c H => plain_is_dot c ltac:(unfold digit in H; now rewrite H)) H1).
  rewrite (forallb_dot (one_of ".") _
             (fun c H => plain_is_dot c ltac:(rewrite H; now rewrite orb_true_r)) H2).
  now rewrite (forallb_dot digit _
                 (fun c H => plain_is_dot c ltac:(unfold digit in H; now rewrite H)) H3).
Qed.

Lemma signed_grade_one_line (pos : nat) (inp : chars) (n : nat) :
  reach signed_grade pos inp n -> reach (plus_lazy dot) pos inp n.
Proof.
  intros H. pose proof (reach_length _ _ _ _ H) as Hlen. revert H.
  unfold signed_grade, opt, plus_lazy. cbn [seq reach within].
  intros (n1 & n2 & -> & (-> & c & rest & -> & Hc) & (_ & _ & _ & H2)).
  repeat split; [lia | exact Hlen |].
  cbn [Nat.add firstn forallb skipn] in *.
  rewrite (plain_is_dot c) by (rewrite Hc; now rewrite !orb_true_r).
  now rewrite (forallb_dot (one_of "+-") _
                 (fun c H => plain_is_dot c ltac:(rewrite H; now rewrite !orb_true_r)) H2).
Qed.

(** What begins with [\d+] begins with a digit. *)
Lemma digit_first (rest : list regex) (pos : nat) (inp : chars) (n : nat) :
  reach (seq (plus digit :: rest)) pos inp n -> reach (Chr digit) pos inp 1.
Proof.
  intros H. apply reach_seq_cons in H.
  destruct H as (n1 & n2 & -> & (Hmin & _ & Hlen & Hall) & _).
  destruct inp as [| c inp]; [cbn in Hlen; lia |].
  destruct n1 as [| n1]; [lia |]. cbn [firstn forallb] in Hall.
  apply andb_true_iff in Hall. cbn [reach]. split; [reflexivity |].
  exists c, inp. now split.
Qed.

(** A code, white space, a one-line text and then white space and a
    digit: pattern 6 matches there. *)
Lemma pattern_6_covers (t d : regex) (rest : list regex) (pos : nat) (inp : chars) (n : nat) :
  (forall pos inp n, reach t pos inp n -> reach (plus_lazy dot) pos inp n) ->
  (forall pos inp n, reach d pos inp n -> reach (Chr digit) pos inp 1) ->
  reach (seq (Group 1 code_opt :: plus space :: Group 2 t :: plus space :: Group 3 d :: rest))
        pos inp n ->
  exists n', xreach pattern_6 pos inp n'.
Proof.
  intros Ht Hd H.
  apply reach_seq_cons in H. destruct H as (n1 & m1 & _ & H1 & H).
  apply reach_seq_cons in H. destruct H as (n2 & m2 & _ & H2 & H).
  apply reach_seq_cons in H. destruct H as (n3 & m3 & _ & H3 & H).
  apply reach_seq_cons in H. destruct H as (n4 & m4 & _ & H4 & H).
  apply reach_seq_cons in H. destruct H as (n5 & m5 & _ & H5 & _).
  cbn [reach] in H1, H3, H5. apply Ht in H3. apply Hd in H5.
  exists (n1 + (n2 + n3) + 0). unfold pattern_6, before_number_or_end.
  cbn [xreach]. exists (n1 + (n2 + n3)), 0. split; [reflexivity |]. split.
  - cbn [seq reach]. exists n1, (n2 + n3). split; [reflexivity |]. split; [exact H1 |].
    exists n2, n3. split; [reflexivity |]. split; [exact H2 | exact H3].
  - split; [reflexivity |]. exists (n4 + 1). cbn [alt seq]. left.
    change (reach (Seq (plus space) (Chr digit)) (pos + (n1 + (n2 + n3)))
                  (skipn (n1 + (n2 + n3)) inp) (n4 + 1)).
    cbn [reach]. exists n4, 1. split; [reflexivity |].
    rewrite !skipn_skipn in *.
    replace (pos + (n1 + (n2 + n3))) with (pos + n1 + n2 + n3) by lia.
    replace (n1 + (n2 + n3)) with (n3 + n2 + n1) by lia.
    split; [exact H4 |].
    replace (n4 + (n3 + n2 + n1)) with (n4 + n3 + n2 + n1) by lia. exact H5.
Qed.

Lemma covered_by_pattern_6 (t d : regex) (rest : list regex) (line : string) :
  (forall pos inp n, reach t pos inp n -> reach (plus_lazy dot) pos inp n) ->
  (forall pos inp n, reach d pos inp n -> reach (Chr digit) pos inp 1) ->
  xexec pattern_6 line = None ->
  exec (seq (Group 1 code_opt :: plus space :: Group 2 t :: plus space :: Group 3 d :: rest))
       line = None.
Proof.
  intros Ht Hd H6.
  destruct (exec _ line) as [m |] eqn:E; [exfalso | reflexivity].
  assert (Hp : exec (seq (Group 1 code_opt :: plus space :: Group 2 t :: plus space
                            :: Group 3 d :: rest)) line <> None)
    by (rewrite E; discriminate).
  apply exec_reach in Hp. destruct Hp as (j & n & Hj & Hr).
  destruct (pattern_6_covers t d rest _ _ _ Ht Hd Hr) as [n' H].
  assert (H' : xexec pattern_6 line <> None); [| contradiction].
  apply xexec_reach. now exists j, n'.
Qed.

(** Pattern 14 matches only where pattern 6 does. *)
Lemma pattern_14_covered (line : string) :
  xexec pattern_6 line = None -> xexec pattern_14 line = None.
Proof.
  intros H6. destruct (xexec pattern_14 line) as [m |] eqn:E; [exfalso | reflexivity].
  assert (H14 : xexec pattern_14 line <> None) by (rewrite E; discriminate).
  apply xexec_reach in H14. destruct H14 as (j & n & Hj & Hr).
  assert (H : xexec pattern_6 line <> None); [| contradiction].
  apply xexec_reach. exists j, n. split; [exact Hj |].
  revert Hr. unfold pattern_14, pattern_6, plus. cbn [xreach seq reach].
  intros (a & b & -> & (n1 & n' & -> & H1 & (n2 & n3 & -> & (Hmin & Hrest) & H3)) & Hahead).
  exists (n1 + (n2 + n3)), b. split; [reflexivity |]. split; [| exact Hahead].
  exists n1, (n2 + n3). split; [reflexivity |]. split; [exact H1 |].
  exists n2, n3. split; [reflexivity |]. split; [| exact H3].
  split; [lia | exact Hrest].
Qed.

Ltac live :=
  split; [cbn; tauto |];
  let Hin := fresh "Hin" in
  intros Hin; cbn in Hin;
  repeat (destruct Hin as [Hin | Hin]; [discriminate Hin |]); exact Hin.

Lemma firstMatch_live (line : string) (index : nat) (m : match_result) :
  firstMatch coursePatterns 0 line = Some (index, m) ->
  In index liveBranches /\ ~ In index deadBranches.
Proof.
  intros H. unfold coursePatterns in H. cbn [firstMatch] in H.
  rewrite !xexec_plain in H.
  destruct (exec pattern_1 line) as [m' |] eqn:E1; [injection H as <- _; live |].
  destruct (exec pattern_2 line) as [m' |] eqn:E2; [injection H as <- _; live |].
  destruct (exec pattern_3 line) as [m' |] eqn:E3; [injection H as <- _; live |].
  destruct (exec pattern_4 line) as [m' |] eqn:E4; [injection H as <- _; live |].
  destruct (exec pattern_5 line) as [m' |] eqn:E5; [injection H as <- _; live |].
  destruct (xexec pattern_6 line) as [m' |] eqn:E6; [injection H as <- _; live |].
  destruct (exec pattern_7 line) as [m' |] eqn:E7;
    [exfalso; rewrite (pattern_7_covered line E4) in E7; discriminate E7 |].
  destruct (exec pattern_8 line) as [m' |] eqn:E8; [injection H as <- _; live |].
  destruct (exec pattern_9 line) as [m' |] eqn:E9; [injection H as <- _; live |].
  destruct (exec pattern_10 line) as [m' |] eqn:E10;
    [exfalso; rewrite (pattern_10_covered line E3 E8) in E10; discriminate E10 |].
  destruct (exec pattern_11 line) as [m' |] eqn:E11;
    [exfalso; pose proof (covered_by_pattern_6 number number [plus space; Group 4 number] line
                    number_one_line (digit_first [opt (one_of "."); star digit]) E6) as Hc;
     unfold pattern_11 in E11; rewrite Hc in E11; discriminate E11 |].
  destruct (exec pattern_12 line) as [m' |] eqn:E12; [injection H as <- _; live |].
  destruct (exec pattern_13 line) as [m' |] eqn:E13; [injection H as <- _; live |].
  destruct (xexec pattern_14 line) as [m' |] eqn:E14;
    [exfalso; rewrite (pattern_14_covered line E6) in E14; discriminate E14 |].
  destruct (exec pattern_15 line) as [m' |] eqn:E15;
    [exfalso; pose proof (covered_by_pattern_6 signed_grade decimal
                    [plus space; Group 4 decimal; plus space; Group 5 comma_decimal] line
                    signed_grade_one_line (digit_first [Chr (one_of "."); plus digit]) E6)
       as Hc;
     unfold pattern_15 in E15; rewrite Hc in E15; discriminate E15 |].
  destruct (exec pattern_16 line) as [m' |] eqn:E16;
    [exfalso; pose proof (covered_by_pattern_6 signed_grade decimal
                    [plus space; Group 4 decimal; plus space; Group 5 decimal] line
                    signed_grade_one_line (digit_first [Chr (one_of "."); plus digit]) E6)
       as Hc;
     unfold pattern_16 in E16; rewrite Hc in E16; discriminate E16 |].
  destruct (exec pattern_17 line) as [m' |] eqn:E17; [injection H as <- _; live |].
  destruct (exec pattern_18 line) as [m' |] eqn:E18; [injection H as <- _; live |].
  discriminate H.
Qed.

(** X19: the branches that a line can reach are those of the patterns
    1 to 6, 8, 9, 12, 13, 17 and 18, and each of them is reached by
    some line.  The branches of the patterns 7, 10, 11, 14, 15 and 16
    are reached by no line: wherever one of these patterns matches, a
    pattern before it in the array matches too (pattern 4 for 7,
    pattern 3 or 8 for 10, pattern 6 for the others). *)
Theorem reachable_branches :
  (forall line index m,
      firstMatch coursePatterns 0 line = Some (index, m) ->
      In index liveBranches /\ ~ In index deadBranches)
  /\ (forall index,
         In index liveBranches ->
         exists line m, firstMatch coursePatterns 0 line = Some (index, m)).
Proof.
  split; [exact firstMatch_live |].
  intros index Hin. unfold liveBranches in Hin. cbn [In] in Hin.
  destruct Hin as [<- | Hin]; [exists "CS101 Intro 6.00 A 3.00 12.00"; vm_compute; eexists; reflexivity |].
  destruct Hin as [<- | Hin]; [exists "CS101 Intro A 3 6"; vm_compute; eexists; reflexivity |].
  destruct Hin as [<- | Hin]; [exists "CS101 Intro A 3"; vm_compute; eexists; reflexivity |].
  destruct Hin as [<- | Hin]; [exists "ENGP030S 0.00 0.00 0,00"; vm_compute; eexists; reflexivity |].
  destruct Hin as [<- | Hin]; [exists "CS101X Intro A 3.00"; vm_compute; eexists; reflexivity |].
  destruct Hin as [<- | Hin]; [exists "CS101 Intro"; vm_compute; eexists; reflexivity |].
  destruct Hin as [<- | Hin]; [exists ("PHYS121F Intro A" ++ CR)%string; vm_compute; eexists; reflexivity |].
  destruct Hin as [<- | Hin]; [exists ("PHYS121F A" ++ CR)%string; vm_compute; eexists; reflexivity |].
  destruct Hin as [<- | Hin]; [exists "CS101|Intro|A|3"; vm_compute; eexists; reflexivity |].
  destruct Hin as [<- | Hin]; [exists ("CS101 3" ++ CR)%string; vm_compute; eexists; reflexivity |].
  destruct Hin as [<- | Hin]; [exists "ENGL121C+ 4.00 3.00 6,90"; vm_compute; eexists; reflexivity |].
  destruct Hin as [<- | Hin]; [exists "ENGR101B- 2.00 2.00 5.40"; vm_compute; eexists; reflexivity |].
  contradiction.
Qed.

(** **** The student patterns *)

(** [Department ... Program] matches only where [Program] does. *)
Lemma department_program_covered (line : string) :
  exec student_program line = None -> exec department_program line = None.
Proof.
  intros H4. destruct (exec department_program line) as [m |] eqn:E; [exfalso | reflexivity].
  assert (H3 : exec department_program line <> None) by (rewrite E; discriminate).
  apply exec_reach in H3. destruct H3 as (j & n & Hj & Hr).
  assert (H : exec student_program line <> None); [| contradiction].
  unfold department_program in Hr.
  apply reach_seq_cons in Hr. destruct Hr as (n1 & m1 & _ & H1 & Hr).
  apply reach_seq_cons in Hr. destruct Hr as (n2 & m2 & _ & H2 & Hr).
  apply reach_length in H1, H2. rewrite !length_skipn in H2. rewrite length_skipn in H1.
  assert (Hlen : String.length line = List.length (list_ascii_of_string line)).
  { clear. induction line as [| c s IH]; cbn; [reflexivity | now rewrite IH]. }
  apply exec_reach. exists (j + n1 + n2), m2. split; [lia |].
  rewrite !skipn_skipn in Hr. replace (j + n1 + n2) with (n2 + n1 + j) at 2 by lia.
  exact Hr.
Qed.

(** X20: the pattern [Department ... Program] changes nothing: whenever
    it matches, the pattern [Program], which comes after it and assigns
    the same key, matches too and overwrites what it assigned. *)
Theorem department_pattern_redundant (line : string) (info0 : StudentInfo) :
  readStudentInfo studentPatterns line info0
  = readStudentInfo studentPatternsShort line info0.
Proof.
  unfold studentPatterns, studentPatternsShort. cbn [readStudentInfo].
  assert (Htail : forall i,
             match exec department_program line with
             | Some m =>
                 value <- defined (group line m 1) ;;
                 match exec student_program line with
                 | Some m0 =>
                     value0 <- defined (group line m0 1) ;;
                     Ok (assign (assign i programKey (trim value)) programKey (trim value0))
                 | None => Ok (assign i programKey (trim value))
                 end
             | None =>
                 match exec student_program line with
                 | Some m0 =>
                     value0 <- defined (group line m0 1) ;;
                     Ok (assign i programKey (trim value0))
                 | None => Ok i
                 end
             end
             = match exec student_program line with
               | Some m0 =>
                   value0 <- defined (group line m0 1) ;; Ok (assign i programKey (trim value0))
               | None => Ok i
               end).
  { intros i. destruct (exec department_program line) as [m3 |] eqn:E3; [| reflexivity].
    destruct (exec_mustSet department_program line m3 0 eq_refl E3) as [v3 ->].
    cbn [defined bind].
    destruct (exec student_program line) as [m4 |] eqn:E4.
    - destruct (group line m4 1); reflexivity.
    - rewrite (department_program_covered line E4) in E3. discriminate E3. }
  destruct (exec student_no line) as [m1 |];
    [destruct (defined (group line m1 1)); cbn [bind]; [| reflexivity] |];
    (destruct (exec student_name line) as [m2 |];
     [destruct (defined (group line m2 1)); cbn [bind]; [| reflexivity] |]);
    apply Htail.
Qed.

(** **** The map of completed courses *)

Lemma readCourse_recordOf (line : string) (completedCourses : JsMap.t CompletedCourse.t) :
  readCourse line completedCourses
  = Ok match recordOf line with
       | Some c => JsMap.set completedCourses (CompletedCourse.code c) c
       | None => completedCourses
       end.
Proof.
  unfold readCourse, recordOf.
  destruct (firstMatch coursePatterns 0 line) as [[index m] |] eqn:E; [| reflexivity].
  destruct (firstMatch_sound line index m E) as (c & -> & _). reflexivity.
Qed.

(** The loop over the lines stores the records of the lines, one after
    the other. *)
Lemma forM_step_records (lines : list string) :
  forall st,
    exists st',
      forM step lines st = Ok st'
      /\ completed st'
         = fold_left (fun m c => JsMap.set m (CompletedCourse.code c) c)
                     (records lines) (completed st).
Proof.
  induction lines as [| line lines IH]; intros st.
  - exists st. split; reflexivity.
  - cbn [forM]. unfold step at 1.
    destruct (readStudentInfo_ok line (info st)) as [info' ->]. cbn [bind].
    rewrite readCourse_recordOf. cbn [bind].
    match goal with
    | |- exists st', forM step lines ?s = _ /\ _ => destruct (IH s) as (st' & -> & Hst')
    end.
    exists st'. split; [reflexivity |]. rewrite Hst'. cbn [completed].
    unfold records. cbn [flat_map]. rewrite fold_left_app.
    destruct (recordOf line); reflexivity.
Qed.

Lemma fold_records_pairs (l : list CompletedCourse.t) :
  forall m,
    fold_left (fun m c => JsMap.set m (CompletedCourse.code c) c) l m
    = fold_left (fun m p => JsMap.set m (fst p) (snd p))
                (map (fun c => (CompletedCourse.code c, c)) l) m.
Proof.
  induction l as [| c l IH]; intros m; [reflexivity |]. cbn [fold_left map fst snd].
  apply IH.
Qed.

(** The keys after a run of [set]: those before it, then the new keys
    in the order of their first [set]. *)
Lemma fold_set_keys {V} (pairs : list (string * V)) :
  forall m : JsMap.t V,
    map fst (fold_left (fun m p => JsMap.set m (fst p) (snd p)) pairs m)
    = (map fst m
       ++ filter (fun y => negb (mem y (map fst m))) (firstSeen (map fst pairs)))%list.
Proof.
  induction pairs as [| [k v] pairs IH]; intros m.
  - cbn. now rewrite app_nil_r.
  - cbn [fold_left map firstSeen filter fst snd]. rewrite IH.
    rewrite JsMapFacts.keys_set, ReportMoreFacts.has_mem.
    destruct (mem k (map fst m)) eqn:Hm; cbn [negb].
    + now rewrite ReportMoreFacts.filter_filter_mem.
    + now rewrite <- app_assoc, ReportMoreFacts.filter_new_key.
Qed.

Lemma find_code (k : string) (l : list CompletedCourse.t) :
  find (fun p => String.eqb (fst p) k) (map (fun c => (CompletedCourse.code c, c)) l)
  = option_map (fun c => (CompletedCourse.code c, c))
               (find (fun c => String.eqb (CompletedCourse.code c) k) l).
Proof.
  induction l as [| c l IH]; [reflexivity |]. cbn [map find fst].
  destruct (String.eqb (CompletedCourse.code c) k); [reflexivity | exact IH].
Qed.

(** X21: when several lines give a record with the same code, the map
    keeps the record of the last of these lines, at the place of the
    first: the keys are the codes of the records in the order of their
    first line, and the entry of a code is the last record with that
    code. *)
Theorem parseTranscript_last_line_wins (content : string) :
  exists st,
    parseTranscript content = Ok st
    /\ map fst (JsMap.entries (completed st))
       = firstSeen (map CompletedCourse.code (records (split "010" content)))
    /\ forall k,
         JsMap.get (completed st) k = lastRecord k (records (split "010" content)).
Proof.
  unfold parseTranscript.
  destruct (forM_step_records (split "010" content) initial) as (st & -> & Hst).
  exists st. split; [reflexivity |]. rewrite Hst, fold_records_pairs. cbn [initial completed].
  split.
  - unfold JsMap.entries. rewrite fold_set_keys, map_map. cbn [map List.app fst].
    unfold JsMap.empty. cbn [map List.app].
    change (fun x : CompletedCourse.t => CompletedCourse.code x) with CompletedCourse.code.
    generalize (firstSeen (map CompletedCourse.code (records (split "010" content)))).
    intros l. induction l as [| y l IH]; [reflexivity |].
    cbn [filter mem existsb negb] in *. now rewrite IH.
  - intros k. rewrite JsMapFacts.fold_set_get, <- map_rev, find_code. unfold lastRecord.
    destruct (find _ (rev (records (split "010" content)))); reflexivity.
Qed.

(** X18: the estimate of the current semester for a transcript that
    [parseTranscript] read is an integer, at least 1, or [+Infinity]:
    it is never [NaN]. *)
Theorem parsed_transcript_estimate (content : string) (st : state) (this : Advisor) :
  parseTranscript content = Ok st ->
  completedCourses this = completed st ->
  positiveOrInfinite (Engine.getCurrentSemester this).
Proof.
  intros Hparse Hthis. unfold parseTranscript in Hparse.
  destruct (forM_step_sound (split "010" content) initial (Forall_nil _) (NoDup_nil _))
    as (st' & Hst' & Hs & _). rewrite Hparse in Hst'. injection Hst' as <-.
  apply EstimateFacts.getCurrentSemester_positive.
  intros k c Hin _. rewrite Hthis in Hin. rewrite Forall_forall in Hs.
  exact (se_credits (Hs (k, c) Hin)).
Qed.

Lemma parsed_transcript_estimate_witness :
  positiveOrInfinite
    (Engine.getCurrentSemester (holding "CS101 Intro to Programming 6.00 A 3.00 12.00")).
Proof.
  apply (parsed_transcript_estimate
           "CS101 Intro to Programming 6.00 A 3.00 12.00"
           match parseTranscript "CS101 Intro to Programming 6.00 A 3.00 12.00" with
           | Ok st => st
           | Throw _ => initial
           end).
  - vm_compute. reflexivity.
  - vm_compute. reflexivity.
Defined.

(** The infinite case is met: credits of 310 digits are stored as
    [Infinity], and the estimate is then [Infinity]. *)
Lemma overlong_credits_estimate :
  (exists c, JsMap.get (completedCourses (holding overlongCreditsLine)) "CS101" = Some c
             /\ CompletedCourse.passed c = true
             /\ CompletedCourse.credits c = Inf false)
  /\ Engine.getCurrentSemester (holding overlongCreditsLine) = Inf false.
Proof.
  split; [eexists; split; [vm_compute; reflexivity | split; reflexivity] |].
  vm_compute. reflexivity.
Qed.

End TranscriptFacts.

(** *** The two workflows *)

Module WorkflowFacts.
Import Engine Persistence Workflow SpecMore.

(** The three parsers return on every text, with a curriculum that has
    its lists of prerequisites and a map with distinct keys. *)
Lemma parsedFrom_ok (curriculumText transcriptText availableText : string) :
  exists parsedCurriculum parsedTranscript parsedAvailable,
    Extractor.parseCurriculum curriculumText = Ok parsedCurriculum
    /\ Transcript.parseTranscript transcriptText = Ok parsedTranscript
    /\ Available.parseAvailableCourses availableText = Ok parsedAvailable
    /\ (forall c, In c parsedCurriculum -> CurriculumCourse.prerequisites c <> None)
    /\ distinctKeys (Transcript.completed parsedTranscript).
Proof.
  destruct (CurriculumFacts.parseCurriculum_records_aux curriculumText) as (l & Hl & Hwf).
  destruct (TranscriptFacts.forM_step_sound (JsStr.split "010" transcriptText)
              Transcript.initial (Forall_nil _) (NoDup_nil _)) as (st & Hst & _ & Hkeys & _).
  destruct (AvailableFacts.forM_step_ok (JsStr.split "010" availableText) [] (Forall_nil _))
    as (a & Ha & _).
  exists l, st, a. repeat split; try assumption.
  intros c Hc. rewrite Forall_forall in Hwf.
  destruct (CurriculumSpec.wf_prerequisites (Hwf c Hc)) as (ps & -> & _). discriminate.
Qed.

(** X22: when the three documents can be read, neither workflow fails,
    and they agree: [processDocuments] answers with the report and the
    recommendations of the advisor that holds the three parsed
    documents; [parseAndSaveDocuments] leaves that advisor and writes
    its data; and [loadAndRecommend] on the written file, by any
    instance, answers with the same report and recommendations. *)
Theorem workflows_agree (curriculumText transcriptText availableText : string)
        (this other : Advisor) (file : option ParsedData) :
  exists parsed recommendations,
    parsedFrom curriculumText transcriptText availableText = Some parsed
    /\ getRecommendedCourses parsed = Ok recommendations
    /\ processDocuments (Ok curriculumText) (Ok transcriptText) (Ok availableText) this
       = (parsed, Success (generateProgressReport parsed) recommendations
                          "Documents processed successfully")
    /\ parseAndSaveDocuments (Ok curriculumText) (Ok transcriptText) (Ok availableText)
                             None file this
       = (parsed, Some (getParsedDataAsJSON parsed),
          Saved (getParsedDataAsJSON parsed)
                "Documents parsed and saved to JSON successfully")
    /\ loadAndRecommend other (Some (getParsedDataAsJSON parsed))
       = Success (generateProgressReport parsed) recommendations
                 "Recommendations generated successfully from JSON data".
Proof.
  destruct (parsedFrom_ok curriculumText transcriptText availableText)
    as (l & st & a & Hl & Hst & Ha & Hpre & Hkeys).
  set (parsed := {| curriculum := l;
                    completedCourses := Transcript.completed st;
                    availableCourses := a;
                    studentInfo := Transcript.info st |}).
  destruct (RecommendationFacts.getRecommendedCourses_ok parsed Hpre) as [r Hr].
  exists parsed, r. split; [| split; [exact Hr | split; [| split]]].
  - unfold parsedFrom. now rewrite Hl, Hst, Ha.
  - unfold processDocuments, Workflow.parseCurriculum, Workflow.parseTranscript,
      Workflow.parseAvailableCourses, andThen, lift.
    rewrite Hl, Hst, Ha.
    cbn [curriculum completedCourses availableCourses studentInfo].
    fold parsed. now rewrite Hr.
  - unfold parseAndSaveDocuments, Workflow.parseCurriculum, Workflow.parseTranscript,
      Workflow.parseAvailableCourses, andThen, lift, saveParsedData.
    rewrite Hl, Hst, Ha.
    cbn [curriculum completedCourses availableCourses studentInfo]. reflexivity.
  - unfold loadAndRecommend, loadParsedData, getParsedDataAsJSON.
    cbn [pd_curriculum pd_completedCourses pd_availableCourses pd_studentInfo or_default].
    rewrite (JsMapFacts.of_entries_entries _ (completedCourses parsed) Hkeys). cbn [negb].
    change {| curriculum := curriculum parsed;
              completedCourses := completedCourses parsed;
              availableCourses := availableCourses parsed;
              studentInfo := studentInfo parsed |} with parsed.
    now rewrite Hr.
Qed.

(** X23: a document that cannot be read makes [processDocuments] answer
    with its exception, and what was parsed before it stays in the
    instance: the new curriculum when the transcript fails, the new
    curriculum, completed courses and student information when the
    available courses fail. *)
Theorem processDocuments_partial (curriculumText transcriptText : string)
        (transcriptDoc availableDoc : document) (error : exn) (this : Advisor) :
  processDocuments (Throw error) transcriptDoc availableDoc this = (this, Failure error)
  /\ (exists parsedCurriculum,
         Extractor.parseCurriculum curriculumText = Ok parsedCurriculum
         /\ processDocuments (Ok curriculumText) (Throw error) availableDoc this
            = ({| curriculum := parsedCurriculum;
                  completedCourses := completedCourses this;
                  availableCourses := availableCourses this;
                  studentInfo := studentInfo this |}, Failure error))
  /\ (exists parsedCurriculum parsedTranscript,
         Extractor.parseCurriculum curriculumText = Ok parsedCurriculum
         /\ Transcript.parseTranscript transcriptText = Ok parsedTranscript
         /\ processDocuments (Ok curriculumText) (Ok transcriptText) (Throw error) this
            = ({| curriculum := parsedCurriculum;
                  completedCourses := Transcript.completed parsedTranscript;
                  availableCourses := availableCourses this;
                  studentInfo := Transcript.info parsedTranscript |}, Failure error)).
Proof.
  destruct (parsedFrom_ok curriculumText transcriptText ""%string)
    as (l & st & a & Hl & Hst & _).
  split; [reflexivity |]. split.
  - exists l. split; [exact Hl |].
    unfold processDocuments, Workflow.parseCurriculum, Workflow.parseTranscript, andThen, lift.
    now rewrite Hl.
  - exists l, st. split; [exact Hl |]. split; [exact Hst |].
    unfold processDocuments, Workflow.parseCurriculum, Workflow.parseTranscript,
      Workflow.parseAvailableCourses, andThen, lift.
    now rewrite Hl, Hst.
Qed.

End WorkflowFacts.

(** *** Across the extractors and the engine *)

Module CrossFacts.
Import JsStr JsNum Regex Patterns Engine Spec SpecMore AvailableSpec.

(** X24: a curriculum text in which no line holds a semester marker
    gives no course at all, whatever course lines it has. *)
Theorem no_marker_no_course (content : string) :
  (forall line, In line (split "010" content) ->
                Forall (fun p => exec p (trim line) = None) semesterPatterns) ->
  Extractor.parseCurriculum content = Ok [].
Proof.
  intros H. unfold Extractor.parseCurriculum.
  assert (Hloop : forall lines,
             (forall line, In line lines ->
                           Forall (fun p => exec p (trim line) = None) semesterPatterns) ->
             forM Extractor.step lines Extractor.initial = Ok Extractor.initial).
  { induction lines as [| line lines IH]; intros Hl; [reflexivity |].
    cbn [forM]. unfold Extractor.step at 1. cbn zeta.
    cbn [Extractor.initial Extractor.currentSemester Extractor.emitted].
    rewrite (ClassifierFacts.detectSemester_no_match _ _ None (Hl line (or_introl eq_refl))).
    unfold Extractor.coursePatterns. cbn [Extractor.extractCourse].
    assert (Hnone : Extractor.extractCourse
                      [(course_full, Extractor.build_full);
                       (course_reduced, Extractor.build_reduced);
                       (course_minimal, Extractor.build_minimal)] (trim line) None = Ok None).
    { cbn [Extractor.extractCourse].
      destruct (exec course_full (trim line)), (exec course_reduced (trim line)),
        (exec course_minimal (trim line)); reflexivity. }
    cbn [Extractor.extractCourse] in Hnone. rewrite Hnone. cbn [bind].
    apply IH. intros l Hin. apply Hl. now right. }
  rewrite (Hloop _ H). reflexivity.
Qed.

Lemma no_marker_no_course_witness :
  Extractor.parseCurriculum "CS101 Programming AC 3 1 2 6 - 6" = Ok [].
Proof.
  apply no_marker_no_course.
  intros line Hin. cbn in Hin. destruct Hin as [<- | []].
  repeat constructor.
Defined.

(** X25: a line of the format that pattern 7 is written for, a code
    ending in a letter and three numbers (["PHYS121F 4.00 0.00 0,00"]),
    is never read by the branch of pattern 7, which would take the
    letter as the grade: unless one of the first three patterns
    matches, the branch of pattern 4 reads it and stores the course as
    passed, with grade ["P"] and no title, whatever the letter is. *)
Theorem letter_grade_line_assumed_passed (line : string) :
  exec Transcript.pattern_1 line = None ->
  exec Transcript.pattern_2 line = None ->
  exec Transcript.pattern_3 line = None ->
  exec Transcript.pattern_7 line <> None ->
  exists m c,
    Transcript.firstMatch Transcript.coursePatterns 0 line = Some (3, m)
    /\ TranscriptSpec.recordOf line = Some c
    /\ CompletedCourse.grade c = "P"%string
    /\ CompletedCourse.passed c = true
    /\ CompletedCourse.title c = ""%string.
Proof.
  intros E1 E2 E3 H7.
  destruct (exec Transcript.pattern_4 line) as [m |] eqn:E4;
    [| rewrite (TranscriptFacts.pattern_7_covered line E4) in H7; contradiction].
  assert (Hfirst : Transcript.firstMatch Transcript.coursePatterns 0 line = Some (3, m)).
  { unfold Transcript.coursePatterns. cbn [Transcript.firstMatch].
    now rewrite !LookaheadFacts.xexec_plain, E1, E2, E3, E4. }
  destruct (RegexFacts.exec_mustSet Transcript.pattern_4 line m 0 eq_refl E4) as [g1 Hg1].
  destruct (RegexFacts.exec_mustSet Transcript.pattern_4 line m 3 eq_refl E4) as [g4 Hg4].
  exists m. eexists. split; [exact Hfirst |].
  unfold TranscriptSpec.recordOf. rewrite Hfirst.
  unfold Transcript.courseData, Transcript.assumed_passed, Transcript.comma_credits.
  cbv zeta. rewrite Hg1, Hg4. cbn [Transcript.defined bind].
  repeat split.
Qed.

Lemma letter_grade_line_assumed_passed_witness :
  exists m c,
    Transcript.firstMatch Transcript.coursePatterns 0 "PHYS121F 4.00 0.00 0,00" = Some (3, m)
    /\ TranscriptSpec.recordOf "PHYS121F 4.00 0.00 0,00" = Some c
    /\ CompletedCourse.grade c = "P"%string
    /\ CompletedCourse.passed c = true
    /\ CompletedCourse.title c = ""%string.
Proof.
  apply letter_grade_line_assumed_passed;
    [vm_compute; reflexivity | vm_compute; reflexivity | vm_compute; reflexivity
    | vm_compute; discriminate].
Defined.

(** X26: with available courses that [parseAvailableCourses] read, every
    course that [getRecommendedCourses] puts in one of its four lists
    has a code of capital letters and digits as that extractor takes
    them; a curriculum course whose code is written in small letters,
    which the curriculum patterns accept, is never recommended. *)
Theorem recommended_codes_are_course_codes (content : string) (this : Advisor)
        (r : Recommendations) (c : CurriculumCourse.t) (b : Bucket) :
  Available.parseAvailableCourses content = Ok (availableCourses this) ->
  getRecommendedCourses this = Ok r ->
  In c (inBucket r b) ->
  isCourseCode (CurriculumCourse.code c) = true.
Proof.
  intros Hparse Hr Hin.
  apply (RecommendationFacts.inBucket_In this r Hr) in Hin.
  destruct Hin as (_ & Hcand & _).
  unfold isCandidate in Hcand. apply andb_true_iff in Hcand. destruct Hcand as [Hcand _].
  apply andb_true_iff in Hcand. destruct Hcand as [_ Hoff].
  unfold isOffered in Hoff.
  destruct (in_dec string_dec (CurriculumCourse.code c)
                   (map AvailableCourse.code (availableCourses this))) as [Hmem | ];
    [| discriminate].
  apply in_map_iff in Hmem. destruct Hmem as (a & <- & Ha).
  unfold Available.parseAvailableCourses in Hparse.
  destruct (AvailableFacts.forM_step_ok (split "010" content) [] (Forall_nil _))
    as (l & Hl & _ & Hall).
  rewrite Hparse in Hl. injection Hl as <-.
  rewrite Forall_forall in Hall. now apply Hall.
Qed.

Lemma recommended_codes_are_course_codes_witness :
  isCourseCode (CurriculumCourse.code Scenario.hist300) = true.
Proof.
  destruct (RecommendationFacts.getRecommendedCourses_ok Scenario.student
              RecommendationFacts.student_prerequisitesPresent) as [r Hr].
  apply (recommended_codes_are_course_codes
           (listing (availableCourses Scenario.student)) Scenario.student r
           Scenario.hist300 Electives).
  - vm_compute. reflexivity.
  - exact Hr.
  - assert (E : Ok r = getRecommendedCourses Scenario.student) by (symmetry; exact Hr).
    vm_compute in E. injection E as ->. cbn. now left.
Defined.

End CrossFacts.
